(** * fas2ipa: the user reconciliation engine ([fas2ipa/users.py])

    A shallow embedding of the [Users] object manager and the properties
    its design document states about it: the username partitioner, the
    cross-realm conflict detector, the per-user upsert and the group
    membership reconciler. *)

From Stdlib Require Import NArith ZArith List String Ascii Bool Lia.
From stdpp Require Import base tactics option list.
Import ListNotations.

Set Default Proof Using "Type".
Local Open Scope N_scope.

(** ** Python strings

    A Python [str] is a sequence of Unicode code points; comparison is
    lexicographic on the code points. *)

Abbreviation char := N (only parsing).
Abbreviation str := (list N) (only parsing).

(** A source literal, whose characters are all ASCII. *)
Definition lit (s : string) : str :=
  List.map N_of_ascii (list_ascii_of_string s).

Fixpoint str_eqb (a b : str) : bool :=
  match a, b with
  | [], [] => true
  | x :: a', y :: b' => (x =? y) && str_eqb a' b'
  | _, _ => false
  end.

(** [a < b] on [str]. *)
Fixpoint str_ltb (a b : str) : bool :=
  match a, b with
  | _, [] => false
  | [], _ :: _ => true
  | x :: a', y :: b' => (x <? y) || ((x =? y) && str_ltb a' b')
  end.

(** [a >= b] on [str]. *)
Definition str_geb (a b : str) : bool := negb (str_ltb a b).

(** [s.startswith(p)]. *)
Fixpoint startswith (s p : str) {struct p} : bool :=
  match p, s with
  | [], _ => true
  | y :: p', x :: s' => (x =? y) && startswith s' p'
  | _ :: _, [] => false
  end.

(** [s.replace(old, new)] for a one-character [old]. *)
Definition replace_char (s : str) (old : char) (new : str) : str :=
  flat_map (fun c => if c =? old then new else [c]) s.

(** [sub in s] for strings. *)
Fixpoint contains (s sub : str) : bool :=
  startswith s sub ||
  match s with
  | [] => false
  | _ :: s' => contains s' sub
  end.

Definition star : char := 42.
Definition qmark : char := 63.
Definition lbracket : char := 91.
Definition rbracket : char := 93.
Definition bang : char := 33.
Definition hyphen : char := 45.

(** ** Python values, exceptions and results *)

(** The values a record decoded from JSON holds. *)
#[warnings="-register-all"]
Inductive pyval :=
| VNone
| VBool (b : bool)
| VInt (z : Z)
| VStr (s : str)
| VList (l : list pyval)
| VDict (d : list (str * pyval)).

(** The classes of [python_freeipa.exceptions] the code tells apart;
    [Unauthorized], [ValidationError] and [NotFound] are subclasses of
    [FreeIPAError]. *)
Inductive ipa_class := Unauthorized | ValidationError | NotFound | OtherFreeIPAError.

Inductive exn :=
| KeyError (key : str)
| ValueError
| AttributeError
| TypeError
| FreeIPAError (cls : ipa_class) (message : pyval)
| OtherException (text : str).

Inductive res (A : Type) :=
| Ok (a : A)
| Raise (e : exn).
Arguments Ok {A} a.
Arguments Raise {A} e.

#[global] Instance res_ret : MRet res := fun _ a => Ok a.
#[global] Instance res_bind : MBind res := fun _ _ f m =>
  match m with
  | Ok a => f a
  | Raise e => Raise e
  end.

(** ** [fnmatch.fnmatchcase]

    The matcher of the Python library, as its documentation gives it:
    [*] matches everything, [?] any single character, [[seq]] any
    character in seq and [[!seq]] any character not in seq; inside seq,
    [x-y] is the range from x to y.  A [[] that no []] closes stands for
    itself, and a []] directly after [[] or [[!] belongs to seq. *)

Inductive gtok :=
| GStar
| GAny
| GLit (c : char)
| GSet (negated : bool) (items : list (char * char)).

(** The items of a bracket expression: single characters and ranges. *)
Fixpoint set_items (stuff : str) : list (char * char) :=
  match stuff with
  | [] => []
  | lo :: rest =>
      match rest with
      | h :: hi :: rest' =>
          if h =? hyphen then (lo, hi) :: set_items rest'
          else (lo, lo) :: set_items rest
      | _ => (lo, lo) :: set_items rest
      end
  end.

(** Splits at the first []]: the text before it and the text after. *)
Fixpoint split_rbracket (s : str) : option (str * str) :=
  match s with
  | [] => None
  | c :: s' =>
      if c =? rbracket then Some ([], s')
      else match split_rbracket s' with
           | Some (stuff, rest) => Some (c :: stuff, rest)
           | None => None
           end
  end.

(** What follows a [[]: the bracket expression and the remaining
    pattern, or [None] when the bracket is not closed. *)
Definition bracket (s : str) : option (gtok * str) :=
  let '(neg, s1) :=
    match s with
    | c :: s' => if c =? bang then (true, s') else (false, s)
    | [] => (false, s)
    end in
  let '(first, s2) :=
    match s1 with
    | c :: s' => if c =? rbracket then ([rbracket], s') else ([], s1)
    | [] => ([], s1)
    end in
  match split_rbracket s2 with
  | Some (stuff, rest) => Some (GSet neg (set_items (first ++ stuff)), rest)
  | None => None
  end.

Fixpoint glob_tokens (fuel : nat) (pat : str) {struct fuel} : list gtok :=
  match pat with
  | [] => []
  | c :: pat' =>
      match fuel with
      | O => []
      | S fuel' =>
          if c =? star then GStar :: glob_tokens fuel' pat'
          else if c =? qmark then GAny :: glob_tokens fuel' pat'
          else if c =? lbracket then
            match bracket pat' with
            | Some (t, rest) => t :: glob_tokens fuel' rest
            | None => GLit c :: glob_tokens fuel' pat'
            end
          else GLit c :: glob_tokens fuel' pat'
      end
  end.

Definition in_items (c : char) (items : list (char * char)) : bool :=
  existsb (fun '(lo, hi) => (lo <=? c) && (c <=? hi)) items.

Fixpoint glob_match (toks : list gtok) (s : str) {struct toks} : bool :=
  match toks with
  | [] => match s with [] => true | _ :: _ => false end
  | GStar :: toks' =>
      (fix any_suffix (s : str) : bool :=
         glob_match toks' s ||
         match s with
         | [] => false
         | _ :: s' => any_suffix s'
         end) s
  | GAny :: toks' =>
      match s with
      | _ :: s' => glob_match toks' s'
      | [] => false
      end
  | GLit c :: toks' =>
      match s with
      | x :: s' => (x =? c) && glob_match toks' s'
      | [] => false
      end
  | GSet neg items :: toks' =>
      match s with
      | x :: s' => xorb neg (in_items x items) && glob_match toks' s'
      | [] => false
      end
  end.

Definition fnmatchcase (name pat : str) : bool :=
  glob_match (glob_tokens (List.length pat) pat) name.

(** ** The username partitioner *)

(** [string.ascii_lowercase], as the list of its one-letter strings. *)
Definition alphabet : list str :=
  List.map (fun i => [97 + N.of_nat i]) (seq 0 26).

(** [alphabet.index(c.lower())].  The code points whose lowercase form
    is one of the letters of [alphabet] are [a]-[z], [A]-[Z] and the
    Kelvin sign U+212A (which lowers to [k]); for any other character
    [index] raises [ValueError], here [None]. *)
Definition alphabet_index_lower (c : char) : option nat :=
  if (97 <=? c) && (c <=? 122) then Some (N.to_nat (c - 97))
  else if (65 <=? c) && (c <=? 90) then Some (N.to_nat (c - 65))
  else if c =? 8490 then Some 10%nat
  else None.

(** The replacement text of line 33, ["\u0010ffff"]: the escape [\u]
    takes four hexadecimal digits, so this is the control character
    U+0010 followed by the four letters [ffff]. *)
Definition wildcard_bound : str := 16 :: lit "ffff".

(** [if x:] for an optional string: [None] and [""] are false. *)
Definition nonempty {A} (o : option (list A)) : option (list A) :=
  match o with
  | Some (_ :: _) => o
  | _ => None
  end.

Definition _make_user_patterns
    (users_start_at : option str) (restrict_users : option (list str))
  : res (list str) :=
  match nonempty restrict_users with
  | Some restrict =>
      Ok (List.filter
            (fun pattern =>
               match nonempty users_start_at with
               | None => true
               | Some start =>
                   str_geb (replace_char pattern star wildcard_bound) start
               end)
            restrict)
  | None =>
      match nonempty users_start_at with
      | Some start =>
          match alphabet_index_lower (hd 0 start) with
          | Some start_index =>
              Ok (List.map (fun pattern => pattern ++ [star])
                    (start :: skipn (S start_index) alphabet))
          | None => Raise ValueError
          end
      | None => Ok (List.map (fun pattern => pattern ++ [star]) alphabet)
      end
  end.

(** The guard of [_push_users], line 126: the user is passed over when
    no pattern matches the username. *)
Definition matches_any (username : str) (user_patterns : list str) : bool :=
  existsb (fnmatchcase username) user_patterns.

(** ** Dictionaries and sets

    A Python [dict] keeps its keys in insertion order: it is an
    association list with distinct keys, and the operations keep the
    keys distinct.  A [set] of strings is a duplicate-free list. *)

Section Dict.
Context {K V : Type} `{EqDecision K}.

(** [d.get(k)]. *)
Fixpoint dict_get (d : list (K * V)) (k : K) : option V :=
  match d with
  | [] => None
  | (k', v) :: d' => if decide (k' = k) then Some v else dict_get d' k
  end.

(** [d[k] = v]: the value is replaced in place, a new key goes last. *)
Fixpoint dict_set (d : list (K * V)) (k : K) (v : V) : list (K * V) :=
  match d with
  | [] => [(k, v)]
  | (k', v') :: d' =>
      if decide (k' = k) then (k', v) :: d' else (k', v') :: dict_set d' k v
  end.

(** [del d[k]], for a key that is present. *)
Definition dict_del (d : list (K * V)) (k : K) : list (K * V) :=
  List.filter (fun kv => if decide (fst kv = k) then false else true) d.

(** [k in d]. *)
Definition dict_has (d : list (K * V)) (k : K) : bool :=
  match dict_get d k with Some _ => true | None => false end.
End Dict.

(** [d[k]] on a record. *)
Definition getitem (d : list (str * pyval)) (k : str) : res pyval :=
  match dict_get d k with
  | Some v => Ok v
  | None => Raise (KeyError k)
  end.

(** [x in s] for a set or list of strings. *)
Definition mem (x : str) (s : list str) : bool :=
  existsb (str_eqb x) s.

(** [s.add(x)]. *)
Definition set_add (s : list str) (x : str) : list str :=
  if mem x s then s else s ++ [x].

(** [s.remove(x)], for a member [x]. *)
Definition set_remove (s : list str) (x : str) : list str :=
  List.filter (fun y => negb (str_eqb x y)) s.

(** [sorted(l, key=key)] for string keys: a stable sort. *)
Fixpoint insert_by {A} (key : A -> str) (x : A) (l : list A) : list A :=
  match l with
  | [] => [x]
  | y :: l' =>
      if str_ltb (key y) (key x) then y :: insert_by key x l' else x :: l
  end.

Definition sorted_by {A} (key : A -> str) (l : list A) : list A :=
  fold_right (insert_by key) [] l.

(** A loop whose body may raise. *)
Fixpoint for_each {A S} (l : list A) (body : S -> A -> res S) (s : S) : res S :=
  match l with
  | [] => Ok s
  | a :: l' =>
      match body s a with
      | Ok s' => for_each l' body s'
      | Raise e => Raise e
      end
  end.

(** The fields [username] and [email] of a source record are strings;
    a missing key raises [KeyError], another kind of value [TypeError]. *)
Definition get_str (user_obj : list (str * pyval)) (k : str) : res str :=
  v ← getitem user_obj k;
  match v with
  | VStr s => Ok s
  | _ => Raise TypeError
  end.

(** ** Configuration *)

(** One entry of [config["fas"]]. *)
Record fas_conf := {
  email_domain : option str;             (* "email_domain", when present *)
  fas_groups_prefix : option str;        (* ["groups"].get("prefix") *)
  fas_groups_ignore : list str;          (* ["groups"].get("ignore", ()) *)
  agreement : list (str * list str)      (* name and signed_groups of each *)
}.

Record config := {
  users_skip_disabled : bool;
  users_skip_spam : bool;
  users_skip_conflicts : list str;
  skip_user_add : bool;
  skip_user_membership : bool;
  ipa_username : str;
  ipa_password : str;
  groups_prefix : str;
  fas : list (str * fas_conf);
  chunks_size : nat
}.

(** ** The source fetcher *)

(** Lines 75-78: the people whose username is not below the cursor. *)
Definition from_start (start : str) (people : list (list (str * pyval)))
  : res (list (list (str * pyval))) :=
  for_each people
    (fun kept u =>
       username ← get_str u (lit "username");
       Ok (if str_geb username start then kept ++ [u] else kept))
    [].

(** [pull_from_fas]; a source realm is given by its name and by what
    its search returns for a pattern, the unapproved people and the
    people.  The lines echoed are left out. *)
Definition pull_from_fas
    (fas_instances :
       list (str * (str -> res (list (list (str * pyval)) * list (list (str * pyval))))))
    (users_start_at : option str) (restrict_users : option (list str))
  : res (list (str * list (list (str * pyval)))) :=
  user_patterns ← _make_user_patterns users_start_at restrict_users;
  for_each fas_instances
    (fun fas_matched_users '(fas_name, send_request) =>
       matched_users ←
         for_each user_patterns
           (fun matched_users pattern =>
              result ← send_request pattern;
              let people := fst result ++ snd result in
              match nonempty users_start_at with
              | Some start =>
                  kept ← from_start start people;
                  Ok (matched_users ++ kept)
              | None => Ok (matched_users ++ people)
              end)
           [];
       Ok (dict_set fas_matched_users fas_name matched_users))
    [].

(** ** The conflict detector *)

Inductive conflict_kind :=
| circular_email
| email_pointing_to_other_fas
| email_address_conflicts.

#[global] Instance conflict_kind_eq_dec : EqDecision conflict_kind.
Proof. solve_decision. Defined.

(** The detail records appended to the lists of [user_conflicts]. *)
Inductive conflict_detail :=
| CircularEmail (fas_name : str) (email_address : str)
| EmailPointingToOtherFas
    (tgt_fas_name : str) (email_address : str) (src_fas_names : list str)
| EmailAddressConflict (email_address : str) (fas_names : list str).

(** [user_conflicts], a [defaultdict(list)]. *)
Abbreviation conflicts := (list (conflict_kind * list conflict_detail)).

(** [user_conflicts[kind]] without creating the key. *)
Definition details (uc : conflicts) (kind : conflict_kind) : list conflict_detail :=
  match dict_get uc kind with Some l => l | None => [] end.

(** [user_conflicts[kind].append(detail)]. *)
Definition record_conflict
    (uc : conflicts) (kind : conflict_kind) (detail : conflict_detail) : conflicts :=
  dict_set uc kind (details uc kind ++ [detail]).

(** [s.rsplit(sep, 1)] when it yields two parts. *)
Fixpoint rsplit1 (s : str) (sep : char) : option (str * str) :=
  match s with
  | [] => None
  | c :: s' =>
      match rsplit1 s' sep with
      | Some (a, b) => Some (c :: a, b)
      | None => if c =? sep then Some ([], s') else None
      end
  end.

Definition at_sign : char := 64.

(** Lines 528-533. *)
Definition fas_email_domains (cfg : config) : list (str * str) :=
  fold_left
    (fun acc '(fas_name, conf) =>
       match email_domain conf with
       | Some domain => dict_set acc fas_name domain
       | None => acc
       end)
    (fas cfg) [].

Definition email_domains_fas (cfg : config) : list (str * str) :=
  fold_left (fun acc '(k, v) => dict_set acc v k) (fas_email_domains cfg) [].

(** [{user_obj["username"]: user_obj for user_obj in user_objs}]. *)
Definition index_by_name (user_objs : list (list (str * pyval)))
  : res (list (str * list (str * pyval))) :=
  for_each user_objs
    (fun acc user_obj =>
       name ← get_str user_obj (lit "username");
       Ok (dict_set acc name user_obj))
    [].

(** [{uobj["username"] for uobj in other_user_objs}]. *)
Definition names_of (user_objs : list (list (str * pyval))) : res (list str) :=
  for_each user_objs
    (fun acc uobj =>
       name ← get_str uobj (lit "username");
       Ok (set_add acc name))
    [].

(** [usernames_to_check_for_fas[name] |= {fas_name, other_fas_name}]. *)
Definition mark_duplicate
    (to_check : list (str * list str)) (name fas_name other_fas_name : str)
  : list (str * list str) :=
  let old := match dict_get to_check name with Some s => s | None => [] end in
  dict_set to_check name (set_add (set_add old fas_name) other_fas_name).

(** Lines 541-554: the records by realm and name, and for each
    duplicated username the realms that hold it. *)
Definition find_duplicates (fas_users : list (str * list (list (str * pyval))))
  : res (list (str * list (str * list (str * pyval))) * list (str * list str)) :=
  for_each fas_users
    (fun '(fas_users_by_name, to_check) '(fas_name, user_objs) =>
       users_by_name ← index_by_name user_objs;
       let fas_users_by_name := dict_set fas_users_by_name fas_name users_by_name in
       to_check ←
         for_each fas_users
           (fun to_check '(other_fas_name, other_user_objs) =>
              if dict_has fas_users_by_name other_fas_name then Ok to_check
              else
                other_user_names ← names_of other_user_objs;
                let usernames_to_check :=
                  List.filter (fun name => mem name other_user_names)
                    (List.map fst users_by_name) in
                Ok (fold_left
                      (fun to_check name =>
                         mark_duplicate to_check name fas_name other_fas_name)
                      usernames_to_check to_check))
           to_check;
       Ok (fas_users_by_name, to_check))
    ([], []).

(** Lines 567-569: the realms of each email address of the username. *)
Definition group_by_email (fas_to_user_obj : list (str * list (str * pyval)))
  : res (list (str * list str)) :=
  for_each fas_to_user_obj
    (fun acc '(fas_name, user_obj) =>
       email ← get_str user_obj (lit "email");
       let old := match dict_get acc email with Some s => s | None => [] end in
       Ok (dict_set acc email (set_add old fas_name)))
    [].

(** Lines 572-592, the body of the loop over the email addresses: the
    conflicts and the realm set of the address afterwards. *)
Definition check_self_reference
    (domains_fas : list (str * str)) (username : str)
    (uc : conflicts) (email_address : str) (fas_names : list str)
  : res (conflicts * list str) :=
  match rsplit1 email_address at_sign with
  | None => Raise ValueError
  | Some (mailbox, domain) =>
      match nonempty (dict_get domains_fas domain) with
      | Some domain_fas_name =>
          if str_eqb mailbox username then
            let '(uc, fas_names) :=
              if mem domain_fas_name fas_names then
                (record_conflict uc circular_email
                   (CircularEmail domain_fas_name email_address),
                 set_remove fas_names domain_fas_name)
              else (uc, fas_names) in
            match fas_names with
            | _ :: _ =>
                Ok (record_conflict uc email_pointing_to_other_fas
                      (EmailPointingToOtherFas
                         domain_fas_name email_address fas_names),
                    [])
            | [] => Ok (uc, fas_names)
            end
          else Ok (uc, fas_names)
      | None => Ok (uc, fas_names)
      end
  end.

(** The loop of lines 571-592 over [email_addresses_to_fas.items()];
    the realm sets are updated in place. *)
Fixpoint check_self_references
    (domains_fas : list (str * str)) (username : str)
    (uc : conflicts) (emails : list (str * list str))
  : res (conflicts * list (str * list str)) :=
  match emails with
  | [] => Ok (uc, [])
  | (email_address, fas_names) :: emails' =>
      '(uc, fas_names) ←
        check_self_reference domains_fas username uc email_address fas_names;
      '(uc, emails') ← check_self_references domains_fas username uc emails';
      Ok (uc, (email_address, fas_names) :: emails')
  end.

(** Lines 594-607. *)
Definition check_address_conflicts
    (uc : conflicts) (emails : list (str * list str)) : conflicts :=
  if (1 <? List.length
             (List.filter
                (fun '(e, fas_names) =>
                   match fas_names with [] => false | _ :: _ => true end)
                emails))%nat
  then
    fold_left
      (fun uc '(email_address, fas_names) =>
         record_conflict uc email_address_conflicts
           (EmailAddressConflict email_address fas_names))
      emails uc
  else uc.

(** Lines 560-607: the conflicts of one duplicated username. *)
Definition check_user
    (domains_fas : list (str * str)) (username : str)
    (fas_to_user_obj : list (str * list (str * pyval)))
  : res conflicts :=
  emails ← group_by_email fas_to_user_obj;
  '(uc, emails) ← check_self_references domains_fas username [] emails;
  Ok (check_address_conflicts uc emails).

(** [fas_users_by_name[fas_name][username]] for each realm of the name. *)
Definition records_of
    (fas_users_by_name : list (str * list (str * list (str * pyval))))
    (username : str) (fas_names : list str)
  : res (list (str * list (str * pyval))) :=
  for_each fas_names
    (fun acc fas_name =>
       match dict_get fas_users_by_name fas_name with
       | None => Raise (KeyError fas_name)
       | Some users_by_name =>
           match dict_get users_by_name username with
           | None => Raise (KeyError username)
           | Some user_obj => Ok (dict_set acc fas_name user_obj)
           end
       end)
    [].

Definition find_user_conflicts
    (cfg : config) (fas_users : list (str * list (list (str * pyval))))
  : res (list (str * conflicts)) :=
  '(fas_users_by_name, to_check) ← find_duplicates fas_users;
  for_each (sorted_by fst to_check)
    (fun users_to_conflicts '(username, fas_names) =>
       fas_to_user_obj ← records_of fas_users_by_name username fas_names;
       user_conflicts ← check_user (email_domains_fas cfg) username fas_to_user_obj;
       match user_conflicts with
       | [] => Ok users_to_conflicts
       | _ :: _ => Ok (dict_set users_to_conflicts username user_conflicts)
       end)
    [].

(** ** More of Python's [str] and of its values *)

(** [c.isspace()]: the characters [strip] removes. *)
Definition is_space (c : char) : bool :=
  ((9 <=? c) && (c <=? 13)) || ((28 <=? c) && (c <=? 32))
  || (c =? 133) || (c =? 160) || (c =? 5760)
  || ((8192 <=? c) && (c <=? 8202))
  || (c =? 8232) || (c =? 8233) || (c =? 8239) || (c =? 8287) || (c =? 12288).

Fixpoint lstrip (s : str) : str :=
  match s with
  | c :: s' => if is_space c then lstrip s' else s
  | [] => []
  end.

(** [s.strip()]. *)
Definition strip (s : str) : str := rev (lstrip (rev (lstrip s))).

(** [s.split(sep)] for a one-character separator. *)
Fixpoint split (s : str) (sep : char) : list str :=
  match s with
  | [] => [[]]
  | c :: s' =>
      let parts := split s' sep in
      if c =? sep then [] :: parts
      else match parts with
           | part :: parts' => (c :: part) :: parts'
           | [] => [[c]]
           end
  end.

(** Truth value of a value: [if v:]. *)
Definition truthy (v : pyval) : bool :=
  match v with
  | VNone => false
  | VBool b => b
  | VInt z => negb (z =? 0)%Z
  | VStr s => match s with [] => false | _ :: _ => true end
  | VList l => match l with [] => false | _ :: _ => true end
  | VDict d => match d with [] => false | _ :: _ => true end
  end.

(** [v == s] for a string literal [s]. *)
Definition is_str (v : pyval) (s : str) : bool :=
  match v with
  | VStr s' => str_eqb s' s
  | _ => false
  end.

(** [a or b]. *)
Definition py_or (a b : pyval) : pyval := if truthy a then a else b.

Definition digit_char (d : N) : char := 48 + d.

Fixpoint uint_digits (u : Decimal.uint) : str :=
  match u with
  | Decimal.Nil => []
  | Decimal.D0 u' => digit_char 0 :: uint_digits u'
  | Decimal.D1 u' => digit_char 1 :: uint_digits u'
  | Decimal.D2 u' => digit_char 2 :: uint_digits u'
  | Decimal.D3 u' => digit_char 3 :: uint_digits u'
  | Decimal.D4 u' => digit_char 4 :: uint_digits u'
  | Decimal.D5 u' => digit_char 5 :: uint_digits u'
  | Decimal.D6 u' => digit_char 6 :: uint_digits u'
  | Decimal.D7 u' => digit_char 7 :: uint_digits u'
  | Decimal.D8 u' => digit_char 8 :: uint_digits u'
  | Decimal.D9 u' => digit_char 9 :: uint_digits u'
  end.

Definition int_str (z : Z) : str :=
  (if (z <? 0)%Z then [hyphen] else []) ++ uint_digits (N.to_uint (Z.abs_N z)).

(** [sep.join(parts)]. *)
Fixpoint join (sep : str) (parts : list str) : str :=
  match parts with
  | [] => []
  | [part] => part
  | part :: parts' => part ++ sep ++ join sep parts'
  end.

(** [repr(v)]; a string is put between single quotes, the escapes of
    quotes and control characters inside it are not written out. *)
Fixpoint py_repr (v : pyval) : str :=
  match v with
  | VNone => lit "None"
  | VBool true => lit "True"
  | VBool false => lit "False"
  | VInt z => int_str z
  | VStr s => lit "'" ++ s ++ lit "'"
  | VList l =>
      lit "[" ++ join (lit ", ") (List.map py_repr l) ++ lit "]"
  | VDict d =>
      lit "{"
      ++ join (lit ", ")
           (List.map
              (fun kv => lit "'" ++ fst kv ++ lit "': " ++ py_repr (snd kv)) d)
      ++ lit "}"
  end.

(** [str(v)], the text an f-string puts for [{v}]. *)
Definition py_str (v : pyval) : str :=
  match v with
  | VStr s => s
  | _ => py_repr v
  end.

(** ** [CREATION_TIME_RE.sub(r"\1Z", creation)]

    The expression is [([0-9 :-]+).[0-9]+\+00:00]: a longest run of
    digits, spaces, colons and hyphens, shortened from the right until
    the rest fits; one character other than a newline; a run of digits;
    the text [+00:00].  Each match, found from left to right, is
    replaced by its first group and [Z]. *)

Definition is_digit (c : char) : bool := (48 <=? c) && (c <=? 57).

Definition is_stamp_char (c : char) : bool :=
  is_digit c || (c =? 32) || (c =? 58) || (c =? hyphen).

Fixpoint run_length (p : char -> bool) (s : str) : nat :=
  match s with
  | c :: s' => if p c then S (run_length p s') else O
  | [] => O
  end.

(** The length of what matches [.[0-9]+\+00:00] at the head of [s]. *)
Definition stamp_tail (s : str) : option nat :=
  match s with
  | c :: s' =>
      if c =? 10 then None
      else
        let d := run_length is_digit s' in
        if (0 <? d)%nat && startswith (skipn d s') (lit "+00:00")
        then Some (1 + d + 6)%nat
        else None
  | [] => None
  end.

(** The match at the head of [s] with a first group of at most [k]
    characters: the length of the group and of the whole match. *)
Fixpoint stamp_match (k : nat) (s : str) : option (nat * nat) :=
  match k with
  | O => None
  | S k' =>
      match stamp_tail (skipn k s) with
      | Some n => Some (k, (k + n)%nat)
      | None => stamp_match k' s
      end
  end.

(** [skip] characters of [s] still belong to the last match. *)
Fixpoint creation_time_sub_from (skip : nat) (s : str) : str :=
  match s with
  | [] => []
  | c :: s' =>
      match skip with
      | S skip' => creation_time_sub_from skip' s'
      | O =>
          match stamp_match (run_length is_stamp_char s) s with
          | Some (k, n) =>
              firstn k s ++ lit "Z" ++ creation_time_sub_from (n - 1) s'
          | None => c :: creation_time_sub_from O s'
          end
      end
  end.

Definition creation_time_sub (creation : str) : str :=
  creation_time_sub_from O creation.

(** ** The target directory, the output and the state of a run *)

(** Modelled from the spec: the outcomes of [fas2ipa.status.Status],
    which the design document lists as [MigrationStatus]; [REMOVED] is
    the one the membership reconciler prints besides. *)
Inductive Status := ADDED | UPDATED | UNMODIFIED | SKIPPED | FAILED | REMOVED.

#[global] Instance Status_eq_dec : EqDecision Status.
Proof. solve_decision. Defined.

(** The calls made to the target directory.  [group_add_member_manager]
    is the call [_request("group_add_member_manager", group, {"user":
    chunk})].

    Modelled from the spec: [self.user_show] is not defined in the
    sources at hand; the design document lists [show(username)], which
    returns the existing fields, among the operations of the target
    directory, and [user_show] is that call. *)
Inductive call :=
| user_add (username : pyval) (args : list (str * pyval))
| user_show (username : pyval)
| user_mod (username : pyval) (args : list (str * pyval))
| login (username password : str)
| group_add_member (group : str) (users : list str)
| group_add_member_manager (group : str) (users : list str)
| group_remove_member (group : str) (users : list str).

Inductive reply :=
| Returns (v : pyval)
| Raises (e : exn).

(** The texts printed; each constructor stands for one format string
    of the source and carries the values put into it. *)
Inductive message :=
| UnprocessedDetails
| RedactedDetail (key : str)
| CompactDetail (key : str) (value : pyval)
| ExceptionText (e : exn)
| SkippingUser (fas_name username : str) (user_skip_conflicts : list str)
| FailedToAddMember (member reason : pyval) (category group : str)
| FailedToAddChunk (chunk : list str) (category group : str) (e : exn)
| AddedTo (category group : str) (added : list str)
| FailedToRemoveMember (member reason : pyval) (group : str)
| FailedToRemoveChunk (chunk : list str) (group : str) (e : exn)
| RemovedFrom (group : str) (removed : list str)
| AddingToGroups (category : str)
| RemovingFromGroups
| NothingToDo
| FoundUsers (fas_name : str) (count : nat)
| PaddedUsername (text : str).

Inductive event :=
| Called (c : call) (r : reply)
| Print (m : message)
| PrintStatus (s : Status) (m : option message)
| CheckReauth (counter : nat)
| BarUpdate (counter : nat)
| RecordUserSignatures (agreements_to_usernames : list (str * list str)).

(** The state of a run: the dictionary objects by address, the replies
    the directory will give to the calls to come, and what was called
    and printed so far. *)
Record world := {
  heap : list (list (str * pyval));
  script : list reply;
  log : list event
}.

Inductive outcome (A : Type) :=
| Done (a : A)
| Raised (e : exn)
| OutOfFuel.
Arguments Done {A} a.
Arguments Raised {A} e.
Arguments OutOfFuel {A}.

Definition M (A : Type) : Type := world -> outcome A * world.

#[global] Instance M_ret : MRet M := fun _ a w => (Done a, w).
#[global] Instance M_bind : MBind M := fun _ _ f m w =>
  match m w with
  | (Done a, w') => f a w'
  | (Raised e, w') => (Raised e, w')
  | (OutOfFuel, w') => (OutOfFuel, w')
  end.

Definition raise {A} (e : exn) : M A := fun w => (Raised e, w).

(** [try: m except ...: handler]; the handler re-raises what it does
    not handle. *)
Definition catch {A} (m : M A) (handler : exn -> M A) : M A := fun w =>
  match m w with
  | (Raised e, w') => handler e w'
  | r => r
  end.

(** A computation without effect that may raise. *)
Definition lift {A} (r : res A) : M A :=
  match r with
  | Ok a => mret a
  | Raise e => raise e
  end.

Definition emit (e : event) : M unit := fun w =>
  (Done tt, {| heap := heap w; script := script w; log := log w ++ [e] |}).

(** A new dictionary object. *)
Definition alloc (d : list (str * pyval)) : M nat := fun w =>
  (Done (List.length (heap w)),
   {| heap := heap w ++ [d]; script := script w; log := log w |}).

(** The dictionary at an address; an address that holds none behaves
    as an object without the methods of [dict]. *)
Definition load (l : nat) : M (list (str * pyval)) := fun w =>
  match heap w !! l with
  | Some d => (Done d, w)
  | None => (Raised AttributeError, w)
  end.

Definition store (l : nat) (d : list (str * pyval)) : M unit := fun w =>
  (Done tt, {| heap := <[l := d]> (heap w); script := script w; log := log w |}).

(** [d.copy()]. *)
Definition dict_copy (l : nat) : M nat := d ← load l; alloc d.

(** [d.pop(k)]. *)
Definition dict_pop (l : nat) (k : str) : M pyval :=
  d ← load l;
  match dict_get d k with
  | Some v => _ ← store l (dict_del d k); mret v
  | None => raise (KeyError k)
  end.

(** What the directory answers when the script has run out: the call
    succeeds. *)
Definition default_reply (c : call) : reply :=
  match c with
  | group_add_member_manager _ _ =>
      Returns
        (VDict [(lit "failed",
                 VDict [(lit "membermanager", VDict [(lit "user", VList [])])])])
  | _ => Returns (VDict [])
  end.

(** A call to the directory: the next reply of the script. *)
Definition ipa (c : call) : M pyval := fun w =>
  let '(r, rest) :=
    match script w with
    | r :: rest => (r, rest)
    | [] => (default_reply c, [])
    end in
  let w' := {| heap := heap w; script := rest; log := log w ++ [Called c r] |} in
  match r with
  | Returns v => (Done v, w')
  | Raises e => (Raised e, w')
  end.

(** ** The user upsert: [migrate_user] *)

Fixpoint for_eachM {A} (l : list A) (body : A -> M unit) : M unit :=
  match l with
  | [] => mret tt
  | a :: l' => _ ← body a; for_eachM l' body
  end.

(** [d[k]] for a key the dictionary literal holds. *)
Definition item (d : list (str * pyval)) (k : str) : pyval :=
  match dict_get d k with Some v => v | None => VNone end.

(** [_compact_dict], on the keys of the dictionary. *)
Definition _compact_dict (keys : list str) : str :=
  if existsb (fun key => contains key (lit "id")) keys then
    lit "{" ++ [8230] ++ lit "}"
  else
    lit "{"
    ++ join (lit ", ")
         (List.map (fun k => lit "'" ++ k ++ lit "': " ++ [8230]) keys)
    ++ lit "}".

(** [_compact_value]; values decoded from JSON hold no tuple or set. *)
Fixpoint _compact_value (val : pyval) : pyval :=
  match val with
  | VDict d => VStr (_compact_dict (List.map fst d))
  | VList l => VList (List.map _compact_value l)
  | _ => val
  end.

Definition ignored_keys : list str :=
  List.map lit
    ["affiliation"; "alias_enabled"; "certificate_serial"; "comments";
     "country_code"; "facsimile"; "group_roles"; "id"; "internal_comments";
     "ipa_sync_status"; "last_seen"; "latitude"; "longitude"; "memberships";
     "old_password"; "password"; "password_changed"; "postal_address";
     "roles"; "security_answer"; "security_question"; "status_change";
     "telephone"; "unverified_email"]%string.

Definition ignored_key_substrings : list str := [lit "token"].

(** The condition of the comprehension of lines 275-281. *)
Definition kept_key (key : str) : bool :=
  negb (mem key ignored_keys
        || existsb (fun t => contains key t) ignored_key_substrings).

(** Lines 299-306, one line of output per leftover key. *)
Definition print_unprocessed (kv : str * pyval) : M unit :=
  let '(key, value) := kv in
  if mem key (List.map lit ["email"; "ssh_key"; "telephone"; "facsimile"]%string)
     || contains key (lit "password")
  then emit (Print (RedactedDetail key))
  else emit (Print (CompactDetail key (_compact_value value))).

Definition first_name_unset : str := lit "<first-name-unset>".
Definition last_name_unset : str := lit "<last-name-unset>".
Definition full_name_unset : str := lit "<first-name-unset> <last-name-unset>".

(** Lines 309-321: [name], [first_name] and [last_name]. *)
Definition derive_names (human_name : pyval) : res (str * str * str) :=
  if truthy human_name then
    match human_name with
    | VStr s =>
        let name := strip s in
        let name_split := split name 32 in
        if (2 <? List.length name_split)%nat
           || (List.length name_split =? 1)%nat
        then Ok (name, first_name_unset, name)
        else Ok (name, strip (nth 0 name_split []), strip (nth 1 name_split []))
    | _ => Raise AttributeError
    end
  else Ok (full_name_unset, first_name_unset, last_name_unset).

(** [v.strip() if v else None]. *)
Definition strip_or_none (v : pyval) : res pyval :=
  if truthy v then
    match v with
    | VStr s => Ok (VStr (strip s))
    | _ => Raise AttributeError
    end
  else Ok VNone.

(** [[k.strip() for k in ssh_key.split("\n") if k.strip()] if ssh_key
    else None]. *)
Definition ssh_keys (ssh_key : pyval) : res pyval :=
  if truthy ssh_key then
    match ssh_key with
    | VStr s =>
        Ok (VList
              (List.map VStr
                 (List.filter
                    (fun k => match k with [] => false | _ :: _ => true end)
                    (List.map strip (split s 10)))))
    | _ => Raise AttributeError
    end
  else Ok VNone.

(** [[gpg_keyid[:16].strip()] if gpg_keyid else None]. *)
Definition gpg_key_ids (gpg_keyid : pyval) : res pyval :=
  if truthy gpg_keyid then
    match gpg_keyid with
    | VStr s => Ok (VList [VStr (strip (firstn 16 s))])
    | VList _ => Raise AttributeError
    | _ => Raise TypeError
    end
  else Ok VNone.

(** Lines 323-340: the dictionary literal [user_args], its values
    computed in the order of the source. *)
Definition build_user_args
    (username : pyval) (name first_name last_name : str)
    (status email ircnick locale timezone gpg_keyid ssh_key creation privacy : pyval)
  : res (list (str * pyval)) :=
  ipasshpubkey ← ssh_keys ssh_key;
  fasircnick ← strip_or_none ircnick;
  faslocale ← strip_or_none locale;
  fastimezone ← strip_or_none timezone;
  fasgpgkeyid ← gpg_key_ids gpg_keyid;
  fasstatusnote ←
    match status with
    | VStr s => Ok (VStr (strip s))
    | _ => Raise AttributeError
    end;
  fascreationtime ←
    match creation with
    | VStr s => Ok (VStr (creation_time_sub s))
    | _ => Raise TypeError
    end;
  Ok [(lit "first_name", VStr first_name);
      (lit "last_name", VStr last_name);
      (lit "full_name", VStr name);
      (lit "gecos", VStr name);
      (lit "display_name", VStr name);
      (lit "home_directory", VStr (lit "/home/fedora/" ++ py_str username));
      (lit "disabled", VBool (negb (is_str status (lit "active"))));
      (lit "mail", email);
      (lit "ipasshpubkey", ipasshpubkey);
      (lit "fasircnick", fasircnick);
      (lit "faslocale", faslocale);
      (lit "fastimezone", fastimezone);
      (lit "fasgpgkeyid", fasgpgkeyid);
      (lit "fasstatusnote", fasstatusnote);
      (lit "fasisprivate", VBool (truthy privacy));
      (lit "fascreationtime", fascreationtime)].

(** Lines 342-346. *)
Definition make_user_add_args (user_args : list (str * pyval)) : list (str * pyval) :=
  let a := dict_set user_args (lit "random_pass") (VBool true) in
  let a := dict_set a (lit "faslocale")
             (py_or (item a (lit "faslocale")) (VStr (lit "en_US"))) in
  dict_set a (lit "fastimezone")
    (py_or (item a (lit "fastimezone")) (VStr (lit "UTC"))).

(** Lines 352-357. *)
Definition drop_placeholders (user_args : list (str * pyval)) : list (str * pyval) :=
  let a :=
    if is_str (item user_args (lit "first_name")) first_name_unset
    then dict_del user_args (lit "first_name") else user_args in
  let a :=
    if is_str (item a (lit "last_name")) last_name_unset
    then dict_del a (lit "last_name") else a in
  if is_str (item a (lit "full_name")) full_name_unset
  then dict_del a (lit "full_name") else a.

Definition is_none (v : pyval) : bool :=
  match v with VNone => true | _ => false end.

(** [ipa_user.get(k)]. *)
Definition py_get (v : pyval) (k : str) : res pyval :=
  match v with
  | VDict d => Ok (match dict_get d k with Some x => x | None => VNone end)
  | _ => Raise AttributeError
  end.

(** Lines 362-365. *)
Definition fill_defaults (user_args : list (str * pyval)) (ipa_user : pyval)
  : res (list (str * pyval)) :=
  a ←
    (if negb (truthy (item user_args (lit "faslocale"))) then
       v ← py_get ipa_user (lit "faslocale");
       Ok (dict_set user_args (lit "faslocale") (py_or v (VStr (lit "en_US"))))
     else Ok user_args);
  if negb (truthy (item a (lit "fastimezone"))) then
    v ← py_get ipa_user (lit "fastimezone");
    Ok (dict_set a (lit "fastimezone") (py_or v (VStr (lit "UTC"))))
  else Ok a.

(** Lines 367-371. *)
Definition drop_blank (user_args : list (str * pyval)) : list (str * pyval) :=
  List.filter
    (fun kv =>
       match snd kv with
       | VNone => false
       | VStr s => match strip s with [] => false | _ :: _ => true end
       | _ => true
       end)
    user_args.

Definition already_exists (username : pyval) : str :=
  lit "user with name " ++ [34] ++ py_str username ++ [34] ++ lit " already exists".

(** Lines 349-377, the handler of the inner [try]. *)
Definition on_add_error
    (username : pyval) (user_args : list (str * pyval)) (e : exn) : M Status :=
  match e with
  | FreeIPAError _ message =>
      if is_str message (already_exists username) then
        let user_args := drop_placeholders user_args in
        user_args ←
          (if is_none (item user_args (lit "faslocale"))
              || is_none (item user_args (lit "fastimezone"))
           then
             ipa_user ← ipa (user_show username);
             lift (fill_defaults user_args ipa_user)
           else mret user_args);
        let user_args := drop_blank user_args in
        _ ← ipa (user_mod username user_args);
        mret UPDATED
      else raise e
  | _ => raise e
  end.

(** Lines 379-391, the handlers of the outer [try]; [retry] is the
    call [self.migrate_user(person_orig)]. *)
Definition on_error (retry : M Status) (cfg : config) (e : exn) : M Status :=
  match e with
  | FreeIPAError Unauthorized _ =>
      _ ← ipa (login (ipa_username cfg) (ipa_password cfg));
      retry
  | FreeIPAError _ message =>
      if negb (is_str message (lit "no modifications to be performed")) then
        _ ← emit (Print (ExceptionText e));
        mret FAILED
      else mret UNMODIFIED
  | _ =>
      _ ← emit (Print (ExceptionText e));
      mret FAILED
  end.

(** The key/value pairs that are processed, lines 284-294. *)
Record processed := {
  p_username : pyval;
  p_human_name : pyval;
  p_status : pyval;
  p_email : pyval;
  p_ircnick : pyval;
  p_locale : pyval;
  p_timezone : pyval;
  p_gpg_keyid : pyval;
  p_ssh_key : pyval;
  p_creation : pyval;
  p_privacy : pyval
}.

Definition pop_processed (person : nat) : M processed :=
  username ← dict_pop person (lit "username");
  human_name ← dict_pop person (lit "human_name");
  status ← dict_pop person (lit "status");
  email ← dict_pop person (lit "email");
  ircnick ← dict_pop person (lit "ircnick");
  locale ← dict_pop person (lit "locale");
  timezone ← dict_pop person (lit "timezone");
  gpg_keyid ← dict_pop person (lit "gpg_keyid");
  ssh_key ← dict_pop person (lit "ssh_key");
  creation ← dict_pop person (lit "creation");
  privacy ← dict_pop person (lit "privacy");
  mret {| p_username := username; p_human_name := human_name;
          p_status := status; p_email := email; p_ircnick := ircnick;
          p_locale := locale; p_timezone := timezone;
          p_gpg_keyid := gpg_keyid; p_ssh_key := ssh_key;
          p_creation := creation; p_privacy := privacy |}.

(** Lines 322-391, the two nested [try] statements. *)
Definition upsert
    (retry : M Status) (cfg : config) (f : processed)
    (name first_name last_name : str) : M Status :=
  catch
    (user_args ←
       lift (build_user_args (p_username f) name first_name last_name
               (p_status f) (p_email f) (p_ircnick f) (p_locale f)
               (p_timezone f) (p_gpg_keyid f) (p_ssh_key f)
               (p_creation f) (p_privacy f));
     catch
       (_ ← ipa (user_add (p_username f) (make_user_add_args user_args));
        mret ADDED)
       (on_add_error (p_username f) user_args))
    (on_error retry cfg).

(** The body of [migrate_user]; [retry] stands for the recursive call
    of line 383. *)
Definition migrate_user_body
    (retry : M Status) (cfg : config) (person_orig : nat) : M Status :=
  person ← dict_copy person_orig;
  d ← load person;
  let status := match dict_get d (lit "status") with Some v => v | None => VNone end in
  if users_skip_disabled cfg && negb (is_str status (lit "active")) then
    mret SKIPPED
  else if users_skip_spam cfg && is_str status (lit "spamcheck_denied") then
    mret SKIPPED
  else if skip_user_add cfg then mret UNMODIFIED
  else
    person ← alloc (List.filter (fun kv => kept_key (fst kv)) d);
    f ← pop_processed person;
    unprocessed ← load person;
    match unprocessed with
    | _ :: _ =>
        _ ← emit (Print UnprocessedDetails);
        _ ← for_eachM (sorted_by fst unprocessed) print_unprocessed;
        mret FAILED
    | [] =>
        '(name, first_name, last_name) ← lift (derive_names (p_human_name f));
        upsert retry cfg f name first_name last_name
    end.

(** The recursion of line 383, bounded by [fuel]. *)
Fixpoint migrate_user_fuel (fuel : nat) (cfg : config) (person : nat) : M Status :=
  match fuel with
  | O => fun w => (OutOfFuel, w)
  | S fuel' => migrate_user_body (migrate_user_fuel fuel' cfg person) cfg person
  end.

(** Each retry follows a scripted reply, so the script bounds them. *)
Definition migrate_user (cfg : config) (person : nat) : M Status := fun w =>
  migrate_user_fuel (S (List.length (script w))) cfg person w.

(** ** The membership reconciler *)

(** [try: m except ...: handler else: orelse]. *)
Definition try_else {A B} (m : M A) (handler : exn -> M B) (orelse : A -> M B)
  : M B := fun w =>
  match m w with
  | (Done a, w') => orelse a w'
  | (Raised e, w') => handler e w'
  | (OutOfFuel, w') => (OutOfFuel, w')
  end.

(** [try: m finally: final]. *)
Definition finally {A} (m : M A) (final : M unit) : M A := fun w =>
  match m w with
  | (Done a, w') => (_ ← final; mret a) w'
  | (Raised e, w') => (_ ← final; raise e) w'
  | (OutOfFuel, w') => (OutOfFuel, w')
  end.

(** A loop that threads a value through its body. *)
Fixpoint foldM {A S} (l : list A) (body : S -> A -> M S) (s : S) : M S :=
  match l with
  | [] => mret s
  | a :: l' => s' ← body s a; foldM l' body s'
  end.

(** Modelled from the spec: [ObjectManager.chunks] is not part of the
    sources at hand; the design document has each list of users split
    into batches of a fixed size, a constant of the configuration.  A
    size of 0 is taken as no bound. *)
Fixpoint chunks_of {A} (fuel size : nat) (l : list A) : list (list A) :=
  match fuel, l with
  | S fuel', _ :: _ => firstn size l :: chunks_of fuel' size (skipn size l)
  | _, _ => []
  end.

Definition chunks {A} (cfg : config) (l : list A) : list (list A) :=
  match chunks_size cfg, l with
  | O, _ :: _ => [l]
  | size, _ => chunks_of (List.length l) size l
  end.

(** Modelled from the spec: [ObjectManager.check_reauth] is not part of
    the sources at hand and the design document does not describe it;
    the call is logged with its argument and has no other effect. *)
Definition check_reauth (counter : nat) : M unit := emit (CheckReauth counter).

(** [set(l)] for a list of strings. *)
Definition set_of (l : list str) : list str := fold_left set_add l [].

(** [v[k]] for a string key. *)
Definition py_index (v : pyval) (k : str) : res pyval :=
  match v with
  | VDict d => getitem d k
  | _ => Raise TypeError
  end.

(** [msg[i]] for a position. *)
Definition py_nth (v : pyval) (i : nat) : res pyval :=
  match v with
  | VList l =>
      match nth_error l i with
      | Some x => Ok x
      | None => Raise (OtherException (lit "IndexError"))
      end
  | _ => Raise TypeError
  end.

(** Lines 427-432 and 485-490: the per-member errors of a
    [ValidationError]; a missing key is passed over, the errors under a
    key are a list. *)
Definition member_errors (message : pyval) : res (list pyval) :=
  for_each [lit "member"; lit "membermanager"]
    (fun errors member_type =>
       match py_index message member_type with
       | Raise (KeyError _) => Ok errors
       | Raise e => Raise e
       | Ok by_type =>
           match py_index by_type (lit "user") with
           | Raise (KeyError _) => Ok errors
           | Raise e => Raise e
           | Ok (VList l) => Ok (errors ++ l)
           | Ok _ => Raise TypeError
           end
       end)
    [].

(** [changed.remove(member)]. *)
Definition set_remove_member (changed : list str) (member : pyval)
  : res (list str) :=
  match member with
  | VStr s => if mem s changed then Ok (set_remove changed s) else Raise (KeyError s)
  | VList _ | VDict _ => Raise TypeError
  | _ => Raise (KeyError (py_str member))
  end.

(** Lines 433-441 and 491-499: the loop over the errors; [idempotent]
    is the text that is no failure, [failure] the line printed
    otherwise. *)
Definition handle_member_errors
    (idempotent : str) (failure : pyval -> pyval -> message)
    (errors : list pyval) (changed : list str) : M (list str) :=
  foldM errors
    (fun changed msg =>
       reason ← lift (py_nth msg 1);
       if is_str reason idempotent then
         member ← lift (py_nth msg 0);
         lift (set_remove_member changed member)
       else
         member ← lift (py_nth msg 0);
         match reason with
         | VStr _ =>
             _ ← emit (PrintStatus FAILED (Some (failure member reason)));
             mret changed
         | _ => raise TypeError
         end)
    changed.

(** Lines 414-425: the call for one chunk. *)
Definition add_call (category group : str) (chunk : list str) : M unit :=
  if str_eqb category (lit "members") then
    _ ← ipa (group_add_member group chunk);
    mret tt
  else if str_eqb category (lit "sponsors") then
    result ← ipa (group_add_member_manager group chunk);
    failed ← lift (py_index result (lit "failed"));
    by_type ← lift (py_index failed (lit "membermanager"));
    users ← lift (py_index by_type (lit "user"));
    if truthy users then raise (FreeIPAError ValidationError failed)
    else mret tt
  else mret tt.

(** Lines 409-459: one chunk of one group. *)
Definition add_chunk
    (category group : str) (counter : nat) (chunk : list str) : M nat :=
  let counter := (counter + List.length chunk)%nat in
  _ ← check_reauth counter;
  let added := set_of chunk in
  _ ← finally
        (try_else (add_call category group chunk)
           (fun e =>
              match e with
              | FreeIPAError ValidationError message =>
                  errors ← lift (member_errors message);
                  _ ← handle_member_errors
                        (lit "This entry is already a member")
                        (fun member reason =>
                           FailedToAddMember member reason category group)
                        errors added;
                  mret tt
              | _ =>
                  emit (PrintStatus FAILED
                          (Some (FailedToAddChunk chunk category group e)))
              end)
           (fun _ =>
              match added with
              | _ :: _ =>
                  emit (PrintStatus ADDED
                          (Some (AddedTo category group (sorted_by id added))))
              | [] => mret tt
              end))
        (emit (BarUpdate counter));
  mret counter.

Definition add_users_to_groups
    (cfg : config) (groups_to_users : list (str * list str)) (category : str)
  : M unit :=
  if skip_user_membership cfg then mret tt
  else if negb (mem category [lit "members"; lit "sponsors"]) then raise ValueError
  else
    _ ← emit (Print (AddingToGroups category));
    let total := list_sum (List.map (fun gu => List.length (snd gu)) groups_to_users) in
    if (total =? 0)%nat then emit (Print NothingToDo)
    else
      _ ← foldM (sorted_by fst groups_to_users)
            (fun counter '(group, members) =>
               foldM (chunks cfg members) (add_chunk category group) counter)
            O;
      mret tt.

(** Lines 474-517: one chunk of one group. *)
Definition remove_chunk
    (cfg : config) (group : str) (counter : nat) (chunk : list str) : M nat :=
  let counter := (counter + List.length chunk)%nat in
  _ ← check_reauth counter;
  let removed := set_of chunk in
  _ ← finally
        (try_else (ipa (group_remove_member (groups_prefix cfg ++ group) chunk))
           (fun e =>
              match e with
              | FreeIPAError ValidationError message =>
                  errors ← lift (member_errors message);
                  _ ← handle_member_errors
                        (lit "This entry is not a member")
                        (fun member reason =>
                           FailedToRemoveMember member reason group)
                        errors removed;
                  mret tt
              | _ =>
                  emit (PrintStatus FAILED
                          (Some (FailedToRemoveChunk chunk group e)))
              end)
           (fun _ =>
              match removed with
              | _ :: _ =>
                  emit (PrintStatus REMOVED
                          (Some (RemovedFrom group (sorted_by id removed))))
              | [] => mret tt
              end))
        (emit (BarUpdate counter));
  mret counter.

Definition remove_users_from_groups
    (cfg : config) (groups_to_users : list (str * list str)) : M unit :=
  if skip_user_membership cfg then mret tt
  else
    _ ← emit (Print RemovingFromGroups);
    let total := list_sum (List.map (fun gu => List.length (snd gu)) groups_to_users) in
    if (total =? 0)%nat then emit (Print NothingToDo)
    else
      _ ← foldM (sorted_by fst groups_to_users)
            (fun counter '(group, members) =>
               foldM (chunks cfg members) (remove_chunk cfg group) counter)
            O;
      mret tt.

(** ** The run coordinator: [_push_users] *)

(** The counters and the four [defaultdict(list)] of lines 99-106. *)
Record deltas := {
  counter : nat;
  added : nat;
  edited : nat;
  skipped : nat;
  groups_to_member_usernames : list (str * list str);
  groups_to_unapproved_member_usernames : list (str * list str);
  groups_to_sponsor_usernames : list (str * list str);
  agreements_to_usernames : list (str * list str)
}.

Definition no_deltas : deltas :=
  {| counter := 0; added := 0; edited := 0; skipped := 0;
     groups_to_member_usernames := [];
     groups_to_unapproved_member_usernames := [];
     groups_to_sponsor_usernames := [];
     agreements_to_usernames := [] |}.

(** [d[k].append(v)] on a [defaultdict(list)]. *)
Definition dict_append (d : list (str * list str)) (k : str) (v : str)
  : list (str * list str) :=
  dict_set d k (match dict_get d k with Some l => l ++ [v] | None => [v] end).

Definition add_member (acc : deltas) (groupname username : str) : deltas :=
  {| counter := counter acc; added := added acc; edited := edited acc;
     skipped := skipped acc;
     groups_to_member_usernames :=
       dict_append (groups_to_member_usernames acc) groupname username;
     groups_to_unapproved_member_usernames :=
       groups_to_unapproved_member_usernames acc;
     groups_to_sponsor_usernames := groups_to_sponsor_usernames acc;
     agreements_to_usernames := agreements_to_usernames acc |}.

Definition add_unapproved (acc : deltas) (groupname username : str) : deltas :=
  {| counter := counter acc; added := added acc; edited := edited acc;
     skipped := skipped acc;
     groups_to_member_usernames := groups_to_member_usernames acc;
     groups_to_unapproved_member_usernames :=
       dict_append (groups_to_unapproved_member_usernames acc) groupname username;
     groups_to_sponsor_usernames := groups_to_sponsor_usernames acc;
     agreements_to_usernames := agreements_to_usernames acc |}.

Definition add_sponsor (acc : deltas) (groupname username : str) : deltas :=
  {| counter := counter acc; added := added acc; edited := edited acc;
     skipped := skipped acc;
     groups_to_member_usernames := groups_to_member_usernames acc;
     groups_to_unapproved_member_usernames :=
       groups_to_unapproved_member_usernames acc;
     groups_to_sponsor_usernames :=
       dict_append (groups_to_sponsor_usernames acc) groupname username;
     agreements_to_usernames := agreements_to_usernames acc |}.

Definition add_signature (acc : deltas) (agreement_name username : str) : deltas :=
  {| counter := counter acc; added := added acc; edited := edited acc;
     skipped := skipped acc;
     groups_to_member_usernames := groups_to_member_usernames acc;
     groups_to_unapproved_member_usernames :=
       groups_to_unapproved_member_usernames acc;
     groups_to_sponsor_usernames := groups_to_sponsor_usernames acc;
     agreements_to_usernames :=
       dict_append (agreements_to_usernames acc) agreement_name username |}.

Definition set_counters (acc : deltas) (c a e s : nat) : deltas :=
  {| counter := c; added := a; edited := e; skipped := s;
     groups_to_member_usernames := groups_to_member_usernames acc;
     groups_to_unapproved_member_usernames :=
       groups_to_unapproved_member_usernames acc;
     groups_to_sponsor_usernames := groups_to_sponsor_usernames acc;
     agreements_to_usernames := agreements_to_usernames acc |}.

(** The prefix of a realm: [fas_conf["groups"].get("prefix", "")]. *)
Definition realm_prefix (conf : fas_conf) : str :=
  match fas_groups_prefix conf with Some p => p | None => [] end.

(** Lines 147-165: the group roles of [person]. *)
Definition record_roles
    (conf : fas_conf) (person : list (str * pyval)) (acc : deltas) : res deltas :=
  group_roles ← getitem person (lit "group_roles");
  match group_roles with
  | VDict items =>
      for_each items
        (fun acc '(_groupname, membership) =>
           if mem _groupname (fas_groups_ignore conf) then Ok acc
           else
             group_id ← py_index membership (lit "group_id");
             if is_none group_id then Ok acc
             else
               let groupname := realm_prefix conf ++ _groupname in
               role_status ← py_index membership (lit "role_status");
               if is_str role_status (lit "approved") then
                 username ← get_str person (lit "username");
                 let acc := add_member acc groupname username in
                 role_type ← py_index membership (lit "role_type");
                 if is_str role_type (lit "administrator")
                    || is_str role_type (lit "sponsor")
                 then
                   username ← get_str person (lit "username");
                   Ok (add_sponsor acc groupname username)
                 else Ok acc
               else
                 username ← get_str person (lit "username");
                 Ok (add_unapproved acc groupname username))
        acc
  | _ => Raise AttributeError
  end.

(** [set(signed_groups) & set(group_names)] is not empty; a name that
    cannot be hashed raises [TypeError]. *)
Definition signed (signed_groups : list str) (group_names : list pyval) : res bool :=
  if existsb (fun n => match n with VList _ | VDict _ => true | _ => false end)
       group_names
  then Raise TypeError
  else Ok (existsb (fun n => match n with
                             | VStr s => mem s signed_groups
                             | _ => false
                             end) group_names).

(** Lines 167-173: the agreements [person] signed. *)
Definition record_agreements
    (conf : fas_conf) (person : list (str * pyval)) (acc : deltas) : res deltas :=
  memberships ← getitem person (lit "memberships");
  group_names ←
    match memberships with
    | VList l => for_each l (fun names g => n ← py_index g (lit "name"); Ok (names ++ [n])) []
    | _ => Raise TypeError
    end;
  for_each (agreement conf)
    (fun acc '(agreement_name, signed_groups) =>
       match signed signed_groups group_names with
       | Ok true =>
           username ← get_str person (lit "username");
           Ok (add_signature acc agreement_name username)
       | Ok false => Ok acc
       | Raise e => Raise e
       end)
    acc.

(** The keys of [user_conflicts], as the configuration names them. *)
Definition kind_name (k : conflict_kind) : str :=
  match k with
  | circular_email => lit "circular_email"
  | email_pointing_to_other_fas => lit "email_pointing_to_other_fas"
  | email_address_conflicts => lit "email_address_conflicts"
  end.

(** [s.ljust(width)]. *)
Definition ljust (s : str) (width : nat) : str :=
  s ++ repeat 32 (width - List.length s).

Definition is_skipped (s : Status) : bool :=
  match s with SKIPPED => true | _ => false end.

(** Lines 177-182. *)
Definition count_status (acc : deltas) (s : Status) : deltas :=
  match s with
  | ADDED => set_counters acc (counter acc) (S (added acc)) (edited acc) (skipped acc)
  | UPDATED => set_counters acc (counter acc) (added acc) (S (edited acc)) (skipped acc)
  | SKIPPED => set_counters acc (counter acc) (added acc) (edited acc) (S (skipped acc))
  | _ => acc
  end.

(** Lines 124-182: one user of a realm; [person] is the address of
    the record. *)
Definition push_person
    (cfg : config) (fas_name : str) (conf : fas_conf) (user_patterns : list str)
    (conflicts : list (str * conflicts)) (max_length : nat)
    (acc : deltas) (person : nat) : M deltas :=
  d ← load person;
  username ← lift (get_str d (lit "username"));
  if negb (matches_any username user_patterns) then mret acc
  else
    let user_conflicts :=
      match dict_get conflicts username with
      | Some uc => List.map (fun kv => kind_name (fst kv)) uc
      | None => []
      end in
    let user_skip_conflicts :=
      List.filter (fun k => mem k user_conflicts) (users_skip_conflicts cfg) in
    match user_skip_conflicts with
    | _ :: _ =>
        _ ← emit (PrintStatus FAILED
                    (Some (SkippingUser fas_name username user_skip_conflicts)));
        mret (set_counters acc (counter acc) (added acc) (edited acc)
                (S (skipped acc)))
    | [] =>
        let acc := set_counters acc (S (counter acc)) (added acc) (edited acc)
                     (skipped acc) in
        _ ← check_reauth (counter acc);
        _ ← emit (Print (PaddedUsername (ljust username (max_length + 2))));
        status ← migrate_user cfg person;
        acc ←
          (if is_skipped status then mret acc
           else
             d ← load person;
             acc ← lift (record_roles conf d acc);
             lift (record_agreements conf d acc));
        _ ← emit (PrintStatus status None);
        mret (count_status acc status)
    end.

(** [[u["username"] for u in users]]. *)
Fixpoint usernames_at (users : list nat) : M (list str) :=
  match users with
  | [] => mret []
  | person :: users' =>
      d ← load person;
      username ← lift (get_str d (lit "username"));
      names ← usernames_at users';
      mret (username :: names)
  end.

(** Lines 113-182: one realm. *)
Definition push_realm
    (cfg : config) (user_patterns : list str) (conflicts : list (str * conflicts))
    (acc : deltas) (realm : str * list nat) : M deltas :=
  let '(fas_name, users) := realm in
  _ ← emit (Print (FoundUsers fas_name (List.length users)));
  match users with
  | [] => mret acc
  | _ :: _ =>
      conf ← lift (match dict_get (fas cfg) fas_name with
                   | Some conf => Ok conf
                   | None => Raise (KeyError fas_name)
                   end);
      names ← usernames_at users;
      let users := List.map snd (sorted_by fst (combine names users)) in
      let max_length := list_max (List.map (@List.length N) names) in
      foldM users (push_person cfg fas_name conf user_patterns conflicts max_length) acc
  end.

(** The loop of lines 113-182 over the realms. *)
Definition collect_users
    (cfg : config) (user_patterns : list str) (conflicts : list (str * conflicts))
    (fas_users : list (str * list nat)) : M deltas :=
  foldM fas_users (push_realm cfg user_patterns conflicts) no_deltas.

Definition _push_users
    (cfg : config) (fas_users : list (str * list nat))
    (users_start_at : option str) (restrict_users : option (list str))
    (conflicts : option (list (str * conflicts)))
  : M (nat * nat * nat * nat) :=
  user_patterns ← lift (_make_user_patterns users_start_at restrict_users);
  let conflicts := match conflicts with Some c => c | None => [] end in
  acc ← collect_users cfg user_patterns conflicts fas_users;
  _ ← emit (RecordUserSignatures (agreements_to_usernames acc));
  _ ← add_users_to_groups cfg (groups_to_member_usernames acc) (lit "members");
  _ ← add_users_to_groups cfg (groups_to_sponsor_usernames acc) (lit "sponsors");
  _ ← remove_users_from_groups cfg (groups_to_unapproved_member_usernames acc);
  mret (counter acc, added acc, edited acc, skipped acc).

(** ** Notions the properties are stated with *)

(** No character of the string is special in a glob pattern. *)
Definition plain (s : str) : bool :=
  forallb (fun c => negb ((c =? star) || (c =? qmark) || (c =? lbracket))) s.

(** The token a character without bracket stands for. *)
Definition token_of (c : char) : gtok :=
  if c =? star then GStar else if c =? qmark then GAny else GLit c.

Definition no_bracket (s : str) : bool :=
  forallb (fun c => negb (c =? lbracket)) s.

(** The username of the record is not below [start]. *)
Definition not_below (start : str) (record : list (str * pyval)) : Prop :=
  exists username,
    get_str record (lit "username") = Ok username /\ str_ltb username start = false.

(** The bound the design document describes for a restriction pattern:
    every [*] replaced by the largest code point, U+10FFFF. *)
Definition max_code_point : char := 1114111.
Definition maximal_match (pattern : str) : str :=
  replace_char pattern star [max_code_point].

(** The conflict an email address adds when it names realm [R] and the
    realm set [fas_names] holds it. *)
Definition circular_of (R email : str) (fas_names : list str) : list conflict_detail :=
  if mem R fas_names then [CircularEmail R email] else [].

Definition pointing_of (R email : str) (fas_names : list str) : list conflict_detail :=
  match set_remove fas_names R with
  | [] => []
  | (_ :: _) as rest => [EmailPointingToOtherFas R email rest]
  end.

(** Records and configurations for the scenarios. *)
Definition record_of (username email : string) : list (str * pyval) :=
  [(lit "username", VStr (lit username)); (lit "email", VStr (lit email))].

Definition realm_conf (domain : string) : fas_conf :=
  {| email_domain := Some (lit domain);
     fas_groups_prefix := None;
     fas_groups_ignore := [];
     agreement := [] |}.

Definition realms_config (realms : list (str * fas_conf)) : config :=
  {| users_skip_disabled := false;
     users_skip_spam := false;
     users_skip_conflicts := [];
     skip_user_add := false;
     skip_user_membership := false;
     ipa_username := lit "admin";
     ipa_password := lit "secret";
     groups_prefix := [];
     fas := realms;
     chunks_size := 30 |}.

Definition two_realms : config :=
  realms_config
    [(lit "A", realm_conf "realmA.example"); (lit "B", realm_conf "realmB.example")].

Definition three_realms : config :=
  realms_config
    [(lit "A", realm_conf "realmA.example"); (lit "B", realm_conf "realmB.example");
     (lit "C", realm_conf "realmC.example")].


(** The number of events of a kind in a stretch of the log. *)
Fixpoint count (f : event -> bool) (evs : list event) : nat :=
  match evs with
  | [] => O
  | e :: evs' => ((if f e then 1 else 0) + count f evs')%nat
  end.

(** A re-authentication that succeeded: what precedes each retry. *)
Definition is_login_ok (e : event) : bool :=
  match e with
  | Called (login _ _) (Returns _) => true
  | _ => false
  end.

(** A re-authentication, successful or not. *)
Definition is_login (e : event) : bool :=
  match e with
  | Called (login _ _) _ => true
  | _ => false
  end.

(** Every re-authentication uses the configured credentials. *)
Definition login_as (cfg : config) (e : event) : Prop :=
  match e with
  | Called (login username password) _ =>
      username = ipa_username cfg /\ password = ipa_password cfg
  | _ => True
  end.

(** The authentication-expiry signal, raised by a call other than
    [login]. *)
Definition is_expiry (e : event) : bool :=
  match e with
  | Called (login _ _) _ => false
  | Called _ (Raises (FreeIPAError Unauthorized _)) => true
  | _ => false
  end.

(** A call the directory answered with an exception. *)
Definition is_raise (e : event) : bool :=
  match e with
  | Called _ (Raises _) => true
  | _ => false
  end.

Abbreviation retries := (count is_login_ok).
Abbreviation expiries := (count is_expiry).
Abbreviation raises := (count is_raise).

(** The arguments hold one of the three name fields. *)
Definition has_name_field (args : list (str * pyval)) : bool :=
  dict_has args (lit "first_name")
  || dict_has args (lit "last_name")
  || dict_has args (lit "full_name").

(** An update call that carries a name field. *)
Definition update_with_name (e : event) : bool :=
  match e with
  | Called (user_mod _ args) _ => has_name_field args
  | _ => false
  end.

(** The human name of the record is absent: [None] or empty. *)
Definition human_name_absent (record : list (str * pyval)) : Prop :=
  exists v, dict_get record (lit "human_name") = Some v /\ truthy v = false.

(** From [w] to [w']: the objects [ext] were created, the events [evs]
    logged, and each exception of the directory used up a scripted
    reply. *)
Record span (w w' : world) (ext : list (list (str * pyval))) (evs : list event)
  : Prop := {
  span_heap : heap w' = heap w ++ ext;
  span_log : log w' = log w ++ evs;
  span_script : (List.length (script w') + raises evs <= List.length (script w))%nat
}.

(** How one pass through the body of [migrate_user] ends: by itself,
    or in the recursive call, entered after one re-authentication. *)
Inductive pass (retry : M Status) (cfg : config) (clean : Prop) (w : world)
    (r : outcome Status * world) : Prop :=
| pass_done (ext : list (list (str * pyval))) (evs : list event) :
    span w (snd r) ext evs ->
    fst r <> OutOfFuel ->
    retries evs = 0%nat ->
    Forall (login_as cfg) evs ->
    (clean -> Forall (fun e => update_with_name e = false) evs) ->
    pass retry cfg clean w r
| pass_retry (w1 : world) (ext : list (list (str * pyval))) (evs : list event) :
    r = retry w1 ->
    span w w1 ext evs ->
    retries evs = 1%nat ->
    (1 <= expiries evs)%nat ->
    Forall (login_as cfg) evs ->
    (clean -> Forall (fun e => update_with_name e = false) evs) ->
    pass retry cfg clean w r.

(** The exception is the authentication-expiry signal. *)
Definition is_unauthorized (e : exn) : Prop :=
  match e with FreeIPAError Unauthorized _ => True | _ => False end.

(** A stretch of [migrate_user] that creates no object and does not
    retry; when it ends in the expiry signal, a call raised it in the
    stretch, unless it was [owed] to the stretch from before. *)
Definition quiet {A} (clean owed : Prop) (w : world) (r : outcome A * world) : Prop :=
  exists evs,
    span w (snd r) [] evs
    /\ fst r <> OutOfFuel
    /\ count is_login evs = 0%nat
    /\ (clean -> Forall (fun e => update_with_name e = false) evs)
    /\ (forall e, fst r = Raised e -> is_unauthorized e ->
                  owed \/ (1 <= expiries evs)%nat).

(** A source record as the source realm sends it, with an absent human
    name, and a configuration that migrates every user. *)
Definition record_without_name : list (str * pyval) :=
  [(lit "username", VStr (lit "bob"));
   (lit "human_name", VNone);
   (lit "status", VStr (lit "active"));
   (lit "email", VStr (lit "bob@example.org"));
   (lit "ircnick", VNone);
   (lit "locale", VNone);
   (lit "timezone", VStr (lit "UTC"));
   (lit "gpg_keyid", VNone);
   (lit "ssh_key", VNone);
   (lit "creation", VStr (lit "2012-03-04 05:06:07.89+00:00"));
   (lit "privacy", VBool false);
   (lit "id", VInt 7);
   (lit "group_roles", VDict []);
   (lit "memberships", VList [])].

Definition expired : reply := Raises (FreeIPAError Unauthorized (VStr (lit "expired"))).

Definition exists_already : reply :=
  Raises (FreeIPAError OtherFreeIPAError
            (VStr (already_exists (VStr (lit "bob"))))).

(** A run state that holds the record at address 0. *)
Definition world_of (replies : list reply) : world :=
  {| heap := [record_without_name]; script := replies; log := [] |}.

(** Every event a computation logs satisfies [P]. *)
Definition logs {A} (P : event -> Prop) (m : M A) : Prop :=
  forall w, exists evs, log (snd (m w)) = log w ++ evs /\ Forall P evs.

(** The lines [print_status] wrote. *)
Definition status_lines (evs : list event) : list (Status * option message) :=
  flat_map (fun e => match e with
                     | PrintStatus s m => [(s, m)]
                     | _ => []
                     end) evs.

(** An addition call names a key of the delta. *)
Definition adds_to (keys : list str) (e : event) : Prop :=
  match e with
  | Called (group_add_member group _) _
  | Called (group_add_member_manager group _) _ => In group keys
  | Called (group_remove_member _ _) _ => False
  | _ => True
  end.

(** A removal call names the global prefix followed by a key of the
    delta. *)
Definition removes_from (cfg : config) (keys : list str) (e : event) : Prop :=
  match e with
  | Called (group_remove_member group _) _ =>
      exists key, In key keys /\ group = groups_prefix cfg ++ key
  | Called (group_add_member _ _) _
  | Called (group_add_member_manager _ _) _ => False
  | _ => True
  end.

(** The keys of the three membership deltas. *)
Definition delta_keys (acc : deltas) : list str :=
  List.map fst (groups_to_member_usernames acc)
  ++ List.map fst (groups_to_unapproved_member_usernames acc)
  ++ List.map fst (groups_to_sponsor_usernames acc).

(** The batch of scenario 5 and the answer of the directory: two of
    the five users already belong to the group. *)
Definition five_users : list str :=
  List.map lit ["u1"; "u2"; "u3"; "u4"; "u5"]%string.

Definition already_member (user : string) : pyval :=
  VList [VStr (lit user); VStr (lit "This entry is already a member")].

Definition two_already_members : reply :=
  Raises (FreeIPAError ValidationError
            (VDict [(lit "member",
                     VDict [(lit "user",
                             VList [already_member "u1"; already_member "u2"]);
                            (lit "group", VList [])])])).

Definition two_already_managers : reply :=
  Returns (VDict [(lit "failed",
                   VDict [(lit "membermanager",
                           VDict [(lit "user",
                                   VList [already_member "u1"; already_member "u2"]);
                                  (lit "group", VList [])])])]).

Definition empty_world (replies : list reply) : world :=
  {| heap := []; script := replies; log := [] |}.

Definition prefixed_config (prefix : string) : config :=
  {| users_skip_disabled := false;
     users_skip_spam := false;
     users_skip_conflicts := [];
     skip_user_add := false;
     skip_user_membership := false;
     ipa_username := lit "admin";
     ipa_password := lit "secret";
     groups_prefix := lit prefix;
     fas := [];
     chunks_size := 30 |}.

(** The usernames held by the four deltas. *)
Definition delta_usernames (acc : deltas) : list str :=
  concat (List.map snd (groups_to_member_usernames acc))
  ++ concat (List.map snd (groups_to_unapproved_member_usernames acc))
  ++ concat (List.map snd (groups_to_sponsor_usernames acc))
  ++ concat (List.map snd (agreements_to_usernames acc)).

(** The log of [w'] continues the log of [w]. *)
Definition later (w w' : world) : Prop := exists evs, log w' = log w ++ evs.

(** A record with an approved sponsor role and a signed agreement, a
    disabled one, and the realm they come from. *)
Definition member_record (username status : string) : list (str * pyval) :=
  [(lit "username", VStr (lit username));
   (lit "human_name", VStr (lit "Ada Lovelace"));
   (lit "status", VStr (lit status));
   (lit "email", VStr (lit "ada@example.org"));
   (lit "ircnick", VNone);
   (lit "locale", VStr (lit "en_GB"));
   (lit "timezone", VStr (lit "UTC"));
   (lit "gpg_keyid", VNone);
   (lit "ssh_key", VNone);
   (lit "creation", VStr (lit "2012-03-04 05:06:07.89+00:00"));
   (lit "privacy", VBool false);
   (lit "group_roles",
    VDict [(lit "packager",
            VDict [(lit "group_id", VInt 3);
                   (lit "role_status", VStr (lit "approved"));
                   (lit "role_type", VStr (lit "sponsor"))])]);
   (lit "memberships", VList [VDict [(lit "name", VStr (lit "cla_done"))]])].

Definition realm_with_groups : fas_conf :=
  {| email_domain := Some (lit "realmA.example");
     fas_groups_prefix := Some (lit "a-");
     fas_groups_ignore := [];
     agreement := [(lit "FPCA", [lit "cla_done"])] |}.

Definition skipping_config : config :=
  {| users_skip_disabled := true;
     users_skip_spam := true;
     users_skip_conflicts := [];
     skip_user_add := false;
     skip_user_membership := false;
     ipa_username := lit "admin";
     ipa_password := lit "secret";
     groups_prefix := lit "fas-";
     fas := [(lit "A", realm_with_groups)];
     chunks_size := 30 |}.

Definition two_users_world : world :=
  {| heap := [member_record "ada" "active"; member_record "bea" "inactive"];
     script := [];
     log := [] |}.

(** What one pass over the group roles may add: keys that start with
    the prefix of the realm, and the username of the record. *)
Definition from_record
    (conf : fas_conf) (person : list (str * pyval)) (acc acc' : deltas) : Prop :=
  (forall key, In key (delta_keys acc') ->
     In key (delta_keys acc) \/ exists g, key = realm_prefix conf ++ g)
  /\ (forall u, In u (delta_usernames acc') ->
        In u (delta_usernames acc) \/ get_str person (lit "username") = Ok u).

(** The addresses of all the records handed to the run. *)
Definition all_persons (fas_users : list (str * list nat)) : list nat :=
  concat (List.map snd fas_users).

(** What a reply makes of a call. *)
Definition outcome_of (r : reply) : outcome pyval :=
  match r with
  | Returns v => Done v
  | Raises e => Raised e
  end.

(** The computations without effect raise no directory exception. *)
Definition local (e : exn) : Prop :=
  match e with FreeIPAError _ _ => False | _ => True end.


(** Unfolds the deltas in a hypothesis and in the goal. *)
Ltac delta_cases H :=
  unfold delta_keys, delta_usernames in H |- *; cbn [groups_to_member_usernames
    groups_to_unapproved_member_usernames groups_to_sponsor_usernames
    agreements_to_usernames add_member add_unapproved add_sponsor add_signature] in H |- *;
  rewrite ?in_app_iff in H |- *.


(** ** Notions used by the further properties *)

(** Realm [fas_name] of [fas_users] has a record with this username. *)
Definition holds_username
    (fas_users : list (str * list (list (str * pyval))))
    (fas_name username : str) : Prop :=
  exists user_objs user_obj,
    In (fas_name, user_objs) fas_users
    /\ In user_obj user_objs
    /\ get_str user_obj (lit "username") = Ok username.

(** What a detail record says, read against the address groups
    [emails] of the username: the address is [username@domain], the
    realm named is the one whose domain that is, and the realms listed
    hold the address. *)
Definition sound_detail
    (domains_fas : list (str * str)) (username : str)
    (emails : list (str * list str)) (detail : conflict_detail) : Prop :=
  match detail with
  | CircularEmail fas_name email_address =>
      exists domain fas_names,
        rsplit1 email_address at_sign = Some (username, domain)
        /\ dict_get domains_fas domain = Some fas_name
        /\ In (email_address, fas_names) emails
        /\ In fas_name fas_names
  | EmailPointingToOtherFas tgt_fas_name email_address src_fas_names =>
      exists domain fas_names,
        rsplit1 email_address at_sign = Some (username, domain)
        /\ dict_get domains_fas domain = Some tgt_fas_name
        /\ In (email_address, fas_names) emails
        /\ src_fas_names <> []
        /\ ~ In tgt_fas_name src_fas_names
        /\ forall src, In src src_fas_names -> In src fas_names
  | EmailAddressConflict _ _ => True
  end.

(** The policy of lines 236-242 on a source record: disabled users
    when [skip_disabled] is set, users denied by the spam check when
    [skip_spam] is set. *)
Definition excluded_by_policy (cfg : config) (record : list (str * pyval)) : bool :=
  let status :=
    match dict_get record (lit "status") with Some v => v | None => VNone end in
  (users_skip_disabled cfg && negb (is_str status (lit "active")))
  || (users_skip_spam cfg && is_str status (lit "spamcheck_denied")).

(** The keys popped in lines 284-294, in that order. *)
Definition processed_keys : list str :=
  List.map lit
    ["username"; "human_name"; "status"; "email"; "ircnick"; "locale";
     "timezone"; "gpg_keyid"; "ssh_key"; "creation"; "privacy"]%string.

(** The details of a record that are neither ignored nor processed. *)
Definition leftover (record : list (str * pyval)) : list (str * pyval) :=
  List.filter
    (fun kv => kept_key (fst kv) && negb (mem (fst kv) processed_keys)) record.

(** The keys whose values are not printed, lines 300-303. *)
Definition secret_key (key : str) : bool :=
  mem key (List.map lit ["email"; "ssh_key"; "telephone"; "facsimile"]%string)
  || contains key (lit "password").

(** A create call sets [random_pass] and carries a locale and a
    timezone. *)
Definition create_sets_defaults (e : event) : Prop :=
  match e with
  | Called (user_add _ args) _ =>
      dict_get args (lit "random_pass") = Some (VBool true)
      /\ truthy (item args (lit "faslocale")) = true
      /\ truthy (item args (lit "fastimezone")) = true
  | _ => True
  end.

(** An update call carries no [None] and no blank string. *)
Definition update_has_no_blank (e : event) : Prop :=
  match e with
  | Called (user_mod _ args) _ =>
      forall k v, In (k, v) args ->
        v <> VNone /\ forall s, v = VStr s -> strip s <> []
  | _ => True
  end.

(** A detail line that shows a value is not about a secret key. *)
Definition no_secret_value (e : event) : Prop :=
  match e with
  | Print (CompactDetail key _) => secret_key key = false
  | _ => True
  end.

(** The calls of the user upsert: the three user operations, and the
    re-authentication with the configured credentials. *)
Definition upsert_call (cfg : config) (e : event) : Prop :=
  match e with
  | Called (user_add _ _) _ | Called (user_show _) _ | Called (user_mod _ _) _ => True
  | Called (login username password) _ =>
      username = ipa_username cfg /\ password = ipa_password cfg
  | Called _ _ => False
  | Print _ => True
  | _ => False
  end.

(** The line printed for a leftover detail, lines 300-306. *)
Definition detail_line (kv : str * pyval) : event :=
  if secret_key (fst kv) then Print (RedactedDetail (fst kv))
  else Print (CompactDetail (fst kv) (_compact_value (snd kv))).

(** The values of the processed keys of a record. *)
Definition processed_of (record : list (str * pyval)) : processed :=
  {| p_username := item record (lit "username");
     p_human_name := item record (lit "human_name");
     p_status := item record (lit "status");
     p_email := item record (lit "email");
     p_ircnick := item record (lit "ircnick");
     p_locale := item record (lit "locale");
     p_timezone := item record (lit "timezone");
     p_gpg_keyid := item record (lit "gpg_keyid");
     p_ssh_key := item record (lit "ssh_key");
     p_creation := item record (lit "creation");
     p_privacy := item record (lit "privacy") |}.

(** The first processed key the record lacks. *)
Definition first_missing_key (record : list (str * pyval)) : option str :=
  find (fun k => negb (dict_has record k)) processed_keys.

(** A record cut short after its first four keys, and one with two
    details the migration does not know. *)
Definition short_record : list (str * pyval) :=
  [(lit "username", VStr (lit "bob"));
   (lit "human_name", VNone);
   (lit "status", VStr (lit "active"));
   (lit "email", VStr (lit "bob@example.org"))].

Definition record_with_extras : list (str * pyval) :=
  record_without_name
  ++ [(lit "shoe_size", VInt 42); (lit "password_hint", VStr (lit "pet"))].

Definition world_with (record : list (str * pyval)) (replies : list reply) : world :=
  {| heap := [record]; script := replies; log := [] |}.

(** The calls of a stretch of the log, in order. *)
Definition calls_of (evs : list event) : list call :=
  flat_map (fun e => match e with Called c _ => [c] | _ => [] end) evs.

(** A reply other than a [ValidationError]: the call succeeds, or
    fails as a whole. *)
Definition no_member_errors (r : reply) : Prop :=
  match r with
  | Raises (FreeIPAError ValidationError _) => False
  | _ => True
  end.

(** One removal call for each chunk of each group, the groups in
    sorted order; likewise for the additions of members. *)
Definition removal_calls (cfg : config) (groups_to_users : list (str * list str))
  : list call :=
  flat_map
    (fun gm => List.map (group_remove_member (groups_prefix cfg ++ fst gm))
                 (chunks cfg (snd gm)))
    (sorted_by fst groups_to_users).

Definition addition_calls (cfg : config) (groups_to_users : list (str * list str))
  : list call :=
  flat_map
    (fun gm => List.map (group_add_member (fst gm)) (chunks cfg (snd gm)))
    (sorted_by fst groups_to_users).

(** What a run of calls leaves of the state [w]: the heap, the script
    without one reply for each call, and the calls appended. *)
Definition after_calls (calls : list call) (w w' : world) : Prop :=
  heap w' = heap w
  /\ script w' = skipn (List.length calls) (script w)
  /\ calls_of (log w') = calls_of (log w) ++ calls.

(** A directory that does not know the group. *)
Definition no_such_group : reply :=
  Raises (FreeIPAError NotFound (VStr (lit "no such group"))).

(** A failure line for one member does not carry the reason that
    marks the member as already in the state asked for. *)
Definition no_idempotent_failure (e : event) : Prop :=
  match e with
  | PrintStatus FAILED (Some (FailedToAddMember _ reason _ _)) =>
      is_str reason (lit "This entry is already a member") = false
  | PrintStatus FAILED (Some (FailedToRemoveMember _ reason _)) =>
      is_str reason (lit "This entry is not a member") = false
  | _ => True
  end.

(** The reply of the directory that reports [member] as already a
    member of the group. *)
Definition reports_member (member : str) : reply :=
  Raises (FreeIPAError ValidationError
            (VDict [(lit "member",
                     VDict [(lit "user",
                             VList [VList [VStr member;
                                           VStr (lit "This entry is already a member")]])])])).

(** The three stretches of a run of [_push_users]: no membership call
    while the users are migrated; then additions; then removals. *)
Definition user_phase (e : event) : Prop :=
  match e with
  | Called (group_add_member _ _) _
  | Called (group_add_member_manager _ _) _
  | Called (group_remove_member _ _) _ => False
  | _ => True
  end.

Definition addition_phase (e : event) : Prop :=
  match e with
  | Called (group_add_member _ _) _
  | Called (group_add_member_manager _ _) _ => True
  | Called _ _ => False
  | _ => True
  end.

Definition removal_phase (e : event) : Prop :=
  match e with
  | Called (group_remove_member _ _) _ => True
  | Called _ _ => False
  | _ => True
  end.

Definition in_phases (P1 P2 P3 : event -> Prop) (evs : list event) : Prop :=
  exists e1 e2 e3,
    evs = e1 ++ e2 ++ e3 /\ Forall P1 e1 /\ Forall P2 e2 /\ Forall P3 e3.

(** [username] is in the list a delta holds for [group]. *)
Definition listed (d : list (str * list str)) (group username : str) : Prop :=
  exists l, dict_get d group = Some l /\ In username l.

(** Every sponsor recorded for a group is recorded as a member of it. *)
Definition sponsors_are_members (acc : deltas) : Prop :=
  forall group username,
    listed (groups_to_sponsor_usernames acc) group username ->
    listed (groups_to_member_usernames acc) group username.

(** The four counters of the result. *)
Definition counters (acc : deltas) : nat * nat * nat * nat :=
  (counter acc, added acc, edited acc, skipped acc).

(** The counters after [n] records. *)
Definition counted (n : nat) (acc : deltas) : Prop :=
  (added acc + edited acc <= counter acc)%nat
  /\ (counter acc <= n)%nat
  /\ (added acc + edited acc + skipped acc <= n)%nat.

(** The events a computation logs fall in two, or in three, stretches. *)
Definition logs2 {A} (P2 P3 : event -> Prop) (m : M A) : Prop :=
  forall w, exists e2 e3,
    log (snd (m w)) = log w ++ e2 ++ e3 /\ Forall P2 e2 /\ Forall P3 e3.

Definition logs3 {A} (P1 P2 P3 : event -> Prop) (m : M A) : Prop :=
  forall w, exists evs,
    log (snd (m w)) = log w ++ evs /\ in_phases P1 P2 P3 evs.

(** The value holds a dictionary, at any depth of its lists. *)
Fixpoint has_dict (v : pyval) : bool :=
  match v with
  | VDict _ => true
  | VList l => existsb has_dict l
  | _ => false
  end.

(** ** Further notions for the properties of the reconciler, of the
    conflict detector and of the run *)

(** An event that is no call to the directory. *)
Definition no_call (e : event) : Prop :=
  match e with Called _ _ => False | _ => True end.

(** The batches of a delta: for each group, in sorted order, each
    chunk of its users, with the key of the group. *)
Definition batches (cfg : config) (groups_to_users : list (str * list str))
  : list (str * list str) :=
  flat_map (fun gm => List.map (pair (fst gm)) (chunks cfg (snd gm)))
    (sorted_by fst groups_to_users).

(** The call [add_users_to_groups] makes for a batch, lines 414-421,
    and the call [remove_users_from_groups] makes for it, lines
    479-483. *)
Definition addition_call (category : str) (batch : str * list str) : call :=
  if str_eqb category (lit "members")
  then group_add_member (fst batch) (snd batch)
  else group_add_member_manager (fst batch) (snd batch).

Definition removal_call (cfg : config) (batch : str * list str) : call :=
  group_remove_member (groups_prefix cfg ++ fst batch) (snd batch).

(** The directory group a membership call names. *)
Definition group_of (c : call) : option str :=
  match c with
  | group_add_member group _
  | group_add_member_manager group _
  | group_remove_member group _ => Some group
  | _ => None
  end.

(** The computation makes the calls of the first batches of [l], in
    their order, and of all of them when it returns. *)
Definition calls_first {A B} (call_of : B -> call) (l : list B) (m : M A) (w : world)
  : Prop :=
  exists n,
    (n <= List.length l)%nat
    /\ calls_of (log (snd (m w))) = calls_of (log w) ++ List.map call_of (firstn n l)
    /\ forall a, fst (m w) = Done a -> n = List.length l.

(** The realm an email address of [username] refers to: the address is
    [username@domain] and the index of email domains has a realm, with
    a name that is not empty, for the domain (line 574). *)
Definition self_reference
    (domains_fas : list (str * str)) (username email_address : str) : option str :=
  match rsplit1 email_address at_sign with
  | Some (mailbox, domain) =>
      match nonempty (dict_get domains_fas domain) with
      | Some domain_fas_name =>
          if str_eqb mailbox username then Some domain_fas_name else None
      | None => None
      end
  | None => None
  end.

(** What an address with its realm set adds to the [circular_email]
    and to the [email_pointing_to_other_fas] conflicts, and the realm
    set it is left with. *)
Definition circular_entries
    (domains_fas : list (str * str)) (username : str) (group : str * list str)
  : list conflict_detail :=
  match self_reference domains_fas username (fst group) with
  | Some R => circular_of R (fst group) (snd group)
  | None => []
  end.

Definition pointing_entries
    (domains_fas : list (str * str)) (username : str) (group : str * list str)
  : list conflict_detail :=
  match self_reference domains_fas username (fst group) with
  | Some R => pointing_of R (fst group) (snd group)
  | None => []
  end.

Definition after_self_reference
    (domains_fas : list (str * str)) (username : str) (group : str * list str)
  : str * list str :=
  (fst group,
   match self_reference domains_fas username (fst group) with
   | Some _ => []
   | None => snd group
   end).

(** ** The calls of [migrate_user] during a run *)

(** The loop [foldM l body s w] comes to the element [b] with the
    value [sb] in the state [wb]: the bodies of the elements before
    [b] have returned, one after the other, and have led there. *)
Inductive visits {A S : Type} (body : S -> A -> M S)
  : list A -> S -> world -> A -> S -> world -> Prop :=
| visits_here (a : A) (l : list A) (s : S) (w : world) :
    visits body (a :: l) s w a s w
| visits_next (a : A) (l : list A) (s : S) (w : world) (s1 : S) (w1 : world)
    (b : A) (sb : S) (wb : world) :
    body s a w = (Done s1, w1) ->
    visits body l s1 w1 b sb wb ->
    visits body (a :: l) s w b sb wb.

(** Lines 129-130: the conflicts of the username that the
    configuration treats as a reason to skip. *)
Definition skip_conflicts_of
    (cfg : config) (conflicts : list (str * conflicts)) (username : str) : list str :=
  List.filter
    (fun k =>
       mem k (match dict_get conflicts username with
              | Some uc => List.map (fun kv => kind_name (fst kv)) uc
              | None => []
              end))
    (users_skip_conflicts cfg).

(** The state in which [push_person], entered with [acc] in the state
    [w], calls [migrate_user] (lines 140-144): the counter is
    incremented and handed to [check_reauth], and the padded username
    is echoed. *)
Definition call_state (acc : deltas) (username : str) (max_length : nat) (w : world)
  : world :=
  {| heap := heap w;
     script := script w;
     log := log w
            ++ [CheckReauth (S (counter acc));
                Print (PaddedUsername (ljust username (max_length + 2)))] |}.

(** [push_person], entered with [acc] in the state [w] for the record
    at [person], whose username is [username], passes the guard of the
    patterns and the guard of the conflicts and calls [migrate_user],
    which returns [status]. *)
Definition migrates
    (cfg : config) (user_patterns : list str) (conflicts : list (str * conflicts))
    (max_length : nat) (acc : deltas) (person : nat) (w : world)
    (username : str) (status : Status) : Prop :=
  exists record w2,
    heap w !! person = Some record
    /\ get_str record (lit "username") = Ok username
    /\ matches_any username user_patterns = true
    /\ skip_conflicts_of cfg conflicts username = []
    /\ migrate_user cfg person (call_state acc username max_length w)
       = (Done status, w2).

(** The run of [collect_users] on [fas_users] from the state [w0]
    comes, in the loop over the users of the realm [fas_name], to the
    record at [person], with the deltas [acc] in the state [w]. *)
Definition reaches
    (cfg : config) (user_patterns : list str) (conflicts : list (str * conflicts))
    (fas_users : list (str * list nat)) (w0 : world)
    (fas_name : str) (conf : fas_conf) (max_length : nat)
    (acc : deltas) (person : nat) (w : world) : Prop :=
  exists users acc_r w_r names,
    visits (push_realm cfg user_patterns conflicts) fas_users no_deltas w0
      (fas_name, users) acc_r w_r
    /\ dict_get (fas cfg) fas_name = Some conf
    /\ usernames_at users w_r = (Done names, w_r)
    /\ max_length = list_max (List.map (@List.length N) names)
    /\ visits (push_person cfg fas_name conf user_patterns conflicts max_length)
         (List.map snd (sorted_by fst (combine names users))) acc_r
         {| heap := heap w_r; script := script w_r;
            log := log w_r ++ [Print (FoundUsers fas_name (List.length users))] |}
         person acc w.

(** During the run of [collect_users] on [fas_users] from [w0],
    [migrate_user] was called on the record at [person], whose
    username is [username], in the state the run had come to, and
    returned an outcome other than [SKIPPED]. *)
Definition migrated
    (cfg : config) (user_patterns : list str) (conflicts : list (str * conflicts))
    (fas_users : list (str * list nat)) (w0 : world)
    (person : nat) (username : str) : Prop :=
  exists fas_name conf max_length acc w status,
    reaches cfg user_patterns conflicts fas_users w0 fas_name conf max_length
      acc person w
    /\ migrates cfg user_patterns conflicts max_length acc person w username status
    /\ status <> SKIPPED.

(** ** The expiry signal and the retry of [migrate_user] *)

(** The authentication-expiry signal as the outer handler of
    [migrate_user] meets it (line 379): a call of the upsert answered
    with [Unauthorized].  The inner handler (line 349) takes every
    [FreeIPAError] the create call raises, and keeps the one whose
    message is the already-exists text for the update. *)
Definition expiry_signal (e : event) : bool :=
  match e with
  | Called (user_add username _) (Raises (FreeIPAError Unauthorized msg)) =>
      negb (is_str msg (already_exists username))
  | Called (user_show _) (Raises (FreeIPAError Unauthorized _)) => true
  | Called (user_mod _ _) (Raises (FreeIPAError Unauthorized _)) => true
  | _ => false
  end.

(** The create call [migrate_user] issues for a record, lines 236-346,
    when it comes to issue one. *)
Definition create_call (cfg : config) (record : list (str * pyval)) : option call :=
  if excluded_by_policy cfg record || skip_user_add cfg then None
  else
    match first_missing_key record, leftover record with
    | None, [] =>
        let f := processed_of record in
        match derive_names (p_human_name f) with
        | Ok (name, first_name, last_name) =>
            match build_user_args (p_username f) name first_name last_name
                    (p_status f) (p_email f) (p_ircnick f) (p_locale f)
                    (p_timezone f) (p_gpg_keyid f) (p_ssh_key f)
                    (p_creation f) (p_privacy f) with
            | Ok user_args =>
                Some (user_add (p_username f) (make_user_add_args user_args))
            | Raise _ => None
            end
        | Raise _ => None
        end
    | _, _ => None
    end.

(** The events begin with the create call; a record for which there
    is none leads to no call at all. *)
Definition begins (create : option call) (evs : list event) : Prop :=
  match create with
  | Some c => exists r rest, evs = Called c r :: rest
  | None => Forall no_call evs
  end.

(** One pass through the body of [migrate_user] from the state [w];
    [run retry] is the body with [retry] as the recursive call of line
    383.  Either the pass ends by itself: no expiry signal and no
    re-authentication is logged, and the recursive call is not made.
    Or the directory raises the expiry signal [sig]: the next event is
    the re-authentication with the configured credentials; when it
    succeeds the pass ends as the recursive call does, made in the
    state [w1] reached then, in which the objects that existed before
    are as they were; when it fails its exception leaves the pass. *)
Inductive first_pass (cfg : config) (create : option call) (w : world)
    (run : M Status -> outcome Status * world) : Prop :=
| pass_ends (r : outcome Status * world)
    (ext : list (list (str * pyval))) (evs : list event) :
    (forall retry, run retry = r) ->
    heap (snd r) = heap w ++ ext ->
    log (snd r) = log w ++ evs ->
    (List.length (script (snd r)) <= List.length (script w))%nat ->
    begins create evs ->
    count expiry_signal evs = 0%nat ->
    count is_login evs = 0%nat ->
    first_pass cfg create w run
| pass_signal (ext : list (list (str * pyval))) (evs : list event)
    (sig : event) (rl : reply) (w1 : world) :
    (forall retry,
       run retry = match rl with
                   | Returns _ => retry w1
                   | Raises e => (Raised e, w1)
                   end) ->
    heap w1 = heap w ++ ext ->
    log w1
    = log w ++ evs
      ++ [sig; Called (login (ipa_username cfg) (ipa_password cfg)) rl] ->
    (List.length (script w1) < List.length (script w))%nat ->
    begins create (evs ++ [sig]) ->
    count expiry_signal evs = 0%nat ->
    count is_login evs = 0%nat ->
    expiry_signal sig = true ->
    first_pass cfg create w run.

(** Every expiry signal of the events is followed at once by the
    re-authentication with the configured credentials; a
    re-authentication that succeeds is followed at once by the create
    call, and one that fails ends the events. *)
Fixpoint answered (cfg : config) (create : option call) (evs : list event) : Prop :=
  match evs with
  | [] => True
  | e :: evs' =>
      (expiry_signal e = true ->
       exists rl evs'',
         evs' = Called (login (ipa_username cfg) (ipa_password cfg)) rl :: evs''
         /\ match rl with
            | Returns _ => exists c r rest, create = Some c /\ evs'' = Called c r :: rest
            | Raises _ => evs'' = []
            end)
      /\ answered cfg create evs'
  end.

(** ** The partitioner as the design document words it *)

(** The patterns of the design document for a cursor: "the letter of
    startAt as a literal prefix plus [*], followed by one wildcard
    pattern per subsequent letter".  To be compared with
    [_make_user_patterns], which puts the whole cursor where this has
    its letter. *)
Definition spec_letter_patterns (start_at : str) : res (list str) :=
  match start_at with
  | letter :: _ =>
      match alphabet_index_lower letter with
      | Some start_index =>
          Ok (List.map (fun pattern => pattern ++ [star])
                ([letter] :: skipn (S start_index) alphabet))
      | None => Raise ValueError
      end
  | [] => Ok (List.map (fun pattern => pattern ++ [star]) alphabet)
  end.

(** ** Dictionaries, strings and loops *)

Section Dict_facts.
Context {K V : Type} `{EqDecision K}.

Lemma dict_get_set_eq (d : list (K * V)) (k : K) (v : V) :
  dict_get (dict_set d k v) k = Some v.
Proof.
  induction d as [|[k' v'] d IH]; simpl.
  - destruct (decide (k = k)); congruence.
  - destruct (decide (k' = k)) as [E|E]; simpl.
    + destruct (decide (k' = k)); congruence.
    + destruct (decide (k' = k)); [congruence | exact IH].
Qed.

Lemma dict_get_set_ne (d : list (K * V)) (k k' : K) (v : V) :
  k <> k' -> dict_get (dict_set d k v) k' = dict_get d k'.
Proof.
  intros Hne. induction d as [|[k0 v0] d IH]; simpl.
  - destruct (decide (k = k')); congruence.
  - destruct (decide (k0 = k)) as [E|E]; simpl.
    + subst k0. destruct (decide (k = k')); congruence.
    + destruct (decide (k0 = k')); [reflexivity | exact IH].
Qed.

Lemma dict_get_del_eq (d : list (K * V)) (k : K) :
  dict_get (dict_del d k) k = None.
Proof.
  induction d as [|[k' v'] d IH]; simpl; [reflexivity|].
  destruct (decide (k' = k)) as [E|E]; simpl; [exact IH|].
  destruct (decide (k' = k)); [congruence | exact IH].
Qed.

Lemma dict_get_del_ne (d : list (K * V)) (k k' : K) :
  k <> k' -> dict_get (dict_del d k) k' = dict_get d k'.
Proof.
  intros Hne. induction d as [|[k0 v0] d IH]; simpl; [reflexivity|].
  destruct (decide (k0 = k)) as [E|E]; simpl.
  - subst k0. destruct (decide (k = k')); [congruence | exact IH].
  - destruct (decide (k0 = k')); [reflexivity | exact IH].
Qed.
End Dict_facts.

Lemma str_eqb_eq (a b : str) : str_eqb a b = true <-> a = b.
Proof.
  revert b. induction a as [|x a IH]; intros [|y b]; simpl;
    try (split; [discriminate | congruence]); [tauto|].
  rewrite andb_true_iff, N.eqb_eq, IH. split.
  - intros [-> ->]. reflexivity.
  - intros E. injection E as -> ->. split; reflexivity.
Qed.

Lemma str_eqb_refl (a : str) : str_eqb a a = true.
Proof. apply str_eqb_eq. reflexivity. Qed.

Lemma mem_In (x : str) (s : list str) : mem x s = true <-> In x s.
Proof.
  unfold mem. rewrite existsb_exists. split.
  - intros (y & Hy & E). apply str_eqb_eq in E. subst y. exact Hy.
  - intros Hx. exists x. split; [exact Hx | apply str_eqb_refl].
Qed.

Lemma mem_false (x : str) (s : list str) : mem x s = false <-> ~ In x s.
Proof.
  rewrite <- mem_In. destruct (mem x s); split; congruence.
Qed.

Lemma for_each_inv {A S} (I : S -> Prop) (l : list A) (body : S -> A -> res S)
    (s s' : S) :
  (forall s a s', I s -> body s a = Ok s' -> I s') ->
  I s -> for_each l body s = Ok s' -> I s'.
Proof.
  intros Hstep. revert s. induction l as [|a l IH]; intros s Hs H.
  - injection H as <-. exact Hs.
  - cbn [for_each] in H. destruct (body s a) as [s1|e] eqn:Hb; [|discriminate].
    exact (IH s1 (Hstep _ _ _ Hs Hb) H).
Qed.

Lemma res_bind_Ok_inv {A B} (r : res A) (f : A -> res B) (b : B) :
  r ≫= f = Ok b -> exists a, r = Ok a /\ f a = Ok b.
Proof. destruct r as [a|e]; [intros H; exists a; auto | discriminate]. Qed.

(** ** Properties of the partitioner *)


Lemma glob_tokens_plain_star (p : str) (fuel : nat) :
  plain p = true -> (List.length p < fuel)%nat ->
  glob_tokens fuel (p ++ [star]) = List.map GLit p ++ [GStar].
Proof.
  revert fuel. induction p as [|c p IH]; intros fuel Hp Hf.
  - destruct fuel as [|fuel]; [simpl in Hf; lia|].
    destruct fuel; reflexivity.
  - destruct fuel as [|fuel]; [simpl in Hf; lia|].
    simpl in Hp. apply andb_true_iff in Hp as [Hc Hp].
    apply negb_true_iff in Hc.
    apply orb_false_iff in Hc as [Hc Hb].
    apply orb_false_iff in Hc as [Hs Hq].
    simpl. rewrite Hs, Hq, Hb. f_equal.
    apply IH; [exact Hp | simpl in Hf; lia].
Qed.

Lemma glob_match_star_nil (s : str) : glob_match [GStar] s = true.
Proof. induction s as [|x s IH]; [reflexivity | exact IH]. Qed.

Lemma glob_match_prefix (p s : str) :
  glob_match (List.map GLit p ++ [GStar]) s = startswith s p.
Proof.
  revert s. induction p as [|c p IH]; intros s.
  - simpl List.map. simpl app. rewrite glob_match_star_nil. reflexivity.
  - destruct s as [|x s]; [reflexivity|].
    simpl. rewrite <- IH. reflexivity.
Qed.

(** A pattern made of a plain prefix and a final [*] matches exactly
    the names that start with the prefix. *)
Lemma fnmatchcase_prefix (p s : str) :
  plain p = true -> fnmatchcase s (p ++ [star]) = startswith s p.
Proof.
  intros Hp. unfold fnmatchcase.
  rewrite glob_tokens_plain_star; [apply glob_match_prefix | exact Hp |].
  rewrite length_app. simpl. lia.
Qed.

Lemma fnmatchcase_letter (c : char) (s : str) :
  97 <= c <= 122 ->
  fnmatchcase s ([c] ++ [star]) = match s with x :: _ => x =? c | [] => false end.
Proof.
  intros Hc. rewrite fnmatchcase_prefix.
  - destruct s as [|x s]; [reflexivity|]. simpl. apply andb_true_r.
  - unfold plain, star, qmark, lbracket. simpl.
    rewrite andb_true_r. apply negb_true_iff.
    repeat (apply orb_false_iff; split); apply N.eqb_neq; lia.
Qed.

Lemma alphabet_tail (i : nat) :
  skipn i alphabet = List.map (fun j => [97 + N.of_nat j]) (seq i (26 - i)).
Proof.
  unfold alphabet. rewrite skipn_map, skipn_seq. reflexivity.
Qed.

(** The letter patterns after position [i] match exactly the names
    whose first character is a lowercase letter after that position. *)
Lemma letter_patterns_match (i : nat) (u : str) :
  matches_any u (List.map (fun p => p ++ [star]) (skipn i alphabet)) = true <->
  exists c rest, u = c :: rest /\ 97 + N.of_nat i <= c <= 122.
Proof.
  unfold matches_any. rewrite existsb_exists. split.
  - intros (pat & Hin & Hm).
    apply in_map_iff in Hin as (p & <- & Hin).
    rewrite alphabet_tail in Hin.
    apply in_map_iff in Hin as (j & <- & Hj). apply in_seq in Hj.
    rewrite fnmatchcase_letter in Hm by lia.
    destruct u as [|x rest]; [discriminate|].
    apply N.eqb_eq in Hm. subst x.
    exists (97 + N.of_nat j), rest. split; [reflexivity | lia].
  - intros (c & rest & -> & Hc).
    exists ([c] ++ [star]). split.
    + apply in_map_iff. exists [c]. split; [reflexivity|].
      rewrite alphabet_tail. apply in_map_iff.
      exists (N.to_nat (c - 97)). split.
      * f_equal. lia.
      * apply in_seq. lia.
    + rewrite fnmatchcase_letter by lia. apply N.eqb_refl.
Qed.

Lemma alphabet_index_lower_bound (c : char) (i : nat) :
  alphabet_index_lower c = Some i -> (i < 26)%nat.
Proof.
  unfold alphabet_index_lower. intros H.
  destruct ((97 <=? c) && (c <=? 122)) eqn:E1.
  - apply andb_true_iff in E1 as [?%N.leb_le ?%N.leb_le]. injection H as <-. lia.
  - destruct ((65 <=? c) && (c <=? 90)) eqn:E2.
    + apply andb_true_iff in E2 as [?%N.leb_le ?%N.leb_le]. injection H as <-. lia.
    + destruct (c =? 8490); [injection H as <-; lia | discriminate].
Qed.

Lemma glob_tokens_no_bracket (p : str) (fuel : nat) :
  no_bracket p = true -> (List.length p < fuel)%nat ->
  glob_tokens fuel (p ++ [star]) = List.map token_of p ++ [GStar].
Proof.
  revert fuel. induction p as [|c p IH]; intros fuel Hp Hf.
  - destruct fuel as [|fuel]; [simpl in Hf; lia|].
    destruct fuel; reflexivity.
  - destruct fuel as [|fuel]; [simpl in Hf; lia|].
    simpl in Hp. apply andb_true_iff in Hp as [Hc Hp].
    apply negb_true_iff in Hc.
    assert (IH' := IH fuel Hp ltac:(simpl in Hf; lia)).
    simpl. unfold token_of. rewrite Hc.
    destruct (c =? star); [f_equal; exact IH'|].
    destruct (c =? qmark); f_equal; exact IH'.
Qed.

Lemma glob_match_star_step (ts : list gtok) (x : char) (s : str) :
  glob_match (GStar :: ts) (x :: s) =
  glob_match ts (x :: s) || glob_match (GStar :: ts) s.
Proof. reflexivity. Qed.

Lemma glob_match_star_empty (ts : list gtok) (s : str) :
  glob_match ts s = true -> glob_match (GStar :: ts) s = true.
Proof. intros H. destruct s; simpl; rewrite H; reflexivity. Qed.

(** Without brackets, a pattern matches its own text, whatever
    follows a final [*]. *)
Lemma glob_match_own_text (p rest : str) :
  glob_match (List.map token_of p ++ [GStar]) (p ++ rest) = true.
Proof.
  induction p as [|c p IH].
  - apply glob_match_star_nil.
  - change (glob_match (token_of c :: (List.map token_of p ++ [GStar]))
              (c :: (p ++ rest)) = true).
    unfold token_of at 1.
    destruct (c =? star).
    + rewrite glob_match_star_step.
      rewrite (glob_match_star_empty _ _ IH). apply orb_true_r.
    + destruct (c =? qmark); simpl; [exact IH|].
      rewrite N.eqb_refl. exact IH.
Qed.

Lemma startswith_app (s p : str) :
  startswith s p = true -> exists rest, s = p ++ rest.
Proof.
  revert s. induction p as [|y p IH]; intros s H.
  - exists s. reflexivity.
  - destruct s as [|x s]; [discriminate|]. simpl in H.
    apply andb_true_iff in H as [Hx Hs]. apply N.eqb_eq in Hx. subst y.
    destruct (IH s Hs) as [rest ->]. exists rest. reflexivity.
Qed.

Lemma fnmatchcase_own_prefix (start u : str) :
  no_bracket start = true -> startswith u start = true ->
  fnmatchcase u (start ++ [star]) = true.
Proof.
  intros Hb Hs. destruct (startswith_app _ _ Hs) as [rest ->].
  unfold fnmatchcase. rewrite glob_tokens_no_bracket.
  - apply glob_match_own_text.
  - exact Hb.
  - rewrite length_app. simpl. lia.
Qed.

Lemma matches_any_cons (u pat : str) (pats : list str) :
  matches_any u (pat :: pats) = fnmatchcase u pat || matches_any u pats.
Proof. reflexivity. Qed.

(** What the alphabet branch returns for a resume cursor. *)
Lemma make_user_patterns_start (start : str) (restrict : option (list str)) (i : nat) :
  nonempty restrict = None ->
  alphabet_index_lower (hd 0 start) = Some i ->
  _make_user_patterns (Some start) restrict =
  Ok ((start ++ [star])
        :: List.map (fun p => p ++ [star]) (skipn (S i) alphabet)).
Proof.
  intros Hr Hi. unfold _make_user_patterns. rewrite Hr.
  destruct start as [|c start]; [discriminate|].
  simpl nonempty. cbv iota. rewrite Hi. reflexivity.
Qed.

(** For a cursor without glob characters the patterns match exactly
    the names that extend the cursor or begin with a later letter. *)
Lemma patterns_match_iff (start u : str) (i : nat) :
  plain start = true ->
  matches_any u ((start ++ [star])
                   :: List.map (fun p => p ++ [star]) (skipn (S i) alphabet)) = true
  <-> startswith u start = true
      \/ exists c rest, u = c :: rest /\ 97 + N.of_nat (S i) <= c <= 122.
Proof.
  intros Hp. rewrite <- letter_patterns_match.
  rewrite matches_any_cons.
  rewrite fnmatchcase_prefix by exact Hp.
  apply orb_true_iff.
Qed.

Lemma dict_set_In {V} (d : list (str * V)) (k k' : str) (v v' : V) :
  In (k', v') (dict_set d k v) -> In (k', v') d \/ v' = v.
Proof.
  induction d as [|[k0 v0] d IH]; simpl.
  - intros [[= _ <-]|[]]. right. reflexivity.
  - destruct (decide (k0 = k)); simpl.
    + intros [[= _ <-]|H]; [right; reflexivity | left; right; exact H].
    + intros [E|H]; [left; left; exact E|]. destruct (IH H); tauto.
Qed.

Lemma from_start_spec (start : str) (people kept : list (list (str * pyval))) :
  from_start start people = Ok kept -> Forall (not_below start) kept.
Proof.
  unfold from_start. apply for_each_inv; [|constructor].
  intros s u s' Hs Hb. apply res_bind_Ok_inv in Hb as (username & Hu & Hb).
  destruct (str_geb username start) eqn:Hge; injection Hb as <-; [|exact Hs].
  apply Forall_app. split; [exact Hs|]. repeat constructor.
  exists username. split; [exact Hu|]. apply negb_true_iff. exact Hge.
Qed.

(** With a cursor, the fetch keeps no record below it. *)
Lemma pull_from_fas_spec
    fas_instances (start : str) (restrict : option (list str))
    (result : list (str * list (list (str * pyval)))) :
  start <> [] ->
  pull_from_fas fas_instances (Some start) restrict = Ok result ->
  forall fas_name users, In (fas_name, users) result -> Forall (not_below start) users.
Proof.
  intros Hne H. unfold pull_from_fas in H.
  apply res_bind_Ok_inv in H as (user_patterns & _ & H).
  revert H.
  apply (for_each_inv
           (fun r => forall fas_name users,
                       In (fas_name, users) r -> Forall (not_below start) users));
    [|intros fas_name users []].
  intros s [name send_request] s' Hs Hb fas_name users Hin.
  apply res_bind_Ok_inv in Hb as (matched & Hm & Hb). injection Hb as <-.
  apply dict_set_In in Hin as [Hin | ->]; [exact (Hs _ _ Hin)|].
  revert Hm. apply for_each_inv; [|constructor].
  intros m pattern m' Hgood Hb.
  apply res_bind_Ok_inv in Hb as (found & _ & Hb).
  destruct start as [|c start]; [congruence|]. simpl nonempty in Hb. cbv iota in Hb.
  apply res_bind_Ok_inv in Hb as (kept & Hk & Hb). injection Hb as <-.
  apply Forall_app. split; [exact Hgood | exact (from_start_spec _ _ _ Hk)].
Qed.

(** C1: with the cursor [bob] and no restriction the patterns returned
    are [bob*], [c*], ..., [z*]: the whole cursor is the prefix of the
    first pattern, where the design has the letter of the cursor.  The
    username [boc] is not below the cursor, and the filter of the fetch
    keeps it, yet no returned pattern matches it; the pattern [b*]
    matches it, and it is the first of the patterns the design document
    words for this cursor, which cover [boc]. *)
Theorem partition_misses_boc :
  _make_user_patterns (Some (lit "bob")) (Some [])
  = Ok (List.map lit
          ["bob*"; "c*"; "d*"; "e*"; "f*"; "g*"; "h*"; "i*"; "j*"; "k*"; "l*";
           "m*"; "n*"; "o*"; "p*"; "q*"; "r*"; "s*"; "t*"; "u*"; "v*"; "w*";
           "x*"; "y*"; "z*"]%string)
  /\ str_geb (lit "boc") (lit "bob") = true
  /\ (forall pats,
        _make_user_patterns (Some (lit "bob")) (Some []) = Ok pats ->
        matches_any (lit "boc") pats = false)
  /\ fnmatchcase (lit "boc") (lit "b*") = true
  /\ from_start (lit "bob")
       [record_of "boa" "boa@example.org"; record_of "boc" "boc@example.org"]
     = Ok [record_of "boc" "boc@example.org"]
  /\ spec_letter_patterns (lit "bob")
     = Ok (List.map lit
             ["b*"; "c*"; "d*"; "e*"; "f*"; "g*"; "h*"; "i*"; "j*"; "k*"; "l*";
              "m*"; "n*"; "o*"; "p*"; "q*"; "r*"; "s*"; "t*"; "u*"; "v*"; "w*";
              "x*"; "y*"; "z*"]%string)
  /\ (forall pats,
        spec_letter_patterns (lit "bob") = Ok pats ->
        matches_any (lit "boc") pats = true).
Proof.
  split; [reflexivity|]. split; [reflexivity|]. split.
  { intros pats H. vm_compute in H. injection H as <-. vm_compute. reflexivity. }
  split; [vm_compute; reflexivity|]. split; [vm_compute; reflexivity|].
  split; [vm_compute; reflexivity|].
  intros pats H. vm_compute in H. injection H as <-. vm_compute. reflexivity.
Qed.

(** C4: with the cursor [bob], the restriction [b*] is dropped although
    its maximal match is not below the cursor (and [b*] matches [bob]):
    the text put in place of [*] starts with U+0010. *)
Theorem restrict_drops_pattern_above_start :
  _make_user_patterns (Some (lit "bob")) (Some [lit "b*"]) = Ok []
  /\ str_geb (maximal_match (lit "b*")) (lit "bob") = true
  /\ fnmatchcase (lit "bob") (lit "b*") = true.
Proof. repeat split; vm_compute; reflexivity. Qed.


(** A cursor that does not begin with a letter: [alphabet.index]
    raises [ValueError]. *)
Example cursor_without_letter_raises :
  _make_user_patterns (Some (lit "9lives")) None = Raise ValueError.
Proof. reflexivity. Qed.

(** A cursor with a bracket expression: its own pattern reads the
    bracket as a set, and a username that extends the cursor is not
    matched. *)
Example cursor_with_bracket_is_a_set :
  exists pats,
    _make_user_patterns (Some (lit "a[b]")) None = Ok pats
    /\ startswith (lit "a[b]c") (lit "a[b]") = true
    /\ matches_any (lit "a[b]c") pats = false
    /\ matches_any (lit "abc") pats = true.
Proof. eexists. split; [reflexivity|]. repeat split; vm_compute; reflexivity. Qed.

(** Without a cursor and without restriction: one pattern per letter. *)
Example patterns_without_cursor :
  _make_user_patterns None None = Ok (List.map (fun p => p ++ [star]) alphabet)
  /\ _make_user_patterns (Some []) (Some [])
     = Ok (List.map (fun p => p ++ [star]) alphabet).
Proof. split; reflexivity. Qed.

(** ** Properties of the conflict detector *)

Lemma set_remove_absent (s : list str) (x : str) :
  mem x s = false -> set_remove s x = s.
Proof.
  intros H. apply mem_false in H. unfold set_remove.
  induction s as [|y s IH]; [reflexivity|]. simpl.
  destruct (str_eqb x y) eqn:E.
  - apply str_eqb_eq in E. subst y. exfalso. apply H. left. reflexivity.
  - simpl. f_equal. apply IH. intros Hin. apply H. right. exact Hin.
Qed.

Lemma details_record_eq (uc : conflicts) (k : conflict_kind) (d : conflict_detail) :
  details (record_conflict uc k d) k = details uc k ++ [d].
Proof. unfold record_conflict, details at 1. rewrite dict_get_set_eq. reflexivity. Qed.

Lemma details_record_ne (uc : conflicts) (k k' : conflict_kind) (d : conflict_detail) :
  k <> k' -> details (record_conflict uc k d) k' = details uc k'.
Proof.
  intros Hne. unfold record_conflict, details at 1.
  rewrite dict_get_set_ne by exact Hne. reflexivity.
Qed.

(** The self-reference step on an address that names realm [R]. *)
Lemma check_self_reference_spec
    (domains_fas : list (str * str)) (username : str) (uc : conflicts)
    (email_address : str) (fas_names : list str) (domain R : str) :
  rsplit1 email_address at_sign = Some (username, domain) ->
  dict_get domains_fas domain = Some R ->
  R <> [] ->
  exists uc',
    check_self_reference domains_fas username uc email_address fas_names
      = Ok (uc', [])
    /\ details uc' circular_email
       = details uc circular_email ++ circular_of R email_address fas_names
    /\ details uc' email_pointing_to_other_fas
       = details uc email_pointing_to_other_fas
           ++ pointing_of R email_address fas_names
    /\ details uc' email_address_conflicts = details uc email_address_conflicts.
Proof.
  intros Hsplit Hdom HR. unfold check_self_reference.
  rewrite Hsplit, Hdom. destruct R as [|r R]; [congruence|].
  simpl nonempty. cbv iota. rewrite str_eqb_refl.
  unfold circular_of, pointing_of.
  destruct (mem (r :: R) fas_names) eqn:Hm.
  - destruct (set_remove fas_names (r :: R)) as [|f rest] eqn:Hrem.
    + eexists. split; [reflexivity|].
      rewrite details_record_eq, !details_record_ne by discriminate.
      rewrite app_nil_r. auto.
    + eexists. split; [reflexivity|].
      rewrite details_record_eq.
      rewrite !(details_record_ne _ email_pointing_to_other_fas) by discriminate.
      rewrite details_record_eq, !details_record_ne by discriminate. auto.
  - rewrite (set_remove_absent _ _ Hm). destruct fas_names as [|f rest].
    + eexists. split; [reflexivity|]. rewrite !app_nil_r. auto.
    + eexists. split; [reflexivity|].
      rewrite details_record_eq, !details_record_ne by discriminate.
      rewrite app_nil_r. auto.
Qed.

Lemma rsplit1_none (s : str) (sep : char) :
  forallb (fun c => negb (c =? sep)) s = true -> rsplit1 s sep = None.
Proof.
  induction s as [|c s IH]; [reflexivity|]. simpl.
  intros [Hc Hs]%andb_true_iff. rewrite (IH Hs).
  apply negb_true_iff in Hc. rewrite Hc. reflexivity.
Qed.

Lemma set_remove_keeps (s : list str) (x y : str) :
  In y s -> y <> x -> In y (set_remove s x).
Proof.
  intros Hin Hne. unfold set_remove. apply filter_In. split; [exact Hin|].
  apply negb_true_iff. destruct (str_eqb x y) eqn:E; [|reflexivity].
  apply str_eqb_eq in E. congruence.
Qed.

Lemma set_add_fresh (s : list str) (x : str) :
  ~ In x s -> set_add s x = s ++ [x].
Proof.
  intros H. unfold set_add. apply mem_false in H. rewrite H. reflexivity.
Qed.

(** Records that all carry one email address form one group, which
    holds their realms. *)
Lemma group_by_email_same
    (fas_to_user_obj : list (str * list (str * pyval))) (email : str)
    (fas_name : str) (user_obj : list (str * pyval)) :
  (forall f obj, In (f, obj) ((fas_name, user_obj) :: fas_to_user_obj) ->
                 get_str obj (lit "email") = Ok email) ->
  NoDup (List.map fst ((fas_name, user_obj) :: fas_to_user_obj)) ->
  group_by_email ((fas_name, user_obj) :: fas_to_user_obj)
  = Ok [(email, List.map fst ((fas_name, user_obj) :: fas_to_user_obj))].
Proof.
  intros Hemail Hnd. unfold group_by_email. cbn [for_each].
  rewrite (Hemail fas_name user_obj) by (left; reflexivity).
  cbn [mbind res_bind dict_get dict_set set_add mem existsb app].
  assert (Hgen : forall l s,
    (forall f obj, In (f, obj) l -> get_str obj (lit "email") = Ok email) ->
    NoDup (s ++ List.map fst l) ->
    for_each l
      (fun acc '(fas_name, user_obj) =>
         email ← get_str user_obj (lit "email");
         let old := match dict_get acc email with Some s => s | None => [] end in
         Ok (dict_set acc email (set_add old fas_name)))
      [(email, s)]
    = Ok [(email, s ++ List.map fst l)]).
  { induction l as [|[f obj] l IH]; intros s He Hn.
    - simpl. rewrite app_nil_r. reflexivity.
    - cbn [for_each]. rewrite (He f obj) by (left; reflexivity).
      cbn [mbind res_bind dict_get dict_set].
      destruct (decide (email = email)) as [_|]; [|congruence].
      rewrite set_add_fresh.
      + rewrite IH.
        * cbn [List.map fst]. rewrite <- app_assoc. reflexivity.
        * intros f' obj' Hin. apply (He f' obj'). right. exact Hin.
        * cbn [List.map fst] in Hn. rewrite <- app_assoc. exact Hn.
      + cbn [List.map fst] in Hn. apply NoDup_ListNoDup in Hn.
        apply List.NoDup_remove_2 in Hn.
        intros Hin. apply Hn. apply in_or_app. left. exact Hin. }
  apply (Hgen fas_to_user_obj [fas_name]).
  - intros f obj Hin. apply (Hemail f obj). right. exact Hin.
  - exact Hnd.
Qed.

(** A username whose records all carry one self-referential address,
    naming a realm that holds the username: one [circular_email] and one
    [email_pointing_to_other_fas], no [email_address_conflicts]. *)
Lemma check_user_single_email
    (domains_fas : list (str * str)) (username email domain R other : str)
    (fas_to_user_obj : list (str * list (str * pyval))) :
  rsplit1 email at_sign = Some (username, domain) ->
  dict_get domains_fas domain = Some R ->
  R <> [] ->
  (forall f obj, In (f, obj) fas_to_user_obj ->
                 get_str obj (lit "email") = Ok email) ->
  NoDup (List.map fst fas_to_user_obj) ->
  In R (List.map fst fas_to_user_obj) ->
  In other (List.map fst fas_to_user_obj) ->
  other <> R ->
  exists uc,
    check_user domains_fas username fas_to_user_obj = Ok uc
    /\ details uc circular_email = [CircularEmail R email]
    /\ details uc email_pointing_to_other_fas
       = [EmailPointingToOtherFas R email
            (set_remove (List.map fst fas_to_user_obj) R)]
    /\ details uc email_address_conflicts = [].
Proof.
  intros Hsplit Hdom HR Hemail Hnd HinR Hother Hne.
  destruct fas_to_user_obj as [|[f0 obj0] rest]; [destruct HinR|].
  unfold check_user. rewrite (group_by_email_same rest email f0 obj0 Hemail Hnd).
  set (realms := List.map fst ((f0, obj0) :: rest)) in *.
  cbn [mbind res_bind check_self_references].
  destruct (check_self_reference_spec domains_fas username [] email realms
              domain R Hsplit Hdom HR) as (uc' & -> & Hc & Hp & Ha).
  cbn [mbind res_bind]. eexists. split; [reflexivity|].
  unfold check_address_conflicts. cbn [List.filter List.length Nat.ltb Nat.leb].
  rewrite Hc, Hp, Ha. unfold circular_of, pointing_of.
  apply mem_In in HinR. rewrite HinR.
  pose proof (set_remove_keeps realms R other Hother Hne) as Hkeep.
  destruct (set_remove realms R) as [|x xs]; [destruct Hkeep|].
  repeat split; reflexivity.
Qed.

(** C6, as stated, fails: [alice] is held by realms A and B with the
    only email address [alice@realmB.example]; besides the
    [circular_email] conflict an [email_pointing_to_other_fas] conflict
    is recorded. *)
Lemma single_self_reference_records_two_conflicts :
  find_user_conflicts two_realms
    [(lit "A", [record_of "alice" "alice@realmB.example"]);
     (lit "B", [record_of "alice" "alice@realmB.example"])]
  = Ok [(lit "alice",
         [(circular_email,
           [CircularEmail (lit "B") (lit "alice@realmB.example")]);
          (email_pointing_to_other_fas,
           [EmailPointingToOtherFas (lit "B") (lit "alice@realmB.example")
              [lit "A"]])])].
Proof. vm_compute. reflexivity. Qed.

(** What lines 594-607 add: when more than one address keeps a realm,
    an entry for every address, emptied or not. *)
Lemma check_address_conflicts_spec (uc : conflicts) (emails : list (str * list str)) :
  details (check_address_conflicts uc emails) email_address_conflicts
  = details uc email_address_conflicts
      ++ (if (1 <? List.length
                     (List.filter
                        (fun '(e, fas_names) =>
                           match fas_names with [] => false | _ :: _ => true end)
                        emails))%nat
          then List.map (fun '(e, fas_names) => EmailAddressConflict e fas_names) emails
          else []).
Proof.
  unfold check_address_conflicts.
  destruct (1 <? _)%nat; [|rewrite app_nil_r; reflexivity].
  revert uc. induction emails as [|[e s] emails IH]; intros uc.
  - simpl. rewrite app_nil_r. reflexivity.
  - cbn [fold_left List.map]. rewrite IH, details_record_eq, <- app_assoc.
    reflexivity.
Qed.

(** C3: [alice] is held by realms A, B and C; the address of realm C
    names realm A, so step 2 empties its realm set, and two addresses
    keep a realm.  Three [email_address_conflicts] entries are recorded,
    one of them for the emptied address. *)
Theorem emptied_address_gets_conflict_entry :
  exists uc,
    find_user_conflicts three_realms
      [(lit "A", [record_of "alice" "alice@x.example"]);
       (lit "B", [record_of "alice" "alice@y.example"]);
       (lit "C", [record_of "alice" "alice@realmA.example"])]
    = Ok [(lit "alice", uc)]
    /\ details uc email_pointing_to_other_fas
       = [EmailPointingToOtherFas (lit "A") (lit "alice@realmA.example") [lit "C"]]
    /\ details uc email_address_conflicts
       = [EmailAddressConflict (lit "alice@x.example") [lit "A"];
          EmailAddressConflict (lit "alice@y.example") [lit "B"];
          EmailAddressConflict (lit "alice@realmA.example") []].
Proof. eexists. repeat split; vm_compute; reflexivity. Qed.

(** ** Properties of [migrate_user] *)

Lemma bind_run {A B} (m : M A) (f : A -> M B) (w : world) :
  (m ≫= f) w =
  match m w with
  | (Done a, w') => f a w'
  | (Raised e, w') => (Raised e, w')
  | (OutOfFuel, w') => (OutOfFuel, w')
  end.
Proof. reflexivity. Qed.

(** [pop] on the newest object of the heap. *)
Lemma dict_pop_last
    (h : list (list (str * pyval))) (d : list (str * pyval))
    (s : list reply) (lg : list event) (k : str) :
  dict_pop (List.length h) k {| heap := h ++ [d]; script := s; log := lg |} =
  match dict_get d k with
  | Some v => (Done v, {| heap := h ++ [dict_del d k]; script := s; log := lg |})
  | None => (Raised (KeyError k), {| heap := h ++ [d]; script := s; log := lg |})
  end.
Proof.
  unfold dict_pop. rewrite bind_run. unfold load. cbn [heap].
  rewrite list_lookup_middle by reflexivity.
  destruct (dict_get d k) as [v|]; [|reflexivity].
  rewrite bind_run. unfold store. cbn [heap script log].
  rewrite insert_app_r_alt by reflexivity. rewrite Nat.sub_diag. reflexivity.
Qed.

(** Popping the processed keys changes the newest object only, never
    runs out of fuel, and hands back the value the object held under
    each key. *)
Lemma pop_processed_last
    (h : list (list (str * pyval))) (d : list (str * pyval))
    (s : list reply) (lg : list event) :
  exists o d',
    pop_processed (List.length h) {| heap := h ++ [d]; script := s; log := lg |}
    = (o, {| heap := h ++ [d']; script := s; log := lg |})
    /\ o <> OutOfFuel
    /\ forall f, o = Done f -> dict_get d (lit "human_name") = Some (p_human_name f).
Proof.
  unfold pop_processed.
  rewrite bind_run, dict_pop_last.
  destruct (dict_get d (lit "username")) as [username|];
    [|eexists _, _; split; [reflexivity | split; [discriminate | discriminate]]].
  rewrite bind_run, dict_pop_last.
  destruct (dict_get (dict_del d (lit "username")) (lit "human_name"))
    as [human_name|] eqn:Hhn;
    [|eexists _, _; split; [reflexivity | split; [discriminate | discriminate]]].
  rewrite dict_get_del_ne in Hhn by (vm_compute; discriminate).
  repeat
    (rewrite bind_run, dict_pop_last;
     match goal with
     | |- context [match dict_get ?x ?k with _ => _ end] =>
         destruct (dict_get x k);
         [|eexists _, _; split; [reflexivity | split; [discriminate | discriminate]]]
     end).
  eexists _, _. split; [reflexivity|]. split; [discriminate|].
  intros f [= <-]. exact Hhn.
Qed.

Lemma count_app (f : event -> bool) (a b : list event) :
  count f (a ++ b) = (count f a + count f b)%nat.
Proof. induction a as [|e a IH]; simpl; [reflexivity | rewrite IH; lia]. Qed.

Lemma expiries_le_raises (evs : list event) : (expiries evs <= raises evs)%nat.
Proof.
  induction evs as [|e evs IH]; [reflexivity|].
  cbn [count].
  assert ((if is_expiry e then 1 else 0) <= (if is_raise e then 1 else 0))%nat.
  { destruct e as [c r| | | | |]; try (simpl; lia).
    destruct c, r as [v|[]]; try (simpl; lia);
      match goal with cls : ipa_class |- _ => destruct cls; simpl; lia end. }
  lia.
Qed.

(** One call to the directory: one event, and a scripted reply used
    up when the call raises. *)
Lemma ipa_run (c : call) (w : world) :
  exists r s',
    ipa c w = (outcome_of r,
               {| heap := heap w; script := s'; log := log w ++ [Called c r] |})
    /\ (List.length s' + raises [Called c r] <= List.length (script w))%nat.
Proof.
  unfold ipa. destruct (script w) as [|r s'] eqn:Hs.
  - exists (default_reply c), []. split.
    + destruct c; reflexivity.
    + destruct c; simpl; lia.
  - exists r, s'. split.
    + destruct r; reflexivity.
    + destruct r; simpl; lia.
Qed.

Lemma strip_or_none_local (v : pyval) (e : exn) :
  strip_or_none v = Raise e -> local e.
Proof.
  unfold strip_or_none. destruct (truthy v); [|discriminate].
  destruct v; intros [= <-]; exact I.
Qed.

Lemma build_user_args_shape
    (username : pyval) (name first_name last_name : str)
    (status email ircnick locale timezone gpg_keyid ssh_key creation privacy : pyval) :
  match build_user_args username name first_name last_name status email
          ircnick locale timezone gpg_keyid ssh_key creation privacy with
  | Ok user_args =>
      item user_args (lit "first_name") = VStr first_name
      /\ item user_args (lit "last_name") = VStr last_name
      /\ item user_args (lit "full_name") = VStr name
  | Raise e => local e
  end.
Proof.
  unfold build_user_args.
  destruct (ssh_keys ssh_key) as [v1|e] eqn:E1; cbn [mbind res_bind].
  { destruct (strip_or_none ircnick) as [v2|e] eqn:E2; cbn [mbind res_bind];
      [|exact (strip_or_none_local _ _ E2)].
    destruct (strip_or_none locale) as [v3|e] eqn:E3; cbn [mbind res_bind];
      [|exact (strip_or_none_local _ _ E3)].
    destruct (strip_or_none timezone) as [v4|e] eqn:E4; cbn [mbind res_bind];
      [|exact (strip_or_none_local _ _ E4)].
    destruct (gpg_key_ids gpg_keyid) as [v5|e] eqn:E5; cbn [mbind res_bind].
    - destruct status; cbn [mbind res_bind]; try exact I.
      destruct creation; cbn [mbind res_bind]; try exact I.
      repeat split; reflexivity.
    - unfold gpg_key_ids in E5. destruct (truthy gpg_keyid); [|discriminate].
      destruct gpg_keyid; first [discriminate | injection E5 as <-; exact I]. }
  unfold ssh_keys in E1. destruct (truthy ssh_key); [|discriminate].
  destruct ssh_key; first [discriminate | injection E1 as <-; exact I].
Qed.

Lemma span_refl (w : world) : span w w [] [].
Proof. split; [symmetry; apply app_nil_r | symmetry; apply app_nil_r | simpl; lia]. Qed.

Lemma span_trans (w w1 w2 : world) (ext1 ext2 : list (list (str * pyval)))
    (evs1 evs2 : list event) :
  span w w1 ext1 evs1 -> span w1 w2 ext2 evs2 ->
  span w w2 (ext1 ++ ext2) (evs1 ++ evs2).
Proof.
  intros [H1 L1 S1] [H2 L2 S2]. split.
  - rewrite H2, H1, app_assoc. reflexivity.
  - rewrite L2, L1, app_assoc. reflexivity.
  - rewrite count_app. lia.
Qed.

Section Quiet.
Context (clean : Prop).

Lemma quiet_weaken {A} (owed owed' : Prop) (w : world) (r : outcome A * world) :
  (owed -> owed') -> quiet clean owed w r -> quiet clean owed' w r.
Proof.
  intros Hw (evs & Hs & Hf & Hr & Hc & He).
  refine (ex_intro _ evs (conj Hs (conj Hf (conj Hr (conj Hc _))))).
  intros e H1 H2. destruct (He e H1 H2); [left; auto | right; assumption].
Qed.

Lemma quiet_raise {A} (owed : Prop) (e : exn) (w : world) :
  (is_unauthorized e -> owed) -> @quiet A clean owed w (Raised e, w).
Proof.
  intros Ho. exists []. split; [apply span_refl|].
  split; [discriminate|]. split; [reflexivity|].
  split; [intros _; constructor|].
  intros e' [= <-] Hu. left. auto.
Qed.

Lemma quiet_ret {A} (a : A) (w : world) : quiet clean False w (Done a, w).
Proof.
  exists []. split; [apply span_refl|].
  split; [discriminate|]. split; [reflexivity|].
  split; [intros _; constructor|]. discriminate.
Qed.

Lemma quiet_lift {A} (r : res A) (w : world) :
  match r with Ok _ => True | Raise e => local e end ->
  quiet clean False w (lift r w).
Proof.
  destruct r as [a|e]; intros H.
  - apply quiet_ret.
  - apply quiet_raise. destruct e; try contradiction; simpl; auto.
Qed.

Lemma quiet_emit (m : message) (w : world) :
  quiet clean False w (emit (Print m) w).
Proof.
  exists [Print m]. split; [split; [symmetry; apply app_nil_r | reflexivity | simpl; lia]|].
  split; [discriminate|]. split; [reflexivity|].
  split; [intros _; repeat constructor|]. discriminate.
Qed.

Lemma quiet_ipa (c : call) (w : world) :
  (forall u p, c <> login u p) ->
  (clean -> forall r, update_with_name (Called c r) = false) ->
  quiet clean False w (ipa c w).
Proof.
  intros Hc Hclean. destruct (ipa_run c w) as (r & s' & -> & Hlen).
  exists [Called c r].
  split; [split; [symmetry; apply app_nil_r | reflexivity | exact Hlen]|].
  split; [destruct r; discriminate|].
  split; [destruct c; try reflexivity; exfalso; eapply Hc; reflexivity|].
  split; [intros H; constructor; [apply Hclean, H | constructor]|].
  intros e He Hu. right. destruct r as [v|e']; [discriminate|].
  injection He as ->. destruct e as [| | | |cls msg|]; try contradiction.
  destruct cls; try contradiction.
  destruct c; try (simpl; lia). exfalso. eapply Hc. reflexivity.
Qed.

Lemma quiet_bind {A B} (owed : Prop) (m : M A) (f : A -> M B) (w : world) :
  quiet clean owed w (m w) ->
  (forall a w', m w = (Done a, w') -> quiet clean False w' (f a w')) ->
  quiet clean owed w ((m ≫= f) w).
Proof.
  intros (evs & Hs & Hf & Hr & Hc & He) Hk. rewrite bind_run.
  destruct (m w) as [[a|e|] w'] eqn:Hm; simpl in *.
  - destruct (Hk a w' eq_refl) as (evs2 & Hs2 & Hf2 & Hr2 & Hc2 & He2).
    exists (evs ++ evs2).
    split; [exact (span_trans _ _ _ _ _ _ _ Hs Hs2)|].
    split; [exact Hf2|].
    split; [rewrite count_app; lia|].
    split; [intros H; apply Forall_app; split; auto|].
    intros e H1 H2. right. destruct (He2 e H1 H2) as [[]|H3].
    rewrite count_app. lia.
  - exists evs. split; [exact Hs|]. split; [discriminate|].
    split; [exact Hr|]. split; [exact Hc|].
    intros e0 [= <-] Hu. exact (He e eq_refl Hu).
  - congruence.
Qed.

(** A handler that is owed the expiry signal it may pass on. *)
Lemma quiet_catch {A} (m : M A) (h : exn -> M A) (w : world) :
  quiet clean False w (m w) ->
  (forall e w', quiet clean (is_unauthorized e) w' (h e w')) ->
  quiet clean False w (catch m h w).
Proof.
  intros (evs & Hs & Hf & Hr & Hc & He) Hh. unfold catch.
  destruct (m w) as [[a|e|] w'] eqn:Hm; simpl in *.
  - exact (ex_intro _ evs (conj Hs (conj Hf (conj Hr (conj Hc He))))).
  - destruct (Hh e w') as (evs2 & Hs2 & Hf2 & Hr2 & Hc2 & He2).
    exists (evs ++ evs2).
    split; [exact (span_trans _ _ _ _ _ _ _ Hs Hs2)|].
    split; [exact Hf2|].
    split; [rewrite count_app; lia|].
    split; [intros H; apply Forall_app; split; auto|].
    intros e2 H1 H2. right. rewrite count_app.
    destruct (He2 e2 H1 H2) as [Hu|H3]; [|lia].
    destruct (He e eq_refl Hu) as [[]|H4]. lia.
  - congruence.
Qed.
End Quiet.

(** *** The name fields of an update *)

Lemma dict_get_filter_None {V} (P : str * V -> bool) (d : list (str * V)) (k : str) :
  dict_get d k = None -> dict_get (List.filter P d) k = None.
Proof.
  induction d as [|[k' v] d IH]; simpl; [reflexivity|].
  destruct (decide (k' = k)) as [E|E]; [discriminate|]. intros H.
  destruct (P (k', v)); simpl; [|auto].
  destruct (decide (k' = k)); [congruence | auto].
Qed.

Lemma dict_get_filter_key {V} (P : str -> bool) (d : list (str * V)) (k : str) :
  P k = true -> dict_get (List.filter (fun kv => P (fst kv)) d) k = dict_get d k.
Proof.
  intros Hk. induction d as [|[k' v] d IH]; simpl; [reflexivity|].
  destruct (decide (k' = k)) as [E|E].
  - subst k'. rewrite Hk. simpl. destruct (decide (k = k)); congruence.
  - destruct (P k'); simpl; [|exact IH].
    destruct (decide (k' = k)); [congruence | exact IH].
Qed.

Lemma dict_has_set_ne {V} (d : list (str * V)) (k k' : str) (v : V) :
  k <> k' -> dict_has (dict_set d k v) k' = dict_has d k'.
Proof. intros H. unfold dict_has. rewrite dict_get_set_ne by exact H. reflexivity. Qed.

Lemma has_name_field_set (a : list (str * pyval)) (k : str) (v : pyval) :
  k <> lit "first_name" -> k <> lit "last_name" -> k <> lit "full_name" ->
  has_name_field (dict_set a k v) = has_name_field a.
Proof.
  intros H1 H2 H3. unfold has_name_field.
  rewrite !dict_has_set_ne by assumption. reflexivity.
Qed.

Lemma has_name_field_fill (a a' : list (str * pyval)) (ipa_user : pyval) :
  fill_defaults a ipa_user = Ok a' -> has_name_field a' = has_name_field a.
Proof.
  unfold fill_defaults.
  destruct (negb (truthy (item a (lit "faslocale")))).
  - destruct (py_get ipa_user (lit "faslocale")) as [v|e];
      cbn [mbind res_bind]; [|discriminate].
    destruct (negb (truthy (item _ (lit "fastimezone")))).
    + destruct (py_get ipa_user (lit "fastimezone")) as [v2|e];
        cbn [mbind res_bind]; [|discriminate].
      intros [= <-]. rewrite !has_name_field_set by (vm_compute; discriminate).
      reflexivity.
    + intros [= <-]. rewrite has_name_field_set by (vm_compute; discriminate).
      reflexivity.
  - cbn [mbind res_bind].
    destruct (negb (truthy (item a (lit "fastimezone")))).
    + destruct (py_get ipa_user (lit "fastimezone")) as [v2|e];
        cbn [mbind res_bind]; [|discriminate].
      intros [= <-]. apply has_name_field_set; vm_compute; discriminate.
    + intros [= <-]. reflexivity.
Qed.

Lemma fill_defaults_local (a : list (str * pyval)) (ipa_user : pyval) :
  match fill_defaults a ipa_user with Ok _ => True | Raise e => local e end.
Proof.
  assert (Hg : forall k e, py_get ipa_user k = Raise e -> local e).
  { intros k e. destruct ipa_user; simpl; intros [= <-]; exact I. }
  unfold fill_defaults.
  destruct (negb (truthy (item a (lit "faslocale")))).
  - destruct (py_get ipa_user (lit "faslocale")) as [v|e] eqn:E1;
      cbn [mbind res_bind]; [|exact (Hg _ _ E1)].
    destruct (negb (truthy (item _ (lit "fastimezone")))); [|exact I].
    destruct (py_get ipa_user (lit "fastimezone")) as [v2|e] eqn:E2;
      cbn [mbind res_bind]; [exact I | exact (Hg _ _ E2)].
  - cbn [mbind res_bind].
    destruct (negb (truthy (item a (lit "fastimezone")))); [|exact I].
    destruct (py_get ipa_user (lit "fastimezone")) as [v2|e] eqn:E2;
      cbn [mbind res_bind]; [exact I | exact (Hg _ _ E2)].
Qed.

Lemma has_name_field_drop_blank (a : list (str * pyval)) :
  has_name_field a = false -> has_name_field (drop_blank a) = false.
Proof.
  unfold has_name_field, dict_has, drop_blank. intros H.
  apply orb_false_iff in H as [H H3]. apply orb_false_iff in H as [H1 H2].
  destruct (dict_get a (lit "first_name")) eqn:E1; [discriminate|].
  destruct (dict_get a (lit "last_name")) eqn:E2; [discriminate|].
  destruct (dict_get a (lit "full_name")) eqn:E3; [discriminate|].
  rewrite !dict_get_filter_None by assumption. reflexivity.
Qed.

Lemma is_str_refl (s : str) : is_str (VStr s) s = true.
Proof. apply str_eqb_refl. Qed.

(** Placeholders in all three name fields: lines 352-357 delete them. *)
Lemma drop_placeholders_clean (user_args : list (str * pyval)) :
  item user_args (lit "first_name") = VStr first_name_unset ->
  item user_args (lit "last_name") = VStr last_name_unset ->
  item user_args (lit "full_name") = VStr full_name_unset ->
  has_name_field (drop_placeholders user_args) = false.
Proof.
  intros H1 H2 H3. unfold drop_placeholders.
  rewrite H1, is_str_refl.
  assert (E2 : item (dict_del user_args (lit "first_name")) (lit "last_name")
               = VStr last_name_unset).
  { unfold item. rewrite dict_get_del_ne by (vm_compute; discriminate). exact H2. }
  rewrite E2, is_str_refl.
  assert (E3 : item (dict_del (dict_del user_args (lit "first_name")) (lit "last_name"))
                 (lit "full_name") = VStr full_name_unset).
  { unfold item. rewrite !dict_get_del_ne by (vm_compute; discriminate). exact H3. }
  rewrite E3, is_str_refl.
  unfold has_name_field, dict_has.
  rewrite dict_get_del_eq.
  rewrite (dict_get_del_ne _ (lit "full_name") (lit "last_name"))
    by (vm_compute; discriminate).
  rewrite dict_get_del_eq.
  rewrite !(dict_get_del_ne _ _ (lit "first_name")) by (vm_compute; discriminate).
  rewrite dict_get_del_eq. reflexivity.
Qed.

Lemma bind_Done_inv {A B} (m : M A) (f : A -> M B) (w w' : world) (b : B) :
  (m ≫= f) w = (Done b, w') ->
  exists a w1, m w = (Done a, w1) /\ f a w1 = (Done b, w').
Proof.
  rewrite bind_run. destruct (m w) as [[a|e|] w1]; try discriminate.
  intros H. exists a, w1. split; [reflexivity | exact H].
Qed.

Lemma lift_Done_inv {A} (r : res A) (w w' : world) (a : A) :
  lift r w = (Done a, w') -> r = Ok a.
Proof. destruct r; [intros [= <- _]; reflexivity | discriminate]. Qed.

(** The update path of the inner handler. *)
Lemma on_add_error_quiet
    (clean : Prop) (username : pyval) (user_args : list (str * pyval))
    (e : exn) (w : world) :
  (clean -> has_name_field (drop_placeholders user_args) = false) ->
  quiet clean (is_unauthorized e) w (on_add_error username user_args e w).
Proof.
  intros Hclean. unfold on_add_error.
  destruct e as [k| | | |cls message|text];
    try (apply quiet_raise; simpl; tauto).
  destruct (is_str message (already_exists username));
    [|apply quiet_raise; tauto].
  apply (quiet_weaken clean False); [tauto|].
  apply quiet_bind.
  - destruct (is_none _ || is_none _).
    + apply quiet_bind.
      * apply quiet_ipa; [discriminate | reflexivity].
      * intros ipa_user w' _. apply quiet_lift. apply fill_defaults_local.
    + apply quiet_ret.
  - intros a w' Ha.
    assert (Hn : clean -> has_name_field (drop_blank a) = false).
    { intros Hc. apply has_name_field_drop_blank.
      destruct (is_none _ || is_none _).
      - apply bind_Done_inv in Ha as (ipa_user & w1 & _ & Ha).
        apply lift_Done_inv in Ha.
        rewrite (has_name_field_fill _ _ _ Ha). exact (Hclean Hc).
      - injection Ha as <- _. exact (Hclean Hc). }
    apply quiet_bind.
    + apply quiet_ipa; [discriminate|]. intros Hc r. exact (Hn Hc).
    + intros _ w2 _. apply quiet_ret.
Qed.

(** The body of the outer [try]. *)
Lemma try_body_quiet
    (clean : Prop) (f : processed) (name first_name last_name : str) (w : world) :
  (clean -> first_name = first_name_unset /\ last_name = last_name_unset
            /\ name = full_name_unset) ->
  quiet clean False w
    ((user_args ←
        lift (build_user_args (p_username f) name first_name last_name
                (p_status f) (p_email f) (p_ircnick f) (p_locale f)
                (p_timezone f) (p_gpg_keyid f) (p_ssh_key f)
                (p_creation f) (p_privacy f));
      catch
        (_ ← ipa (user_add (p_username f) (make_user_add_args user_args));
         mret ADDED)
        (on_add_error (p_username f) user_args)) w).
Proof.
  intros Hclean.
  pose proof (build_user_args_shape (p_username f) name first_name last_name
                (p_status f) (p_email f) (p_ircnick f) (p_locale f)
                (p_timezone f) (p_gpg_keyid f) (p_ssh_key f)
                (p_creation f) (p_privacy f)) as Hshape.
  apply quiet_bind.
  - apply quiet_lift. destruct (build_user_args _ _ _ _ _ _ _ _ _ _ _ _ _); tauto.
  - intros user_args w' Hua. apply lift_Done_inv in Hua. rewrite Hua in Hshape.
    destruct Hshape as (H1 & H2 & H3).
    apply quiet_catch.
    + apply quiet_bind.
      * apply quiet_ipa; [discriminate | reflexivity].
      * intros _ w2 _. apply quiet_ret.
    + intros e w2. apply on_add_error_quiet. intros Hc.
      destruct (Hclean Hc) as (-> & -> & ->).
      apply drop_placeholders_clean; assumption.
Qed.

Lemma no_login_retries (evs : list event) :
  count is_login evs = 0%nat -> retries evs = 0%nat.
Proof.
  induction evs as [|e evs IH]; [reflexivity|]. cbn [count].
  destruct e as [c r| | | | |]; try (simpl; exact IH).
  destruct c; try (simpl; exact IH). simpl. lia.
Qed.

Lemma no_login_as (cfg : config) (evs : list event) :
  count is_login evs = 0%nat -> Forall (login_as cfg) evs.
Proof.
  induction evs as [|e evs IH]; [constructor|]. cbn [count].
  destruct e as [c r| | | | |]; try (intros H; constructor; [exact I | auto]).
  destruct c; try (intros H; constructor; [exact I | auto]). simpl. lia.
Qed.

Lemma quiet_pass (retry : M Status) (cfg : config) (clean : Prop) (w : world)
    (r : outcome Status * world) :
  quiet clean False w r -> pass retry cfg clean w r.
Proof.
  intros (evs & Hs & Hf & Hr & Hc & _).
  exact (pass_done _ _ _ _ _ [] evs Hs Hf (no_login_retries _ Hr)
           (no_login_as _ _ Hr) Hc).
Qed.

(** A pass that starts after objects were created. *)
Lemma pass_after (retry : M Status) (cfg : config) (clean : Prop) (w w1 : world)
    (ext : list (list (str * pyval))) (r : outcome Status * world) :
  heap w1 = heap w ++ ext -> script w1 = script w -> log w1 = log w ->
  pass retry cfg clean w1 r -> pass retry cfg clean w r.
Proof.
  intros Hh Hsc Hl.
  assert (H0 : span w w1 ext []).
  { split; [exact Hh | rewrite Hl; symmetry; apply app_nil_r | rewrite Hsc; simpl; lia]. }
  intros [ext' evs Hs Hf Hr Hl' Hc | w2 ext' evs Hret Hs Hr He Hl' Hc].
  - exact (pass_done _ _ _ _ _ _ _ (span_trans _ _ _ _ _ _ _ H0 Hs) Hf Hr Hl' Hc).
  - exact (pass_retry _ _ _ _ _ w2 _ _ Hret (span_trans _ _ _ _ _ _ _ H0 Hs)
             Hr He Hl' Hc).
Qed.

(** The two [try] statements: the pass ends, or enters the retry after
    one re-authentication that follows an expiry signal. *)
Lemma upsert_pass
    (retry : M Status) (clean : Prop) (cfg : config) (f : processed)
    (name first_name last_name : str) (w : world) :
  (clean -> first_name = first_name_unset /\ last_name = last_name_unset
            /\ name = full_name_unset) ->
  pass retry cfg clean w (upsert retry cfg f name first_name last_name w).
Proof.
  intros Hclean. unfold upsert. unfold catch at 1.
  generalize (try_body_quiet clean f name first_name last_name w Hclean).
  match goal with |- context [match ?m w with _ => _ end] =>
    destruct (m w) as [[a|e|] w'] end;
    intros (evs & Hs & Hf & Hr & Hc & He); simpl in Hs, Hf, He.
  - apply (pass_done _ _ _ _ _ [] evs);
      [exact Hs | exact Hf | exact (no_login_retries _ Hr)
       | exact (no_login_as _ _ Hr) | exact Hc].
  - assert (Hdone : forall m,
      pass retry cfg clean w
        ((_ ← emit (Print m); mret FAILED) w')).
    { intros m. apply (pass_done _ _ _ _ _ [] (evs ++ [Print m])).
      - apply (span_trans _ _ _ [] [] evs [Print m] Hs).
        split; [symmetry; apply app_nil_r | reflexivity | simpl; lia].
      - discriminate.
      - rewrite count_app, (no_login_retries _ Hr). reflexivity.
      - apply Forall_app. split; [exact (no_login_as _ _ Hr) | repeat constructor].
      - intros H. apply Forall_app. split; [auto | repeat constructor]. }
    assert (Hquiet : pass retry cfg clean w (Done UNMODIFIED, w')).
    { apply (pass_done _ _ _ _ _ [] evs); try assumption.
      - discriminate.
      - exact (no_login_retries _ Hr).
      - exact (no_login_as _ _ Hr). }
    destruct e as [k| | | |cls message|text]; try apply Hdone.
    destruct cls;
      try (unfold on_error;
           destruct (negb (is_str message (lit "no modifications to be performed")));
           [apply Hdone | exact Hquiet]).
    unfold on_error. rewrite bind_run.
    destruct (ipa_run (login (ipa_username cfg) (ipa_password cfg)) w')
      as (r & s' & -> & Hlen).
    destruct (He _ eq_refl I) as [[]|Hexp].
    assert (Hs1 : span w {| heap := heap w'; script := s';
                            log := log w' ++ [Called (login (ipa_username cfg)
                                                       (ipa_password cfg)) r] |}
                    [] (evs ++ [Called (login (ipa_username cfg) (ipa_password cfg)) r])).
    { apply (span_trans _ _ _ [] [] evs _ Hs).
      split; [symmetry; apply app_nil_r | reflexivity | exact Hlen]. }
    assert (Hl1 : Forall (login_as cfg)
                    (evs ++ [Called (login (ipa_username cfg) (ipa_password cfg)) r])).
    { apply Forall_app. split; [exact (no_login_as _ _ Hr)|].
      repeat constructor. }
    destruct r as [v|e']; simpl.
    + eapply pass_retry; [reflexivity | exact Hs1 | | | exact Hl1 |].
      * rewrite count_app, (no_login_retries _ Hr). reflexivity.
      * rewrite count_app. simpl. lia.
      * intros H. apply Forall_app. split; [auto | repeat constructor].
    + eapply pass_done; [exact Hs1 | discriminate | | exact Hl1 |].
      * rewrite count_app, (no_login_retries _ Hr). reflexivity.
      * intros H. apply Forall_app. split; [auto | repeat constructor].
  - congruence.
Qed.

Lemma print_unprocessed_quiet (clean : Prop) (l : list (str * pyval)) (w : world) :
  quiet clean False w (for_eachM l print_unprocessed w).
Proof.
  revert w. induction l as [|[key value] l IH]; intros w.
  - apply quiet_ret.
  - cbn [for_eachM]. apply quiet_bind.
    + unfold print_unprocessed. destruct (_ || _); apply quiet_emit.
    + intros _ w' _. apply IH.
Qed.

Lemma derive_names_absent (v : pyval) :
  truthy v = false ->
  derive_names v = Ok (full_name_unset, first_name_unset, last_name_unset).
Proof. intros H. unfold derive_names. rewrite H. reflexivity. Qed.

(** One pass through the body, for any recursive call. *)
Lemma migrate_user_body_pass
    (retry : M Status) (cfg : config) (person : nat) (w : world) :
  pass retry cfg
    (exists record, heap w !! person = Some record /\ human_name_absent record)
    w (migrate_user_body retry cfg person w).
Proof.
  set (clean := exists record, _).
  assert (Hstop : forall (o : outcome Status) ext, o <> OutOfFuel ->
    pass retry cfg clean w
      (o, {| heap := heap w ++ ext; script := script w; log := log w |})).
  { intros o ext Ho. apply (pass_done _ _ _ _ _ ext []); try assumption.
    - split; [reflexivity | symmetry; apply app_nil_r | simpl; lia].
    - reflexivity.
    - constructor.
    - intros _. constructor. }
  unfold migrate_user_body. rewrite bind_run. unfold dict_copy. rewrite bind_run.
  unfold load at 1. destruct (heap w !! person) as [record|] eqn:Hp.
  2:{ apply (pass_done _ _ _ _ _ [] []); try discriminate; try reflexivity.
      - apply span_refl.
      - constructor.
      - intros _. constructor. }
  unfold alloc at 1. rewrite bind_run. unfold load at 1. cbn [heap].
  rewrite list_lookup_middle by reflexivity.
  destruct (users_skip_disabled cfg && _); [apply Hstop; discriminate|].
  destruct (users_skip_spam cfg && _); [apply Hstop; discriminate|].
  destruct (skip_user_add cfg); [apply Hstop; discriminate|].
  rewrite bind_run. unfold alloc at 1. cbn [heap script log].
  rewrite bind_run.
  destruct (pop_processed_last (heap w ++ [record])
              (List.filter (fun kv => kept_key (fst kv)) record)
              (script w) (log w)) as (o & d' & -> & Hfuel & Hhn).
  rewrite <- app_assoc. cbn [app].
  destruct o as [f| |]; [|apply Hstop; discriminate|congruence].
  rewrite bind_run. unfold load at 1. cbn [heap].
  replace (heap w ++ [record; d']) with ((heap w ++ [record]) ++ [d'])
    by (rewrite <- app_assoc; reflexivity).
  rewrite list_lookup_middle by reflexivity.
  rewrite <- app_assoc. cbn [app].
  set (w2 := {| heap := heap w ++ [record; d']; script := script w; log := log w |}).
  apply (pass_after retry cfg clean w w2 [record; d']); try reflexivity.
  destruct d' as [|kv d'].
  - rewrite bind_run.
    destruct (derive_names (p_human_name f)) as [[[name first_name] last_name]|e] eqn:Hn.
    + cbn [lift]. apply upsert_pass.
      intros (record' & Hp' & v & Hv & Hfalse).
      injection Hp' as <-.
      specialize (Hhn f eq_refl).
      rewrite dict_get_filter_key in Hhn by reflexivity.
      rewrite Hv in Hhn. injection Hhn as Heq. rewrite <- Heq in Hn.
      rewrite (derive_names_absent _ Hfalse) in Hn.
      injection Hn as <- <- <-. auto.
    + apply quiet_pass. apply quiet_raise.
      unfold derive_names in Hn.
      destruct (truthy (p_human_name f)); [|discriminate].
      destruct (p_human_name f); try (injection Hn as <-; simpl; tauto).
      match type of Hn with context [if ?c then _ else _] => destruct c end;
        discriminate.
  - apply quiet_pass. apply quiet_bind; [apply quiet_emit|].
    intros _ w3 _. apply quiet_bind; [apply print_unprocessed_quiet|].
    intros _ w4 _. apply quiet_ret.
Qed.

(** *** The whole call *)

Lemma migrate_user_fuel_run (cfg : config) (person : nat) (fuel : nat) (w : world) :
  (List.length (script w) < fuel)%nat ->
  exists ext evs,
    span w (snd (migrate_user_fuel fuel cfg person w)) ext evs
    /\ fst (migrate_user_fuel fuel cfg person w) <> OutOfFuel
    /\ (retries evs <= expiries evs)%nat
    /\ Forall (login_as cfg) evs
    /\ ((exists record, heap w !! person = Some record /\ human_name_absent record)
        -> Forall (fun e => update_with_name e = false) evs).
Proof.
  revert w. induction fuel as [|fuel IH]; intros w Hfuel; [lia|].
  cbn [migrate_user_fuel].
  destruct (migrate_user_body_pass (migrate_user_fuel fuel cfg person) cfg person w)
    as [ext evs Hs Hf Hr Hl Hc | w1 ext evs Hret Hs Hr He Hl Hc].
  - exists ext, evs. repeat (split; [assumption|]). split; [lia|]. split; assumption.
  - rewrite Hret.
    pose proof (expiries_le_raises evs) as Hle.
    pose proof (span_script _ _ _ _ Hs) as Hlen.
    destruct (IH w1 ltac:(lia)) as (ext2 & evs2 & Hs2 & Hf2 & Hr2 & Hl2 & Hc2).
    exists (ext ++ ext2), (evs ++ evs2).
    split; [exact (span_trans _ _ _ _ _ _ _ Hs Hs2)|].
    split; [exact Hf2|].
    split; [rewrite !count_app; lia|].
    split; [apply Forall_app; split; assumption|].
    intros (record & Hp & Habs). apply Forall_app. split.
    + apply Hc. exists record. split; assumption.
    + apply Hc2. exists record. split; [|exact Habs].
      rewrite (span_heap _ _ _ _ Hs). apply lookup_app_l_Some. exact Hp.
Qed.

Lemma migrate_user_run (cfg : config) (person : nat) (w : world) :
  exists ext evs,
    span w (snd (migrate_user cfg person w)) ext evs
    /\ fst (migrate_user cfg person w) <> OutOfFuel
    /\ (retries evs <= expiries evs)%nat
    /\ Forall (login_as cfg) evs
    /\ ((exists record, heap w !! person = Some record /\ human_name_absent record)
        -> Forall (fun e => update_with_name e = false) evs).
Proof. unfold migrate_user. apply migrate_user_fuel_run. lia. Qed.

Lemma has_name_field_false (args : list (str * pyval)) :
  has_name_field args = false ->
  dict_get args (lit "first_name") = None
  /\ dict_get args (lit "last_name") = None
  /\ dict_get args (lit "full_name") = None.
Proof.
  unfold has_name_field, dict_has. intros H.
  apply orb_false_iff in H as [H H3]. apply orb_false_iff in H as [H1 H2].
  destruct (dict_get args (lit "first_name")); [discriminate|].
  destruct (dict_get args (lit "last_name")); [discriminate|].
  destruct (dict_get args (lit "full_name")); [discriminate|].
  auto.
Qed.

(** C9: [migrate_user] leaves the record it is given as it was, key
    for key and value for value, whatever the outcome and however often
    it retries; it only adds objects to the heap, and it terminates. *)
Theorem migrate_user_leaves_record
    (cfg : config) (person : nat) (w : world) (record : list (str * pyval)) :
  heap w !! person = Some record ->
  heap (snd (migrate_user cfg person w)) !! person = Some record
  /\ take (List.length (heap w)) (heap (snd (migrate_user cfg person w))) = heap w
  /\ fst (migrate_user cfg person w) <> OutOfFuel.
Proof.
  intros Hp.
  destruct (migrate_user_run cfg person w) as (ext & evs & Hs & Hf & _).
  rewrite (span_heap _ _ _ _ Hs). split; [|split].
  - apply lookup_app_l_Some. exact Hp.
  - apply take_app_length.
  - exact Hf.
Qed.

Lemma migrate_user_leaves_record_witness :
  let w := world_of [expired; Returns VNone; exists_already] in
  heap (snd (migrate_user (realms_config []) 0 w)) !! 0%nat = Some record_without_name
  /\ take (List.length (heap w)) (heap (snd (migrate_user (realms_config []) 0 w)))
     = heap w
  /\ fst (migrate_user (realms_config []) 0 w) <> OutOfFuel.
Proof.
  intros w.
  apply (migrate_user_leaves_record (realms_config []) 0 w record_without_name).
  reflexivity.
Defined.

(** C5: for a record whose human name is absent, no update call that
    [migrate_user] issues carries a [first_name], [last_name] or
    [full_name] field. *)
Theorem update_omits_unset_names
    (cfg : config) (person : nat) (w : world) (record : list (str * pyval)) :
  heap w !! person = Some record ->
  human_name_absent record ->
  exists evs,
    log (snd (migrate_user cfg person w)) = log w ++ evs
    /\ forall username args r,
         In (Called (user_mod username args) r) evs ->
         dict_get args (lit "first_name") = None
         /\ dict_get args (lit "last_name") = None
         /\ dict_get args (lit "full_name") = None.
Proof.
  intros Hp Habs.
  destruct (migrate_user_run cfg person w) as (ext & evs & Hs & _ & _ & _ & Hc).
  exists evs. split; [exact (span_log _ _ _ _ Hs)|].
  intros username args r Hin.
  assert (Hall := Hc (ex_intro _ record (conj Hp Habs))).
  rewrite List.Forall_forall in Hall. specialize (Hall _ Hin).
  apply has_name_field_false. exact Hall.
Qed.

Lemma update_omits_unset_names_witness :
  let w := world_of [exists_already] in
  exists evs,
    log (snd (migrate_user (realms_config []) 0 w)) = log w ++ evs
    /\ forall username args r,
         In (Called (user_mod username args) r) evs ->
         dict_get args (lit "first_name") = None
         /\ dict_get args (lit "last_name") = None
         /\ dict_get args (lit "full_name") = None.
Proof.
  intros w.
  apply (update_omits_unset_names (realms_config []) 0 w record_without_name).
  - reflexivity.
  - exists VNone. split; reflexivity.
Defined.

(** In that scenario the create call fails with the already-exists
    signal, the existing entry is read and the update is issued. *)
Example update_is_issued :
  let r := migrate_user (realms_config []) 0 (world_of [exists_already]) in
  fst r = Done UPDATED
  /\ List.map (fun e => match e with
                        | Called (user_add _ _) _ => lit "user_add"
                        | Called (user_show _) _ => lit "user_show"
                        | Called (user_mod _ args) _ =>
                            lit "user_mod:" ++ join (lit ",") (List.map fst args)
                        | _ => lit "other"
                        end) (log (snd r))
     = [lit "user_add"; lit "user_show";
        lit "user_mod:gecos,display_name,home_directory,disabled,mail,faslocale,fastimezone,fasstatusnote,fasisprivate,fascreationtime"].
Proof. vm_compute. split; reflexivity. Qed.

(** C7, as stated, fails: the directory raises the expiry signal on the
    first create call and again on the create call of the retry; the
    call re-authenticates twice and retries twice. *)
Lemma two_expiry_signals_two_retries :
  let r := migrate_user (realms_config []) 0
             (world_of [expired; Returns VNone; expired; Returns VNone]) in
  fst r = Done ADDED
  /\ retries (log (snd r)) = 2%nat
  /\ count (fun e => match e with Called (user_add _ _) _ => true | _ => false end)
       (log (snd r)) = 3%nat.
Proof. vm_compute. repeat split; reflexivity. Qed.

(** ** Properties of the membership reconciler *)

(** C2: a batch of five users, two of which the directory reports as
    already members.  The handler runs, the [else] branch of the [try]
    statement does not: no failure is printed and nothing is reported
    as added, for members and for sponsors alike; when the directory
    reports nothing, all five are reported. *)
Theorem partial_batch_reports_nothing :
  let cfg := realms_config [] in
  let batch := [(lit "devs", five_users)] in
  status_lines
    (log (snd (add_users_to_groups cfg batch (lit "members")
                 (empty_world [two_already_members])))) = []
  /\ status_lines
       (log (snd (add_users_to_groups cfg batch (lit "sponsors")
                    (empty_world [two_already_managers])))) = []
  /\ status_lines
       (log (snd (add_users_to_groups cfg batch (lit "members")
                    (empty_world [])))) =
     [(ADDED, Some (AddedTo (lit "members") (lit "devs") five_users))].
Proof. vm_compute. repeat split; reflexivity. Qed.

Section Logs.
Context (P : event -> Prop).

Lemma logs_ret {A} (a : A) : logs P (mret a : M A).
Proof. intros w. exists []. split; [symmetry; apply app_nil_r | constructor]. Qed.

Lemma logs_raise {A} (e : exn) : logs P (@raise A e).
Proof. intros w. exists []. split; [symmetry; apply app_nil_r | constructor]. Qed.

Lemma logs_lift {A} (r : res A) : logs P (lift r).
Proof. destruct r; [apply logs_ret | apply logs_raise]. Qed.

Lemma logs_load (l : nat) : logs P (load l).
Proof.
  intros w. exists []. unfold load.
  destruct (heap w !! l); (split; [symmetry; apply app_nil_r | constructor]).
Qed.

Lemma logs_emit (e : event) : P e -> logs P (emit e).
Proof. intros H w. exists [e]. split; [reflexivity | repeat constructor; exact H]. Qed.

Lemma logs_ipa (c : call) : (forall r, P (Called c r)) -> logs P (ipa c).
Proof.
  intros H w. destruct (ipa_run c w) as (r & s' & -> & _).
  exists [Called c r]. split; [reflexivity | repeat constructor; apply H].
Qed.

Lemma logs_bind {A B} (m : M A) (f : A -> M B) :
  logs P m -> (forall a, logs P (f a)) -> logs P (m ≫= f).
Proof.
  intros Hm Hf w. rewrite bind_run. destruct (Hm w) as (evs & Hl & Hp).
  destruct (m w) as [[a|e|] w']; simpl in Hl; try (exists evs; split; assumption).
  destruct (Hf a w') as (evs2 & Hl2 & Hp2).
  exists (evs ++ evs2). split.
  - rewrite Hl2, Hl, app_assoc. reflexivity.
  - apply Forall_app. split; assumption.
Qed.

Lemma logs_try_else {A B} (m : M A) (h : exn -> M B) (k : A -> M B) :
  logs P m -> (forall e, logs P (h e)) -> (forall a, logs P (k a)) ->
  logs P (try_else m h k).
Proof.
  intros Hm Hh Hk w. unfold try_else. destruct (Hm w) as (evs & Hl & Hp).
  destruct (m w) as [[a|e|] w']; simpl in Hl.
  - destruct (Hk a w') as (evs2 & Hl2 & Hp2).
    exists (evs ++ evs2). split.
    + rewrite Hl2, Hl, app_assoc. reflexivity.
    + apply Forall_app. split; assumption.
  - destruct (Hh e w') as (evs2 & Hl2 & Hp2).
    exists (evs ++ evs2). split.
    + rewrite Hl2, Hl, app_assoc. reflexivity.
    + apply Forall_app. split; assumption.
  - exists evs. split; assumption.
Qed.

Lemma logs_finally {A} (m : M A) (final : M unit) :
  logs P m -> logs P final -> logs P (finally m final).
Proof.
  intros Hm Hf w. unfold finally. destruct (Hm w) as (evs & Hl & Hp).
  destruct (m w) as [[a|e|] w']; simpl in Hl.
  - destruct (logs_bind final (fun _ => mret a) Hf (fun _ => logs_ret a) w')
      as (evs2 & Hl2 & Hp2).
    exists (evs ++ evs2). split.
    + rewrite Hl2, Hl, app_assoc. reflexivity.
    + apply Forall_app. split; assumption.
  - destruct (logs_bind final (fun _ => @raise A e) Hf (fun _ => logs_raise e) w')
      as (evs2 & Hl2 & Hp2).
    exists (evs ++ evs2). split.
    + rewrite Hl2, Hl, app_assoc. reflexivity.
    + apply Forall_app. split; assumption.
  - exists evs. split; assumption.
Qed.

Lemma logs_foldM {A S} (l : list A) (body : S -> A -> M S) (s : S) :
  (forall s a, In a l -> logs P (body s a)) -> logs P (foldM l body s).
Proof.
  revert s. induction l as [|a l IH]; intros s H.
  - apply logs_ret.
  - cbn [foldM]. apply logs_bind.
    + apply H. left. reflexivity.
    + intros s'. apply IH. intros s0 a0 Hin. apply H. right. exact Hin.
Qed.
End Logs.

Lemma In_insert_by {A} (key : A -> str) (x y : A) (l : list A) :
  In y (insert_by key x l) <-> y = x \/ In y l.
Proof.
  induction l as [|z l IH]; simpl; [intuition congruence|].
  destruct (str_ltb (key z) (key x)); simpl; rewrite ?IH; intuition congruence.
Qed.

(** Sorting keeps the elements. *)
Lemma In_sorted_by {A} (key : A -> str) (y : A) (l : list A) :
  In y (sorted_by key l) <-> In y l.
Proof.
  unfold sorted_by. induction l as [|x l IH]; simpl; [tauto|].
  rewrite In_insert_by, IH. intuition congruence.
Qed.

Lemma handle_member_errors_logs
    (P : event -> Prop) (idempotent : str) (failure : pyval -> pyval -> message)
    (errors : list pyval) (changed : list str) :
  (forall s m, P (PrintStatus s m)) ->
  logs P (handle_member_errors idempotent failure errors changed).
Proof.
  intros HP. unfold handle_member_errors. apply logs_foldM.
  intros s msg _. apply logs_bind; [apply logs_lift|]. intros reason.
  destruct (is_str reason idempotent).
  - apply logs_bind; [apply logs_lift|]. intros member. apply logs_lift.
  - apply logs_bind; [apply logs_lift|]. intros member.
    destruct reason; try apply logs_raise.
    apply logs_bind; [apply logs_emit, HP|]. intros _. apply logs_ret.
Qed.

(** The calls of [add_users_to_groups] name the keys as they are. *)
Lemma add_users_to_groups_logs
    (cfg : config) (groups_to_users : list (str * list str)) (category : str) :
  logs (adds_to (List.map fst groups_to_users))
    (add_users_to_groups cfg groups_to_users category).
Proof.
  set (P := adds_to _).
  unfold add_users_to_groups.
  destruct (skip_user_membership cfg); [apply logs_ret|].
  destruct (negb _); [apply logs_raise|].
  apply logs_bind; [apply logs_emit; exact I|]. intros _.
  destruct (_ =? 0)%nat; [apply logs_emit; exact I|].
  apply logs_bind; [|intros _; apply logs_ret].
  apply logs_foldM. intros c0 [group members] Hin.
  apply In_sorted_by in Hin.
  assert (Hg : In group (List.map fst groups_to_users)).
  { apply in_map_iff. exists (group, members). split; [reflexivity | exact Hin]. }
  apply logs_foldM. intros c1 chunk _. unfold add_chunk.
  apply logs_bind; [apply logs_emit; exact I|]. intros _.
  apply logs_bind; [|intros _; apply logs_ret].
  apply logs_finally; [|apply logs_emit; exact I].
  apply logs_try_else.
  - unfold add_call. destruct (str_eqb category (lit "members")).
    + apply logs_bind; [apply logs_ipa; intros r; exact Hg|].
      intros _. apply logs_ret.
    + destruct (str_eqb category (lit "sponsors")); [|apply logs_ret].
      apply logs_bind; [apply logs_ipa; intros r; exact Hg|]. intros result.
      apply logs_bind; [apply logs_lift|]. intros failed.
      apply logs_bind; [apply logs_lift|]. intros by_type.
      apply logs_bind; [apply logs_lift|]. intros users.
      destruct (truthy users); [apply logs_raise | apply logs_ret].
  - intros e.
    assert (Hfail : logs P (emit (PrintStatus FAILED
              (Some (FailedToAddChunk chunk category group e))))).
    { apply logs_emit. exact I. }
    destruct e as [k| | | |cls message|text]; try exact Hfail.
    destruct cls; try exact Hfail.
    apply logs_bind; [apply logs_lift|]. intros errors.
    apply logs_bind; [|intros _; apply logs_ret].
    apply handle_member_errors_logs. intros s m. exact I.
  - intros _. destruct (set_of chunk); [apply logs_ret | apply logs_emit; exact I].
Qed.

(** The calls of [remove_users_from_groups] name the global prefix
    followed by a key. *)
Lemma remove_users_from_groups_logs
    (cfg : config) (groups_to_users : list (str * list str)) :
  logs (removes_from cfg (List.map fst groups_to_users))
    (remove_users_from_groups cfg groups_to_users).
Proof.
  set (P := removes_from _ _).
  unfold remove_users_from_groups.
  destruct (skip_user_membership cfg); [apply logs_ret|].
  apply logs_bind; [apply logs_emit; exact I|]. intros _.
  destruct (_ =? 0)%nat; [apply logs_emit; exact I|].
  apply logs_bind; [|intros _; apply logs_ret].
  apply logs_foldM. intros c0 [group members] Hin.
  apply In_sorted_by in Hin.
  assert (Hg : In group (List.map fst groups_to_users)).
  { apply in_map_iff. exists (group, members). split; [reflexivity | exact Hin]. }
  apply logs_foldM. intros c1 chunk _. unfold remove_chunk.
  apply logs_bind; [apply logs_emit; exact I|]. intros _.
  apply logs_bind; [|intros _; apply logs_ret].
  apply logs_finally; [|apply logs_emit; exact I].
  apply logs_try_else.
  - apply logs_ipa. intros r. exists group. split; [exact Hg | reflexivity].
  - intros e.
    assert (Hfail : logs P (emit (PrintStatus FAILED
              (Some (FailedToRemoveChunk chunk group e))))).
    { apply logs_emit. exact I. }
    destruct e as [k| | | |cls message|text]; try exact Hfail.
    destruct cls; try exact Hfail.
    apply logs_bind; [apply logs_lift|]. intros errors.
    apply logs_bind; [|intros _; apply logs_ret].
    apply handle_member_errors_logs. intros s m. exact I.
  - intros _. destruct (set_of chunk); [apply logs_ret | apply logs_emit; exact I].
Qed.

Lemma prefixed_differs (prefix key : str) : prefix <> [] -> prefix ++ key <> key.
Proof.
  intros Hne E. apply (f_equal (@List.length N)) in E.
  rewrite length_app in E. destruct prefix; [congruence | simpl in E; lia].
Qed.

(** ** Properties of the run coordinator *)

Lemma dict_set_keys {V} (d : list (str * V)) (k key : str) (v : V) :
  In key (List.map fst (dict_set d k v)) -> In key (List.map fst d) \/ key = k.
Proof.
  induction d as [|[k0 v0] d IH]; simpl.
  - intros [<-|[]]. right. reflexivity.
  - destruct (decide (k0 = k)); simpl; [tauto|]. intros [<-|H]; [tauto|].
    destruct (IH H); tauto.
Qed.

Lemma dict_set_values (d : list (str * list str)) (k u : str) (l : list str) :
  In u (concat (List.map snd (dict_set d k l))) ->
  In u (concat (List.map snd d)) \/ In u l.
Proof.
  induction d as [|[k0 v0] d IH]; simpl.
  - rewrite app_nil_r. tauto.
  - destruct (decide (k0 = k)); simpl; rewrite !in_app_iff; [tauto|].
    intros [H|H]; [tauto|]. destruct (IH H); tauto.
Qed.

Lemma dict_get_values (d : list (str * list str)) (k u : str) (l : list str) :
  dict_get d k = Some l -> In u l -> In u (concat (List.map snd d)).
Proof.
  induction d as [|[k0 v0] d IH]; simpl; [discriminate|].
  rewrite in_app_iff. destruct (decide (k0 = k)).
  - intros [= ->]. tauto.
  - intros H1 H2. right. exact (IH H1 H2).
Qed.

Lemma dict_append_keys (d : list (str * list str)) (k key v : str) :
  In key (List.map fst (dict_append d k v)) -> In key (List.map fst d) \/ key = k.
Proof. apply dict_set_keys. Qed.

Lemma dict_append_values (d : list (str * list str)) (k u v : str) :
  In u (concat (List.map snd (dict_append d k v))) ->
  In u (concat (List.map snd d)) \/ u = v.
Proof.
  unfold dict_append. intros H. apply dict_set_values in H as [H|H]; [tauto|].
  destruct (dict_get d k) as [l|] eqn:E.
  - apply in_app_iff in H as [H|[<-|[]]]; [|tauto].
    left. exact (dict_get_values _ _ _ _ E H).
  - destruct H as [<-|[]]. tauto.
Qed.

Lemma from_record_refl conf person acc : from_record conf person acc acc.
Proof. split; intros; tauto. Qed.

Lemma from_record_trans conf person a b c :
  from_record conf person a b -> from_record conf person b c ->
  from_record conf person a c.
Proof.
  intros [K1 U1] [K2 U2]. split.
  - intros key H. destruct (K2 key H) as [H'|H']; [exact (K1 key H') | tauto].
  - intros u H. destruct (U2 u H) as [H'|H']; [exact (U1 u H') | tauto].
Qed.

Lemma from_record_add_member conf person acc g u :
  get_str person (lit "username") = Ok u ->
  from_record conf person acc (add_member acc (realm_prefix conf ++ g) u).
Proof.
  intros Hu. split.
  - intros key H. delta_cases H. destruct H as [H|H]; [|tauto].
    apply dict_append_keys in H as [H| ->]; [tauto | right; eauto].
  - intros x H. delta_cases H. destruct H as [H|H]; [|tauto].
    apply dict_append_values in H as [H| ->]; tauto.
Qed.

Lemma from_record_add_unapproved conf person acc g u :
  get_str person (lit "username") = Ok u ->
  from_record conf person acc (add_unapproved acc (realm_prefix conf ++ g) u).
Proof.
  intros Hu. split.
  - intros key H. delta_cases H. destruct H as [H|[H|H]]; [tauto| |tauto].
    apply dict_append_keys in H as [H| ->]; [tauto | right; eauto].
  - intros x H. delta_cases H. destruct H as [H|[H|H]]; [tauto| |tauto].
    apply dict_append_values in H as [H| ->]; tauto.
Qed.

Lemma from_record_add_sponsor conf person acc g u :
  get_str person (lit "username") = Ok u ->
  from_record conf person acc (add_sponsor acc (realm_prefix conf ++ g) u).
Proof.
  intros Hu. split.
  - intros key H. delta_cases H. destruct H as [H|[H|H]]; [tauto|tauto|].
    apply dict_append_keys in H as [H| ->]; [tauto | right; eauto].
  - intros x H. delta_cases H. destruct H as [H|[H|[H|H]]]; [tauto|tauto| |tauto].
    apply dict_append_values in H as [H| ->]; tauto.
Qed.

Lemma from_record_add_signature conf person acc name u :
  get_str person (lit "username") = Ok u ->
  from_record conf person acc (add_signature acc name u).
Proof.
  intros Hu. split.
  - intros key H. tauto.
  - intros x H. delta_cases H. destruct H as [H|[H|[H|H]]]; [tauto|tauto|tauto|].
    apply dict_append_values in H as [H| ->]; tauto.
Qed.

Lemma record_roles_from_record conf person acc acc' :
  record_roles conf person acc = Ok acc' -> from_record conf person acc acc'.
Proof.
  unfold record_roles. intros H.
  apply res_bind_Ok_inv in H as (group_roles & _ & H).
  destruct group_roles as [| | | | |items]; try discriminate.
  revert H. apply for_each_inv; [|apply from_record_refl].
  intros s [g membership] s' Hs Hb.
  apply (from_record_trans _ _ _ _ _ Hs). clear Hs.
  destruct (mem g (fas_groups_ignore conf)); [injection Hb as <-; apply from_record_refl|].
  apply res_bind_Ok_inv in Hb as (group_id & _ & Hb).
  destruct (is_none group_id); [injection Hb as <-; apply from_record_refl|].
  apply res_bind_Ok_inv in Hb as (role_status & _ & Hb).
  destruct (is_str role_status (lit "approved")).
  - apply res_bind_Ok_inv in Hb as (u & Hu & Hb).
    apply res_bind_Ok_inv in Hb as (role_type & _ & Hb).
    destruct (_ || _).
    + apply res_bind_Ok_inv in Hb as (u2 & Hu2 & Hb). injection Hb as <-.
      eapply from_record_trans; [apply from_record_add_member, Hu|].
      apply from_record_add_sponsor, Hu2.
    + injection Hb as <-. apply from_record_add_member, Hu.
  - apply res_bind_Ok_inv in Hb as (u & Hu & Hb). injection Hb as <-.
    apply from_record_add_unapproved, Hu.
Qed.

Lemma record_agreements_from_record conf person acc acc' :
  record_agreements conf person acc = Ok acc' -> from_record conf person acc acc'.
Proof.
  unfold record_agreements. intros H.
  apply res_bind_Ok_inv in H as (memberships & _ & H).
  apply res_bind_Ok_inv in H as (group_names & _ & H).
  revert H. apply for_each_inv; [|apply from_record_refl].
  intros s [name signed_groups] s' Hs Hb.
  apply (from_record_trans _ _ _ _ _ Hs). clear Hs.
  destruct (signed signed_groups group_names) as [[|]|e]; try discriminate.
  - apply res_bind_Ok_inv in Hb as (u & Hu & Hb). injection Hb as <-.
    apply from_record_add_signature, Hu.
  - injection Hb as <-. apply from_record_refl.
Qed.

(** In that scenario the addition goes to [a-packager] and the removal
    to [fas-a-packager]. *)
Example removal_and_addition_differ :
  let cfg := prefixed_config "fas-" in
  let delta := [(lit "a-packager", [lit "ada"])] in
  List.filter (fun e => match e with Called _ _ => true | _ => false end)
    (log (snd (add_users_to_groups cfg delta (lit "members") (empty_world []))))
  = [Called (group_add_member (lit "a-packager") [lit "ada"]) (Returns (VDict []))]
  /\ List.filter (fun e => match e with Called _ _ => true | _ => false end)
       (log (snd (remove_users_from_groups cfg delta (empty_world []))))
     = [Called (group_remove_member (lit "fas-a-packager") [lit "ada"])
          (Returns (VDict []))].
Proof. vm_compute. split; reflexivity. Qed.

(** *** Where the entries of the deltas come from *)

Lemma later_refl (w : world) : later w w.
Proof. exists []. symmetry. apply app_nil_r. Qed.

Lemma later_trans (a b c : world) : later a b -> later b c -> later a c.
Proof.
  intros [e1 H1] [e2 H2]. exists (e1 ++ e2). rewrite H2, H1, app_assoc. reflexivity.
Qed.

Lemma load_Done_inv (l : nat) (w w' : world) (d : list (str * pyval)) :
  load l w = (Done d, w') -> w' = w /\ heap w !! l = Some d.
Proof.
  unfold load. destruct (heap w !! l); [|discriminate].
  intros [= -> ->]. auto.
Qed.

Lemma lift_Done_world {A} (r : res A) (w w' : world) (a : A) :
  lift r w = (Done a, w') -> w' = w.
Proof. destruct r; [intros [= _ ->]; reflexivity | discriminate]. Qed.

Lemma emit_Done_inv (e : event) (w w' : world) (u : unit) :
  emit e w = (Done u, w') -> heap w' = heap w /\ later w w'.
Proof.
  unfold emit. intros H. injection H as Hw. subst w'.
  split; [reflexivity | exists [e]; reflexivity].
Qed.

Lemma foldM_inv {A S} (I : S -> world -> Prop) (l : list A) (body : S -> A -> M S) :
  (forall s a w s' w', In a l -> I s w -> body s a w = (Done s', w') -> I s' w') ->
  forall s w s' w', I s w -> foldM l body s w = (Done s', w') -> I s' w'.
Proof.
  induction l as [|a l IH]; intros Hstep s w s' w' Hs H.
  - injection H as <- <-. exact Hs.
  - cbn [foldM] in H. apply bind_Done_inv in H as (s1 & w1 & Hb & H).
    apply (IH (fun s a w s' w' Hin => Hstep s a w s' w' (or_intror Hin)) s1 w1);
      [|exact H].
    exact (Hstep s a w s1 w1 (or_introl eq_refl) Hs Hb).
Qed.

Lemma delta_usernames_count_status acc status :
  delta_usernames (count_status acc status) = delta_usernames acc.
Proof. destruct status; reflexivity. Qed.

(** One user of a realm: the deltas keep their usernames, or
    [migrate_user] returned an outcome other than [SKIPPED] for this
    user and the new entries carry the username of the record. *)
Lemma usernames_at_world (users : list nat) (w w' : world) (names : list str) :
  usernames_at users w = (Done names, w') -> w' = w.
Proof.
  revert w w' names. induction users as [|p users IH]; intros w w' names H.
  - injection H as _ <-. reflexivity.
  - cbn [usernames_at] in H.
    apply bind_Done_inv in H as (d & w1 & Hl & H).
    apply load_Done_inv in Hl as [-> _].
    apply bind_Done_inv in H as (u & w1 & Hu & H).
    pose proof (lift_Done_world _ _ _ _ Hu) as ->.
    apply bind_Done_inv in H as (ns & w1 & Hn & H).
    apply IH in Hn as ->. injection H as _ <-. reflexivity.
Qed.

(** In that run the active user [ada] is added and fills the deltas;
    the disabled user [bea] is [SKIPPED] and appears in none. *)
Example skipped_user_adds_nothing :
  let user_patterns := List.map (fun p => p ++ [star]) alphabet in
  let r := collect_users skipping_config user_patterns []
             [(lit "A", [0; 1]%nat)] two_users_world in
  status_lines (log (snd r)) = [(ADDED, None); (SKIPPED, None)]
  /\ match fst r with
     | Done acc =>
         groups_to_member_usernames acc = [(lit "a-packager", [lit "ada"])]
         /\ groups_to_sponsor_usernames acc = [(lit "a-packager", [lit "ada"])]
         /\ groups_to_unapproved_member_usernames acc = []
         /\ agreements_to_usernames acc = [(lit "FPCA", [lit "ada"])]
     | _ => False
     end.
Proof. vm_compute. repeat split; reflexivity. Qed.

(** ** More about the partitioner and the fetcher *)

(** X1: [_make_user_patterns] raises only [ValueError], and exactly when
    there is no restriction and the cursor begins with a character that
    is no letter. *)
Theorem make_user_patterns_raises
    (users_start_at : option str) (restrict_users : option (list str)) (e : exn) :
  _make_user_patterns users_start_at restrict_users = Raise e
  <-> e = ValueError
      /\ nonempty restrict_users = None
      /\ exists start,
           nonempty users_start_at = Some start
           /\ alphabet_index_lower (hd 0 start) = None.
Proof.
  unfold _make_user_patterns. split.
  - destruct (nonempty restrict_users); [discriminate|].
    destruct (nonempty users_start_at) as [start|]; [|discriminate].
    destruct (alphabet_index_lower (hd 0 start)) eqn:E; [discriminate|].
    intros [= <-]. split; [reflexivity|]. split; [reflexivity|].
    exists start. split; [reflexivity | exact E].
  - intros (-> & -> & start & -> & ->). reflexivity.
Qed.

(** X2: Without cursor and restriction a username matches one of the
    patterns exactly when it begins with a lowercase ASCII letter. *)
Theorem alphabet_patterns_match
    (users_start_at : option str) (restrict_users : option (list str)) (u : str) :
  nonempty users_start_at = None ->
  nonempty restrict_users = None ->
  exists pats,
    _make_user_patterns users_start_at restrict_users = Ok pats
    /\ List.length pats = 26%nat
    /\ (matches_any u pats = true
        <-> exists c rest, u = c :: rest /\ 97 <= c <= 122).
Proof.
  intros Hs Hr. unfold _make_user_patterns. rewrite Hr, Hs.
  eexists. split; [reflexivity|]. split; [reflexivity|].
  exact (letter_patterns_match 0 u).
Qed.

Lemma alphabet_patterns_match_witness :
  exists pats,
    _make_user_patterns (Some []) None = Ok pats
    /\ List.length pats = 26%nat
    /\ (matches_any (lit "zoe") pats = true
        <-> exists c rest, lit "zoe" = c :: rest /\ 97 <= c <= 122).
Proof.
  apply (alphabet_patterns_match (Some []) None (lit "zoe")); reflexivity.
Defined.

Lemma replace_char_absent (s : str) (old : char) (new : str) :
  forallb (fun c => negb (c =? old)) s = true -> replace_char s old new = s.
Proof.
  unfold replace_char. induction s as [|c s IH]; [reflexivity|]. simpl.
  intros [Hc Hs]%andb_true_iff. apply negb_true_iff in Hc. rewrite Hc.
  simpl. f_equal. exact (IH Hs).
Qed.

(** X3: With a restriction and a cursor, the patterns returned are those of
    the restriction, in their order; one without [*] is returned
    exactly when it is not below the cursor. *)
Theorem restrict_keeps_names_from_cursor
    (start : str) (restrict : list str) (pattern : str) :
  start <> [] ->
  restrict <> [] ->
  forallb (fun c => negb (c =? star)) pattern = true ->
  exists pats,
    _make_user_patterns (Some start) (Some restrict) = Ok pats
    /\ (forall p, In p pats -> In p restrict)
    /\ (In pattern pats <-> In pattern restrict /\ str_ltb pattern start = false).
Proof.
  intros Hs Hr Hp. unfold _make_user_patterns.
  destruct restrict as [|r0 restrict]; [congruence|].
  destruct start as [|c0 start]; [congruence|].
  cbn [nonempty]. eexists. split; [reflexivity|]. split.
  - intros p Hin. apply filter_In in Hin. tauto.
  - rewrite filter_In, (replace_char_absent _ _ _ Hp).
    unfold str_geb. rewrite negb_true_iff. tauto.
Qed.

Lemma restrict_keeps_names_from_cursor_witness :
  exists pats,
    _make_user_patterns (Some (lit "bob")) (Some [lit "alice"; lit "carol"]) = Ok pats
    /\ (forall p, In p pats -> In p [lit "alice"; lit "carol"])
    /\ (In (lit "carol") pats
        <-> In (lit "carol") [lit "alice"; lit "carol"]
            /\ str_ltb (lit "carol") (lit "bob") = false).
Proof.
  apply (restrict_keeps_names_from_cursor (lit "bob") [lit "alice"; lit "carol"]
           (lit "carol")).
  - discriminate.
  - discriminate.
  - reflexivity.
Defined.

Lemma glob_tokens_plain (p : str) (fuel : nat) :
  plain p = true -> (List.length p <= fuel)%nat ->
  glob_tokens fuel p = List.map GLit p.
Proof.
  revert fuel. induction p as [|c p IH]; intros fuel Hp Hf.
  - destruct fuel; reflexivity.
  - destruct fuel as [|fuel]; [simpl in Hf; lia|].
    simpl in Hp. apply andb_true_iff in Hp as [Hc Hp].
    apply negb_true_iff in Hc.
    apply orb_false_iff in Hc as [Hc Hb].
    apply orb_false_iff in Hc as [Hs Hq].
    simpl. rewrite Hs, Hq, Hb. f_equal.
    apply IH; [exact Hp | simpl in Hf; lia].
Qed.

Lemma glob_match_literal (p s : str) :
  glob_match (List.map GLit p) s = str_eqb s p.
Proof.
  revert s. induction p as [|c p IH]; intros [|x s]; try reflexivity.
  simpl. rewrite IH. reflexivity.
Qed.

(** A pattern without [*], [?] and [[] matches its own text only. *)
Lemma fnmatchcase_literal (p s : str) :
  plain p = true -> fnmatchcase s p = str_eqb s p.
Proof.
  intros Hp. unfold fnmatchcase.
  rewrite glob_tokens_plain by (exact Hp || lia). apply glob_match_literal.
Qed.

(** X4: When the patterns are plain usernames, the guard of [_push_users]
    lets through exactly the usernames listed. *)
Theorem guard_with_plain_names (username : str) (user_patterns : list str) :
  forallb plain user_patterns = true ->
  matches_any username user_patterns = mem username user_patterns.
Proof.
  unfold matches_any, mem. induction user_patterns as [|p ps IH]; [reflexivity|].
  simpl. intros [Hp Hps]%andb_true_iff.
  rewrite (fnmatchcase_literal _ _ Hp), (IH Hps). reflexivity.
Qed.

Lemma guard_with_plain_names_witness :
  matches_any (lit "carol") [lit "alice"; lit "carol"]
  = mem (lit "carol") [lit "alice"; lit "carol"].
Proof.
  apply (guard_with_plain_names (lit "carol") [lit "alice"; lit "carol"]).
  reflexivity.
Defined.

Lemma for_each_all {A S} (l : list A) (body : S -> A -> res S) (s s' : S) :
  for_each l body s = Ok s' ->
  forall a, In a l -> exists s1 s2, body s1 a = Ok s2.
Proof.
  revert s. induction l as [|x l IH]; intros s H a Hin; [destruct Hin|].
  cbn [for_each] in H. destruct (body s x) as [s1|e] eqn:Hb; [|discriminate].
  destruct Hin as [<-|Hin]; [exists s, s1; exact Hb | exact (IH s1 H a Hin)].
Qed.

(** X5: A pull that returns has run every search of every realm, and each
    search returned: a failed search leaves no partial result. *)
Theorem pull_from_fas_ran_every_search
    fas_instances (users_start_at : option str) (restrict_users : option (list str))
    (result : list (str * list (list (str * pyval)))) :
  pull_from_fas fas_instances users_start_at restrict_users = Ok result ->
  exists user_patterns,
    _make_user_patterns users_start_at restrict_users = Ok user_patterns
    /\ forall fas_name send_request pattern,
         In (fas_name, send_request) fas_instances ->
         In pattern user_patterns ->
         exists found, send_request pattern = Ok found.
Proof.
  unfold pull_from_fas. intros H.
  apply res_bind_Ok_inv in H as (user_patterns & Hp & H).
  exists user_patterns. split; [exact Hp|].
  intros fas_name send_request pattern Hin Hpat.
  destruct (for_each_all _ _ _ _ H _ Hin) as (s1 & s2 & Hb).
  apply res_bind_Ok_inv in Hb as (matched & Hm & _).
  destruct (for_each_all _ _ _ _ Hm _ Hpat) as (m1 & m2 & Hs).
  apply res_bind_Ok_inv in Hs as (found & Hf & _).
  exists found. exact Hf.
Qed.

Lemma pull_from_fas_ran_every_search_witness :
  exists user_patterns,
    _make_user_patterns None (Some [lit "alice"]) = Ok user_patterns
    /\ forall fas_name send_request pattern,
         In (fas_name, send_request)
            [(lit "A", fun _ : str =>
                         Ok ([record_of "alice" "alice@x.example"], @nil (list (str * pyval))))] ->
         In pattern user_patterns ->
         exists found, send_request pattern = Ok found.
Proof.
  apply (pull_from_fas_ran_every_search
           [(lit "A", fun _ : str => Ok ([record_of "alice" "alice@x.example"], @nil (list (str * pyval))))]
           None (Some [lit "alice"])
           [(lit "A", [record_of "alice" "alice@x.example"])]).
  reflexivity.
Defined.

(** ** More about the conflict detector *)

Lemma for_each_inv_In {A S} (I : S -> Prop) (l : list A) (body : S -> A -> res S) :
  (forall s a s', In a l -> I s -> body s a = Ok s' -> I s') ->
  forall s s', I s -> for_each l body s = Ok s' -> I s'.
Proof.
  induction l as [|a l IH]; intros Hstep s s' Hs H.
  - injection H as <-. exact Hs.
  - cbn [for_each] in H. destruct (body s a) as [s1|e] eqn:Hb; [|discriminate].
    apply (IH (fun s a s' Hin => Hstep s a s' (or_intror Hin)) s1); [|exact H].
    exact (Hstep _ _ _ (or_introl eq_refl) Hs Hb).
Qed.

Lemma In_set_add (s : list str) (x y : str) :
  In y (set_add s x) -> In y s \/ y = x.
Proof.
  unfold set_add. destruct (mem x s); [tauto|].
  rewrite in_app_iff. simpl. intuition congruence.
Qed.

Lemma index_by_name_keys (user_objs : list (list (str * pyval))) users_by_name :
  index_by_name user_objs = Ok users_by_name ->
  forall name, In name (List.map fst users_by_name) ->
    exists user_obj,
      In user_obj user_objs /\ get_str user_obj (lit "username") = Ok name.
Proof.
  unfold index_by_name.
  apply (for_each_inv_In
           (fun acc => forall name, In name (List.map fst acc) ->
              exists user_obj,
                In user_obj user_objs /\ get_str user_obj (lit "username") = Ok name)).
  - intros acc user_obj acc' Hin Hacc Hb.
    apply res_bind_Ok_inv in Hb as (n & Hn & Hb). injection Hb as <-.
    intros name Hname. apply dict_set_keys in Hname as [Hname| ->].
    + exact (Hacc name Hname).
    + exists user_obj. split; assumption.
  - intros name [].
Qed.

Lemma names_of_members (user_objs : list (list (str * pyval))) names :
  names_of user_objs = Ok names ->
  forall name, In name names ->
    exists user_obj,
      In user_obj user_objs /\ get_str user_obj (lit "username") = Ok name.
Proof.
  unfold names_of.
  apply (for_each_inv_In
           (fun acc => forall name, In name acc ->
              exists user_obj,
                In user_obj user_objs /\ get_str user_obj (lit "username") = Ok name)).
  - intros acc user_obj acc' Hin Hacc Hb.
    apply res_bind_Ok_inv in Hb as (n & Hn & Hb). injection Hb as <-.
    intros name Hname. apply In_set_add in Hname as [Hname| ->].
    + exact (Hacc name Hname).
    + exists user_obj. split; assumption.
  - intros name [].
Qed.

Lemma mark_duplicates_keys (P : str -> Prop) (names : list str) (fas_name other : str)
    (to_check : list (str * list str)) :
  (forall name, In name names -> P name) ->
  (forall name, In name (List.map fst to_check) -> P name) ->
  forall name,
    In name (List.map fst
               (fold_left (fun to_check name =>
                             mark_duplicate to_check name fas_name other)
                          names to_check)) ->
    P name.
Proof.
  revert to_check. induction names as [|n names IH]; intros to_check Hn Hc; [exact Hc|].
  simpl. apply IH.
  - intros name Hin. apply Hn. right. exact Hin.
  - intros name Hin. unfold mark_duplicate in Hin.
    apply dict_set_keys in Hin as [Hin| ->]; [exact (Hc name Hin)|].
    apply Hn. left. reflexivity.
Qed.

(** The usernames marked as duplicates are held by two different realms. *)
Lemma find_duplicates_sound
    (fas_users : list (str * list (list (str * pyval)))) fas_users_by_name to_check :
  find_duplicates fas_users = Ok (fas_users_by_name, to_check) ->
  forall name, In name (List.map fst to_check) ->
    exists fas_name other_fas_name,
      fas_name <> other_fas_name
      /\ holds_username fas_users fas_name name
      /\ holds_username fas_users other_fas_name name.
Proof.
  unfold find_duplicates.
  set (P := fun name => exists fas_name other_fas_name,
                fas_name <> other_fas_name
                /\ holds_username fas_users fas_name name
                /\ holds_username fas_users other_fas_name name).
  pose (I := fun st : list (str * list (str * list (str * pyval))) * list (str * list str) =>
              forall name, In name (List.map fst (snd st)) -> P name).
  intros H. enough (HI : I (fas_users_by_name, to_check)) by exact HI.
  revert H. apply (for_each_inv_In I); [|intros name []].
  unfold I. intros [by_name chk] [fas_name user_objs] [by_name' chk'] Hin Hinv Hb.
  apply res_bind_Ok_inv in Hb as (users_by_name & Hidx & Hb).
  apply res_bind_Ok_inv in Hb as (chk1 & Hloop & Hb).
  injection Hb as _ <-. cbn [snd] in *.
  revert Hloop.
  apply (for_each_inv_In
           (fun chk => forall name, In name (List.map fst chk) -> P name)); [|exact Hinv].
  intros c [other_fas_name other_user_objs] c' Hin' Hc Hstep.
  destruct (dict_has (dict_set by_name fas_name users_by_name) other_fas_name) eqn:Hhas.
  { injection Hstep as <-. exact Hc. }
  apply res_bind_Ok_inv in Hstep as (other_user_names & Hnames & Hstep).
  injection Hstep as <-.
  apply mark_duplicates_keys; [|exact Hc].
  intros name Hname. apply filter_In in Hname as [Hkey Hmem].
  apply mem_In in Hmem.
  destruct (index_by_name_keys _ _ Hidx name Hkey) as (u1 & Hu1 & Hn1).
  destruct (names_of_members _ _ Hnames name Hmem) as (u2 & Hu2 & Hn2).
  exists fas_name, other_fas_name. split; [|split].
  - intros ->. unfold dict_has in Hhas. rewrite dict_get_set_eq in Hhas. discriminate.
  - exists user_objs, u1. auto.
  - exists other_user_objs, u2. auto.
Qed.

(** X6: Every username that [find_user_conflicts] reports has a
    non-empty conflict record and is held by two different realms of
    the input. *)
Theorem conflicts_need_two_realms
    (cfg : config) (fas_users : list (str * list (list (str * pyval))))
    (users_to_conflicts : list (str * conflicts))
    (username : str) (user_conflicts : conflicts) :
  find_user_conflicts cfg fas_users = Ok users_to_conflicts ->
  In (username, user_conflicts) users_to_conflicts ->
  user_conflicts <> []
  /\ exists fas_name other_fas_name,
       fas_name <> other_fas_name
       /\ holds_username fas_users fas_name username
       /\ holds_username fas_users other_fas_name username.
Proof.
  unfold find_user_conflicts. intros H.
  apply res_bind_Ok_inv in H as ([fas_users_by_name to_check] & Hdup & H).
  revert username user_conflicts. revert H.
  apply (for_each_inv_In
           (fun acc => forall username user_conflicts,
              In (username, user_conflicts) acc ->
              user_conflicts <> []
              /\ exists fas_name other_fas_name,
                   fas_name <> other_fas_name
                   /\ holds_username fas_users fas_name username
                   /\ holds_username fas_users other_fas_name username));
    [|intros ? ? []].
  intros acc [name fas_names] acc' Hin Hacc Hb.
  apply res_bind_Ok_inv in Hb as (fas_to_user_obj & _ & Hb).
  apply res_bind_Ok_inv in Hb as (uc & _ & Hb).
  destruct uc as [|c uc]; injection Hb as <-; [exact Hacc|].
  intros username user_conflicts Hu.
  assert (Hkey : In username (List.map fst (dict_set acc name (c :: uc)))).
  { apply in_map_iff. exists (username, user_conflicts). auto. }
  apply dict_set_In in Hu as [Hu| ->]; [exact (Hacc _ _ Hu)|].
  split; [discriminate|].
  apply dict_set_keys in Hkey as [Hkey| ->].
  - apply in_map_iff in Hkey as ([u' uc'] & Hfst & Hkey). simpl in Hfst. subst u'.
    exact (proj2 (Hacc _ _ Hkey)).
  - apply (find_duplicates_sound _ _ _ Hdup).
    apply In_sorted_by in Hin. apply in_map_iff. exists (name, fas_names). auto.
Qed.

Lemma conflicts_need_two_realms_witness :
  exists fas_name other_fas_name,
    fas_name <> other_fas_name
    /\ holds_username
         [(lit "A", [record_of "alice" "alice@x.example"]);
          (lit "B", [record_of "alice" "alice@y.example"])]
         fas_name (lit "alice")
    /\ holds_username
         [(lit "A", [record_of "alice" "alice@x.example"]);
          (lit "B", [record_of "alice" "alice@y.example"])]
         other_fas_name (lit "alice").
Proof.
  refine (proj2 (conflicts_need_two_realms two_realms
                   [(lit "A", [record_of "alice" "alice@x.example"]);
                    (lit "B", [record_of "alice" "alice@y.example"])]
                   [(lit "alice",
                     [(email_address_conflicts,
                       [EmailAddressConflict (lit "alice@x.example") [lit "A"];
                        EmailAddressConflict (lit "alice@y.example") [lit "B"]])])]
                   (lit "alice") _ _ _)).
  - vm_compute. reflexivity.
  - left. reflexivity.
Defined.

Section Dict_membership.
Context {K V : Type} `{EqDecision K}.

Lemma dict_set_In_pair (d : list (K * V)) (k k' : K) (v v' : V) :
  In (k', v') (dict_set d k v) -> In (k', v') d \/ (k' = k /\ v' = v).
Proof.
  induction d as [|[k0 v0] d IH]; simpl.
  - intros [[= <- <-]|[]]. right. split; reflexivity.
  - destruct (decide (k0 = k)) as [->|Hne]; simpl.
    + intros [[= <- <-]|H]; [right; split; reflexivity | left; right; exact H].
    + intros [E|H]; [left; left; exact E|]. destruct (IH H); tauto.
Qed.

Lemma dict_get_In (d : list (K * V)) (k : K) (v : V) :
  dict_get d k = Some v -> In (k, v) d.
Proof.
  induction d as [|[k0 v0] d IH]; simpl; [discriminate|].
  destruct (decide (k0 = k)) as [->|Hne].
  - intros [= ->]. left. reflexivity.
  - intros H. right. exact (IH H).
Qed.

Lemma fold_left_inv {A S} (I : S -> Prop) (f : S -> A -> S) (l : list A) :
  (forall s a, In a l -> I s -> I (f s a)) ->
  forall s, I s -> I (fold_left f l s).
Proof.
  induction l as [|a l IH]; intros Hstep s Hs; [exact Hs|]. simpl.
  apply IH.
  - intros s' a' Hin. apply Hstep. right. exact Hin.
  - apply Hstep; [left; reflexivity | exact Hs].
Qed.
End Dict_membership.

(** The reverse index maps a domain to a realm configured with it. *)
Lemma email_domains_fas_sound (cfg : config) (domain fas_name : str) :
  dict_get (email_domains_fas cfg) domain = Some fas_name ->
  exists conf, In (fas_name, conf) (fas cfg) /\ email_domain conf = Some domain.
Proof.
  intros H. apply dict_get_In in H. revert H.
  assert (Hfwd : forall f d, In (f, d) (fas_email_domains cfg) ->
            exists conf, In (f, conf) (fas cfg) /\ email_domain conf = Some d).
  { unfold fas_email_domains.
    apply (fold_left_inv
             (fun acc : list (str * str) => forall f d, In (f, d) acc ->
                exists conf, In (f, conf) (fas cfg) /\ email_domain conf = Some d));
      [|intros ? ? []].
    intros acc [f0 conf0] Hin Hacc f d Hfd.
    destruct (email_domain conf0) as [d0|] eqn:Hd; [|exact (Hacc f d Hfd)].
    apply dict_set_In_pair in Hfd as [Hfd|[-> ->]]; [exact (Hacc f d Hfd)|].
    exists conf0. split; assumption. }
  unfold email_domains_fas.
  enough (Hrev : forall d f, In (d, f) (fold_left (fun acc '(k, v) => dict_set acc v k)
                                          (fas_email_domains cfg) []) ->
                 In (f, d) (fas_email_domains cfg)).
  { intros H. apply Hfwd. apply Hrev. exact H. }
  apply (fold_left_inv
           (fun acc : list (str * str) => forall d f, In (d, f) acc ->
              In (f, d) (fas_email_domains cfg))); [|intros ? ? []].
  intros acc [k v] Hin Hacc d f Hdf.
  apply dict_set_In_pair in Hdf as [Hdf|[-> ->]]; [exact (Hacc d f Hdf) | exact Hin].
Qed.

(** The realms grouped under an address have a record with it. *)
Lemma group_by_email_sound
    (fas_to_user_obj : list (str * list (str * pyval))) (emails : list (str * list str)) :
  group_by_email fas_to_user_obj = Ok emails ->
  forall email fas_names fas_name,
    In (email, fas_names) emails -> In fas_name fas_names ->
    exists user_obj,
      In (fas_name, user_obj) fas_to_user_obj
      /\ get_str user_obj (lit "email") = Ok email.
Proof.
  unfold group_by_email.
  apply (for_each_inv_In
           (fun acc : list (str * list str) =>
              forall email fas_names fas_name,
                In (email, fas_names) acc -> In fas_name fas_names ->
                exists user_obj,
                  In (fas_name, user_obj) fas_to_user_obj
                  /\ get_str user_obj (lit "email") = Ok email));
    [|intros ? ? ? []].
  intros acc [f obj] acc' Hin Hacc Hb.
  apply res_bind_Ok_inv in Hb as (e & He & Hb). injection Hb as <-.
  intros email fas_names fas_name Hg Hf.
  apply dict_set_In_pair in Hg as [Hg|[-> ->]]; [exact (Hacc _ _ _ Hg Hf)|].
  apply In_set_add in Hf as [Hf| ->].
  - destruct (dict_get acc e) as [old|] eqn:Hold; [|destruct Hf].
    apply dict_get_In in Hold. exact (Hacc _ _ _ Hold Hf).
  - exists obj. split; assumption.
Qed.

Lemma details_record_In
    (uc : conflicts) (kind k : conflict_kind) (detail x : conflict_detail) :
  In x (details (record_conflict uc kind detail) k) ->
  In x (details uc k) \/ x = detail.
Proof.
  destruct (decide (kind = k)) as [->|Hne].
  - rewrite details_record_eq, in_app_iff. simpl. intuition congruence.
  - rewrite details_record_ne by exact Hne. tauto.
Qed.

Lemma In_set_remove (s : list str) (x y : str) :
  In y (set_remove s x) -> In y s /\ y <> x.
Proof.
  unfold set_remove. intros [Hin Hne]%filter_In. split; [exact Hin|].
  intros ->. rewrite str_eqb_refl in Hne. discriminate.
Qed.

Lemma check_self_reference_sound
    (domains_fas : list (str * str)) (username : str) (all : list (str * list str))
    (uc uc' : conflicts) (email_address : str) (fas_names fas_names' : list str) :
  In (email_address, fas_names) all ->
  check_self_reference domains_fas username uc email_address fas_names
    = Ok (uc', fas_names') ->
  (forall k x, In x (details uc k) -> sound_detail domains_fas username all x) ->
  forall k x, In x (details uc' k) -> sound_detail domains_fas username all x.
Proof.
  intros Hall H Huc. unfold check_self_reference in H.
  destruct (rsplit1 email_address at_sign) as [[mailbox domain]|] eqn:Hsplit;
    [|discriminate].
  destruct (dict_get domains_fas domain) as [R|] eqn:Hdom;
    [|injection H as <- <-; exact Huc].
  destruct R as [|r0 R]; [injection H as <- <-; exact Huc|]. cbn [nonempty] in H.
  destruct (str_eqb mailbox username) eqn:Hmb; [|injection H as <- <-; exact Huc].
  apply str_eqb_eq in Hmb. subst mailbox.
  destruct (mem (r0 :: R) fas_names) eqn:Hmem.
  - assert (Hcirc : sound_detail domains_fas username all
                      (CircularEmail (r0 :: R) email_address)).
    { exists domain, fas_names. repeat split; try assumption.
      apply mem_In. exact Hmem. }
    destruct (set_remove fas_names (r0 :: R)) as [|s0 rest] eqn:Hrem.
    + injection H as <- <-. intros k x Hx.
      apply details_record_In in Hx as [Hx| ->]; [exact (Huc k x Hx) | exact Hcirc].
    + injection H as <- <-. intros k x Hx.
      apply details_record_In in Hx as [Hx| ->].
      * apply details_record_In in Hx as [Hx| ->]; [exact (Huc k x Hx) | exact Hcirc].
      * exists domain, fas_names. repeat split; try assumption.
        -- discriminate.
        -- rewrite <- Hrem. intros Hin. apply In_set_remove in Hin. tauto.
        -- rewrite <- Hrem. intros src Hin. apply In_set_remove in Hin. tauto.
  - destruct fas_names as [|s0 rest].
    + injection H as <- <-. exact Huc.
    + injection H as <- <-. intros k x Hx.
      apply details_record_In in Hx as [Hx| ->]; [exact (Huc k x Hx)|].
      exists domain, (s0 :: rest). repeat split; try assumption.
      * discriminate.
      * apply mem_false. exact Hmem.
      * tauto.
Qed.

Lemma check_self_references_sound
    (domains_fas : list (str * str)) (username : str) (all : list (str * list str))
    (emails emails' : list (str * list str)) (uc uc' : conflicts) :
  (forall x, In x emails -> In x all) ->
  check_self_references domains_fas username uc emails = Ok (uc', emails') ->
  (forall k x, In x (details uc k) -> sound_detail domains_fas username all x) ->
  forall k x, In x (details uc' k) -> sound_detail domains_fas username all x.
Proof.
  revert emails' uc uc'.
  induction emails as [|[e fs] emails IH]; intros emails' uc uc' Hsub H Huc.
  - injection H as <- <-. exact Huc.
  - cbn [check_self_references] in H.
    apply res_bind_Ok_inv in H as ([uc1 fs1] & Hone & H).
    apply res_bind_Ok_inv in H as ([uc2 emails2] & Hrest & H).
    injection H as <- <-.
    apply (IH emails2 uc1 uc2); [intros x Hx; apply Hsub; right; exact Hx | exact Hrest|].
    apply (check_self_reference_sound _ _ all uc uc1 e fs fs1);
      [apply Hsub; left; reflexivity | exact Hone | exact Huc].
Qed.

Lemma check_address_conflicts_sound
    (domains_fas : list (str * str)) (username : str) (all : list (str * list str))
    (uc : conflicts) (emails : list (str * list str)) :
  (forall k x, In x (details uc k) -> sound_detail domains_fas username all x) ->
  forall k x, In x (details (check_address_conflicts uc emails) k) ->
              sound_detail domains_fas username all x.
Proof.
  unfold check_address_conflicts. destruct (1 <? _)%nat; [|auto].
  revert uc. induction emails as [|[e fs] emails IH]; intros uc Huc; [exact Huc|].
  simpl. apply IH. intros k x Hx.
  apply details_record_In in Hx as [Hx| ->]; [exact (Huc k x Hx) | exact I].
Qed.

Lemma check_user_sound
    (domains_fas : list (str * str)) (username : str)
    (fas_to_user_obj : list (str * list (str * pyval))) (uc : conflicts) :
  check_user domains_fas username fas_to_user_obj = Ok uc ->
  exists emails,
    group_by_email fas_to_user_obj = Ok emails
    /\ forall k x, In x (details uc k) -> sound_detail domains_fas username emails x.
Proof.
  unfold check_user. intros H.
  apply res_bind_Ok_inv in H as (emails & Hg & H).
  apply res_bind_Ok_inv in H as ([uc1 emails1] & Hs & H). injection H as <-.
  exists emails. split; [exact Hg|].
  apply check_address_conflicts_sound.
  apply (check_self_references_sound _ _ emails emails emails1 [] uc1);
    [auto | exact Hs | intros k x []].
Qed.

(** X7: A [circular_email] entry is about an address [username@domain]
    whose domain is configured for the realm named, and that realm's
    own record of the username carries the address. *)
Theorem circular_email_is_self_reference
    (cfg : config) (username : str)
    (fas_to_user_obj : list (str * list (str * pyval))) (user_conflicts : conflicts)
    (fas_name email_address : str) :
  check_user (email_domains_fas cfg) username fas_to_user_obj = Ok user_conflicts ->
  In (CircularEmail fas_name email_address) (details user_conflicts circular_email) ->
  exists domain conf user_obj,
    rsplit1 email_address at_sign = Some (username, domain)
    /\ In (fas_name, conf) (fas cfg)
    /\ email_domain conf = Some domain
    /\ In (fas_name, user_obj) fas_to_user_obj
    /\ get_str user_obj (lit "email") = Ok email_address.
Proof.
  intros H Hin. apply check_user_sound in H as (emails & Hg & Hsound).
  destruct (Hsound _ _ Hin) as (domain & fas_names & Hsplit & Hdom & Hem & Hf).
  destruct (email_domains_fas_sound _ _ _ Hdom) as (conf & Hconf & Hd).
  destruct (group_by_email_sound _ _ Hg _ _ _ Hem Hf) as (user_obj & Hobj & Hmail).
  exists domain, conf, user_obj. auto.
Qed.

(** X8: An [email_pointing_to_other_fas] entry is about an address
    [username@domain] whose domain is configured for the target realm;
    its source realms are not empty, do not include the target, and
    each has a record of the username with the address. *)
Theorem pointing_email_names_other_realms
    (cfg : config) (username : str)
    (fas_to_user_obj : list (str * list (str * pyval))) (user_conflicts : conflicts)
    (tgt_fas_name email_address : str) (src_fas_names : list str) :
  check_user (email_domains_fas cfg) username fas_to_user_obj = Ok user_conflicts ->
  In (EmailPointingToOtherFas tgt_fas_name email_address src_fas_names)
     (details user_conflicts email_pointing_to_other_fas) ->
  src_fas_names <> []
  /\ ~ In tgt_fas_name src_fas_names
  /\ (exists domain conf,
        rsplit1 email_address at_sign = Some (username, domain)
        /\ In (tgt_fas_name, conf) (fas cfg)
        /\ email_domain conf = Some domain)
  /\ forall src, In src src_fas_names ->
       exists user_obj,
         In (src, user_obj) fas_to_user_obj
         /\ get_str user_obj (lit "email") = Ok email_address.
Proof.
  intros H Hin. apply check_user_sound in H as (emails & Hg & Hsound).
  destruct (Hsound _ _ Hin)
    as (domain & fas_names & Hsplit & Hdom & Hem & Hne & Hnot & Hsub).
  destruct (email_domains_fas_sound _ _ _ Hdom) as (conf & Hconf & Hd).
  split; [exact Hne|]. split; [exact Hnot|]. split.
  - exists domain, conf. auto.
  - intros src Hsrc. exact (group_by_email_sound _ _ Hg _ _ _ Hem (Hsub src Hsrc)).
Qed.

Lemma circular_email_is_self_reference_witness :
  exists domain conf user_obj,
    rsplit1 (lit "alice@realmA.example") at_sign = Some (lit "alice", domain)
    /\ In (lit "A", conf) (fas two_realms)
    /\ email_domain conf = Some domain
    /\ In (lit "A", user_obj)
          [(lit "A", record_of "alice" "alice@realmA.example");
           (lit "B", record_of "alice" "alice@realmA.example")]
    /\ get_str user_obj (lit "email") = Ok (lit "alice@realmA.example").
Proof.
  eapply (circular_email_is_self_reference two_realms (lit "alice")
            [(lit "A", record_of "alice" "alice@realmA.example");
             (lit "B", record_of "alice" "alice@realmA.example")]).
  - vm_compute. reflexivity.
  - vm_compute. left. reflexivity.
Defined.

Lemma pointing_email_names_other_realms_witness :
  [lit "B"] <> []
  /\ ~ In (lit "A") [lit "B"]
  /\ (exists domain conf,
        rsplit1 (lit "alice@realmA.example") at_sign = Some (lit "alice", domain)
        /\ In (lit "A", conf) (fas two_realms)
        /\ email_domain conf = Some domain)
  /\ forall src, In src [lit "B"] ->
       exists user_obj,
         In (src, user_obj)
            [(lit "A", record_of "alice" "alice@realmA.example");
             (lit "B", record_of "alice" "alice@realmA.example")]
         /\ get_str user_obj (lit "email") = Ok (lit "alice@realmA.example").
Proof.
  eapply (pointing_email_names_other_realms two_realms (lit "alice")
            [(lit "A", record_of "alice" "alice@realmA.example");
             (lit "B", record_of "alice" "alice@realmA.example")]).
  - vm_compute. reflexivity.
  - vm_compute. left. reflexivity.
Defined.

Lemma check_self_reference_raises
    (domains_fas : list (str * str)) (username : str) (uc : conflicts)
    (email_address : str) (fas_names : list str) (e : exn) :
  check_self_reference domains_fas username uc email_address fas_names = Raise e ->
  e = ValueError.
Proof.
  unfold check_self_reference.
  destruct (rsplit1 email_address at_sign) as [[mailbox domain]|]; [|congruence].
  destruct (nonempty (dict_get domains_fas domain)); [|discriminate].
  destruct (str_eqb mailbox username); [|discriminate].
  destruct (mem l fas_names).
  - destruct (set_remove fas_names l); discriminate.
  - destruct fas_names; discriminate.
Qed.

Lemma check_self_references_raises
    (domains_fas : list (str * str)) (username : str)
    (emails : list (str * list str)) (uc : conflicts) (email_address : str) :
  In email_address (List.map fst emails) ->
  rsplit1 email_address at_sign = None ->
  check_self_references domains_fas username uc emails = Raise ValueError.
Proof.
  intros Hin Hno. revert uc Hin.
  induction emails as [|[e fs] emails IH]; intros uc Hin; [destruct Hin|].
  cbn [check_self_references].
  destruct (check_self_reference domains_fas username uc e fs) as [[uc1 fs1]|x] eqn:Hone.
  - destruct Hin as [He|Hin].
    + simpl in He. subst e. unfold check_self_reference in Hone.
      rewrite Hno in Hone. discriminate.
    + cbn [mbind res_bind]. rewrite (IH uc1 Hin). reflexivity.
  - apply check_self_reference_raises in Hone. subst x. reflexivity.
Qed.

Section Dict_keys.
Context {K V : Type} `{EqDecision K}.

Lemma dict_set_key_kept (d : list (K * V)) (k k' : K) (v : V) :
  In k' (List.map fst d) -> In k' (List.map fst (dict_set d k v)).
Proof.
  induction d as [|[k0 v0] d IH]; simpl; [tauto|].
  destruct (decide (k0 = k)); simpl; tauto.
Qed.

Lemma dict_set_key_new (d : list (K * V)) (k : K) (v : V) :
  In k (List.map fst (dict_set d k v)).
Proof.
  induction d as [|[k0 v0] d IH]; simpl; [tauto|].
  destruct (decide (k0 = k)); simpl; tauto.
Qed.
End Dict_keys.

Lemma group_by_email_keys
    (fas_to_user_obj : list (str * list (str * pyval)))
    (acc emails : list (str * list str)) :
  for_each fas_to_user_obj
    (fun acc '(fas_name, user_obj) =>
       email ← get_str user_obj (lit "email");
       let old := match dict_get acc email with Some s => s | None => [] end in
       Ok (dict_set acc email (set_add old fas_name)))
    acc = Ok emails ->
  (forall email, In email (List.map fst acc) -> In email (List.map fst emails))
  /\ forall fas_name user_obj email,
       In (fas_name, user_obj) fas_to_user_obj ->
       get_str user_obj (lit "email") = Ok email ->
       In email (List.map fst emails).
Proof.
  revert acc. induction fas_to_user_obj as [|[f obj] l IH]; intros acc H.
  - injection H as <-. split; [auto | intros ? ? ? []].
  - cbn [for_each] in H.
    destruct (get_str obj (lit "email")) as [e|x] eqn:He; [|discriminate].
    cbn [mbind res_bind] in H. apply IH in H as [Hkeep Hall]. split.
    + intros email Hin. apply Hkeep. apply dict_set_key_kept. exact Hin.
    + intros fas_name user_obj email [[= <- <-]|Hin] Hmail.
      * rewrite He in Hmail. injection Hmail as <-.
        apply Hkeep. apply dict_set_key_new.
      * exact (Hall _ _ _ Hin Hmail).
Qed.

(** X9: When the records of a shared username have addresses and one of
    them holds no [@], the check of that username raises [ValueError]. *)
Theorem address_without_at_raises
    (domains_fas : list (str * str)) (username : str)
    (fas_to_user_obj : list (str * list (str * pyval)))
    (fas_name : str) (user_obj : list (str * pyval)) (email_address : str) :
  (forall f obj, In (f, obj) fas_to_user_obj ->
                 exists email, get_str obj (lit "email") = Ok email) ->
  In (fas_name, user_obj) fas_to_user_obj ->
  get_str user_obj (lit "email") = Ok email_address ->
  rsplit1 email_address at_sign = None ->
  check_user domains_fas username fas_to_user_obj = Raise ValueError.
Proof.
  intros Hall Hin Hmail Hno. unfold check_user.
  destruct (group_by_email fas_to_user_obj) as [emails|x] eqn:Hg.
  - cbn [mbind res_bind].
    apply group_by_email_keys in Hg as [_ Hkeys].
    rewrite (check_self_references_raises _ _ _ _ email_address
               (Hkeys _ _ _ Hin Hmail) Hno).
    reflexivity.
  - exfalso. unfold group_by_email in Hg. revert Hg Hall. clear.
    generalize (@nil (str * list str)).
    induction fas_to_user_obj as [|[f obj] l IH]; intros acc Hg Hall; [discriminate|].
    cbn [for_each] in Hg.
    destruct (Hall f obj (or_introl eq_refl)) as [e He]. rewrite He in Hg.
    cbn [mbind res_bind] in Hg.
    apply (IH _ Hg). intros f' obj' Hin. apply (Hall f' obj'). right. exact Hin.
Qed.

Lemma address_without_at_raises_witness :
  check_user (email_domains_fas two_realms) (lit "alice")
    [(lit "A", record_of "alice" "alice@x.example");
     (lit "B", record_of "alice" "alice.at.home")]
  = Raise ValueError.
Proof.
  apply (address_without_at_raises (email_domains_fas two_realms) (lit "alice")
           [(lit "A", record_of "alice" "alice@x.example");
            (lit "B", record_of "alice" "alice.at.home")]
           (lit "B") (record_of "alice" "alice.at.home") (lit "alice.at.home")).
  - intros f obj [[= <- <-]|[[= <- <-]|[]]]; eexists; reflexivity.
  - right. left. reflexivity.
  - reflexivity.
  - reflexivity.
Defined.

(** ** More about [migrate_user] *)

Section Logs_more.
Context (P : event -> Prop).

Lemma logs_catch {A} (m : M A) (h : exn -> M A) :
  logs P m -> (forall e, logs P (h e)) -> logs P (catch m h).
Proof.
  intros Hm Hh w. unfold catch. destruct (Hm w) as (evs & Hl & Hp).
  destruct (m w) as [[a|e|] w']; simpl in Hl; try (exists evs; split; assumption).
  destruct (Hh e w') as (evs2 & Hl2 & Hp2).
  exists (evs ++ evs2). split.
  - rewrite Hl2, Hl, app_assoc. reflexivity.
  - apply Forall_app. split; assumption.
Qed.

Lemma logs_silent {A} (m : M A) :
  (forall w, log (snd (m w)) = log w) -> logs P m.
Proof.
  intros H w. exists []. split; [rewrite H, app_nil_r; reflexivity | constructor].
Qed.

Lemma logs_alloc (d : list (str * pyval)) : logs P (alloc d).
Proof. apply logs_silent. reflexivity. Qed.

Lemma logs_store (l : nat) (d : list (str * pyval)) : logs P (store l d).
Proof. apply logs_silent. reflexivity. Qed.

Lemma logs_dict_pop (l : nat) (k : str) : logs P (dict_pop l k).
Proof.
  unfold dict_pop. apply logs_bind; [apply logs_load|]. intros d.
  destruct (dict_get d k); [|apply logs_raise].
  apply logs_bind; [apply logs_store | intros _; apply logs_ret].
Qed.

Lemma logs_pop_processed (person : nat) : logs P (pop_processed person).
Proof.
  unfold pop_processed.
  repeat (apply logs_bind; [apply logs_dict_pop | intros ?]).
  apply logs_ret.
Qed.

Lemma logs_for_eachM {A} (l : list A) (body : A -> M unit) :
  (forall a, logs P (body a)) -> logs P (for_eachM l body).
Proof.
  intros H. induction l as [|a l IH]; [apply logs_ret|].
  cbn [for_eachM]. apply logs_bind; [apply H | intros _; exact IH].
Qed.

End Logs_more.

Section Migrate_logs.
Context (cfg : config) (P : event -> Prop).
Hypothesis Hadd : forall username user_args r,
  P (Called (user_add username (make_user_add_args user_args)) r).
Hypothesis Hshow : forall username r, P (Called (user_show username) r).
Hypothesis Hmod : forall username user_args r,
  P (Called (user_mod username (drop_blank user_args)) r).
Hypothesis Hlogin : forall r,
  P (Called (login (ipa_username cfg) (ipa_password cfg)) r).
Hypothesis Hhead : P (Print UnprocessedDetails).
Hypothesis Hredacted : forall key, P (Print (RedactedDetail key)).
Hypothesis Hcompact : forall key value,
  secret_key key = false -> P (Print (CompactDetail key (_compact_value value))).
Hypothesis Hexception : forall e, P (Print (ExceptionText e)).

Lemma on_add_error_logs (username : pyval) (user_args : list (str * pyval)) (e : exn) :
  logs P (on_add_error username user_args e).
Proof using All.
  unfold on_add_error. destruct e as [k| | | |cls msg|text]; try apply logs_raise.
  destruct (is_str msg (already_exists username)); [|apply logs_raise].
  apply logs_bind.
  - destruct (_ || _); [|apply logs_ret].
    apply logs_bind; [apply logs_ipa; apply Hshow | intros ?; apply logs_lift].
  - intros a. apply logs_bind; [apply logs_ipa; apply Hmod | intros _; apply logs_ret].
Qed.

Lemma on_error_logs (retry : M Status) (e : exn) :
  logs P retry -> logs P (on_error retry cfg e).
Proof using All.
  intros Hretry.
  assert (Hfail : logs P (_ ← emit (Print (ExceptionText e)); mret FAILED)).
  { apply logs_bind; [apply logs_emit; apply Hexception | intros _; apply logs_ret]. }
  unfold on_error. destruct e as [k| | | |cls msg|text]; try exact Hfail.
  destruct cls;
    try (destruct (negb _); [exact Hfail | apply logs_ret]).
  apply logs_bind; [apply logs_ipa; apply Hlogin | intros _; exact Hretry].
Qed.

Lemma upsert_logs (retry : M Status) (f : processed) (name first_name last_name : str) :
  logs P retry -> logs P (upsert retry cfg f name first_name last_name).
Proof using All.
  intros Hretry. unfold upsert. apply logs_catch.
  - apply logs_bind; [apply logs_lift|]. intros user_args. apply logs_catch.
    + apply logs_bind; [apply logs_ipa; apply Hadd | intros _; apply logs_ret].
    + intros e. apply on_add_error_logs.
  - intros e. apply on_error_logs. exact Hretry.
Qed.

Lemma print_unprocessed_logs (kv : str * pyval) : logs P (print_unprocessed kv).
Proof using All.
  destruct kv as [key value]. unfold print_unprocessed.
  fold (secret_key key). destruct (secret_key key) eqn:Hs.
  - apply logs_emit. apply Hredacted.
  - apply logs_emit. apply Hcompact. exact Hs.
Qed.

Lemma migrate_user_body_logs (retry : M Status) (person : nat) :
  logs P retry -> logs P (migrate_user_body retry cfg person).
Proof using All.
  intros Hretry. unfold migrate_user_body.
  apply logs_bind.
  { unfold dict_copy. apply logs_bind; [apply logs_load | intros d; apply logs_alloc]. }
  intros person'. apply logs_bind; [apply logs_load|]. intros d.
  destruct (users_skip_disabled cfg && _); [apply logs_ret|].
  destruct (users_skip_spam cfg && _); [apply logs_ret|].
  destruct (skip_user_add cfg); [apply logs_ret|].
  apply logs_bind; [apply logs_alloc|]. intros p.
  apply logs_bind; [apply logs_pop_processed|]. intros f.
  apply logs_bind; [apply logs_load|]. intros unprocessed.
  destruct unprocessed as [|kv unprocessed].
  - apply logs_bind; [apply logs_lift|]. intros [[name first_name] last_name].
    apply upsert_logs. exact Hretry.
  - apply logs_bind; [apply logs_emit; exact Hhead|]. intros _.
    apply logs_bind; [|intros _; apply logs_ret].
    apply logs_for_eachM. apply print_unprocessed_logs.
Qed.

Lemma migrate_user_fuel_logs (fuel : nat) (person : nat) :
  logs P (migrate_user_fuel fuel cfg person).
Proof using All.
  induction fuel as [|fuel IH].
  - apply logs_silent. reflexivity.
  - cbn [migrate_user_fuel]. apply migrate_user_body_logs. exact IH.
Qed.

Lemma migrate_user_logs (person : nat) : logs P (migrate_user cfg person).
Proof using All.
  intros w. unfold migrate_user. apply migrate_user_fuel_logs.
Qed.
End Migrate_logs.

Lemma make_user_add_args_defaults (user_args : list (str * pyval)) :
  dict_get (make_user_add_args user_args) (lit "random_pass") = Some (VBool true)
  /\ truthy (item (make_user_add_args user_args) (lit "faslocale")) = true
  /\ truthy (item (make_user_add_args user_args) (lit "fastimezone")) = true.
Proof.
  unfold make_user_add_args.
  set (a := dict_set user_args (lit "random_pass") (VBool true)).
  assert (Hor : forall v d, truthy (py_or v (VStr (lit d))) = true \/ d = EmptyString).
  { intros v d. unfold py_or. destruct (truthy v) eqn:Hv; [left; exact Hv|].
    destruct d; [right; reflexivity | left; reflexivity]. }
  split; [|split].
  - rewrite !dict_get_set_ne by (vm_compute; discriminate).
    apply dict_get_set_eq.
  - unfold item at 1. rewrite dict_get_set_ne by (vm_compute; discriminate).
    rewrite dict_get_set_eq.
    destruct (Hor (item a (lit "faslocale")) "en_US"%string) as [H|H];
      [exact H | discriminate].
  - unfold item at 1. rewrite dict_get_set_eq.
    match goal with |- truthy (py_or ?v _) = true =>
      destruct (Hor v "UTC"%string) as [H|H]; [exact H | discriminate] end.
Qed.

(** X15: Whatever the record and the answers of the directory, every create
    call of [migrate_user] sets [random_pass] to [True] and carries a
    locale and a timezone that are neither [None] nor empty. *)
Theorem create_calls_set_defaults (cfg : config) (person : nat) :
  logs create_sets_defaults (migrate_user cfg person).
Proof.
  apply migrate_user_logs; try (intros; exact I).
  intros username user_args r. apply make_user_add_args_defaults.
Qed.

(** X16: Every update call of [migrate_user] carries no [None] and no
    string that is empty or blank. *)
Theorem update_calls_have_no_blank (cfg : config) (person : nat) :
  logs update_has_no_blank (migrate_user cfg person).
Proof.
  apply migrate_user_logs; try (intros; exact I).
  intros username user_args r k v Hin.
  apply filter_In in Hin as [_ Hkeep]. cbn [snd] in Hkeep. split.
  - intros ->. discriminate.
  - intros s ->. destruct (strip s); [discriminate | discriminate].
Qed.

(** X17: [migrate_user] prints the value of no leftover detail whose key is
    [email], [ssh_key], [telephone] or [facsimile], or holds
    [password]. *)
Theorem secret_details_are_not_printed (cfg : config) (person : nat) :
  logs no_secret_value (migrate_user cfg person).
Proof.
  apply migrate_user_logs; try (intros; exact I).
  intros key value Hs. exact Hs.
Qed.

(** X18: [migrate_user] calls the directory for nothing but the creation,
    the lookup and the update of a user, and the re-authentication,
    which uses the configured credentials; membership is not touched
    and no status line is written. *)
Theorem migrate_user_calls_user_operations (cfg : config) (person : nat) :
  logs (upsert_call cfg) (migrate_user cfg person).
Proof.
  apply migrate_user_logs; try (intros; exact I).
  intros r. split; reflexivity.
Qed.

Lemma on_add_error_status
    (username : pyval) (user_args : list (str * pyval)) (e : exn)
    (w w' : world) (st : Status) :
  on_add_error username user_args e w = (Done st, w') -> st = UPDATED.
Proof.
  unfold on_add_error. destruct e as [k| | | |cls msg|text]; try discriminate.
  destruct (is_str msg (already_exists username)); [|discriminate].
  intros H. apply bind_Done_inv in H as (a & w1 & _ & H).
  apply bind_Done_inv in H as (v & w2 & _ & H).
  injection H as <- _. reflexivity.
Qed.

(** The body of the outer [try] returns [ADDED] or [UPDATED]. *)
Lemma try_body_status
    (f : processed) (name first_name last_name : str) (w w' : world) (st : Status) :
  (user_args ←
     lift (build_user_args (p_username f) name first_name last_name
             (p_status f) (p_email f) (p_ircnick f) (p_locale f)
             (p_timezone f) (p_gpg_keyid f) (p_ssh_key f)
             (p_creation f) (p_privacy f));
   catch
     (_ ← ipa (user_add (p_username f) (make_user_add_args user_args));
      mret ADDED)
     (on_add_error (p_username f) user_args)) w = (Done st, w') ->
  st = ADDED \/ st = UPDATED.
Proof.
  intros H. apply bind_Done_inv in H as (user_args & w1 & _ & H).
  unfold catch in H.
  destruct ((_ ← ipa (user_add (p_username f) (make_user_add_args user_args));
             mret ADDED) w1) as [[a|e|] w2] eqn:Hadd.
  - apply bind_Done_inv in Hadd as (v & w3 & _ & Hadd).
    injection Hadd as <- _. injection H as <- _. left. reflexivity.
  - right. exact (on_add_error_status _ _ _ _ _ _ H).
  - discriminate.
Qed.

(** The two nested [try] statements end in the recursive call, entered
    with the heap as it was, or with one of four outcomes. *)
Lemma upsert_outcome
    (retry : M Status) (cfg : config) (f : processed)
    (name first_name last_name : str) (w : world) :
  (exists w1, upsert retry cfg f name first_name last_name w = retry w1
              /\ heap w1 = heap w)
  \/ forall st, fst (upsert retry cfg f name first_name last_name w) = Done st ->
                In st [ADDED; UPDATED; UNMODIFIED; FAILED].
Proof.
  remember (upsert retry cfg f name first_name last_name w) as r eqn:Hr.
  unfold upsert in Hr. unfold catch at 1 in Hr.
  pose proof (try_body_quiet False f name first_name last_name w
                ltac:(intros [])) as Hq.
  pose proof (try_body_status f name first_name last_name w) as Hst.
  revert Hr Hq Hst.
  match goal with |- context [match ?m w with _ => _ end] =>
    destruct (m w) as [[a|e|] w'] end;
    intros -> (evs & Hs & _) Hst; simpl in Hs.
  - right. intros st Hd. simpl in Hd. injection Hd as <-.
    destruct (Hst w' a eq_refl) as [-> | ->]; simpl; tauto.
  - assert (Hheap : heap w' = heap w).
    { rewrite (span_heap _ _ _ _ Hs). apply app_nil_r. }
    assert (Hfail : forall m,
      forall st, fst ((_ ← emit (Print m); mret FAILED) w') = Done st ->
                 In st [ADDED; UPDATED; UNMODIFIED; FAILED]).
    { intros m st Hd. change (Done FAILED = Done st) in Hd.
      injection Hd as <-. simpl. tauto. }
    destruct e as [k| | | |cls msg|text]; try (right; apply Hfail).
    destruct cls;
      try (right; unfold on_error;
           destruct (negb (is_str msg (lit "no modifications to be performed")));
           [apply Hfail
           | intros st Hd; simpl in Hd; injection Hd as <-; simpl; tauto]).
    unfold on_error. rewrite bind_run.
    destruct (ipa_run (login (ipa_username cfg) (ipa_password cfg)) w')
      as (r & s' & -> & _).
    destruct r as [v|e']; simpl.
    + left. eexists. split; [reflexivity | exact Hheap].
    + right. intros st Hd. discriminate.
  - right. intros st Hd. discriminate.
Qed.

Lemma migrate_user_body_outcome
    (retry : M Status) (cfg : config) (person : nat) (w : world)
    (record : list (str * pyval)) :
  heap w !! person = Some record ->
  let r := migrate_user_body retry cfg person w in
  let copied := {| heap := heap w ++ [record]; script := script w; log := log w |} in
  if excluded_by_policy cfg record then r = (Done SKIPPED, copied)
  else if skip_user_add cfg then r = (Done UNMODIFIED, copied)
  else (exists w1 ext, r = retry w1 /\ heap w1 = heap w ++ ext)
       \/ forall st, fst r = Done st -> In st [ADDED; UPDATED; UNMODIFIED; FAILED].
Proof.
  intros Hp. cbv zeta.
  remember (migrate_user_body retry cfg person w) as r eqn:Hr. revert Hr.
  unfold migrate_user_body. rewrite bind_run. unfold dict_copy. rewrite bind_run.
  unfold load at 1. rewrite Hp.
  unfold alloc at 1. rewrite bind_run. unfold load at 1. cbn [heap].
  rewrite list_lookup_middle by reflexivity.
  unfold excluded_by_policy.
  destruct (users_skip_disabled cfg && _); [intros ->; reflexivity|].
  destruct (users_skip_spam cfg && _); [intros ->; reflexivity|]. cbn [orb].
  destruct (skip_user_add cfg); [intros ->; reflexivity|].
  rewrite bind_run. unfold alloc at 1. cbn [heap script log].
  rewrite bind_run.
  destruct (pop_processed_last (heap w ++ [record])
              (List.filter (fun kv => kept_key (fst kv)) record)
              (script w) (log w)) as (o & d' & -> & Hfuel & _).
  rewrite <- app_assoc. cbn [app].
  destruct o as [f|e|]; [|intros ->; right; intros st Hd; discriminate|congruence].
  rewrite bind_run. unfold load at 1. cbn [heap].
  replace (heap w ++ [record; d']) with ((heap w ++ [record]) ++ [d'])
    by (rewrite <- app_assoc; reflexivity).
  rewrite list_lookup_middle by reflexivity.
  rewrite <- app_assoc. cbn [app].
  set (w2 := {| heap := heap w ++ [record; d']; script := script w; log := log w |}).
  destruct d' as [|kv d'].
  - rewrite bind_run.
    destruct (derive_names (p_human_name f)) as [[[name first_name] last_name]|e];
      [|intros ->; right; intros st Hd; discriminate].
    cbn [lift]. intros ->.
    destruct (upsert_outcome retry cfg f name first_name last_name w2)
      as [(w1 & Hr & Hh)|Hst].
    + left. exists w1, [record; []]. split; [exact Hr | exact Hh].
    + right. exact Hst.
  - intros Hrun. right. intros st Hd.
    destruct r as [o w3]. simpl in Hd. subst o. symmetry in Hrun.
    apply bind_Done_inv in Hrun as (u1 & w4 & _ & Hrun).
    apply bind_Done_inv in Hrun as (u2 & w5 & _ & Hrun).
    injection Hrun as <- _. simpl. tauto.
Qed.

Lemma migrate_user_fuel_outcome
    (cfg : config) (person : nat) (record : list (str * pyval)) (fuel : nat) (w : world) :
  heap w !! person = Some record ->
  excluded_by_policy cfg record = false ->
  forall st, fst (migrate_user_fuel fuel cfg person w) = Done st ->
             In st [ADDED; UPDATED; UNMODIFIED; FAILED].
Proof.
  revert w. induction fuel as [|fuel IH]; intros w Hp Hex st; [discriminate|].
  cbn [migrate_user_fuel].
  pose proof (migrate_user_body_outcome (migrate_user_fuel fuel cfg person)
                cfg person w record Hp) as H.
  cbv zeta in H. rewrite Hex in H.
  destruct (skip_user_add cfg).
  - rewrite H. intros Hd. simpl in Hd. injection Hd as <-. simpl. tauto.
  - destruct H as [(w1 & ext & -> & Hh)|H]; [|exact (H st)].
    apply IH; [|exact Hex]. rewrite Hh. apply lookup_app_l_Some. exact Hp.
Qed.

(** X10: [migrate_user] returns [SKIPPED] exactly for a record the policy
    excludes; for any other record it returns, if it returns, one of
    [ADDED], [UPDATED], [UNMODIFIED] and [FAILED]. *)
Theorem skipped_means_excluded
    (cfg : config) (person : nat) (w : world) (record : list (str * pyval)) :
  heap w !! person = Some record ->
  (fst (migrate_user cfg person w) = Done SKIPPED
   <-> excluded_by_policy cfg record = true)
  /\ (excluded_by_policy cfg record = false ->
      forall st, fst (migrate_user cfg person w) = Done st ->
                 In st [ADDED; UPDATED; UNMODIFIED; FAILED]).
Proof.
  intros Hp. split; [split|].
  - intros Hs. destruct (excluded_by_policy cfg record) eqn:Hex; [reflexivity|].
    pose proof (migrate_user_fuel_outcome cfg person record _ w Hp Hex SKIPPED Hs) as H.
    simpl in H. intuition discriminate.
  - intros Hex. unfold migrate_user. cbn [migrate_user_fuel].
    pose proof (migrate_user_body_outcome
                  (migrate_user_fuel (List.length (script w)) cfg person)
                  cfg person w record Hp) as H.
    cbv zeta in H. rewrite Hex in H. rewrite H. reflexivity.
  - intros Hex st. apply (migrate_user_fuel_outcome cfg person record _ w Hp Hex).
Qed.

(** X11: For a record the policy excludes, and for any record when
    [skip_user_add] is set, [migrate_user] copies the record and does
    nothing else: no call to the directory, no output. *)
Theorem no_upsert_no_effect
    (cfg : config) (person : nat) (w : world) (record : list (str * pyval)) :
  heap w !! person = Some record ->
  excluded_by_policy cfg record = true \/ skip_user_add cfg = true ->
  migrate_user cfg person w
  = (Done (if excluded_by_policy cfg record then SKIPPED else UNMODIFIED),
     {| heap := heap w ++ [record]; script := script w; log := log w |}).
Proof.
  intros Hp Hor. unfold migrate_user. cbn [migrate_user_fuel].
  pose proof (migrate_user_body_outcome
                (migrate_user_fuel (List.length (script w)) cfg person)
                cfg person w record Hp) as H.
  cbv zeta in H. destruct (excluded_by_policy cfg record); [exact H|].
  destruct Hor as [Hor|Hor]; [discriminate|]. rewrite Hor in H. exact H.
Qed.

Lemma skipped_means_excluded_witness :
  (fst (migrate_user skipping_config 1 two_users_world) = Done SKIPPED
   <-> excluded_by_policy skipping_config (member_record "bea" "inactive") = true)
  /\ (excluded_by_policy skipping_config (member_record "bea" "inactive") = false ->
      forall st, fst (migrate_user skipping_config 1 two_users_world) = Done st ->
                 In st [ADDED; UPDATED; UNMODIFIED; FAILED]).
Proof.
  apply (skipped_means_excluded skipping_config 1 two_users_world
           (member_record "bea" "inactive")).
  reflexivity.
Defined.

Lemma no_upsert_no_effect_witness :
  migrate_user skipping_config 1 two_users_world
  = (Done (if excluded_by_policy skipping_config (member_record "bea" "inactive")
           then SKIPPED else UNMODIFIED),
     {| heap := heap two_users_world ++ [member_record "bea" "inactive"];
        script := script two_users_world; log := log two_users_world |}).
Proof.
  apply (no_upsert_no_effect skipping_config 1 two_users_world
           (member_record "bea" "inactive")).
  - reflexivity.
  - left. reflexivity.
Defined.

(** Popping the processed keys from the newest object: the first key
    that is missing raises [KeyError]; when none is, the values are
    handed back and the object keeps the other keys. *)
Lemma pop_processed_exact
    (h : list (list (str * pyval))) (d : list (str * pyval))
    (s : list reply) (lg : list event) :
  match first_missing_key d with
  | Some k =>
      exists d',
        pop_processed (List.length h) {| heap := h ++ [d]; script := s; log := lg |}
        = (Raised (KeyError k), {| heap := h ++ [d']; script := s; log := lg |})
  | None =>
      pop_processed (List.length h) {| heap := h ++ [d]; script := s; log := lg |}
      = (Done (processed_of d),
         {| heap := h ++ [fold_left dict_del processed_keys d];
            script := s; log := lg |})
  end.
Proof.
  remember (pop_processed (List.length h)
              {| heap := h ++ [d]; script := s; log := lg |}) as r eqn:Hr.
  revert Hr. unfold pop_processed.
  unfold first_missing_key, processed_keys, dict_has, processed_of, item.
  cbn [List.map find fold_left].
  repeat
    (rewrite bind_run, dict_pop_last;
     rewrite ?dict_get_del_ne by (vm_compute; discriminate);
     match goal with
     | |- _ = ?rhs -> _ =>
         match rhs with
         | context [dict_get d ?k] =>
             let H := fresh "Hk" in
             destruct (dict_get d k) eqn:H; cbn [negb];
             [|intros ->; eexists; reflexivity]
         end
     end).
  intros ->. reflexivity.
Qed.

Lemma filter_filter {A} (f g : A -> bool) (l : list A) :
  List.filter f (List.filter g l) = List.filter (fun x => g x && f x) l.
Proof.
  induction l as [|x l IH]; [reflexivity|]. simpl.
  destruct (g x); simpl; [destruct (f x)|]; rewrite ?IH; reflexivity.
Qed.

Lemma fold_dict_del {V} (ks : list str) (d : list (str * V)) :
  fold_left dict_del ks d = List.filter (fun kv => negb (mem (fst kv) ks)) d.
Proof.
  revert d. induction ks as [|k ks IH]; intros d.
  - simpl. induction d as [|kv d IHd]; [reflexivity|]. simpl. f_equal. exact IHd.
  - cbn [fold_left]. rewrite IH. unfold dict_del. rewrite filter_filter.
    apply filter_ext. intros [k0 v]. unfold mem. cbn [fst existsb].
    destruct (decide (k0 = k)) as [->|Hne].
    + rewrite str_eqb_refl. reflexivity.
    + destruct (str_eqb k0 k) eqn:E; [apply str_eqb_eq in E; congruence|].
      reflexivity.
Qed.

Lemma leftover_spec (record : list (str * pyval)) :
  fold_left dict_del processed_keys
    (List.filter (fun kv => kept_key (fst kv)) record)
  = leftover record.
Proof. rewrite fold_dict_del, filter_filter. reflexivity. Qed.

Lemma processed_key_kept (k : str) : In k processed_keys -> kept_key k = true.
Proof.
  unfold processed_keys. cbn [List.map].
  intros H. repeat (destruct H as [<-|H]; [reflexivity|]). destruct H.
Qed.

Lemma first_missing_key_filter (record : list (str * pyval)) :
  first_missing_key (List.filter (fun kv => kept_key (fst kv)) record)
  = first_missing_key record.
Proof.
  unfold first_missing_key.
  assert (H : forall l, (forall k, In k l -> kept_key k = true) ->
            find (fun k => negb (dict_has
                                   (List.filter (fun kv => kept_key (fst kv)) record) k)) l
            = find (fun k => negb (dict_has record k)) l).
  { induction l as [|k l IH]; intros Hl; [reflexivity|]. simpl.
    unfold dict_has at 1 3.
    rewrite (dict_get_filter_key kept_key record k) by (apply Hl; left; reflexivity).
    rewrite IH by (intros k' Hin; apply Hl; right; exact Hin). reflexivity. }
  apply H. exact processed_key_kept.
Qed.

Lemma processed_of_filter (record : list (str * pyval)) :
  processed_of (List.filter (fun kv => kept_key (fst kv)) record)
  = processed_of record.
Proof.
  unfold processed_of, item.
  rewrite !(dict_get_filter_key kept_key record) by reflexivity. reflexivity.
Qed.

Lemma print_unprocessed_run (l : list (str * pyval)) (w : world) :
  for_eachM l print_unprocessed w
  = (Done tt, {| heap := heap w; script := script w;
                 log := log w ++ List.map detail_line l |}).
Proof.
  revert w. induction l as [|[key value] l IH]; intros w.
  - destruct w. simpl. rewrite app_nil_r. reflexivity.
  - cbn [for_eachM]. rewrite bind_run.
    assert (Hone : print_unprocessed (key, value) w
                   = (Done tt, {| heap := heap w; script := script w;
                                  log := log w ++ [detail_line (key, value)] |})).
    { unfold print_unprocessed, detail_line. cbn [fst snd].
      fold (secret_key key). destruct (secret_key key); reflexivity. }
    rewrite Hone, IH. cbn [heap script log List.map].
    rewrite <- app_assoc. reflexivity.
Qed.

(** The first steps of [migrate_user] for a record that is neither
    excluded nor met in a dry run: the copy, the filtered copy, and
    the rest of the body run on it. *)
Lemma migrate_user_body_start
    (retry : M Status) (cfg : config) (person : nat) (w : world)
    (record : list (str * pyval)) :
  heap w !! person = Some record ->
  excluded_by_policy cfg record = false ->
  skip_user_add cfg = false ->
  migrate_user_body retry cfg person w
  = (f ← pop_processed (List.length (heap w ++ [record]));
     unprocessed ← load (List.length (heap w ++ [record]));
     match unprocessed with
     | _ :: _ =>
         _ ← emit (Print UnprocessedDetails);
         _ ← for_eachM (sorted_by fst unprocessed) print_unprocessed;
         mret FAILED
     | [] =>
         '(name, first_name, last_name) ← lift (derive_names (p_human_name f));
         upsert retry cfg f name first_name last_name
     end)
      {| heap := (heap w ++ [record])
                 ++ [List.filter (fun kv => kept_key (fst kv)) record];
         script := script w; log := log w |}.
Proof.
  intros Hp Hex Hskip. unfold excluded_by_policy in Hex.
  apply orb_false_iff in Hex as [Hd Hs].
  unfold migrate_user_body. rewrite bind_run. unfold dict_copy. rewrite bind_run.
  unfold load at 1. rewrite Hp.
  unfold alloc at 1. rewrite bind_run. unfold load at 1. cbn [heap].
  rewrite list_lookup_middle by reflexivity.
  rewrite Hd, Hs, Hskip.
  rewrite bind_run. unfold alloc at 1. cbn [heap script log]. reflexivity.
Qed.

(** X12: A record that lacks one of the eleven processed keys makes
    [migrate_user] raise [KeyError] for the first one missing, before
    any call to the directory and any output. *)
Theorem missing_key_raises
    (cfg : config) (person : nat) (w : world) (record : list (str * pyval))
    (key : str) :
  heap w !! person = Some record ->
  excluded_by_policy cfg record = false ->
  skip_user_add cfg = false ->
  first_missing_key record = Some key ->
  exists d,
    migrate_user cfg person w
    = (Raised (KeyError key),
       {| heap := heap w ++ [record; d]; script := script w; log := log w |}).
Proof.
  intros Hp Hex Hskip Hmiss. unfold migrate_user. cbn [migrate_user_fuel].
  rewrite (migrate_user_body_start _ cfg person w record Hp Hex Hskip).
  rewrite bind_run.
  pose proof (pop_processed_exact (heap w ++ [record])
                (List.filter (fun kv => kept_key (fst kv)) record)
                (script w) (log w)) as Hpop.
  rewrite first_missing_key_filter, Hmiss in Hpop. destruct Hpop as (d & ->).
  exists d. rewrite <- app_assoc. reflexivity.
Qed.

(** X13: A record with a detail that is neither ignored nor processed is
    not migrated: [migrate_user] prints the leftover details, sorted by
    key, makes no call to the directory and returns [FAILED]. *)
Theorem unprocessed_details_fail
    (cfg : config) (person : nat) (w : world) (record : list (str * pyval)) :
  heap w !! person = Some record ->
  excluded_by_policy cfg record = false ->
  skip_user_add cfg = false ->
  first_missing_key record = None ->
  leftover record <> [] ->
  migrate_user cfg person w
  = (Done FAILED,
     {| heap := heap w ++ [record; leftover record];
        script := script w;
        log := log w ++ Print UnprocessedDetails
                        :: List.map detail_line (sorted_by fst (leftover record)) |}).
Proof.
  intros Hp Hex Hskip Hmiss Hleft. unfold migrate_user. cbn [migrate_user_fuel].
  rewrite (migrate_user_body_start _ cfg person w record Hp Hex Hskip).
  rewrite bind_run.
  pose proof (pop_processed_exact (heap w ++ [record])
                (List.filter (fun kv => kept_key (fst kv)) record)
                (script w) (log w)) as Hpop.
  rewrite first_missing_key_filter, Hmiss, leftover_spec in Hpop. rewrite Hpop.
  rewrite bind_run. unfold load at 1. cbn [heap].
  rewrite list_lookup_middle by reflexivity.
  destruct (leftover record) as [|kv rest] eqn:Hl; [congruence|].
  rewrite bind_run. unfold emit at 1. cbn [heap script log].
  rewrite bind_run, print_unprocessed_run. cbn [heap script log].
  rewrite <- !app_assoc. reflexivity.
Qed.

(** X14: A record that holds the processed keys and, besides, ignored keys
    only is sent to the directory: when the directory accepts the
    create call, that one call is all [migrate_user] does, its
    arguments are those of lines 323-346, and the outcome is [ADDED]. *)
Theorem clean_record_is_created
    (cfg : config) (person : nat) (w : world) (record : list (str * pyval))
    (name first_name last_name : str) (user_args : list (str * pyval)) (v : pyval) :
  heap w !! person = Some record ->
  excluded_by_policy cfg record = false ->
  skip_user_add cfg = false ->
  first_missing_key record = None ->
  leftover record = [] ->
  derive_names (item record (lit "human_name")) = Ok (name, first_name, last_name) ->
  build_user_args (item record (lit "username")) name first_name last_name
    (item record (lit "status")) (item record (lit "email"))
    (item record (lit "ircnick")) (item record (lit "locale"))
    (item record (lit "timezone")) (item record (lit "gpg_keyid"))
    (item record (lit "ssh_key")) (item record (lit "creation"))
    (item record (lit "privacy")) = Ok user_args ->
  hd (Returns (VDict [])) (script w) = Returns v ->
  migrate_user cfg person w
  = (Done ADDED,
     {| heap := heap w ++ [record; []];
        script := tl (script w);
        log := log w ++ [Called (user_add (item record (lit "username"))
                                   (make_user_add_args user_args))
                                (Returns v)] |}).
Proof.
  intros Hp Hex Hskip Hmiss Hleft Hnames Hargs Hreply.
  unfold migrate_user. cbn [migrate_user_fuel].
  rewrite (migrate_user_body_start _ cfg person w record Hp Hex Hskip).
  rewrite bind_run.
  pose proof (pop_processed_exact (heap w ++ [record])
                (List.filter (fun kv => kept_key (fst kv)) record)
                (script w) (log w)) as Hpop.
  rewrite first_missing_key_filter, Hmiss, leftover_spec, processed_of_filter in Hpop.
  rewrite Hpop, Hleft.
  rewrite bind_run. unfold load at 1. cbn [heap].
  rewrite list_lookup_middle by reflexivity.
  rewrite bind_run. cbn [processed_of p_human_name]. rewrite Hnames.
  cbn [lift mret M_ret].
  unfold upsert, catch. rewrite bind_run.
  cbn [processed_of p_username p_status p_email p_ircnick p_locale p_timezone
       p_gpg_keyid p_ssh_key p_creation p_privacy].
  rewrite Hargs. cbn [lift mret M_ret]. rewrite bind_run.
  unfold ipa. cbn [heap script log].
  destruct (script w) as [|r rest]; simpl in Hreply; subst.
  - injection Hreply as <-. rewrite <- app_assoc. reflexivity.
  - rewrite <- app_assoc. reflexivity.
Qed.

Lemma missing_key_raises_witness :
  exists d,
    migrate_user (realms_config []) 0 (world_with short_record [])
    = (Raised (KeyError (lit "ircnick")),
       {| heap := heap (world_with short_record []) ++ [short_record; d];
          script := script (world_with short_record []);
          log := log (world_with short_record []) |}).
Proof.
  apply (missing_key_raises (realms_config []) 0 (world_with short_record [])
           short_record (lit "ircnick")); reflexivity.
Defined.

Lemma unprocessed_details_fail_witness :
  migrate_user (realms_config []) 0 (world_with record_with_extras [])
  = (Done FAILED,
     {| heap := heap (world_with record_with_extras [])
                ++ [record_with_extras; leftover record_with_extras];
        script := script (world_with record_with_extras []);
        log := log (world_with record_with_extras [])
               ++ Print UnprocessedDetails
                  :: List.map detail_line
                       (sorted_by fst (leftover record_with_extras)) |}).
Proof.
  apply (unprocessed_details_fail (realms_config []) 0
           (world_with record_with_extras []) record_with_extras).
  - reflexivity.
  - reflexivity.
  - reflexivity.
  - reflexivity.
  - vm_compute. discriminate.
Defined.

Lemma clean_record_is_created_witness :
  exists user_args,
    migrate_user (realms_config []) 0 (world_with record_without_name [])
    = (Done ADDED,
       {| heap := heap (world_with record_without_name [])
                  ++ [record_without_name; []];
          script := tl (script (world_with record_without_name []));
          log := log (world_with record_without_name [])
                 ++ [Called (user_add (item record_without_name (lit "username"))
                               (make_user_add_args user_args))
                            (Returns (VDict []))] |}).
Proof.
  eexists.
  apply (clean_record_is_created (realms_config []) 0
           (world_with record_without_name []) record_without_name
           full_name_unset first_name_unset last_name_unset).
  - reflexivity.
  - reflexivity.
  - reflexivity.
  - reflexivity.
  - reflexivity.
  - reflexivity.
  - vm_compute. reflexivity.
  - reflexivity.
Defined.

(** ** The values [migrate_user] computes *)

Lemma split_nonempty (s : str) (sep : char) : split s sep <> [].
Proof.
  destruct s as [|c s]; [discriminate|]. simpl.
  destruct (c =? sep); [discriminate|]. destruct (split s sep); discriminate.
Qed.

Lemma split_single (s : str) (sep : char) : ~ In sep s -> split s sep = [s].
Proof.
  induction s as [|c s IH]; [reflexivity|]. intros Hin. simpl.
  destruct (c =? sep) eqn:E.
  - apply N.eqb_eq in E. subst c. exfalso. apply Hin. left. reflexivity.
  - rewrite IH by (intros H; apply Hin; right; exact H). reflexivity.
Qed.

Lemma split_app (a b : str) (sep : char) :
  ~ In sep a -> split (a ++ sep :: b) sep = a :: split b sep.
Proof.
  induction a as [|c a IH]; intros Hin.
  - simpl. rewrite N.eqb_refl. reflexivity.
  - simpl. destruct (c =? sep) eqn:E.
    + apply N.eqb_eq in E. subst c. exfalso. apply Hin. left. reflexivity.
    + rewrite IH by (intros H; apply Hin; right; exact H). reflexivity.
Qed.

Lemma split_length (s : str) (sep : char) :
  List.length (split s sep) = S (count_occ N.eq_dec s sep).
Proof.
  induction s as [|c s IH]; [reflexivity|]. simpl.
  destruct (N.eq_dec c sep) as [->|Hne].
  - rewrite N.eqb_refl. simpl. rewrite IH. reflexivity.
  - apply N.eqb_neq in Hne. rewrite Hne.
    destruct (split s sep) as [|part parts]; [discriminate|]. exact IH.
Qed.

(** X19: A human name of two words, separated by one space, gives the first
    and the last name. *)
Theorem two_word_name_is_split (s first last : str) :
  s <> [] ->
  strip s = first ++ 32 :: last ->
  ~ In 32 first ->
  ~ In 32 last ->
  derive_names (VStr s) = Ok (strip s, strip first, strip last).
Proof.
  intros Hs Hname Hf Hl. unfold derive_names.
  destruct s as [|c s]; [congruence|]. cbn [truthy].
  rewrite Hname, (split_app _ _ _ Hf), (split_single _ _ Hl). reflexivity.
Qed.

Lemma two_word_name_is_split_witness :
  derive_names (VStr (lit " Ada Lovelace "))
  = Ok (strip (lit " Ada Lovelace "), strip (lit "Ada"), strip (lit "Lovelace")).
Proof.
  apply (two_word_name_is_split (lit " Ada Lovelace ") (lit "Ada") (lit "Lovelace")).
  - discriminate.
  - reflexivity.
  - vm_compute. intuition discriminate.
  - vm_compute. intuition discriminate.
Defined.

(** X20: A human name of one word, or of more than two, is not split: it is
    the last name as a whole, and the first name is the placeholder. *)
Theorem other_names_are_not_split (s : str) :
  s <> [] ->
  count_occ N.eq_dec (strip s) 32 <> 1%nat ->
  derive_names (VStr s) = Ok (strip s, first_name_unset, strip s).
Proof.
  intros Hs Hcount. unfold derive_names.
  destruct s as [|c s]; [congruence|]. cbn [truthy].
  rewrite split_length.
  destruct (count_occ N.eq_dec (strip (c :: s)) 32) as [|[|n]];
    [reflexivity | congruence | reflexivity].
Qed.

Lemma other_names_are_not_split_witness :
  derive_names (VStr (lit "Ada King Lovelace"))
  = Ok (strip (lit "Ada King Lovelace"), first_name_unset,
        strip (lit "Ada King Lovelace")).
Proof.
  apply (other_names_are_not_split (lit "Ada King Lovelace")).
  - discriminate.
  - vm_compute. discriminate.
Defined.

Lemma run_length_app (p : char -> bool) (a b : str) :
  forallb p a = true ->
  match b with [] => True | c :: _ => p c = false end ->
  run_length p (a ++ b) = List.length a.
Proof.
  intros Ha Hb. induction a as [|x a IH].
  - destruct b as [|c b]; [reflexivity|]. simpl. rewrite Hb. reflexivity.
  - simpl in Ha. apply andb_true_iff in Ha as [Hx Ha].
    simpl. rewrite Hx, (IH Ha). reflexivity.
Qed.

Lemma creation_time_sub_from_skip_all (skip : nat) (s : str) :
  (List.length s <= skip)%nat -> creation_time_sub_from skip s = [].
Proof.
  revert skip. induction s as [|c s IH]; intros skip Hlen; [reflexivity|].
  simpl in Hlen. destruct skip as [|skip]; [lia|]. simpl. apply IH. lia.
Qed.

Lemma startswith_refl (s : str) : startswith s s = true.
Proof. induction s as [|c s IH]; [reflexivity|]. simpl. rewrite N.eqb_refl. exact IH. Qed.

Lemma creation_time_sub_one_match (s s' : str) (c0 : char) (k n : nat) :
  s = c0 :: s' ->
  run_length is_stamp_char s = k ->
  stamp_match k s = Some (k, n) ->
  (List.length s <= n)%nat ->
  creation_time_sub_from O s = firstn k s ++ lit "Z".
Proof.
  intros Hs Hrun Hmatch Hlen. rewrite Hs in *.
  cbn [creation_time_sub_from]. rewrite Hrun, Hmatch.
  rewrite creation_time_sub_from_skip_all by (simpl in Hlen; lia).
  rewrite app_nil_r. reflexivity.
Qed.

(** X21: A creation time [stamp.fraction+00:00] is rewritten to [stampZ]:
    the fraction of a second and the offset are dropped. *)
Theorem creation_time_drops_fraction (stamp fraction : str) (dot : char) :
  stamp <> [] ->
  forallb is_stamp_char stamp = true ->
  is_stamp_char dot = false ->
  dot <> 10 ->
  fraction <> [] ->
  forallb is_digit fraction = true ->
  creation_time_sub (stamp ++ dot :: fraction ++ lit "+00:00") = stamp ++ lit "Z".
Proof.
  intros Hne Hstamp Hdot Hnl Hfne Hfrac.
  unfold creation_time_sub.
  set (rest := dot :: fraction ++ lit "+00:00").
  assert (Hrun : run_length is_stamp_char (stamp ++ rest) = List.length stamp).
  { apply run_length_app; [exact Hstamp | exact Hdot]. }
  assert (Htail : stamp_tail rest = Some (1 + List.length fraction + 6)%nat).
  { unfold rest, stamp_tail. apply N.eqb_neq in Hnl. rewrite Hnl.
    rewrite (run_length_app is_digit fraction (lit "+00:00") Hfrac) by reflexivity.
    rewrite skipn_app, skipn_all, Nat.sub_diag. cbn [app skipn].
    rewrite startswith_refl.
    destruct fraction; [congruence | reflexivity]. }
  assert (Hskip : skipn (List.length stamp) (stamp ++ rest) = rest).
  { rewrite skipn_app, skipn_all, Nat.sub_diag. reflexivity. }
  assert (Hmatch : stamp_match (List.length stamp) (stamp ++ rest)
                   = Some (List.length stamp,
                           (List.length stamp + (1 + List.length fraction + 6))%nat)).
  { destruct stamp as [|c0 stamp']; [congruence|].
    cbn [List.length stamp_match]. cbn [List.length] in Hskip.
    rewrite Hskip, Htail. reflexivity. }
  destruct stamp as [|c0 stamp'] eqn:Hst; [congruence|]. rewrite <- Hst in *.
  rewrite (creation_time_sub_one_match (stamp ++ rest) (stamp' ++ rest) c0
             _ _ ltac:(rewrite Hst; reflexivity) Hrun Hmatch).
  - rewrite firstn_app, firstn_all, Nat.sub_diag. cbn [firstn].
    rewrite app_nil_r. reflexivity.
  - unfold rest. rewrite length_app. cbn [List.length].
    rewrite length_app. simpl. lia.
Qed.

Lemma creation_time_drops_fraction_witness :
  creation_time_sub (lit "2012-03-04 05:06:07" ++ 46 :: lit "89" ++ lit "+00:00")
  = lit "2012-03-04 05:06:07" ++ lit "Z".
Proof.
  apply (creation_time_drops_fraction (lit "2012-03-04 05:06:07") (lit "89") 46).
  - discriminate.
  - reflexivity.
  - reflexivity.
  - discriminate.
  - discriminate.
  - reflexivity.
Defined.

Lemma startswith_head (s p : str) (c : char) :
  startswith s (c :: p) = true -> In c s.
Proof.
  destruct s as [|x s]; [discriminate|]. simpl.
  intros [Hx _]%andb_true_iff. apply N.eqb_eq in Hx. left. exact Hx.
Qed.

Lemma In_skipn_In {A} (x : A) (n : nat) (l : list A) : In x (skipn n l) -> In x l.
Proof.
  intros H. rewrite <- (firstn_skipn n l). apply in_or_app. right. exact H.
Qed.

Lemma stamp_tail_plus (s : str) (n : nat) : stamp_tail s = Some n -> In 43 s.
Proof.
  unfold stamp_tail. destruct s as [|c s]; [discriminate|].
  destruct (c =? 10); [discriminate|].
  destruct (_ && _) eqn:E; [|discriminate]. intros _.
  apply andb_true_iff in E as [_ E]. right.
  apply (In_skipn_In _ (run_length is_digit s)).
  exact (startswith_head _ _ _ E).
Qed.

Lemma stamp_match_plus (k : nat) (s : str) (r : nat * nat) :
  stamp_match k s = Some r -> In 43 s.
Proof.
  induction k as [|k IH]; [discriminate|]. cbn [stamp_match].
  destruct (stamp_tail (skipn (S k) s)) as [n|] eqn:E; [|exact IH].
  intros _. apply (In_skipn_In _ (S k)). exact (stamp_tail_plus _ _ E).
Qed.

(** X22: A creation time without [+] is left as it is. *)
Theorem creation_time_without_offset (creation : str) :
  ~ In 43 creation -> creation_time_sub creation = creation.
Proof.
  unfold creation_time_sub.
  induction creation as [|c s IH]; [reflexivity|]. intros Hin.
  cbn [creation_time_sub_from].
  destruct (stamp_match _ (c :: s)) as [[k n]|] eqn:E.
  - exfalso. apply Hin. exact (stamp_match_plus _ _ _ E).
  - f_equal. apply IH. intros H. apply Hin. right. exact H.
Qed.

Lemma creation_time_without_offset_witness :
  creation_time_sub (lit "2012-03-04T05:06:07Z") = lit "2012-03-04T05:06:07Z".
Proof.
  apply (creation_time_without_offset (lit "2012-03-04T05:06:07Z")).
  vm_compute. intuition discriminate.
Defined.

Lemma pyval_list_ind (P : pyval -> Prop) :
  P VNone -> (forall b, P (VBool b)) -> (forall z, P (VInt z)) ->
  (forall s, P (VStr s)) ->
  (forall l, Forall P l -> P (VList l)) ->
  (forall d, P (VDict d)) ->
  forall v, P v.
Proof.
  intros HNone HBool HInt HStr HList HDict. fix IH 1. intros v.
  destruct v as [|b|z|s|l|d];
    [exact HNone | apply HBool | apply HInt | apply HStr | | apply HDict].
  apply HList. induction l as [|x l IHl]; constructor; [apply IH | exact IHl].
Qed.

(** X23: [_compact_value] leaves no dictionary in a value, at any depth of
    its lists, and leaves a value that holds none as it is; applying it
    twice is applying it once. *)
Theorem compact_value_removes_dicts (val : pyval) :
  has_dict (_compact_value val) = false
  /\ (has_dict val = false -> _compact_value val = val)
  /\ _compact_value (_compact_value val) = _compact_value val.
Proof.
  assert (H1 : forall v, has_dict (_compact_value v) = false).
  { induction v as [|b|z|s|l IHl|d] using pyval_list_ind; try reflexivity.
    cbn [_compact_value has_dict].
    induction IHl as [|x l Hx _ IH]; [reflexivity|].
    cbn [List.map existsb]. rewrite Hx, IH. reflexivity. }
  assert (H2 : forall v, has_dict v = false -> _compact_value v = v).
  { induction v as [|b|z|s|l IHl|d] using pyval_list_ind; try reflexivity;
      [|discriminate].
    cbn [_compact_value has_dict]. intros Hl. f_equal.
    induction IHl as [|x l Hx _ IH]; [reflexivity|].
    cbn [existsb] in Hl. apply orb_false_iff in Hl as [Hxd Hld].
    cbn [List.map]. rewrite (Hx Hxd), (IH Hld). reflexivity. }
  split; [apply H1|]. split; [apply H2|]. apply H2, H1.
Qed.

Lemma compact_value_removes_dicts_witness :
  _compact_value (VList [VInt 1; VStr (lit "x")]) = VList [VInt 1; VStr (lit "x")].
Proof.
  apply (proj1 (proj2 (compact_value_removes_dicts
                         (VList [VInt 1; VStr (lit "x")])))).
  reflexivity.
Defined.

(** ** More about the membership reconciler *)

Lemma calls_of_app (a b : list event) : calls_of (a ++ b) = calls_of a ++ calls_of b.
Proof. unfold calls_of. apply flat_map_app. Qed.

Lemma after_calls_refl (w : world) : after_calls [] w w.
Proof. split; [reflexivity|]. split; [reflexivity | symmetry; apply app_nil_r]. Qed.

Lemma after_calls_trans (a b : list call) (w w1 w2 : world) :
  after_calls a w w1 -> after_calls b w1 w2 -> after_calls (a ++ b) w w2.
Proof.
  intros (Hh1 & Hs1 & Hc1) (Hh2 & Hs2 & Hc2). split; [congruence|]. split.
  - rewrite Hs2, Hs1, skipn_skipn, length_app. f_equal. lia.
  - rewrite Hc2, Hc1, app_assoc. reflexivity.
Qed.

Lemma Forall_skipn_keep {A} (P : A -> Prop) (n : nat) (l : list A) :
  Forall P l -> Forall P (skipn n l).
Proof.
  revert l. induction n as [|n IH]; intros l H; [exact H|].
  destruct l as [|x l]; [constructor|]. simpl. apply IH.
  inversion H; assumption.
Qed.

(** Closes the run of one chunk: the state reached and its calls. *)
Ltac chunk_done Hs :=
  eexists; split; [reflexivity|];
  unfold after_calls; cbn [heap script log List.length];
  rewrite ?Hs; split; [reflexivity|]; split; [reflexivity|];
  rewrite <- ?app_assoc; rewrite calls_of_app; reflexivity.

(** One chunk of a removal when the directory reports no member
    errors: the chunk is counted and one call is made. *)
Lemma remove_chunk_run
    (cfg : config) (group : str) (counter : nat) (chunk : list str) (w : world) :
  Forall no_member_errors (script w) ->
  exists w',
    remove_chunk cfg group counter chunk w
    = (Done (counter + List.length chunk)%nat, w')
    /\ after_calls [group_remove_member (groups_prefix cfg ++ group) chunk] w w'.
Proof.
  intros Hok. unfold remove_chunk. rewrite bind_run.
  unfold check_reauth, emit at 1. cbn [heap script log].
  rewrite bind_run. unfold finally, try_else, ipa. cbn [heap script log].
  destruct (script w) as [|r rest] eqn:Hs.
  - cbn [default_reply]. destruct (set_of chunk); chunk_done Hs.
  - inversion Hok as [|r' rest' Hr Hrest]; subst.
    destruct r as [v|e].
    + destruct (set_of chunk); chunk_done Hs.
    + destruct e as [k| | | |cls msg|text]; try destruct cls; try destruct Hr;
        chunk_done Hs.
Qed.

(** One chunk of an addition of members, likewise. *)
Lemma add_chunk_run (group : str) (counter : nat) (chunk : list str) (w : world) :
  Forall no_member_errors (script w) ->
  exists w',
    add_chunk (lit "members") group counter chunk w
    = (Done (counter + List.length chunk)%nat, w')
    /\ after_calls [group_add_member group chunk] w w'.
Proof.
  intros Hok. unfold add_chunk. rewrite bind_run.
  unfold check_reauth, emit at 1. cbn [heap script log].
  rewrite bind_run. unfold finally, try_else, add_call.
  rewrite str_eqb_refl. rewrite bind_run. unfold ipa. cbn [heap script log].
  destruct (script w) as [|r rest] eqn:Hs.
  - cbn [default_reply]. destruct (set_of chunk); chunk_done Hs.
  - inversion Hok as [|r' rest' Hr Hrest]; subst.
    destruct r as [v|e].
    + destruct (set_of chunk); chunk_done Hs.
    + destruct e as [k| | | |cls msg|text]; try destruct cls; try destruct Hr;
        chunk_done Hs.
Qed.

Section Batches.
Context (cfg : config) (body : str -> nat -> list str -> M nat)
        (call_of : str -> list str -> call).
Hypothesis Hbody : forall group counter chunk w,
  Forall no_member_errors (script w) ->
  exists w',
    body group counter chunk w = (Done (counter + List.length chunk)%nat, w')
    /\ after_calls [call_of group chunk] w w'.

Lemma after_calls_script (calls : list call) (w w' : world) :
  after_calls calls w w' ->
  Forall no_member_errors (script w) -> Forall no_member_errors (script w').
Proof.
  intros (_ & Hs & _) Hok. rewrite Hs. apply Forall_skipn_keep. exact Hok.
Qed.

Lemma chunks_loop_run (group : str) (batches : list (list str)) :
  forall counter w,
    Forall no_member_errors (script w) ->
    exists counter' w',
      foldM batches (body group) counter w = (Done counter', w')
      /\ after_calls (List.map (call_of group) batches) w w'.
Proof using Hbody.
  induction batches as [|chunk batches IH]; intros counter w Hok.
  - exists counter, w. split; [reflexivity | apply after_calls_refl].
  - cbn [foldM]. rewrite bind_run.
    destruct (Hbody group counter chunk w Hok) as (w1 & -> & H1).
    destruct (IH (counter + List.length chunk)%nat w1
                (after_calls_script _ _ _ H1 Hok)) as (c2 & w2 & -> & H2).
    exists c2, w2. split; [reflexivity|].
    exact (after_calls_trans [_] _ _ _ _ H1 H2).
Qed.

Lemma groups_loop_run (groups : list (str * list str)) :
  forall counter w,
    Forall no_member_errors (script w) ->
    exists counter' w',
      foldM groups
        (fun counter '(group, members) =>
           foldM (chunks cfg members) (body group) counter)
        counter w = (Done counter', w')
      /\ after_calls
           (flat_map (fun gm => List.map (call_of (fst gm)) (chunks cfg (snd gm)))
              groups)
           w w'.
Proof using Hbody.
  induction groups as [|[group members] groups IH]; intros counter w Hok.
  - exists counter, w. split; [reflexivity | apply after_calls_refl].
  - cbn [foldM]. rewrite bind_run.
    destruct (chunks_loop_run group (chunks cfg members) counter w Hok)
      as (c1 & w1 & -> & H1).
    destruct (IH c1 w1 (after_calls_script _ _ _ H1 Hok)) as (c2 & w2 & -> & H2).
    exists c2, w2. split; [reflexivity|].
    cbn [flat_map fst snd]. exact (after_calls_trans _ _ _ _ _ H1 H2).
Qed.
End Batches.

Lemma list_sum_zero (l : list nat) : list_sum l = 0%nat -> forall n, In n l -> n = 0%nat.
Proof.
  induction l as [|x l IH]; intros H n Hin; [destruct Hin|].
  simpl in H. destruct Hin as [<-|Hin]; [lia | apply IH; [lia | exact Hin]].
Qed.

Lemma chunks_nil {A} (cfg : config) : chunks cfg (@nil A) = [].
Proof. unfold chunks. destruct (chunks_size cfg); reflexivity. Qed.

(** Groups without users give no batch. *)
Lemma no_users_no_calls
    (cfg : config) (call_of : str -> list str -> call)
    (groups_to_users : list (str * list str)) :
  list_sum (List.map (fun gu => List.length (snd gu)) groups_to_users) = 0%nat ->
  flat_map (fun gm => List.map (call_of (fst gm)) (chunks cfg (snd gm)))
    (sorted_by fst groups_to_users) = [].
Proof.
  intros Hsum.
  assert (Hall : forall gm, In gm (sorted_by fst groups_to_users) -> snd gm = []).
  { intros gm Hin. apply In_sorted_by in Hin.
    apply length_zero_iff_nil. apply (list_sum_zero _ Hsum).
    apply in_map_iff. exists gm. split; [reflexivity | exact Hin]. }
  induction (sorted_by fst groups_to_users) as [|gm l IH]; [reflexivity|].
  cbn [flat_map]. rewrite (Hall gm (or_introl eq_refl)), chunks_nil. cbn [List.map app].
  apply IH. intros gm' Hin. apply Hall. right. exact Hin.
Qed.

(** X25: When the directory reports no member errors, whatever else it
    answers, [remove_users_from_groups] returns and makes one removal
    call for each batch of each group, the groups in sorted order: a
    batch that fails as a whole does not stop the others. *)
Theorem removal_survives_batch_errors
    (cfg : config) (groups_to_users : list (str * list str)) (w : world) :
  skip_user_membership cfg = false ->
  Forall no_member_errors (script w) ->
  exists w',
    remove_users_from_groups cfg groups_to_users w = (Done tt, w')
    /\ after_calls (removal_calls cfg groups_to_users) w w'.
Proof.
  intros Hskip Hok. unfold remove_users_from_groups. rewrite Hskip.
  rewrite bind_run. unfold emit at 1. cbn [heap script log].
  set (w0 := {| heap := heap w; script := script w;
                log := log w ++ [Print RemovingFromGroups] |}).
  assert (H0 : after_calls [] w w0).
  { split; [reflexivity|]. split; [reflexivity|].
    cbn [log w0]. rewrite calls_of_app. reflexivity. }
  destruct (_ =? 0)%nat eqn:Htotal.
  - apply Nat.eqb_eq in Htotal. unfold removal_calls.
    rewrite (no_users_no_calls cfg
               (fun g => group_remove_member (groups_prefix cfg ++ g)) _ Htotal).
    eexists. split; [reflexivity|].
    destruct H0 as (Hh & Hs & Hc). split; [exact Hh|]. split; [exact Hs|].
    cbn [log emit snd]. rewrite calls_of_app, Hc, !app_nil_r. reflexivity.
  - rewrite bind_run.
    destruct (groups_loop_run cfg (remove_chunk cfg)
                (fun g => group_remove_member (groups_prefix cfg ++ g))
                (remove_chunk_run cfg)
                (sorted_by fst groups_to_users) O w0 Hok) as (c & w' & -> & H).
    exists w'. split; [reflexivity|].
    exact (after_calls_trans [] _ _ _ _ H0 H).
Qed.

(** X24: When the directory reports no member errors, whatever else it
    answers, [add_users_to_groups] for the members returns and makes
    one addition call for each batch of each group, the groups in
    sorted order: a batch that fails as a whole does not stop the
    others. *)
Theorem additions_survive_batch_errors
    (cfg : config) (groups_to_users : list (str * list str)) (w : world) :
  skip_user_membership cfg = false ->
  Forall no_member_errors (script w) ->
  exists w',
    add_users_to_groups cfg groups_to_users (lit "members") w = (Done tt, w')
    /\ after_calls (addition_calls cfg groups_to_users) w w'.
Proof.
  intros Hskip Hok. unfold add_users_to_groups. rewrite Hskip.
  change (negb (mem (lit "members") [lit "members"; lit "sponsors"])) with false.
  cbv iota.
  rewrite bind_run. unfold emit at 1. cbn [heap script log].
  set (w0 := {| heap := heap w; script := script w;
                log := log w ++ [Print (AddingToGroups (lit "members"))] |}).
  assert (H0 : after_calls [] w w0).
  { split; [reflexivity|]. split; [reflexivity|].
    cbn [log w0]. rewrite calls_of_app. reflexivity. }
  destruct (_ =? 0)%nat eqn:Htotal.
  - apply Nat.eqb_eq in Htotal. unfold addition_calls.
    rewrite (no_users_no_calls cfg group_add_member _ Htotal).
    eexists. split; [reflexivity|].
    destruct H0 as (Hh & Hs & Hc). split; [exact Hh|]. split; [exact Hs|].
    cbn [log emit snd]. rewrite calls_of_app, Hc, !app_nil_r. reflexivity.
  - rewrite bind_run.
    destruct (groups_loop_run cfg (add_chunk (lit "members")) group_add_member
                add_chunk_run
                (sorted_by fst groups_to_users) O w0 Hok) as (c & w' & -> & H).
    exists w'. split; [reflexivity|].
    exact (after_calls_trans [] _ _ _ _ H0 H).
Qed.

Lemma removal_survives_batch_errors_witness :
  exists w',
    remove_users_from_groups (prefixed_config "fas-")
      [(lit "devs", five_users); (lit "art", [lit "ada"])]
      (empty_world [no_such_group]) = (Done tt, w')
    /\ after_calls
         (removal_calls (prefixed_config "fas-")
            [(lit "devs", five_users); (lit "art", [lit "ada"])])
         (empty_world [no_such_group]) w'.
Proof.
  apply (removal_survives_batch_errors (prefixed_config "fas-")
           [(lit "devs", five_users); (lit "art", [lit "ada"])]
           (empty_world [no_such_group])).
  - reflexivity.
  - repeat constructor.
Defined.

Lemma additions_survive_batch_errors_witness :
  exists w',
    add_users_to_groups (prefixed_config "fas-")
      [(lit "devs", five_users); (lit "art", [lit "ada"])] (lit "members")
      (empty_world [no_such_group]) = (Done tt, w')
    /\ after_calls
         (addition_calls (prefixed_config "fas-")
            [(lit "devs", five_users); (lit "art", [lit "ada"])])
         (empty_world [no_such_group]) w'.
Proof.
  apply (additions_survive_batch_errors (prefixed_config "fas-")
           [(lit "devs", five_users); (lit "art", [lit "ada"])]
           (empty_world [no_such_group])).
  - reflexivity.
  - repeat constructor.
Defined.

Lemma handle_member_errors_failures
    (P : event -> Prop) (idempotent : str) (failure : pyval -> pyval -> message)
    (errors : list pyval) (changed : list str) :
  (forall member reason,
     is_str reason idempotent = false ->
     P (PrintStatus FAILED (Some (failure member reason)))) ->
  logs P (handle_member_errors idempotent failure errors changed).
Proof.
  intros HP. unfold handle_member_errors. apply logs_foldM.
  intros s msg _. apply logs_bind; [apply logs_lift|]. intros reason.
  destruct (is_str reason idempotent) eqn:Hr.
  - apply logs_bind; [apply logs_lift|]. intros member. apply logs_lift.
  - apply logs_bind; [apply logs_lift|]. intros member.
    destruct reason; try apply logs_raise.
    apply logs_bind; [apply logs_emit, HP, Hr|]. intros _. apply logs_ret.
Qed.

Section Membership_events.
Context (cfg : config) (P : event -> Prop).
Hypothesis Hprint : forall m, P (Print m).
Hypothesis Hreauth : forall n, P (CheckReauth n).
Hypothesis Hbar : forall n, P (BarUpdate n).

Section Additions.
Hypothesis Hadd : forall group chunk r, P (Called (group_add_member group chunk) r).
Hypothesis Hmanager : forall group chunk r,
  P (Called (group_add_member_manager group chunk) r).
Hypothesis Hchunk : forall chunk category group e,
  P (PrintStatus FAILED (Some (FailedToAddChunk chunk category group e))).
Hypothesis Hmember : forall member reason category group,
  is_str reason (lit "This entry is already a member") = false ->
  P (PrintStatus FAILED (Some (FailedToAddMember member reason category group))).
Hypothesis Hadded : forall category group added,
  P (PrintStatus ADDED (Some (AddedTo category group added))).

Lemma add_users_to_groups_events
    (groups_to_users : list (str * list str)) (category : str) :
  logs P (add_users_to_groups cfg groups_to_users category).
Proof using All.
  unfold add_users_to_groups.
  destruct (skip_user_membership cfg); [apply logs_ret|].
  destruct (negb _); [apply logs_raise|].
  apply logs_bind; [apply logs_emit, Hprint|]. intros _.
  destruct (_ =? 0)%nat; [apply logs_emit, Hprint|].
  apply logs_bind; [|intros _; apply logs_ret].
  apply logs_foldM. intros c0 [group members] _.
  apply logs_foldM. intros c1 chunk _. unfold add_chunk.
  apply logs_bind; [apply logs_emit, Hreauth|]. intros _.
  apply logs_bind; [|intros _; apply logs_ret].
  apply logs_finally; [|apply logs_emit, Hbar].
  apply logs_try_else.
  - unfold add_call. destruct (str_eqb category (lit "members")).
    + apply logs_bind; [apply logs_ipa, Hadd|].
      intros _. apply logs_ret.
    + destruct (str_eqb category (lit "sponsors")); [|apply logs_ret].
      apply logs_bind; [apply logs_ipa, Hmanager|]. intros result.
      apply logs_bind; [apply logs_lift|]. intros failed.
      apply logs_bind; [apply logs_lift|]. intros by_type.
      apply logs_bind; [apply logs_lift|]. intros users.
      destruct (truthy users); [apply logs_raise | apply logs_ret].
  - intros e.
    assert (Hfail : logs P (emit (PrintStatus FAILED
              (Some (FailedToAddChunk chunk category group e))))).
    { apply logs_emit, Hchunk. }
    destruct e as [k| | | |cls msg|text]; try exact Hfail.
    destruct cls; try exact Hfail.
    apply logs_bind; [apply logs_lift|]. intros errors.
    apply logs_bind; [|intros _; apply logs_ret].
    apply handle_member_errors_failures. intros member reason Hr.
    apply Hmember, Hr.
  - intros _. destruct (set_of chunk); [apply logs_ret | apply logs_emit, Hadded].
Qed.
End Additions.

Section Removals.
Hypothesis Hremove : forall group chunk r,
  P (Called (group_remove_member (groups_prefix cfg ++ group) chunk) r).
Hypothesis Hchunk : forall chunk group e,
  P (PrintStatus FAILED (Some (FailedToRemoveChunk chunk group e))).
Hypothesis Hmember : forall member reason group,
  is_str reason (lit "This entry is not a member") = false ->
  P (PrintStatus FAILED (Some (FailedToRemoveMember member reason group))).
Hypothesis Hremoved : forall group removed,
  P (PrintStatus REMOVED (Some (RemovedFrom group removed))).

Lemma remove_users_from_groups_events (groups_to_users : list (str * list str)) :
  logs P (remove_users_from_groups cfg groups_to_users).
Proof using All.
  unfold remove_users_from_groups.
  destruct (skip_user_membership cfg); [apply logs_ret|].
  apply logs_bind; [apply logs_emit, Hprint|]. intros _.
  destruct (_ =? 0)%nat; [apply logs_emit, Hprint|].
  apply logs_bind; [|intros _; apply logs_ret].
  apply logs_foldM. intros c0 [group members] _.
  apply logs_foldM. intros c1 chunk _. unfold remove_chunk.
  apply logs_bind; [apply logs_emit, Hreauth|]. intros _.
  apply logs_bind; [|intros _; apply logs_ret].
  apply logs_finally; [|apply logs_emit, Hbar].
  apply logs_try_else.
  - apply logs_ipa, Hremove.
  - intros e.
    assert (Hfail : logs P (emit (PrintStatus FAILED
              (Some (FailedToRemoveChunk chunk group e))))).
    { apply logs_emit, Hchunk. }
    destruct e as [k| | | |cls msg|text]; try exact Hfail.
    destruct cls; try exact Hfail.
    apply logs_bind; [apply logs_lift|]. intros errors.
    apply logs_bind; [|intros _; apply logs_ret].
    apply handle_member_errors_failures. intros member reason Hr.
    apply Hmember, Hr.
  - intros _. destruct (set_of chunk); [apply logs_ret | apply logs_emit, Hremoved].
Qed.
End Removals.
End Membership_events.

(** X26: Neither [add_users_to_groups] nor [remove_users_from_groups]
    reports as a failure a member whose reason is that it already is,
    or already is not, a member. *)
Theorem idempotent_members_are_no_failures
    (cfg : config) (groups_to_users : list (str * list str)) (category : str) :
  logs no_idempotent_failure (add_users_to_groups cfg groups_to_users category)
  /\ logs no_idempotent_failure (remove_users_from_groups cfg groups_to_users).
Proof.
  split.
  - apply add_users_to_groups_events; try (intros; exact I).
    intros member reason c g Hr. exact Hr.
  - apply remove_users_from_groups_events; try (intros; exact I).
    intros member reason g Hr. exact Hr.
Qed.

Lemma set_add_In (s : list str) (x y : str) : In y (set_add s x) <-> In y s \/ y = x.
Proof.
  unfold set_add. destruct (mem x s) eqn:E.
  - apply mem_In in E. split; [tauto|]. intros [H| ->]; assumption.
  - rewrite in_app_iff. simpl. intuition congruence.
Qed.

Lemma set_of_In (l : list str) (x : str) : In x (set_of l) <-> In x l.
Proof.
  unfold set_of.
  assert (H : forall acc, In x (fold_left set_add l acc) <-> In x acc \/ In x l).
  { induction l as [|y l IH]; intros acc; simpl; [tauto|].
    rewrite IH, set_add_In. intuition congruence. }
  rewrite H. simpl. tauto.
Qed.

Lemma handle_unknown_member
    (idempotent : str) (failure : pyval -> pyval -> message)
    (member : str) (changed : list str) (w : world) :
  mem member changed = false ->
  handle_member_errors idempotent failure
    [VList [VStr member; VStr idempotent]] changed w
  = (Raised (KeyError member), w).
Proof.
  intros Hmem. unfold handle_member_errors. cbn [foldM]. rewrite bind_run.
  rewrite bind_run. cbn [py_nth nth_error lift mret M_ret].
  rewrite is_str_refl. rewrite bind_run. cbn [py_nth nth_error lift mret M_ret].
  unfold set_remove_member. rewrite Hmem. reflexivity.
Qed.

(** X27: When the directory reports as already a member a user that is not
    in the chunk sent, the chunk ends in [KeyError]: the progress bar
    is updated and the exception leaves [add_users_to_groups]. *)
Theorem unknown_member_aborts_chunk
    (group member : str) (counter : nat) (chunk : list str) (w : world)
    (rest : list reply) :
  script w = reports_member member :: rest ->
  ~ In member chunk ->
  add_chunk (lit "members") group counter chunk w
  = (Raised (KeyError member),
     {| heap := heap w; script := rest;
        log := log w
               ++ [CheckReauth (counter + List.length chunk);
                   Called (group_add_member group chunk) (reports_member member);
                   BarUpdate (counter + List.length chunk)] |}).
Proof.
  intros Hs Hin. unfold add_chunk. rewrite bind_run.
  unfold check_reauth, emit at 1. cbn [heap script log].
  rewrite bind_run. unfold finally, try_else, add_call.
  rewrite str_eqb_refl. rewrite bind_run. unfold ipa. cbn [heap script log].
  rewrite Hs. unfold reports_member at 1.
  cbv beta iota.
  assert (Hme : member_errors
                  (VDict [(lit "member",
                           VDict [(lit "user",
                                   VList [VList [VStr member;
                                                 VStr (lit "This entry is already a member")]])])])
                = Ok [VList [VStr member; VStr (lit "This entry is already a member")]])
    by reflexivity.
  rewrite bind_run, Hme. cbn [lift mret M_ret]. rewrite bind_run.
  rewrite handle_unknown_member
    by (apply mem_false; rewrite set_of_In; exact Hin).
  rewrite bind_run. unfold emit. cbn [heap script log].
  rewrite <- !app_assoc. reflexivity.
Qed.

Lemma unknown_member_aborts_chunk_witness :
  add_chunk (lit "members") (lit "devs") 0 [lit "ada"]
    (empty_world [reports_member (lit "bob")])
  = (Raised (KeyError (lit "bob")),
     {| heap := heap (empty_world [reports_member (lit "bob")]);
        script := [];
        log := log (empty_world [reports_member (lit "bob")])
               ++ [CheckReauth (0 + List.length [lit "ada"]);
                   Called (group_add_member (lit "devs") [lit "ada"])
                     (reports_member (lit "bob"));
                   BarUpdate (0 + List.length [lit "ada"])] |}).
Proof.
  apply (unknown_member_aborts_chunk (lit "devs") (lit "bob") 0 [lit "ada"]
           (empty_world [reports_member (lit "bob")]) []).
  - reflexivity.
  - vm_compute. intuition discriminate.
Defined.

(** ** More about the run coordinator *)

Lemma record_roles_counters conf person acc acc' :
  record_roles conf person acc = Ok acc' -> counters acc' = counters acc.
Proof.
  unfold record_roles. intros H.
  apply res_bind_Ok_inv in H as (group_roles & _ & H).
  destruct group_roles as [| | | | |items]; try discriminate.
  revert H. apply (for_each_inv (fun a => counters a = counters acc)); [|reflexivity].
  intros s [g membership] s' Hs Hb. rewrite <- Hs. clear Hs.
  destruct (mem g (fas_groups_ignore conf)); [injection Hb as <-; reflexivity|].
  apply res_bind_Ok_inv in Hb as (group_id & _ & Hb).
  destruct (is_none group_id); [injection Hb as <-; reflexivity|].
  apply res_bind_Ok_inv in Hb as (role_status & _ & Hb).
  destruct (is_str role_status (lit "approved")).
  - apply res_bind_Ok_inv in Hb as (u & Hu & Hb).
    apply res_bind_Ok_inv in Hb as (role_type & _ & Hb).
    destruct (_ || _).
    + apply res_bind_Ok_inv in Hb as (u2 & Hu2 & Hb). injection Hb as <-. reflexivity.
    + injection Hb as <-. reflexivity.
  - apply res_bind_Ok_inv in Hb as (u & Hu & Hb). injection Hb as <-. reflexivity.
Qed.

Lemma record_agreements_counters conf person acc acc' :
  record_agreements conf person acc = Ok acc' -> counters acc' = counters acc.
Proof.
  unfold record_agreements. intros H.
  apply res_bind_Ok_inv in H as (memberships & _ & H).
  apply res_bind_Ok_inv in H as (group_names & _ & H).
  revert H. apply (for_each_inv (fun a => counters a = counters acc)); [|reflexivity].
  intros s [name signed_groups] s' Hs Hb. rewrite <- Hs. clear Hs.
  destruct (signed signed_groups group_names) as [[|]|e]; try discriminate.
  - apply res_bind_Ok_inv in Hb as (u & Hu & Hb). injection Hb as <-. reflexivity.
  - injection Hb as <-. reflexivity.
Qed.

Lemma counted_counters (n : nat) (acc acc' : deltas) :
  counters acc' = counters acc -> counted n acc -> counted n acc'.
Proof.
  unfold counters, counted. intros [= -> -> -> ->]. tauto.
Qed.

Lemma counted_mono (n m : nat) (acc : deltas) :
  (n <= m)%nat -> counted n acc -> counted m acc.
Proof. unfold counted. lia. Qed.

(** One record moves the counters by one at most. *)
Lemma push_person_counted
    cfg fas_name conf user_patterns conflicts max_length acc person w acc' w' n :
  push_person cfg fas_name conf user_patterns conflicts max_length acc person w
  = (Done acc', w') ->
  counted n acc -> counted (S n) acc'.
Proof.
  intros H Hn. unfold push_person in H.
  apply bind_Done_inv in H as (d & w1 & _ & H).
  apply bind_Done_inv in H as (username & w2 & _ & H).
  destruct (negb (matches_any username user_patterns)).
  { injection H as <- _. apply (counted_mono n); [lia | exact Hn]. }
  destruct (List.filter _ (users_skip_conflicts cfg)) as [|k ks].
  2:{ apply bind_Done_inv in H as (u1 & w3 & _ & H). injection H as <- _.
      revert Hn. unfold counted. cbn [set_counters counter added edited skipped]. lia. }
  apply bind_Done_inv in H as (u1 & w3 & _ & H).
  apply bind_Done_inv in H as (u2 & w4 & _ & H).
  apply bind_Done_inv in H as (status & w5 & _ & H).
  apply bind_Done_inv in H as (acc2 & w6 & Hrec & H).
  apply bind_Done_inv in H as (u3 & w7 & _ & H). injection H as <- _.
  set (acc1 := set_counters acc (S (counter acc)) (added acc) (edited acc)
                 (skipped acc)) in *.
  assert (H2 : counters acc2 = counters acc1).
  { destruct (is_skipped status).
    - injection Hrec as <- _. reflexivity.
    - apply bind_Done_inv in Hrec as (d' & w8 & _ & Hrec).
      apply bind_Done_inv in Hrec as (acc3 & w9 & Hroles & Hrec).
      apply lift_Done_inv in Hroles. apply lift_Done_inv in Hrec.
      rewrite (record_agreements_counters _ _ _ _ Hrec).
      exact (record_roles_counters _ _ _ _ Hroles). }
  unfold counters in H2. injection H2 as Hc Ha He Hs.
  revert Hn. unfold counted, count_status.
  destruct status; cbn [set_counters counter added edited skipped];
    rewrite ?Hc, ?Ha, ?He, ?Hs; unfold acc1;
    cbn [set_counters counter added edited skipped]; lia.
Qed.

Lemma foldM_count {A S} (I : nat -> S -> Prop) (l : list A) (body : S -> A -> M S) :
  (forall n s a w s' w', I n s -> body s a w = (Done s', w') -> I (Datatypes.S n) s') ->
  forall n s w s' w',
    I n s -> foldM l body s w = (Done s', w') -> I (n + List.length l)%nat s'.
Proof.
  intros Hstep. induction l as [|a l IH]; intros n s w s' w' Hs H.
  - injection H as <- _. rewrite Nat.add_0_r. exact Hs.
  - cbn [foldM] in H. apply bind_Done_inv in H as (s1 & w1 & Hb & H).
    cbn [List.length]. rewrite Nat.add_succ_r.
    exact (IH (Datatypes.S n) s1 w1 s' w' (Hstep _ _ _ _ _ _ Hs Hb) H).
Qed.

Lemma insert_by_length {A} (key : A -> str) (x : A) (l : list A) :
  List.length (insert_by key x l) = S (List.length l).
Proof.
  induction l as [|y l IH]; [reflexivity|]. simpl.
  destruct (str_ltb (key y) (key x)); simpl; [rewrite IH|]; reflexivity.
Qed.

Lemma sorted_by_length {A} (key : A -> str) (l : list A) :
  List.length (sorted_by key l) = List.length l.
Proof.
  unfold sorted_by. induction l as [|x l IH]; [reflexivity|]. simpl.
  rewrite insert_by_length, IH. reflexivity.
Qed.

Lemma push_realm_counted cfg user_patterns conflicts acc realm w acc' w' n :
  push_realm cfg user_patterns conflicts acc realm w = (Done acc', w') ->
  counted n acc -> counted (n + List.length (snd realm)) acc'.
Proof.
  destruct realm as [fas_name users]. unfold push_realm. intros H Hn.
  apply bind_Done_inv in H as (u1 & w1 & _ & H).
  destruct users as [|p users].
  { injection H as <- _. apply (counted_mono n); [lia | exact Hn]. }
  apply bind_Done_inv in H as (conf & w2 & _ & H).
  apply bind_Done_inv in H as (names & w3 & _ & H).
  assert (Hstep : forall m s a wa s' wa',
            counted m s ->
            push_person cfg fas_name conf user_patterns conflicts
              (list_max (List.map (@List.length N) names)) s a wa = (Done s', wa') ->
            counted (S m) s').
  { intros m s a wa s' wa' Hs Hb.
    exact (push_person_counted _ _ _ _ _ _ _ _ _ _ _ _ Hb Hs). }
  pose proof (foldM_count counted _ _ Hstep n acc w3 acc' w' Hn H) as Hc.
  revert Hc. apply counted_mono.
  rewrite length_map, sorted_by_length, length_combine. cbn [snd]. lia.
Qed.

Lemma collect_users_counted cfg user_patterns conflicts fas_users w acc w' :
  collect_users cfg user_patterns conflicts fas_users w = (Done acc, w') ->
  counted (List.length (all_persons fas_users)) acc.
Proof.
  unfold collect_users.
  assert (Hgen : forall l n s w s' w',
            counted n s ->
            foldM l (push_realm cfg user_patterns conflicts) s w = (Done s', w') ->
            counted (n + List.length (all_persons l)) s').
  { induction l as [|realm l IH]; intros n s w0 s' w0' Hs H.
    - injection H as <- _. simpl. rewrite Nat.add_0_r. exact Hs.
    - cbn [foldM] in H. apply bind_Done_inv in H as (s1 & w1 & Hb & H).
      unfold all_persons. cbn [List.map concat]. rewrite length_app, Nat.add_assoc.
      apply (IH _ s1 w1 s' w0'); [|exact H].
      exact (push_realm_counted _ _ _ _ _ _ _ _ _ Hb Hs). }
  intros H. apply (Hgen fas_users 0%nat no_deltas w acc w'); [|exact H].
  unfold counted. simpl. lia.
Qed.

(** X28: The counters [_push_users] returns: the users added and edited are
    among those counted, and neither the users counted nor the users
    added, edited and skipped together exceed the records handed in. *)
Theorem push_counters_bounded
    (cfg : config) (fas_users : list (str * list nat))
    (users_start_at : option str) (restrict_users : option (list str))
    (conflicts : option (list (str * conflicts)))
    (w w' : world) (user_counter users_added users_edited users_skipped : nat) :
  _push_users cfg fas_users users_start_at restrict_users conflicts w
  = (Done (user_counter, users_added, users_edited, users_skipped), w') ->
  (users_added + users_edited <= user_counter)%nat
  /\ (user_counter <= List.length (all_persons fas_users))%nat
  /\ (users_added + users_edited + users_skipped
      <= List.length (all_persons fas_users))%nat.
Proof.
  unfold _push_users. intros H.
  apply bind_Done_inv in H as (user_patterns & w1 & _ & H).
  apply bind_Done_inv in H as (acc & w2 & Hc & H).
  apply bind_Done_inv in H as (u1 & w3 & _ & H).
  apply bind_Done_inv in H as (u2 & w4 & _ & H).
  apply bind_Done_inv in H as (u3 & w5 & _ & H).
  apply bind_Done_inv in H as (u4 & w6 & _ & H).
  injection H as <- <- <- <- _.
  exact (collect_users_counted _ _ _ _ _ _ _ Hc).
Qed.

Lemma push_counters_bounded_witness :
  (1 + 0 <= 2)%nat
  /\ (2 <= List.length (all_persons [(lit "A", [0; 1]%nat)]))%nat
  /\ (1 + 0 + 1 <= List.length (all_persons [(lit "A", [0; 1]%nat)]))%nat.
Proof.
  eapply (push_counters_bounded skipping_config [(lit "A", [0; 1]%nat)]
            None None None two_users_world _ 2 1 0 1).
  vm_compute. reflexivity.
Defined.

Section Dict_append.

Lemma dict_append_get_eq (d : list (str * list str)) (k v : str) :
  exists l, dict_get (dict_append d k v) k = Some l /\ In v l
            /\ forall u, (exists l0, dict_get d k = Some l0 /\ In u l0) -> In u l.
Proof.
  unfold dict_append. rewrite dict_get_set_eq.
  destruct (dict_get d k) as [l0|].
  - exists (l0 ++ [v]). split; [reflexivity|]. split.
    + apply in_or_app. right. left. reflexivity.
    + intros u (l1 & [= <-] & Hu). apply in_or_app. left. exact Hu.
  - exists [v]. split; [reflexivity|]. split; [left; reflexivity|].
    intros u (l1 & [=] & _).
Qed.

Lemma listed_append (d : list (str * list str)) (k v group username : str) :
  listed d group username -> listed (dict_append d k v) group username.
Proof.
  intros (l & Hl & Hu). destruct (decide (k = group)) as [->|Hne].
  - destruct (dict_append_get_eq d group v) as (l' & Hl' & _ & Hold).
    exists l'. split; [exact Hl'|]. apply Hold. exists l. split; assumption.
  - exists l. split; [|exact Hu]. unfold dict_append.
    rewrite dict_get_set_ne by exact Hne. exact Hl.
Qed.

Lemma listed_append_new (d : list (str * list str)) (k v : str) :
  listed (dict_append d k v) k v.
Proof.
  destruct (dict_append_get_eq d k v) as (l & Hl & Hv & _).
  exists l. split; assumption.
Qed.

Lemma listed_append_inv (d : list (str * list str)) (k v group username : str) :
  listed (dict_append d k v) group username ->
  listed d group username \/ (group = k /\ username = v).
Proof.
  intros (l & Hl & Hu). unfold dict_append in Hl.
  destruct (decide (k = group)) as [->|Hne].
  - rewrite dict_get_set_eq in Hl. injection Hl as <-.
    destruct (dict_get d group) as [l0|] eqn:Hd.
    + apply in_app_or in Hu as [Hu|[<-|[]]]; [left; exists l0; auto | right; auto].
    + destruct Hu as [<-|[]]. right. auto.
  - rewrite dict_get_set_ne in Hl by exact Hne. left. exists l. auto.
Qed.
End Dict_append.

Lemma record_roles_sponsors conf person acc acc' :
  record_roles conf person acc = Ok acc' ->
  sponsors_are_members acc -> sponsors_are_members acc'.
Proof.
  unfold record_roles. intros H Hacc.
  apply res_bind_Ok_inv in H as (group_roles & _ & H).
  destruct group_roles as [| | | | |items]; try discriminate.
  revert H. apply (for_each_inv sponsors_are_members); [|exact Hacc].
  clear Hacc. intros s [g membership] s' Hs Hb.
  destruct (mem g (fas_groups_ignore conf)); [injection Hb as <-; exact Hs|].
  apply res_bind_Ok_inv in Hb as (group_id & _ & Hb).
  destruct (is_none group_id); [injection Hb as <-; exact Hs|].
  apply res_bind_Ok_inv in Hb as (role_status & _ & Hb).
  destruct (is_str role_status (lit "approved")).
  - apply res_bind_Ok_inv in Hb as (u & Hu & Hb).
    apply res_bind_Ok_inv in Hb as (role_type & _ & Hb).
    destruct (_ || _).
    + apply res_bind_Ok_inv in Hb as (u2 & Hu2 & Hb). injection Hb as <-.
      rewrite Hu in Hu2. injection Hu2 as <-.
      intros group username Hl.
      cbn [add_sponsor add_member groups_to_sponsor_usernames
           groups_to_member_usernames] in Hl |- *.
      apply listed_append_inv in Hl as [Hl|[-> ->]].
      * apply listed_append. exact (Hs _ _ Hl).
      * apply listed_append_new.
    + injection Hb as <-. intros group username Hl.
      cbn [add_member groups_to_sponsor_usernames groups_to_member_usernames]
        in Hl |- *.
      apply listed_append. exact (Hs _ _ Hl).
  - apply res_bind_Ok_inv in Hb as (u & Hu & Hb). injection Hb as <-.
    exact Hs.
Qed.

Lemma record_agreements_sponsors conf person acc acc' :
  record_agreements conf person acc = Ok acc' ->
  sponsors_are_members acc -> sponsors_are_members acc'.
Proof.
  unfold record_agreements. intros H Hacc.
  apply res_bind_Ok_inv in H as (memberships & _ & H).
  apply res_bind_Ok_inv in H as (group_names & _ & H).
  revert H. apply (for_each_inv sponsors_are_members); [|exact Hacc].
  intros s [name signed_groups] s' Hs Hb.
  destruct (signed signed_groups group_names) as [[|]|e]; try discriminate.
  - apply res_bind_Ok_inv in Hb as (u & Hu & Hb). injection Hb as <-. exact Hs.
  - injection Hb as <-. exact Hs.
Qed.

Lemma push_person_sponsors
    cfg fas_name conf user_patterns conflicts max_length acc person w acc' w' :
  push_person cfg fas_name conf user_patterns conflicts max_length acc person w
  = (Done acc', w') ->
  sponsors_are_members acc -> sponsors_are_members acc'.
Proof.
  intros H Hacc. unfold push_person in H.
  apply bind_Done_inv in H as (d & w1 & _ & H).
  apply bind_Done_inv in H as (username & w2 & _ & H).
  destruct (negb (matches_any username user_patterns)).
  { injection H as <- _. exact Hacc. }
  destruct (List.filter _ (users_skip_conflicts cfg)) as [|k ks].
  2:{ apply bind_Done_inv in H as (u1 & w3 & _ & H). injection H as <- _.
      exact Hacc. }
  apply bind_Done_inv in H as (u1 & w3 & _ & H).
  apply bind_Done_inv in H as (u2 & w4 & _ & H).
  apply bind_Done_inv in H as (status & w5 & _ & H).
  apply bind_Done_inv in H as (acc2 & w6 & Hrec & H).
  apply bind_Done_inv in H as (u3 & w7 & _ & H). injection H as <- _.
  assert (H2 : sponsors_are_members acc2).
  { destruct (is_skipped status).
    - injection Hrec as <- _. exact Hacc.
    - apply bind_Done_inv in Hrec as (d' & w8 & _ & Hrec).
      apply bind_Done_inv in Hrec as (acc3 & w9 & Hroles & Hrec).
      apply lift_Done_inv in Hroles. apply lift_Done_inv in Hrec.
      apply (record_agreements_sponsors _ _ _ _ Hrec).
      apply (record_roles_sponsors _ _ _ _ Hroles). exact Hacc. }
  destruct status; exact H2.
Qed.

(** X29: After the loop of [_push_users] every user recorded as sponsor of
    a group is recorded as member of that group too. *)
Theorem sponsors_are_recorded_as_members
    (cfg : config) (user_patterns : list str) (conflicts : list (str * conflicts))
    (fas_users : list (str * list nat)) (w w' : world) (acc : deltas)
    (group username : str) :
  collect_users cfg user_patterns conflicts fas_users w = (Done acc, w') ->
  listed (groups_to_sponsor_usernames acc) group username ->
  listed (groups_to_member_usernames acc) group username.
Proof.
  intros H. revert group username.
  change (sponsors_are_members acc). revert H. unfold collect_users.
  apply (foldM_inv (fun s _ => sponsors_are_members s)).
  - intros s [fas_name users] wa s' wa' _ Hs Hb. unfold push_realm in Hb.
    apply bind_Done_inv in Hb as (u1 & w1 & _ & Hb).
    destruct users as [|p users]; [injection Hb as <- _; exact Hs|].
    apply bind_Done_inv in Hb as (conf & w2 & _ & Hb).
    apply bind_Done_inv in Hb as (names & w3 & _ & Hb).
    revert Hb. apply (foldM_inv (fun s _ => sponsors_are_members s)); [|exact Hs].
    intros s0 a w0 s1 w1' _ Hs0 Hb0.
    exact (push_person_sponsors _ _ _ _ _ _ _ _ _ _ _ Hb0 Hs0).
  - intros group username (l & Hl & _). discriminate.
Qed.

Lemma sponsors_are_recorded_as_members_witness :
  exists acc,
    fst (collect_users skipping_config [lit "*"] [] [(lit "A", [0; 1]%nat)]
           two_users_world) = Done acc
    /\ listed (groups_to_member_usernames acc) (lit "a-packager") (lit "ada").
Proof.
  eexists. split; [vm_compute; reflexivity|].
  eapply (sponsors_are_recorded_as_members skipping_config [lit "*"] []
            [(lit "A", [0; 1]%nat)] two_users_world).
  - vm_compute. reflexivity.
  - vm_compute. eexists. split; [reflexivity | left; reflexivity].
Defined.

Section Phases.
Context (P1 P2 P3 : event -> Prop).

Lemma logs2_switch {A B} (m : M A) (f : A -> M B) :
  logs P2 m -> (forall a, logs P3 (f a)) -> logs2 P2 P3 (m ≫= f).
Proof.
  intros Hm Hf w. rewrite bind_run. destruct (Hm w) as (evs & Hl & Hp).
  destruct (m w) as [[a|e|] w']; simpl in Hl;
    try (exists evs, []; rewrite app_nil_r; repeat split; [assumption.. | constructor]).
  destruct (Hf a w') as (evs2 & Hl2 & Hp2).
  exists evs, evs2. split; [rewrite Hl2, Hl, app_assoc; reflexivity|].
  split; assumption.
Qed.

Lemma logs2_bind {A B} (m : M A) (f : A -> M B) :
  logs P2 m -> (forall a, logs2 P2 P3 (f a)) -> logs2 P2 P3 (m ≫= f).
Proof.
  intros Hm Hf w. rewrite bind_run. destruct (Hm w) as (evs & Hl & Hp).
  destruct (m w) as [[a|e|] w']; simpl in Hl;
    try (exists evs, []; rewrite app_nil_r; repeat split; [assumption.. | constructor]).
  destruct (Hf a w') as (e2 & e3 & Hl2 & Hp2 & Hp3).
  exists (evs ++ e2), e3. split; [rewrite Hl2, Hl, !app_assoc; reflexivity|].
  split; [apply Forall_app; split; assumption | exact Hp3].
Qed.

Lemma logs3_switch {A B} (m : M A) (f : A -> M B) :
  logs P1 m -> (forall a, logs2 P2 P3 (f a)) -> logs3 P1 P2 P3 (m ≫= f).
Proof.
  intros Hm Hf w. rewrite bind_run. destruct (Hm w) as (evs & Hl & Hp).
  destruct (m w) as [[a|e|] w']; simpl in Hl;
    try (exists evs; split; [exact Hl|]; exists evs, [], [];
         rewrite app_nil_r; repeat split; [assumption | constructor..]).
  destruct (Hf a w') as (e2 & e3 & Hl2 & Hp2 & Hp3).
  exists (evs ++ e2 ++ e3). split; [rewrite Hl2, Hl, !app_assoc; reflexivity|].
  exists evs, e2, e3. repeat split; assumption.
Qed.

Lemma logs3_bind {A B} (m : M A) (f : A -> M B) :
  logs P1 m -> (forall a, logs3 P1 P2 P3 (f a)) -> logs3 P1 P2 P3 (m ≫= f).
Proof.
  intros Hm Hf w. rewrite bind_run. destruct (Hm w) as (evs & Hl & Hp).
  destruct (m w) as [[a|e|] w']; simpl in Hl;
    try (exists evs; split; [exact Hl|]; exists evs, [], [];
         rewrite app_nil_r; repeat split; [assumption | constructor..]).
  destruct (Hf a w') as (evs2 & Hl2 & e1 & e2 & e3 & -> & H1 & H2 & H3).
  exists (evs ++ e1 ++ e2 ++ e3). split; [rewrite Hl2, Hl, !app_assoc; reflexivity|].
  exists (evs ++ e1), e2, e3. rewrite <- app_assoc.
  repeat split; try assumption. apply Forall_app. split; assumption.
Qed.
End Phases.

Lemma usernames_at_logs (P : event -> Prop) (users : list nat) :
  logs P (usernames_at users).
Proof.
  induction users as [|person users IH]; [apply logs_ret|].
  cbn [usernames_at]. apply logs_bind; [apply logs_load|]. intros d.
  apply logs_bind; [apply logs_lift|]. intros username.
  apply logs_bind; [exact IH|]. intros names. apply logs_ret.
Qed.

(** The loop over the users makes no membership call. *)
Lemma collect_users_logs cfg user_patterns conflicts fas_users :
  logs user_phase (collect_users cfg user_patterns conflicts fas_users).
Proof.
  unfold collect_users. apply logs_foldM. intros acc [fas_name users] _.
  unfold push_realm. apply logs_bind; [apply logs_emit; exact I|]. intros _.
  destruct users as [|p users]; [apply logs_ret|].
  apply logs_bind; [apply logs_lift|]. intros conf.
  apply logs_bind; [apply usernames_at_logs|]. intros names.
  apply logs_foldM. intros acc0 person _. unfold push_person.
  apply logs_bind; [apply logs_load|]. intros d.
  apply logs_bind; [apply logs_lift|]. intros username.
  destruct (negb _); [apply logs_ret|].
  destruct (List.filter _ _).
  2:{ apply logs_bind; [apply logs_emit; exact I|]. intros _. apply logs_ret. }
  apply logs_bind; [apply logs_emit; exact I|]. intros _.
  apply logs_bind; [apply logs_emit; exact I|]. intros _.
  apply logs_bind; [apply migrate_user_logs; intros; exact I|]. intros status.
  apply logs_bind.
  - destruct (is_skipped status); [apply logs_ret|].
    apply logs_bind; [apply logs_load|]. intros d'.
    apply logs_bind; [apply logs_lift|]. intros acc1. apply logs_lift.
  - intros acc2. apply logs_bind; [apply logs_emit; exact I|]. intros _.
    apply logs_ret.
Qed.

(** X30: A run of [_push_users] falls in three stretches: the users are
    migrated, without any membership call; then members and sponsors
    are added, and nothing else is called; then unapproved members are
    removed, and nothing else is called. *)
Theorem push_users_runs_in_phases
    (cfg : config) (fas_users : list (str * list nat))
    (users_start_at : option str) (restrict_users : option (list str))
    (conflicts : option (list (str * conflicts))) :
  logs3 user_phase addition_phase removal_phase
    (_push_users cfg fas_users users_start_at restrict_users conflicts).
Proof.
  unfold _push_users.
  apply logs3_bind; [apply logs_lift|]. intros user_patterns.
  apply logs3_bind; [apply collect_users_logs|]. intros acc.
  apply logs3_switch; [apply logs_emit; exact I|]. intros _.
  apply logs2_bind.
  { apply add_users_to_groups_events; intros; exact I. }
  intros _. apply logs2_switch.
  { apply add_users_to_groups_events; intros; exact I. }
  intros _. apply logs_bind; [|intros _; apply logs_ret].
  apply remove_users_from_groups_events; intros; exact I.
Qed.

(** ** The calls of the membership reconciler, key by key *)

Lemma calls_of_no_call (evs : list event) : Forall no_call evs -> calls_of evs = [].
Proof.
  induction 1 as [|e evs He _ IH]; [reflexivity|].
  destruct e; [destruct He | exact IH..].
Qed.

Lemma logs_no_call_calls {A} (m : M A) (w : world) :
  logs no_call m -> calls_of (log (snd (m w))) = calls_of (log w).
Proof.
  intros H. destruct (H w) as (evs & -> & Hevs).
  rewrite calls_of_app, (calls_of_no_call _ Hevs). apply app_nil_r.
Qed.

(** The computation makes the one call [c]. *)
Section One_call.
Context (c : call).

Lemma one_call_ipa_bind {A} (k : pyval -> M A) (w : world) :
  (forall v, logs no_call (k v)) ->
  calls_of (log (snd ((ipa c ≫= k) w))) = calls_of (log w) ++ [c].
Proof.
  intros Hk. rewrite bind_run.
  destruct (ipa_run c w) as (r & s' & -> & _).
  destruct r as [v|e]; cbn [outcome_of].
  - rewrite (logs_no_call_calls _ _ (Hk v)). cbn [log].
    rewrite calls_of_app. reflexivity.
  - cbn [snd log]. rewrite calls_of_app. reflexivity.
Qed.

Lemma one_call_try_finally {A B} (m : M A) (handler : exn -> M B) (orelse : A -> M B)
    (final : event) (w : world) :
  calls_of (log (snd (m w))) = calls_of (log w) ++ [c] ->
  (forall e, logs no_call (handler e)) ->
  (forall a, logs no_call (orelse a)) ->
  no_call final ->
  calls_of (log (snd (finally (try_else m handler orelse) (emit final) w)))
  = calls_of (log w) ++ [c].
Proof.
  intros Hm Hh Ho Hf. unfold finally, try_else.
  assert (Hemit : forall B' (k : unit -> M B') w0,
            (forall u, logs no_call (k u)) ->
            calls_of (log (snd ((emit final ≫= k) w0))) = calls_of (log w0)).
  { intros B' k w0 Hk. apply logs_no_call_calls.
    apply logs_bind; [apply logs_emit, Hf | exact Hk]. }
  destruct (m w) as [[a|e|] w1]; cbn [snd] in Hm.
  - pose proof (logs_no_call_calls _ w1 (Ho a)) as H1.
    destruct (orelse a w1) as [[b|e|] w2]; cbn [snd] in H1.
    + rewrite (Hemit _ _ w2) by (intros; apply logs_ret). congruence.
    + rewrite (Hemit _ _ w2) by (intros; apply logs_raise). congruence.
    + cbn [snd]. congruence.
  - pose proof (logs_no_call_calls _ w1 (Hh e)) as H1.
    destruct (handler e w1) as [[b|e'|] w2]; cbn [snd] in H1.
    + rewrite (Hemit _ _ w2) by (intros; apply logs_ret). congruence.
    + rewrite (Hemit _ _ w2) by (intros; apply logs_raise). congruence.
    + cbn [snd]. congruence.
  - cbn [snd]. exact Hm.
Qed.
End One_call.

Lemma member_handler_no_call
    (idempotent : str) (failure : pyval -> pyval -> message) (chunk_failure : exn -> message)
    (changed : list str) (e : exn) :
  logs no_call
    (match e with
     | FreeIPAError ValidationError message =>
         errors ← lift (member_errors message);
         _ ← handle_member_errors idempotent failure errors changed;
         mret tt
     | _ => emit (PrintStatus FAILED (Some (chunk_failure e)))
     end).
Proof.
  assert (Hfail : logs no_call (emit (PrintStatus FAILED (Some (chunk_failure e))))).
  { apply logs_emit. exact I. }
  destruct e as [k| | | |cls msg|text]; try exact Hfail.
  destruct cls; try exact Hfail.
  apply logs_bind; [apply logs_lift|]. intros errors.
  apply logs_bind; [|intros _; apply logs_ret].
  apply handle_member_errors_logs. intros s m. exact I.
Qed.

(** One chunk of a removal makes one call, whatever the directory
    answers. *)
Lemma remove_chunk_one_call
    (cfg : config) (group : str) (counter : nat) (chunk : list str) (w : world) :
  calls_of (log (snd (remove_chunk cfg group counter chunk w)))
  = calls_of (log w) ++ [removal_call cfg (group, chunk)].
Proof.
  unfold remove_chunk. rewrite bind_run.
  unfold check_reauth, emit at 1. cbn [heap script log].
  set (w1 := {| heap := heap w; script := script w;
                log := log w ++ [CheckReauth (counter + List.length chunk)] |}).
  assert (H1 : calls_of (log w1) = calls_of (log w)).
  { unfold w1. cbn [log]. rewrite calls_of_app. apply app_nil_r. }
  rewrite bind_run.
  match goal with |- context [finally ?t ?f w1] =>
    assert (H2 : calls_of (log (snd (finally t f w1)))
                 = calls_of (log w1) ++ [removal_call cfg (group, chunk)]) end.
  { apply one_call_try_finally.
    - rewrite <- (one_call_ipa_bind _ (fun v => mret v) w1) by (intros; apply logs_ret).
      rewrite bind_run. destruct (ipa _ w1) as [[v|e|] w2]; reflexivity.
    - intros e.
      apply (member_handler_no_call (lit "This entry is not a member")
               (fun member reason => FailedToRemoveMember member reason group)
               (fun e => FailedToRemoveChunk chunk group e)).
    - intros _. destruct (set_of chunk); [apply logs_ret | apply logs_emit; exact I].
    - exact I. }
  match goal with |- context [finally ?t ?f w1] =>
    destruct (finally t f w1) as [[u|e|] w2] end;
    cbn [snd mret M_ret] in H2 |- *; rewrite H2, H1; reflexivity.
Qed.

(** One chunk of an addition, for members or for sponsors, makes one
    call. *)
Lemma add_chunk_one_call
    (category group : str) (counter : nat) (chunk : list str) (w : world) :
  mem category [lit "members"; lit "sponsors"] = true ->
  calls_of (log (snd (add_chunk category group counter chunk w)))
  = calls_of (log w) ++ [addition_call category (group, chunk)].
Proof.
  intros Hcat. unfold add_chunk. rewrite bind_run.
  unfold check_reauth, emit at 1. cbn [heap script log].
  set (w1 := {| heap := heap w; script := script w;
                log := log w ++ [CheckReauth (counter + List.length chunk)] |}).
  assert (H1 : calls_of (log w1) = calls_of (log w)).
  { unfold w1. cbn [log]. rewrite calls_of_app. apply app_nil_r. }
  rewrite bind_run.
  match goal with |- context [finally ?t ?f w1] =>
    assert (H2 : calls_of (log (snd (finally t f w1)))
                 = calls_of (log w1) ++ [addition_call category (group, chunk)]) end.
  { apply one_call_try_finally.
    - unfold add_call, addition_call. cbn [fst snd].
      destruct (str_eqb category (lit "members")) eqn:Hm.
      + apply one_call_ipa_bind. intros v. apply logs_ret.
      + assert (Hs : str_eqb category (lit "sponsors") = true).
        { unfold mem in Hcat. cbn [existsb] in Hcat. rewrite Hm in Hcat.
          rewrite orb_false_r in Hcat. exact Hcat. }
        rewrite Hs. apply one_call_ipa_bind. intros result.
        apply logs_bind; [apply logs_lift|]. intros failed.
        apply logs_bind; [apply logs_lift|]. intros by_type.
        apply logs_bind; [apply logs_lift|]. intros users.
        destruct (truthy users); [apply logs_raise | apply logs_ret].
    - intros e.
      apply (member_handler_no_call (lit "This entry is already a member")
               (fun member reason => FailedToAddMember member reason category group)
               (fun e => FailedToAddChunk chunk category group e)).
    - intros _. destruct (set_of chunk); [apply logs_ret | apply logs_emit; exact I].
    - exact I. }
  match goal with |- context [finally ?t ?f w1] =>
    destruct (finally t f w1) as [[u|e|] w2] end;
    cbn [snd mret M_ret] in H2 |- *; rewrite H2, H1; reflexivity.
Qed.

Section Batch_calls.
Context (cfg : config) (body : str -> nat -> list str -> M nat)
        (call_of : str * list str -> call).
Hypothesis Hone : forall group counter chunk w,
  calls_of (log (snd (body group counter chunk w)))
  = calls_of (log w) ++ [call_of (group, chunk)].

Lemma chunks_loop_calls (group : str) (l : list (list str)) :
  forall counter w,
    calls_first (fun chunk => call_of (group, chunk)) l
      (foldM l (body group) counter) w.
Proof using Hone.
  induction l as [|chunk l IH]; intros counter w.
  - exists 0%nat. split; [reflexivity|]. split; [|reflexivity].
    cbn [foldM mret M_ret snd firstn List.map]. symmetry. apply app_nil_r.
  - unfold calls_first. cbn [foldM]. rewrite bind_run.
    pose proof (Hone group counter chunk w) as H1.
    destruct (body group counter chunk w) as [[c1|e|] w1]; cbn [snd] in H1.
    + destruct (IH c1 w1) as (n & Hn & Hc & Hd).
      exists (S n). split; [cbn [List.length]; lia|]. split.
      * rewrite Hc, H1. cbn [firstn List.map]. rewrite <- app_assoc. reflexivity.
      * intros a Ha. cbn [List.length]. f_equal. exact (Hd a Ha).
    + exists 1%nat. split; [cbn [List.length]; lia|]. split; [exact H1 | discriminate].
    + exists 1%nat. split; [cbn [List.length]; lia|]. split; [exact H1 | discriminate].
Qed.

Lemma groups_loop_calls (groups : list (str * list str)) :
  forall counter w,
    calls_first call_of
      (flat_map (fun gm => List.map (pair (fst gm)) (chunks cfg (snd gm))) groups)
      (foldM groups
         (fun counter '(group, members) =>
            foldM (chunks cfg members) (body group) counter)
         counter) w.
Proof using Hone.
  induction groups as [|[group members] groups IH]; intros counter w.
  - exists 0%nat. split; [reflexivity|]. split; [|reflexivity].
    cbn [foldM mret M_ret snd firstn List.map flat_map]. symmetry. apply app_nil_r.
  - unfold calls_first. cbn [foldM flat_map fst snd]. rewrite bind_run.
    destruct (chunks_loop_calls group (chunks cfg members) counter w)
      as (n1 & Hn1 & Hc1 & Hd1).
    set (inner := chunks cfg members) in *.
    set (rest := flat_map _ groups) in *.
    destruct (foldM inner (body group) counter w) as [[c1|e|] w1] eqn:Hrun;
      cbn [snd fst] in Hc1, Hd1.
    + rewrite (Hd1 c1 eq_refl) in Hc1. rewrite firstn_all in Hc1.
      destruct (IH c1 w1) as (n2 & Hn2 & Hc2 & Hd2). fold rest in Hn2, Hc2, Hd2.
      exists (List.length (List.map (pair group) inner) + n2)%nat.
      split; [rewrite length_app; lia|]. split.
      * rewrite Hc2, Hc1, firstn_app_2, map_app, map_map, <- app_assoc. reflexivity.
      * intros a Ha. rewrite length_app. f_equal. exact (Hd2 a Ha).
    + exists n1. split; [rewrite length_app, length_map; lia|]. split; [|discriminate].
      cbn [snd]. rewrite Hc1, firstn_app, length_map.
      replace (n1 - List.length inner)%nat with 0%nat by lia.
      cbn [firstn]. rewrite app_nil_r, firstn_map, map_map. reflexivity.
    + exists n1. split; [rewrite length_app, length_map; lia|]. split; [|discriminate].
      cbn [snd]. rewrite Hc1, firstn_app, length_map.
      replace (n1 - List.length inner)%nat with 0%nat by lia.
      cbn [firstn]. rewrite app_nil_r, firstn_map, map_map. reflexivity.
Qed.
End Batch_calls.

Lemma no_users_no_batches (cfg : config) (groups_to_users : list (str * list str)) :
  list_sum (List.map (fun gu => List.length (snd gu)) groups_to_users) = 0%nat ->
  batches cfg groups_to_users = [].
Proof.
  intros Hsum. unfold batches.
  assert (Hall : forall gm, In gm (sorted_by fst groups_to_users) -> snd gm = []).
  { intros gm Hin. apply In_sorted_by in Hin.
    apply length_zero_iff_nil. apply (list_sum_zero _ Hsum).
    apply in_map_iff. exists gm. split; [reflexivity | exact Hin]. }
  induction (sorted_by fst groups_to_users) as [|gm l IH]; [reflexivity|].
  cbn [flat_map]. rewrite (Hall gm (or_introl eq_refl)), chunks_nil. cbn [List.map app].
  apply IH. intros gm' Hin. apply Hall. right. exact Hin.
Qed.

Lemma emit_bind_calls {A} (e : event) (k : unit -> M A) (w : world) :
  no_call e ->
  exists w1,
    (emit e ≫= k) w = k tt w1 /\ calls_of (log w1) = calls_of (log w).
Proof.
  intros He. eexists. split; [reflexivity|]. cbn [log].
  rewrite calls_of_app, (calls_of_no_call [e]) by (repeat constructor; exact He).
  apply app_nil_r.
Qed.

(** The calls of [remove_users_from_groups]: one for each batch,
    naming the global prefix followed by the key. *)
Lemma remove_users_from_groups_calls
    (cfg : config) (groups_to_users : list (str * list str)) (w : world) :
  skip_user_membership cfg = false ->
  calls_first (removal_call cfg) (batches cfg groups_to_users)
    (remove_users_from_groups cfg groups_to_users) w.
Proof.
  intros Hskip. unfold remove_users_from_groups. rewrite Hskip.
  destruct (emit_bind_calls (Print RemovingFromGroups)
              (fun _ =>
                 if (list_sum (List.map (fun gu => List.length (snd gu))
                                 groups_to_users) =? 0)%nat
                 then emit (Print NothingToDo)
                 else
                   _ ← foldM (sorted_by fst groups_to_users)
                         (fun counter '(group, members) =>
                            foldM (chunks cfg members) (remove_chunk cfg group) counter)
                         O;
                   mret tt) w I) as (w1 & Hrun & Hw1).
  unfold calls_first. rewrite Hrun. clear Hrun. rewrite <- Hw1.
  destruct (_ =? 0)%nat eqn:Htotal.
  - apply Nat.eqb_eq in Htotal. rewrite (no_users_no_batches _ _ Htotal).
    exists 0%nat. split; [reflexivity|]. split; [|reflexivity].
    cbn [emit snd log firstn List.map]. rewrite calls_of_app, !app_nil_r. reflexivity.
  - rewrite bind_run.
    destruct (groups_loop_calls cfg (remove_chunk cfg) (removal_call cfg)
                (remove_chunk_one_call cfg)
                (sorted_by fst groups_to_users) O w1) as (n & Hn & Hc & Hd).
    fold (batches cfg groups_to_users) in Hn, Hc, Hd.
    exists n. split; [exact Hn|].
    destruct (foldM _ _ O w1) as [[c|e|] w2]; cbn [snd fst] in Hc, Hd |- *.
    + split; [exact Hc|]. intros _ _. exact (Hd c eq_refl).
    + split; [exact Hc | discriminate].
    + split; [exact Hc | discriminate].
Qed.

(** The calls of [add_users_to_groups]: one for each batch, naming the
    key as it is. *)
Lemma add_users_to_groups_calls
    (cfg : config) (groups_to_users : list (str * list str)) (category : str)
    (w : world) :
  skip_user_membership cfg = false ->
  mem category [lit "members"; lit "sponsors"] = true ->
  calls_first (addition_call category) (batches cfg groups_to_users)
    (add_users_to_groups cfg groups_to_users category) w.
Proof.
  intros Hskip Hcat. unfold add_users_to_groups. rewrite Hskip, Hcat. cbn [negb].
  destruct (emit_bind_calls (Print (AddingToGroups category))
              (fun _ =>
                 if (list_sum (List.map (fun gu => List.length (snd gu))
                                 groups_to_users) =? 0)%nat
                 then emit (Print NothingToDo)
                 else
                   _ ← foldM (sorted_by fst groups_to_users)
                         (fun counter '(group, members) =>
                            foldM (chunks cfg members) (add_chunk category group) counter)
                         O;
                   mret tt) w I) as (w1 & Hrun & Hw1).
  unfold calls_first. rewrite Hrun. clear Hrun. rewrite <- Hw1.
  destruct (_ =? 0)%nat eqn:Htotal.
  - apply Nat.eqb_eq in Htotal. rewrite (no_users_no_batches _ _ Htotal).
    exists 0%nat. split; [reflexivity|]. split; [|reflexivity].
    cbn [emit snd log firstn List.map]. rewrite calls_of_app, !app_nil_r. reflexivity.
  - rewrite bind_run.
    destruct (groups_loop_calls cfg (add_chunk category) (addition_call category)
                (fun g c ch w0 => add_chunk_one_call category g c ch w0 Hcat)
                (sorted_by fst groups_to_users) O w1) as (n & Hn & Hc & Hd).
    fold (batches cfg groups_to_users) in Hn, Hc, Hd.
    exists n. split; [exact Hn|].
    destruct (foldM _ _ O w1) as [[c|e|] w2]; cbn [snd fst] in Hc, Hd |- *.
    + split; [exact Hc|]. intros _ _. exact (Hd c eq_refl).
    + split; [exact Hc | discriminate].
    + split; [exact Hc | discriminate].
Qed.

(** When the directory reports no member errors, the two functions
    return. *)
Lemma remove_users_from_groups_returns
    (cfg : config) (groups_to_users : list (str * list str)) (w : world) :
  skip_user_membership cfg = false ->
  Forall no_member_errors (script w) ->
  fst (remove_users_from_groups cfg groups_to_users w) = Done tt.
Proof.
  intros Hskip Hok. unfold remove_users_from_groups. rewrite Hskip.
  rewrite bind_run. unfold emit at 1. cbn [heap script log].
  set (w0 := {| heap := heap w; script := script w;
                log := log w ++ [Print RemovingFromGroups] |}).
  destruct (_ =? 0)%nat.
  - reflexivity.
  - rewrite bind_run.
    destruct (groups_loop_run cfg (remove_chunk cfg)
                (fun g => group_remove_member (groups_prefix cfg ++ g))
                (remove_chunk_run cfg)
                (sorted_by fst groups_to_users) O w0 Hok) as (c & w' & -> & _).
    reflexivity.
Qed.

Lemma add_members_to_groups_returns
    (cfg : config) (groups_to_users : list (str * list str)) (w : world) :
  skip_user_membership cfg = false ->
  Forall no_member_errors (script w) ->
  fst (add_users_to_groups cfg groups_to_users (lit "members") w) = Done tt.
Proof.
  intros Hskip Hok. unfold add_users_to_groups. rewrite Hskip.
  change (negb (mem (lit "members") [lit "members"; lit "sponsors"])) with false.
  cbv iota.
  rewrite bind_run. unfold emit at 1. cbn [heap script log].
  set (w0 := {| heap := heap w; script := script w;
                log := log w ++ [Print (AddingToGroups (lit "members"))] |}).
  destruct (_ =? 0)%nat.
  - reflexivity.
  - rewrite bind_run.
    destruct (groups_loop_run cfg (add_chunk (lit "members")) group_add_member
                add_chunk_run
                (sorted_by fst groups_to_users) O w0 Hok) as (c & w' & -> & _).
    reflexivity.
Qed.

(** C10: [remove_users_from_groups] makes, for each batch of each key
    of the delta, a removal call that names the global prefix followed
    by the key; [add_users_to_groups] makes, for each batch of each
    key, an addition call that names the key as it is; the calls come
    in the order of the batches, and all of them are made when the
    function returns, as it does when the directory reports no member
    errors.  The keys recorded from a realm already start
    with the prefix of the realm.  With a non-empty global prefix the
    removal call for a batch names another directory group than the
    addition call for the same batch of the same key. *)
Theorem removal_names_prefixed_group
    (cfg : config) (groups_to_users : list (str * list str)) (category : str)
    (w w' : world) :
  groups_prefix cfg <> [] ->
  skip_user_membership cfg = false ->
  mem category [lit "members"; lit "sponsors"] = true ->
  calls_first (addition_call category) (batches cfg groups_to_users)
    (add_users_to_groups cfg groups_to_users category) w
  /\ calls_first (removal_call cfg) (batches cfg groups_to_users)
       (remove_users_from_groups cfg groups_to_users) w'
  /\ (Forall no_member_errors (script w') ->
      fst (remove_users_from_groups cfg groups_to_users w') = Done tt)
  /\ (Forall no_member_errors (script w) ->
      fst (add_users_to_groups cfg groups_to_users (lit "members") w) = Done tt)
  /\ (forall batch,
        group_of (addition_call category batch) = Some (fst batch)
        /\ group_of (removal_call cfg batch) = Some (groups_prefix cfg ++ fst batch)
        /\ group_of (removal_call cfg batch) <> group_of (addition_call category batch))
  /\ (forall batch, In batch (batches cfg groups_to_users) ->
        In (fst batch) (List.map fst groups_to_users))
  /\ (exists evs,
        log (snd (add_users_to_groups cfg groups_to_users category w)) = log w ++ evs
        /\ Forall (adds_to (List.map fst groups_to_users)) evs)
  /\ (exists evs,
        log (snd (remove_users_from_groups cfg groups_to_users w')) = log w' ++ evs
        /\ Forall (removes_from cfg (List.map fst groups_to_users)) evs)
  /\ (forall key, groups_prefix cfg ++ key <> key)
  /\ (forall conf person acc acc' key,
        record_roles conf person acc = Ok acc' ->
        In key (delta_keys acc') ->
        In key (delta_keys acc) \/ exists g, key = realm_prefix conf ++ g).
Proof.
  intros Hne Hskip Hcat.
  split; [exact (add_users_to_groups_calls cfg groups_to_users category w Hskip Hcat)|].
  split; [exact (remove_users_from_groups_calls cfg groups_to_users w' Hskip)|].
  split; [exact (remove_users_from_groups_returns cfg groups_to_users w' Hskip)|].
  split; [exact (add_members_to_groups_returns cfg groups_to_users w Hskip)|].
  split.
  { intros [group chunk].
    assert (Ha : group_of (addition_call category (group, chunk)) = Some group).
    { unfold addition_call. destruct (str_eqb category (lit "members")); reflexivity. }
    split; [exact Ha|]. split; [reflexivity|].
    rewrite Ha. cbn [group_of removal_call fst]. intros [= E].
    exact (prefixed_differs _ _ Hne E). }
  split.
  { intros [group chunk] Hin. unfold batches in Hin.
    apply in_flat_map in Hin as ([g members] & Hg & Hin).
    apply in_map_iff in Hin as (chunk' & [= <- <-] & _).
    apply In_sorted_by in Hg. apply in_map_iff. exists (g, members). auto. }
  split; [apply add_users_to_groups_logs|].
  split; [apply remove_users_from_groups_logs|].
  split; [intros key; apply prefixed_differs, Hne|].
  intros conf person acc acc' key H.
  apply (proj1 (record_roles_from_record _ _ _ _ H)).
Qed.

Lemma removal_names_prefixed_group_witness :
  let cfg := prefixed_config "fas-" in
  let delta := [(lit "a-packager", [lit "ada"])] in
  calls_first (addition_call (lit "members")) (batches cfg delta)
    (add_users_to_groups cfg delta (lit "members")) (empty_world [])
  /\ calls_first (removal_call cfg) (batches cfg delta)
       (remove_users_from_groups cfg delta) (empty_world [])
  /\ (Forall no_member_errors (script (empty_world [])) ->
      fst (remove_users_from_groups cfg delta (empty_world [])) = Done tt)
  /\ (Forall no_member_errors (script (empty_world [])) ->
      fst (add_users_to_groups cfg delta (lit "members") (empty_world [])) = Done tt)
  /\ (forall batch,
        group_of (addition_call (lit "members") batch) = Some (fst batch)
        /\ group_of (removal_call cfg batch) = Some (groups_prefix cfg ++ fst batch)
        /\ group_of (removal_call cfg batch)
           <> group_of (addition_call (lit "members") batch))
  /\ (forall batch, In batch (batches cfg delta) ->
        In (fst batch) (List.map fst delta))
  /\ (exists evs,
        log (snd (add_users_to_groups cfg delta (lit "members") (empty_world [])))
        = log (empty_world []) ++ evs
        /\ Forall (adds_to (List.map fst delta)) evs)
  /\ (exists evs,
        log (snd (remove_users_from_groups cfg delta (empty_world [])))
        = log (empty_world []) ++ evs
        /\ Forall (removes_from cfg (List.map fst delta)) evs)
  /\ (forall key, groups_prefix cfg ++ key <> key)
  /\ (forall conf person acc acc' key,
        record_roles conf person acc = Ok acc' ->
        In key (delta_keys acc') ->
        In key (delta_keys acc) \/ exists g, key = realm_prefix conf ++ g).
Proof.
  intros cfg delta.
  apply (removal_names_prefixed_group cfg delta (lit "members")
           (empty_world []) (empty_world [])).
  - discriminate.
  - reflexivity.
  - reflexivity.
Defined.

(** ** The self-reference rule, address by address *)

Lemma self_reference_some
    (domains_fas : list (str * str)) (username email_address R : str) :
  self_reference domains_fas username email_address = Some R ->
  exists domain,
    rsplit1 email_address at_sign = Some (username, domain)
    /\ dict_get domains_fas domain = Some R
    /\ R <> [].
Proof.
  unfold self_reference.
  destruct (rsplit1 email_address at_sign) as [[mailbox domain]|]; [|discriminate].
  destruct (dict_get domains_fas domain) as [[|r R']|] eqn:Hd; try discriminate.
  cbn [nonempty]. destruct (str_eqb mailbox username) eqn:E; [|discriminate].
  apply str_eqb_eq in E. subst mailbox. intros [= <-].
  exists domain. split; [reflexivity|]. split; [exact Hd | discriminate].
Qed.

(** An address that refers to no realm adds nothing and keeps its
    realm set. *)
Lemma check_self_reference_other
    (domains_fas : list (str * str)) (username : str) (uc : conflicts)
    (email_address : str) (fas_names : list str) :
  rsplit1 email_address at_sign <> None ->
  self_reference domains_fas username email_address = None ->
  check_self_reference domains_fas username uc email_address fas_names
  = Ok (uc, fas_names).
Proof.
  unfold self_reference, check_self_reference. intros Hat.
  destruct (rsplit1 email_address at_sign) as [[mailbox domain]|]; [|congruence].
  destruct (nonempty (dict_get domains_fas domain)); [|reflexivity].
  destruct (str_eqb mailbox username); [discriminate | reflexivity].
Qed.

(** The loop of lines 571-592 over all the addresses of a username. *)
Lemma check_self_references_spec
    (domains_fas : list (str * str)) (username : str)
    (emails : list (str * list str)) :
  (forall e fs, In (e, fs) emails -> rsplit1 e at_sign <> None) ->
  forall uc, exists uc',
    check_self_references domains_fas username uc emails
    = Ok (uc', List.map (after_self_reference domains_fas username) emails)
    /\ details uc' circular_email
       = details uc circular_email
           ++ flat_map (circular_entries domains_fas username) emails
    /\ details uc' email_pointing_to_other_fas
       = details uc email_pointing_to_other_fas
           ++ flat_map (pointing_entries domains_fas username) emails
    /\ details uc' email_address_conflicts = details uc email_address_conflicts.
Proof.
  induction emails as [|[e fs] emails IH]; intros Hat uc.
  - exists uc. cbn [check_self_references List.map flat_map].
    rewrite !app_nil_r. auto.
  - cbn [check_self_references List.map flat_map].
    unfold circular_entries at 1, pointing_entries at 1, after_self_reference at 1.
    cbn [fst snd].
    assert (Hat' : forall e0 fs0, In (e0, fs0) emails -> rsplit1 e0 at_sign <> None).
    { intros e0 fs0 Hin. apply (Hat e0 fs0). right. exact Hin. }
    destruct (self_reference domains_fas username e) as [R|] eqn:Hself.
    + destruct (self_reference_some _ _ _ _ Hself) as (domain & Hsplit & Hdom & HR).
      destruct (check_self_reference_spec domains_fas username uc e fs domain R
                  Hsplit Hdom HR) as (uc1 & -> & Hc & Hp & Ha).
      cbn [mbind res_bind].
      destruct (IH Hat' uc1) as (uc2 & -> & Hc2 & Hp2 & Ha2).
      cbn [mbind res_bind]. exists uc2. split; [reflexivity|].
      rewrite Hc2, Hp2, Ha2, Hc, Hp, Ha, <- !app_assoc. auto.
    + rewrite (check_self_reference_other _ _ _ _ _
                 (Hat e fs (or_introl eq_refl)) Hself).
      cbn [mbind res_bind].
      destruct (IH Hat' uc) as (uc2 & -> & Hc2 & Hp2 & Ha2).
      cbn [mbind res_bind]. exists uc2. split; [reflexivity|].
      cbn [app]. auto.
Qed.

Lemma check_address_conflicts_other_kinds
    (uc : conflicts) (emails : list (str * list str)) (k : conflict_kind) :
  k <> email_address_conflicts ->
  details (check_address_conflicts uc emails) k = details uc k.
Proof.
  intros Hk. unfold check_address_conflicts. destruct (1 <? _)%nat; [|reflexivity].
  revert uc. induction emails as [|[e fs] emails IH]; intros uc; [reflexivity|].
  cbn [fold_left]. rewrite IH. apply details_record_ne. congruence.
Qed.

(** The check of a username as a whole records, under the two kinds of
    the self-reference rule, what the rule gives for each address. *)
Lemma check_user_all_addresses
    (domains_fas : list (str * str)) (username : str)
    (records : list (str * list (str * pyval)))
    (emails : list (str * list str)) :
  group_by_email records = Ok emails ->
  (forall e fs, In (e, fs) emails -> rsplit1 e at_sign <> None) ->
  exists uc,
    check_user domains_fas username records = Ok uc
    /\ details uc circular_email
       = flat_map (circular_entries domains_fas username) emails
    /\ details uc email_pointing_to_other_fas
       = flat_map (pointing_entries domains_fas username) emails.
Proof.
  intros Hgroup Hat. unfold check_user. rewrite Hgroup. cbn [mbind res_bind].
  destruct (check_self_references_spec domains_fas username emails Hat [])
    as (uc' & -> & Hc & Hp & _).
  cbn [mbind res_bind]. eexists. split; [reflexivity|].
  rewrite !check_address_conflicts_other_kinds by discriminate.
  rewrite Hc, Hp. auto.
Qed.

(** Every entry of the result of [find_user_conflicts] is what
    [check_user] gives for the records of a duplicated username. *)
Lemma find_user_conflicts_entries
    (cfg : config) (fas_users : list (str * list (list (str * pyval))))
    (users_to_conflicts : list (str * conflicts)) :
  find_user_conflicts cfg fas_users = Ok users_to_conflicts ->
  forall username user_conflicts,
    In (username, user_conflicts) users_to_conflicts ->
    exists fas_users_by_name to_check fas_names fas_to_user_obj,
      find_duplicates fas_users = Ok (fas_users_by_name, to_check)
      /\ In (username, fas_names) to_check
      /\ records_of fas_users_by_name username fas_names = Ok fas_to_user_obj
      /\ check_user (email_domains_fas cfg) username fas_to_user_obj
         = Ok user_conflicts.
Proof.
  unfold find_user_conflicts. intros H.
  apply res_bind_Ok_inv in H as ([fas_users_by_name to_check] & Hdup & H).
  revert H.
  apply (for_each_inv_In
           (fun acc => forall username user_conflicts,
              In (username, user_conflicts) acc ->
              exists by_name chk fas_names fas_to_user_obj,
                find_duplicates fas_users = Ok (by_name, chk)
                /\ In (username, fas_names) chk
                /\ records_of by_name username fas_names = Ok fas_to_user_obj
                /\ check_user (email_domains_fas cfg) username fas_to_user_obj
                   = Ok user_conflicts));
    [|intros ? ? []].
  intros acc [name fas_names] acc' Hin Hacc Hb.
  apply res_bind_Ok_inv in Hb as (fas_to_user_obj & Hrec & Hb).
  apply res_bind_Ok_inv in Hb as (uc & Hcheck & Hb).
  destruct uc as [|c uc]; injection Hb as <-; [exact Hacc|].
  intros username user_conflicts Hu.
  apply dict_set_In_pair in Hu as [Hu | [-> ->]]; [exact (Hacc _ _ Hu)|].
  exists fas_users_by_name, to_check, fas_names, fas_to_user_obj.
  split; [exact Hdup|]. split; [exact (proj1 (In_sorted_by _ _ _) Hin)|].
  split; [exact Hrec | exact Hcheck].
Qed.

(** C6, as the code has it: for an email address of a duplicated
    username whose mailbox is the username and whose domain the index of
    email domains maps to a realm [R] with a non-empty name, a
    [circular_email] conflict is recorded exactly when [R] is in the
    realm set of the address (and [R] is removed), then an
    [email_pointing_to_other_fas] conflict exactly when realms remain
    (and the set is cleared).  This holds of every address of the
    username: the loop over the addresses, and the check of the
    username as a whole, record for the addresses in their order what
    the rule gives for each, and nothing for an address that refers to
    no realm; and every entry of the result of [find_user_conflicts] is
    the result of that check for the records of a duplicated username.
    When one address is the only one of the username and [R]
    holds the username, one [circular_email] and one
    [email_pointing_to_other_fas] conflict are recorded, the latter
    naming the other realms, and no [email_address_conflicts]. *)
Theorem self_reference_conflicts
    (domains_fas : list (str * str)) (username email domain R other : str)
    (uc : conflicts) (fas_names : list str)
    (fas_to_user_obj records : list (str * list (str * pyval)))
    (emails : list (str * list str)) :
  rsplit1 email at_sign = Some (username, domain) ->
  dict_get domains_fas domain = Some R ->
  R <> [] ->
  (forall f obj, In (f, obj) fas_to_user_obj ->
                 get_str obj (lit "email") = Ok email) ->
  NoDup (List.map fst fas_to_user_obj) ->
  In R (List.map fst fas_to_user_obj) ->
  In other (List.map fst fas_to_user_obj) ->
  other <> R ->
  group_by_email records = Ok emails ->
  (forall e fs, In (e, fs) emails -> rsplit1 e at_sign <> None) ->
  (exists uc',
     check_self_reference domains_fas username uc email fas_names = Ok (uc', [])
     /\ details uc' circular_email
        = details uc circular_email
            ++ (if mem R fas_names then [CircularEmail R email] else [])
     /\ details uc' email_pointing_to_other_fas
        = details uc email_pointing_to_other_fas
            ++ match set_remove fas_names R with
               | [] => []
               | (_ :: _) as rest => [EmailPointingToOtherFas R email rest]
               end
     /\ details uc' email_address_conflicts = details uc email_address_conflicts)
  /\ (exists uc1,
        check_user domains_fas username fas_to_user_obj = Ok uc1
        /\ details uc1 circular_email = [CircularEmail R email]
        /\ details uc1 email_pointing_to_other_fas
           = [EmailPointingToOtherFas R email
                (set_remove (List.map fst fas_to_user_obj) R)]
        /\ details uc1 email_address_conflicts = [])
  /\ (exists uc2,
        check_self_references domains_fas username uc emails
        = Ok (uc2, List.map (after_self_reference domains_fas username) emails)
        /\ details uc2 circular_email
           = details uc circular_email
               ++ flat_map (circular_entries domains_fas username) emails
        /\ details uc2 email_pointing_to_other_fas
           = details uc email_pointing_to_other_fas
               ++ flat_map (pointing_entries domains_fas username) emails
        /\ details uc2 email_address_conflicts = details uc email_address_conflicts)
  /\ (exists uc3,
        check_user domains_fas username records = Ok uc3
        /\ details uc3 circular_email
           = flat_map (circular_entries domains_fas username) emails
        /\ details uc3 email_pointing_to_other_fas
           = flat_map (pointing_entries domains_fas username) emails)
  /\ (forall cfg fas_users users_to_conflicts name user_conflicts,
        find_user_conflicts cfg fas_users = Ok users_to_conflicts ->
        In (name, user_conflicts) users_to_conflicts ->
        exists fas_users_by_name to_check names objs addresses,
          find_duplicates fas_users = Ok (fas_users_by_name, to_check)
          /\ In (name, names) to_check
          /\ records_of fas_users_by_name name names = Ok objs
          /\ check_user (email_domains_fas cfg) name objs = Ok user_conflicts
          /\ group_by_email objs = Ok addresses
          /\ ((forall e fs, In (e, fs) addresses -> rsplit1 e at_sign <> None) ->
              details user_conflicts circular_email
              = flat_map (circular_entries (email_domains_fas cfg) name) addresses
              /\ details user_conflicts email_pointing_to_other_fas
                 = flat_map (pointing_entries (email_domains_fas cfg) name)
                     addresses)).
Proof.
  intros Hsplit Hdom HR Hemail Hnd HinR Hother Hne Hgroup Hat.
  split; [|split; [|split; [|split]]].
  - exact (check_self_reference_spec domains_fas username uc email fas_names
             domain R Hsplit Hdom HR).
  - exact (check_user_single_email domains_fas username email domain R other
             fas_to_user_obj Hsplit Hdom HR Hemail Hnd HinR Hother Hne).
  - exact (check_self_references_spec domains_fas username emails Hat uc).
  - unfold check_user. rewrite Hgroup. cbn [mbind res_bind].
    destruct (check_self_references_spec domains_fas username emails Hat [])
      as (uc' & -> & Hc & Hp & _).
    cbn [mbind res_bind]. eexists. split; [reflexivity|].
    rewrite !check_address_conflicts_other_kinds by discriminate.
    rewrite Hc, Hp. auto.
  - intros cfg fas_users users_to_conflicts name user_conflicts Hfind Hin.
    destruct (find_user_conflicts_entries cfg fas_users users_to_conflicts Hfind
                name user_conflicts Hin)
      as (by_name & to_check & names & objs & Hdup & Hchk & Hrec & Hcheck).
    destruct (group_by_email objs) as [addresses|e] eqn:Hg.
    2:{ unfold check_user in Hcheck. rewrite Hg in Hcheck. discriminate. }
    exists by_name, to_check, names, objs, addresses.
    split; [exact Hdup|]. split; [exact Hchk|]. split; [exact Hrec|].
    split; [exact Hcheck|]. split; [exact Hg|].
    intros Hat'.
    destruct (check_user_all_addresses (email_domains_fas cfg) name objs
                addresses Hg Hat') as (uc4 & Huc & Hc & Hp).
    rewrite Hcheck in Huc. injection Huc as <-. split; assumption.
Qed.

Lemma self_reference_conflicts_witness :
  let email := lit "alice@realmB.example" in
  let same :=
    [(lit "A", record_of "alice" "alice@realmB.example");
     (lit "B", record_of "alice" "alice@realmB.example")] in
  let records :=
    [(lit "A", record_of "alice" "alice@x.example");
     (lit "B", record_of "alice" "alice@realmB.example");
     (lit "C", record_of "alice" "alice@realmA.example")] in
  let emails :=
    [(lit "alice@x.example", [lit "A"]);
     (lit "alice@realmB.example", [lit "B"]);
     (lit "alice@realmA.example", [lit "C"])] in
  let d := email_domains_fas two_realms in
  (exists uc',
     check_self_reference d (lit "alice") [] email [lit "A"; lit "B"] = Ok (uc', [])
     /\ details uc' circular_email
        = details [] circular_email
            ++ (if mem (lit "B") [lit "A"; lit "B"]
                then [CircularEmail (lit "B") email] else [])
     /\ details uc' email_pointing_to_other_fas
        = details [] email_pointing_to_other_fas
            ++ match set_remove [lit "A"; lit "B"] (lit "B") with
               | [] => []
               | (_ :: _) as rest => [EmailPointingToOtherFas (lit "B") email rest]
               end
     /\ details uc' email_address_conflicts = details [] email_address_conflicts)
  /\ (exists uc1,
        check_user d (lit "alice") same = Ok uc1
        /\ details uc1 circular_email = [CircularEmail (lit "B") email]
        /\ details uc1 email_pointing_to_other_fas
           = [EmailPointingToOtherFas (lit "B") email
                (set_remove (List.map fst same) (lit "B"))]
        /\ details uc1 email_address_conflicts = [])
  /\ (exists uc2,
        check_self_references d (lit "alice") [] emails
        = Ok (uc2, List.map (after_self_reference d (lit "alice")) emails)
        /\ details uc2 circular_email
           = details [] circular_email
               ++ flat_map (circular_entries d (lit "alice")) emails
        /\ details uc2 email_pointing_to_other_fas
           = details [] email_pointing_to_other_fas
               ++ flat_map (pointing_entries d (lit "alice")) emails
        /\ details uc2 email_address_conflicts = details [] email_address_conflicts)
  /\ (exists uc3,
        check_user d (lit "alice") records = Ok uc3
        /\ details uc3 circular_email
           = flat_map (circular_entries d (lit "alice")) emails
        /\ details uc3 email_pointing_to_other_fas
           = flat_map (pointing_entries d (lit "alice")) emails)
  /\ (forall cfg fas_users users_to_conflicts name user_conflicts,
        find_user_conflicts cfg fas_users = Ok users_to_conflicts ->
        In (name, user_conflicts) users_to_conflicts ->
        exists fas_users_by_name to_check names objs addresses,
          find_duplicates fas_users = Ok (fas_users_by_name, to_check)
          /\ In (name, names) to_check
          /\ records_of fas_users_by_name name names = Ok objs
          /\ check_user (email_domains_fas cfg) name objs = Ok user_conflicts
          /\ group_by_email objs = Ok addresses
          /\ ((forall e fs, In (e, fs) addresses -> rsplit1 e at_sign <> None) ->
              details user_conflicts circular_email
              = flat_map (circular_entries (email_domains_fas cfg) name) addresses
              /\ details user_conflicts email_pointing_to_other_fas
                 = flat_map (pointing_entries (email_domains_fas cfg) name)
                     addresses)).
Proof.
  intros email same records emails d.
  apply (self_reference_conflicts d (lit "alice")
           email (lit "realmB.example") (lit "B") (lit "A") []
           [lit "A"; lit "B"] same records emails).
  - reflexivity.
  - reflexivity.
  - discriminate.
  - intros f obj [[= <- <-]|[[= <- <-]|[]]]; reflexivity.
  - apply (bool_decide_unpack _). vm_compute. exact I.
  - right. left. reflexivity.
  - left. reflexivity.
  - discriminate.
  - reflexivity.
  - intros e fs [[= <- <-]|[[= <- <-]|[[= <- <-]|[]]]]; discriminate.
Defined.

(** In that scenario realm B's own record carries the address of realm
    B and realm C's record the address of realm A: one
    [circular_email] conflict for the former, and one
    [email_pointing_to_other_fas] conflict for the latter. *)
Example several_addresses_each_checked :
  let emails :=
    [(lit "alice@x.example", [lit "A"]);
     (lit "alice@realmB.example", [lit "B"]);
     (lit "alice@realmA.example", [lit "C"])] in
  let d := email_domains_fas two_realms in
  flat_map (circular_entries d (lit "alice")) emails
  = [CircularEmail (lit "B") (lit "alice@realmB.example")]
  /\ flat_map (pointing_entries d (lit "alice")) emails
     = [EmailPointingToOtherFas (lit "A") (lit "alice@realmA.example") [lit "C"]].
Proof. vm_compute. split; reflexivity. Qed.

(** ** Where the entries of the deltas come from *)

Lemma emit_Done_eq (e : event) (w w' : world) (u : unit) :
  emit e w = (Done u, w') ->
  w' = {| heap := heap w; script := script w; log := log w ++ [e] |}.
Proof. unfold emit. intros H. injection H as _ Hw. symmetry. exact Hw. Qed.

Lemma visits_In {A S} (body : S -> A -> M S) (l : list A) (s : S) (w : world)
    (b : A) (sb : S) (wb : world) :
  visits body l s w b sb wb -> In b l.
Proof. induction 1; [left; reflexivity | right; assumption]. Qed.

(** An invariant of a loop whose step may use how the loop came to
    the element. *)
Lemma foldM_visits {A S} (I : S -> Prop) (body : S -> A -> M S) (l : list A) :
  forall s0 w0,
    (forall a s w s' w',
       visits body l s0 w0 a s w -> I s -> body s a w = (Done s', w') -> I s') ->
    I s0 ->
    forall s' w', foldM l body s0 w0 = (Done s', w') -> I s'.
Proof.
  induction l as [|a l IH]; intros s0 w0 Hstep Hs s' w' H.
  - injection H as <- _. exact Hs.
  - cbn [foldM] in H. apply bind_Done_inv in H as (s1 & w1 & Hb & H).
    apply (IH s1 w1) with (w' := w'); [| |exact H].
    + intros b s w sb wb Hv. apply Hstep. exact (visits_next _ _ _ _ _ _ _ _ _ _ Hb Hv).
    + exact (Hstep a s0 w0 s1 w1 (visits_here _ _ _ _ _) Hs Hb).
Qed.

(** One user: the usernames of the deltas stay as they were, or
    [migrate_user] was called for the user in the state [push_person]
    had come to, returned an outcome other than [SKIPPED], and the
    username of the user is the only one added. *)
Lemma push_person_cases
    cfg fas_name conf user_patterns conflicts max_length
    acc person w acc' w' :
  push_person cfg fas_name conf user_patterns conflicts max_length acc person w
  = (Done acc', w') ->
  delta_usernames acc' = delta_usernames acc
  \/ exists username status,
       migrates cfg user_patterns conflicts max_length acc person w username status
       /\ status <> SKIPPED
       /\ forall u, In u (delta_usernames acc') ->
                    In u (delta_usernames acc) \/ u = username.
Proof.
  intros H. unfold push_person in H.
  apply bind_Done_inv in H as (d & w1 & Hl & H).
  apply load_Done_inv in Hl as [-> Hd].
  apply bind_Done_inv in H as (username & w1 & Hu & H).
  pose proof (lift_Done_world _ _ _ _ Hu) as ->. apply lift_Done_inv in Hu.
  destruct (matches_any username user_patterns) eqn:Hmatch; cbn [negb] in H.
  2:{ injection H as <- _. left. reflexivity. }
  fold (skip_conflicts_of cfg conflicts username) in H.
  destruct (skip_conflicts_of cfg conflicts username) as [|k ks] eqn:Hskip.
  2:{ apply bind_Done_inv in H as (u1 & w1 & _ & H). injection H as <- _.
      left. reflexivity. }
  apply bind_Done_inv in H as (u1 & w1 & He1 & H).
  apply emit_Done_eq in He1. subst w1.
  apply bind_Done_inv in H as (u2 & w2 & He2 & H).
  apply emit_Done_eq in He2. cbn [heap script log counter set_counters] in He2.
  rewrite <- app_assoc in He2. cbn [app] in He2.
  fold (call_state acc username max_length w) in He2. subst w2.
  apply bind_Done_inv in H as (status & w3 & Hm & H).
  apply bind_Done_inv in H as (acc2 & w4 & Hrec & H).
  apply bind_Done_inv in H as (u3 & w5 & _ & H). injection H as <- _.
  rewrite delta_usernames_count_status.
  destruct (is_skipped status) eqn:Hsk.
  { injection Hrec as <- _. left. reflexivity. }
  right. exists username, status. split; [|split].
  - exists d, w3. repeat split; assumption.
  - intros ->. discriminate.
  - destruct (migrate_user_run cfg person (call_state acc username max_length w))
      as (ext & evs & Hs & _).
    rewrite Hm in Hs. cbn [snd] in Hs.
    apply bind_Done_inv in Hrec as (d' & w6 & Hl' & Hrec).
    apply load_Done_inv in Hl' as [-> Hd'].
    rewrite (span_heap _ _ _ _ Hs) in Hd'. cbn [call_state heap] in Hd'.
    rewrite (lookup_app_l_Some _ _ _ _ Hd) in Hd'. injection Hd' as <-.
    apply bind_Done_inv in Hrec as (acc1 & w6 & Hroles & Hrec).
    apply lift_Done_inv in Hroles. apply lift_Done_inv in Hrec.
    pose proof (from_record_trans _ _ _ _ _
                  (record_roles_from_record _ _ _ _ Hroles)
                  (record_agreements_from_record _ _ _ _ Hrec)) as [_ Hfrom].
    intros u Hin. destruct (Hfrom u Hin) as [Hold|Hnew]; [left; exact Hold|].
    right. rewrite Hu in Hnew. injection Hnew as <-. reflexivity.
Qed.

(** Every username the deltas hold after the loop comes from a call of
    [migrate_user] the run made, which did not return [SKIPPED]. *)
Lemma collect_users_accounted cfg user_patterns conflicts fas_users w acc w' :
  collect_users cfg user_patterns conflicts fas_users w = (Done acc, w') ->
  forall u, In u (delta_usernames acc) ->
    exists person,
      In person (all_persons fas_users)
      /\ migrated cfg user_patterns conflicts fas_users w person u.
Proof.
  unfold collect_users.
  apply (foldM_visits
           (fun acc => forall u, In u (delta_usernames acc) ->
              exists person,
                In person (all_persons fas_users)
                /\ migrated cfg user_patterns conflicts fas_users w person u));
    [|intros u []].
  intros [fas_name users] acc_r w_r acc_r' w_r' Hvisit Hacc Hrealm.
  unfold push_realm in Hrealm.
  apply bind_Done_inv in Hrealm as (u1 & w1 & He & Hrealm).
  apply emit_Done_eq in He. subst w1.
  destruct users as [|p0 users0]; [injection Hrealm as <- _; exact Hacc|].
  set (users := p0 :: users0) in *.
  apply bind_Done_inv in Hrealm as (conf & w2 & Hc & Hrealm).
  pose proof (lift_Done_world _ _ _ _ Hc) as ->. apply lift_Done_inv in Hc.
  assert (Hconf : dict_get (fas cfg) fas_name = Some conf).
  { destruct (dict_get (fas cfg) fas_name); [injection Hc as <-; reflexivity|discriminate]. }
  apply bind_Done_inv in Hrealm as (names & w2 & Hn & Hrealm).
  pose proof (usernames_at_world _ _ _ _ Hn) as ->.
  assert (Hnames : usernames_at users w_r = (Done names, w_r)).
  { clear - Hn. revert names Hn.
    generalize (Print (FoundUsers fas_name (List.length users))). intros e.
    induction users as [|p users IH]; intros names Hn.
    - injection Hn as <-. reflexivity.
    - cbn [usernames_at] in Hn |- *.
      apply bind_Done_inv in Hn as (d & w1 & Hl & Hn).
      apply load_Done_inv in Hl as [-> Hd]. cbn [heap] in Hd.
      apply bind_Done_inv in Hn as (u & w1 & Hu & Hn).
      pose proof (lift_Done_world _ _ _ _ Hu) as ->. apply lift_Done_inv in Hu.
      apply bind_Done_inv in Hn as (ns & w1 & Hns & Hn).
      pose proof (usernames_at_world _ _ _ _ Hns) as ->.
      injection Hn as <-.
      rewrite bind_run. unfold load. rewrite Hd. rewrite bind_run, Hu.
      cbn [lift mret M_ret]. rewrite bind_run, (IH ns Hns). reflexivity. }
  revert Hrealm.
  apply (foldM_visits
           (fun acc => forall u, In u (delta_usernames acc) ->
              exists person,
                In person (all_persons fas_users)
                /\ migrated cfg user_patterns conflicts fas_users w person u));
    [|exact Hacc].
  intros person acc0 w0 acc1 w1 Hvp Hacc0 Hperson u Hin.
  destruct (push_person_cases _ _ _ _ _ _ _ _ _ _ _ Hperson)
    as [E | (username & status & Hmig & Hst & Hnew)].
  - rewrite E in Hin. exact (Hacc0 u Hin).
  - destruct (Hnew u Hin) as [Hold | ->]; [exact (Hacc0 u Hold)|].
    exists person. split.
    + unfold all_persons. apply in_concat. exists users. split.
      * apply in_map_iff. exists (fas_name, users).
        split; [reflexivity | exact (visits_In _ _ _ _ _ _ _ Hvisit)].
      * apply visits_In in Hvp. apply in_map_iff in Hvp as ([n q] & <- & Hq).
        apply In_sorted_by in Hq. exact (in_combine_r _ _ _ _ Hq).
    + exists fas_name, conf, (list_max (List.map (@List.length N) names)),
        acc0, w0, status.
      split; [|split; assumption].
      exists users, acc_r, w_r, names. repeat split; assumption.
Qed.

(** C8: every username held by a membership or signature delta after
    the loop of [_push_users] is the username of a record for which the
    run called [migrate_user], in the state the run had come to, and
    the call returned an outcome other than [SKIPPED].  A user changes
    the usernames of the deltas only when [push_person] passed both
    guards and the call of [migrate_user] it made returned such an
    outcome; a user that does not match the patterns, that is skipped
    for its conflicts, or for which [migrate_user] returns [SKIPPED]
    leaves the usernames of the deltas as they were. *)
Theorem deltas_hold_migrated_users
    (cfg : config) (user_patterns : list str) (conflicts : list (str * conflicts))
    (fas_users : list (str * list nat)) (w w' : world) (acc : deltas) (u : str) :
  collect_users cfg user_patterns conflicts fas_users w = (Done acc, w') ->
  In u (delta_usernames acc) ->
  (exists person,
     In person (all_persons fas_users)
     /\ migrated cfg user_patterns conflicts fas_users w person u)
  /\ (forall fas_name conf max_length acc0 person w0 acc1 w1,
        push_person cfg fas_name conf user_patterns conflicts max_length
          acc0 person w0 = (Done acc1, w1) ->
        delta_usernames acc1 = delta_usernames acc0
        \/ exists username status,
             migrates cfg user_patterns conflicts max_length acc0 person w0
               username status
             /\ status <> SKIPPED
             /\ forall u, In u (delta_usernames acc1) ->
                          In u (delta_usernames acc0) \/ u = username)
  /\ (forall fas_name conf max_length acc0 person w0 acc1 w1 record username,
        push_person cfg fas_name conf user_patterns conflicts max_length
          acc0 person w0 = (Done acc1, w1) ->
        heap w0 !! person = Some record ->
        get_str record (lit "username") = Ok username ->
        matches_any username user_patterns = false
        \/ skip_conflicts_of cfg conflicts username <> []
        \/ fst (migrate_user cfg person (call_state acc0 username max_length w0))
           = Done SKIPPED ->
        delta_usernames acc1 = delta_usernames acc0).
Proof.
  intros H Hu. split; [|split].
  - exact (collect_users_accounted _ _ _ _ _ _ _ H u Hu).
  - intros fas_name conf max_length acc0 person w0 acc1 w1 Hp.
    exact (push_person_cases _ _ _ _ _ _ _ _ _ _ _ Hp).
  - intros fas_name conf max_length acc0 person w0 acc1 w1 record username
      Hp Hrec Hname Hout.
    destruct (push_person_cases _ _ _ _ _ _ _ _ _ _ _ Hp)
      as [E | (username' & status & Hmig & Hst & _)]; [exact E|].
    exfalso.
    destruct Hmig as (record' & w2 & Hrec' & Hname' & Hmatch & Hskip & Hrun).
    rewrite Hrec in Hrec'. injection Hrec' as <-.
    rewrite Hname in Hname'. injection Hname' as <-.
    destruct Hout as [Hout|[Hout|Hout]].
    + congruence.
    + congruence.
    + rewrite Hrun in Hout. cbn [fst] in Hout. congruence.
Qed.

Lemma deltas_hold_migrated_users_witness :
  let user_patterns := List.map (fun p => p ++ [star]) alphabet in
  let fas_users := [(lit "A", [0; 1]%nat)] in
  let cfg := skipping_config in
  (exists person,
     In person (all_persons fas_users)
     /\ migrated cfg user_patterns [] fas_users two_users_world person (lit "ada"))
  /\ (forall fas_name conf max_length acc0 person w0 acc1 w1,
        push_person cfg fas_name conf user_patterns [] max_length
          acc0 person w0 = (Done acc1, w1) ->
        delta_usernames acc1 = delta_usernames acc0
        \/ exists username status,
             migrates cfg user_patterns [] max_length acc0 person w0
               username status
             /\ status <> SKIPPED
             /\ forall u, In u (delta_usernames acc1) ->
                          In u (delta_usernames acc0) \/ u = username)
  /\ (forall fas_name conf max_length acc0 person w0 acc1 w1 record username,
        push_person cfg fas_name conf user_patterns [] max_length
          acc0 person w0 = (Done acc1, w1) ->
        heap w0 !! person = Some record ->
        get_str record (lit "username") = Ok username ->
        matches_any username user_patterns = false
        \/ skip_conflicts_of cfg [] username <> []
        \/ fst (migrate_user cfg person (call_state acc0 username max_length w0))
           = Done SKIPPED ->
        delta_usernames acc1 = delta_usernames acc0).
Proof.
  intros user_patterns fas_users cfg.
  set (r := collect_users cfg user_patterns [] fas_users two_users_world).
  apply (deltas_hold_migrated_users cfg user_patterns [] fas_users
           two_users_world (snd r)
           (match fst r with Done acc => acc | _ => no_deltas end) (lit "ada")).
  - vm_compute. reflexivity.
  - vm_compute. left. reflexivity.
Defined.

(** ** The expiry signal, the re-authentication and the retry *)

Lemma expiry_signal_is_expiry (e : event) :
  expiry_signal e = true -> is_expiry e = true.
Proof.
  destruct e as [c r| | | | |]; try discriminate.
  destruct c, r as [v|x]; try discriminate;
    destruct x as [k| | | |cls msg|text]; try discriminate;
    destruct cls; try discriminate; reflexivity.
Qed.

Lemma expiry_signal_no_login (e : event) :
  expiry_signal e = true -> is_login e = false.
Proof.
  destruct e as [c r| | | | |]; try discriminate.
  destruct c; try discriminate; reflexivity.
Qed.

Lemma expiry_signal_raise (e : event) :
  expiry_signal e = true -> is_raise e = true.
Proof.
  destruct e as [c r| | | | |]; try discriminate.
  destruct c, r as [v|x]; try discriminate; reflexivity.
Qed.

Lemma count_le (f g : event -> bool) (evs : list event) :
  (forall e, f e = true -> g e = true) -> (count f evs <= count g evs)%nat.
Proof.
  intros H. induction evs as [|e evs IH]; [reflexivity|]. cbn [count].
  destruct (f e) eqn:E; [rewrite (H e E); lia|]. destruct (g e); lia.
Qed.

Lemma no_call_counts (evs : list event) :
  Forall no_call evs ->
  count expiry_signal evs = 0%nat /\ count is_login evs = 0%nat.
Proof.
  induction 1 as [|e evs He _ [IH1 IH2]]; [split; reflexivity|].
  cbn [count]. rewrite IH1, IH2.
  destruct e; [destruct He| | | | |]; split; reflexivity.
Qed.

(** The update path of the inner handler: it logs no
    re-authentication, and ends in [Unauthorized] exactly when its
    last event is an expiry signal, the only one it logs. *)
Lemma update_path_signal
    (username : pyval) (user_args : list (str * pyval)) (b : bool) (w : world) :
  exists o evs s',
    ((if b
      then ipa (user_show username)
           ≫= λ ipa_user : pyval, lift (fill_defaults user_args ipa_user)
      else mret user_args)
     ≫= λ user_args0 : list (str * pyval),
          ipa (user_mod username (drop_blank user_args0))
          ≫= λ _ : pyval, mret UPDATED) w
    = (o, {| heap := heap w; script := s'; log := log w ++ evs |})
    /\ count is_login evs = 0%nat
    /\ o <> OutOfFuel
    /\ (List.length s' <= List.length (script w))%nat
    /\ match o with
       | Raised (FreeIPAError Unauthorized _) =>
           exists evs0 sig,
             evs = evs0 ++ [sig]
             /\ count expiry_signal evs0 = 0%nat
             /\ expiry_signal sig = true
       | _ => count expiry_signal evs = 0%nat
       end.
Proof.
  assert (Hmod : forall (a : list (str * pyval)) (w1 : world) (evs1 : list event),
    heap w1 = heap w -> log w1 = log w ++ evs1 ->
    (List.length (script w1) <= List.length (script w))%nat ->
    count is_login evs1 = 0%nat -> count expiry_signal evs1 = 0%nat ->
    exists o evs s',
      (ipa (user_mod username (drop_blank a)) ≫= λ _ : pyval, mret UPDATED) w1
      = (o, {| heap := heap w; script := s'; log := log w ++ evs |})
      /\ count is_login evs = 0%nat
      /\ o <> OutOfFuel
      /\ (List.length s' <= List.length (script w))%nat
      /\ match o with
         | Raised (FreeIPAError Unauthorized _) =>
             exists evs0 sig,
               evs = evs0 ++ [sig]
               /\ count expiry_signal evs0 = 0%nat
               /\ expiry_signal sig = true
         | _ => count expiry_signal evs = 0%nat
         end).
  { intros a w1 evs1 Hh Hl Hs Hlog Hsig. rewrite bind_run.
    destruct (ipa_run (user_mod username (drop_blank a)) w1)
      as (r & s' & -> & Hlen).
    rewrite Hh, Hl, <- app_assoc.
    assert (Hlen' : (List.length s' <= List.length (script w))%nat).
    { revert Hlen. generalize (raises [Called (user_mod username (drop_blank a)) r]).
      intros n Hn. lia. }
    exists (match r with Returns _ => Done UPDATED | Raises e => Raised e end),
      (evs1 ++ [Called (user_mod username (drop_blank a)) r]), s'.
    split; [destruct r; reflexivity|].
    split; [rewrite count_app, Hlog; reflexivity|].
    split; [destruct r; discriminate|].
    split; [exact Hlen'|].
    destruct r as [v|e].
    - rewrite count_app, Hsig. reflexivity.
    - destruct e as [k| | | |cls msg|text];
        try (rewrite count_app, Hsig; reflexivity).
      destruct cls; try (rewrite count_app, Hsig; reflexivity).
      exists evs1, (Called (user_mod username (drop_blank a))
                      (Raises (FreeIPAError Unauthorized msg))).
      split; [reflexivity|]. split; [exact Hsig | reflexivity]. }
  destruct b.
  - rewrite bind_run, bind_run.
    destruct (ipa_run (user_show username) w) as (r & s' & -> & Hlen).
    assert (Hlen' : (List.length s' <= List.length (script w))%nat).
    { revert Hlen. generalize (raises [Called (user_show username) r]).
      intros n Hn. lia. }
    destruct r as [v|e]; cbn [outcome_of].
    + pose proof (fill_defaults_local user_args v) as Hloc.
      destruct (fill_defaults user_args v) as [a|e]; cbn [lift mret M_ret].
      * apply (Hmod a _ [Called (user_show username) (Returns v)]);
          try reflexivity. exact Hlen'.
      * exists (Raised e), [Called (user_show username) (Returns v)], s'.
        split; [reflexivity|]. split; [reflexivity|]. split; [discriminate|].
        split; [exact Hlen'|].
        destruct e; try reflexivity. destruct Hloc.
    + exists (Raised e), [Called (user_show username) (Raises e)], s'.
      split; [reflexivity|]. split; [reflexivity|]. split; [discriminate|].
      split; [exact Hlen'|].
      destruct e as [k| | | |cls msg|text]; try reflexivity.
      destruct cls; try reflexivity.
      exists [], (Called (user_show username)
                    (Raises (FreeIPAError Unauthorized msg))).
      repeat split; reflexivity.
  - rewrite bind_run. cbn [mret M_ret].
    apply (Hmod user_args w []); try reflexivity.
    symmetry. apply app_nil_r.
Qed.

(** The body of the outer [try], when the arguments are built: its
    first event is the create call; it logs no re-authentication; and
    it ends in [Unauthorized] exactly when its last event is an expiry
    signal, the only one it logs. *)
Lemma try_body_signal
    (f : processed) (name first_name last_name : str)
    (user_args : list (str * pyval)) (w : world) :
  build_user_args (p_username f) name first_name last_name
    (p_status f) (p_email f) (p_ircnick f) (p_locale f)
    (p_timezone f) (p_gpg_keyid f) (p_ssh_key f)
    (p_creation f) (p_privacy f) = Ok user_args ->
  exists o r0 rest s',
    (user_args ←
       lift (build_user_args (p_username f) name first_name last_name
               (p_status f) (p_email f) (p_ircnick f) (p_locale f)
               (p_timezone f) (p_gpg_keyid f) (p_ssh_key f)
               (p_creation f) (p_privacy f));
     catch
       (_ ← ipa (user_add (p_username f) (make_user_add_args user_args));
        mret ADDED)
       (on_add_error (p_username f) user_args)) w
    = (o, {| heap := heap w; script := s';
             log := log w
                    ++ Called (user_add (p_username f)
                                 (make_user_add_args user_args)) r0 :: rest |})
    /\ count is_login
         (Called (user_add (p_username f) (make_user_add_args user_args)) r0
          :: rest) = 0%nat
    /\ o <> OutOfFuel
    /\ (List.length s' <= List.length (script w))%nat
    /\ match o with
       | Raised (FreeIPAError Unauthorized _) =>
           (List.length s' < List.length (script w))%nat
           /\ exists evs0 sig,
                Called (user_add (p_username f) (make_user_add_args user_args)) r0
                :: rest = evs0 ++ [sig]
                /\ count expiry_signal evs0 = 0%nat
                /\ expiry_signal sig = true
       | _ =>
           count expiry_signal
             (Called (user_add (p_username f) (make_user_add_args user_args)) r0
              :: rest) = 0%nat
       end.
Proof.
  intros Hua. rewrite bind_run, Hua. cbn [lift mret M_ret].
  unfold catch. rewrite bind_run.
  destruct (ipa_run (user_add (p_username f) (make_user_add_args user_args)) w)
    as (r0 & s0 & -> & H0).
  destruct r0 as [v|e]; cbn [outcome_of]; cbn [count is_raise Nat.add] in H0.
  { eexists _, _, _, _. split; [reflexivity|].
    split; [reflexivity|]. split; [discriminate|]. split; [lia|]. reflexivity. }
  unfold on_add_error.
  destruct e as [k| | | |cls msg|text];
    try (eexists _, _, _, _; split; [reflexivity|];
         split; [reflexivity|]; split; [discriminate|]; split; [lia|];
         reflexivity).
  destruct (is_str msg (already_exists (p_username f))) eqn:Hmsg.
  2:{ eexists _, _, _, _. split; [reflexivity|].
      split; [reflexivity|]. split; [discriminate|]. split; [lia|].
      destruct cls; try (cbn [count expiry_signal]; reflexivity).
      split; [lia|]. exists [], (Called (user_add (p_username f)
                                          (make_user_add_args user_args))
                                   (Raises (FreeIPAError Unauthorized msg))).
      split; [reflexivity|]. split; [reflexivity|].
      cbn [expiry_signal]. rewrite Hmsg. reflexivity. }
  assert (Hadd : expiry_signal
                   (Called (user_add (p_username f) (make_user_add_args user_args))
                      (Raises (FreeIPAError cls msg))) = false).
  { cbn [expiry_signal]. rewrite Hmsg. destruct cls; reflexivity. }
  match goal with
  | |- context [(if ?b then _ else _) ≫= _] =>
      destruct (update_path_signal (p_username f)
                  (drop_placeholders user_args) b
                  {| heap := heap w; script := s0;
                     log := log w
                            ++ [Called (user_add (p_username f)
                                          (make_user_add_args user_args))
                                  (Raises (FreeIPAError cls msg))] |})
        as (o & evs & s' & -> & Hlog & Ho & Hlen & Hsig)
  end.
  cbn [heap script log] in *. rewrite <- app_assoc. cbn [app].
  exists o, (Raises (FreeIPAError cls msg)), evs, s'.
  split; [reflexivity|].
  split; [exact Hlog|]. split; [exact Ho|]. split; [lia|].
  destruct o as [a|e|]; try (cbn [count]; rewrite Hadd, Hsig; reflexivity).
  destruct e as [k| | | |cls' msg'|text];
    try (cbn [count]; rewrite Hadd, Hsig; reflexivity).
  destruct cls'; try (cbn [count]; rewrite Hadd, Hsig; reflexivity).
  split; [lia|].
  destruct Hsig as (evs0 & sig & -> & Hsig0 & Hsig1).
  exists (Called (user_add (p_username f) (make_user_add_args user_args))
            (Raises (FreeIPAError cls msg)) :: evs0), sig.
  split; [reflexivity|]. split; [|exact Hsig1].
  cbn [count]. rewrite Hadd, Hsig0. reflexivity.
Qed.

(** A pass that starts after objects were created. *)
Lemma first_pass_after
    (cfg : config) (create : option call) (w w2 : world)
    (ext0 : list (list (str * pyval)))
    (run : M Status -> outcome Status * world) :
  heap w2 = heap w ++ ext0 -> script w2 = script w -> log w2 = log w ->
  first_pass cfg create w2 run -> first_pass cfg create w run.
Proof.
  intros Hh Hsc Hl
    [r ext evs Hall Hheap Hlog Hlen Hb Hsig Hlogin
    | ext evs sig rl w1 Hall Hheap Hlog Hlen Hb Hsig Hlogin Hs].
  - apply (pass_ends cfg create w run r (ext0 ++ ext) evs); try assumption.
    + rewrite Hheap, Hh, app_assoc. reflexivity.
    + rewrite Hlog, Hl. reflexivity.
    + rewrite <- Hsc. exact Hlen.
  - apply (pass_signal cfg create w run (ext0 ++ ext) evs sig rl w1);
      try assumption.
    + rewrite Hheap, Hh, app_assoc. reflexivity.
    + rewrite Hlog, Hl. reflexivity.
    + rewrite <- Hsc. exact Hlen.
Qed.

(** The two [try] statements: the pass ends without an expiry signal,
    or the signal is answered by the re-authentication and, when that
    succeeds, by the recursive call. *)
Lemma upsert_first_pass
    (cfg : config) (f : processed) (name first_name last_name : str) (w : world) :
  first_pass cfg
    (match build_user_args (p_username f) name first_name last_name
             (p_status f) (p_email f) (p_ircnick f) (p_locale f)
             (p_timezone f) (p_gpg_keyid f) (p_ssh_key f)
             (p_creation f) (p_privacy f) with
     | Ok user_args =>
         Some (user_add (p_username f) (make_user_add_args user_args))
     | Raise _ => None
     end)
    w (fun retry => upsert retry cfg f name first_name last_name w).
Proof.
  pose proof (build_user_args_shape (p_username f) name first_name last_name
                (p_status f) (p_email f) (p_ircnick f) (p_locale f)
                (p_timezone f) (p_gpg_keyid f) (p_ssh_key f)
                (p_creation f) (p_privacy f)) as Hshape.
  destruct (build_user_args (p_username f) name first_name last_name
              (p_status f) (p_email f) (p_ircnick f) (p_locale f)
              (p_timezone f) (p_gpg_keyid f) (p_ssh_key f)
              (p_creation f) (p_privacy f)) as [user_args|e] eqn:Hua.
  - destruct (try_body_signal f name first_name last_name user_args w Hua)
      as (o & r0 & rest & s' & Htb & Hlogin & Ho & Hlen & Hsig).
    set (create := user_add (p_username f) (make_user_add_args user_args)) in *.
    set (w' := {| heap := heap w; script := s';
                  log := log w ++ Called create r0 :: rest |}) in *.
    assert (Hends : forall (st : Status) (tail : list event),
      Forall no_call tail ->
      count expiry_signal (Called create r0 :: rest) = 0%nat ->
      (forall retry,
         upsert retry cfg f name first_name last_name w
         = (Done st, {| heap := heap w; script := s';
                        log := log w ++ (Called create r0 :: rest) ++ tail |})) ->
      first_pass cfg (Some create) w
        (fun retry => upsert retry cfg f name first_name last_name w)).
    { intros st tail Htail Hs Hall.
      destruct (no_call_counts tail Htail) as [Ht1 Ht2].
      eapply (pass_ends cfg (Some create) w _ _ [] _ Hall); cbn [snd heap script log].
      - symmetry. apply app_nil_r.
      - reflexivity.
      - exact Hlen.
      - eexists _, _. reflexivity.
      - rewrite count_app, Hs, Ht1. reflexivity.
      - rewrite count_app, Hlogin, Ht2. reflexivity. }
    assert (Hprint : forall m,
      count expiry_signal (Called create r0 :: rest) = 0%nat ->
      (forall retry,
         upsert retry cfg f name first_name last_name w
         = (_ ← emit (Print m); mret FAILED) w') ->
      first_pass cfg (Some create) w
        (fun retry => upsert retry cfg f name first_name last_name w)).
    { intros m Hs Hall. apply (Hends FAILED [Print m]); [repeat constructor | exact Hs|].
      intros retry. rewrite Hall. unfold w'. rewrite bind_run. unfold emit.
      cbn [heap script log mret M_ret]. rewrite <- app_assoc. reflexivity. }
    assert (Hrun : forall retry,
      upsert retry cfg f name first_name last_name w
      = match o with
        | Done a => (Done a, w')
        | Raised e => on_error retry cfg e w'
        | OutOfFuel => (OutOfFuel, w')
        end).
    { intros retry. unfold upsert, catch at 1. rewrite Htb.
      destruct o; reflexivity. }
    destruct o as [st|e|]; [| |congruence].
    + apply (Hends st []); [constructor | exact Hsig|].
      intros retry. rewrite Hrun, app_nil_r. reflexivity.
    + destruct e as [k| | | |cls msg|text];
        try (match goal with
             | H : context [Raised ?x] |- _ =>
                 apply (Hprint (ExceptionText x) Hsig)
             end; intros retry; rewrite Hrun; reflexivity).
      destruct cls.
      * destruct Hsig as (Hlt & evs0 & sig & Hevs & Hsig0 & Hsig1).
        destruct (ipa_run (login (ipa_username cfg) (ipa_password cfg)) w')
          as (rl & s'' & Hipa & Hlen').
        apply (pass_signal cfg (Some create) w _ [] evs0 sig rl
                 {| heap := heap w; script := s'';
                    log := log w ++ evs0
                           ++ [sig; Called (login (ipa_username cfg)
                                              (ipa_password cfg)) rl] |}).
        -- intros retry. rewrite Hrun. unfold on_error. rewrite bind_run, Hipa.
           unfold w'. cbn [heap script log]. rewrite Hevs, <- !app_assoc.
           cbn [app]. destruct rl; reflexivity.
        -- symmetry. apply app_nil_r.
        -- reflexivity.
        -- cbn [script]. unfold w' in Hlen'. cbn [script] in Hlen'.
           revert Hlen'.
           generalize (raises [Called (login (ipa_username cfg)
                                         (ipa_password cfg)) rl]).
           intros n Hn. lia.
        -- rewrite <- Hevs. eexists _, _. reflexivity.
        -- exact Hsig0.
        -- assert (Hc : count is_login (evs0 ++ [sig]) = 0%nat)
             by (rewrite <- Hevs; exact Hlogin).
           rewrite count_app in Hc. lia.
        -- exact Hsig1.
      * destruct (negb (is_str msg (lit "no modifications to be performed"))) eqn:Hm.
        -- apply (Hprint (ExceptionText (FreeIPAError ValidationError msg)) Hsig).
           intros retry. rewrite Hrun. unfold on_error. rewrite Hm. reflexivity.
        -- apply (Hends UNMODIFIED []); [constructor | exact Hsig|].
           intros retry. rewrite Hrun, app_nil_r. unfold on_error. rewrite Hm.
           reflexivity.
      * destruct (negb (is_str msg (lit "no modifications to be performed"))) eqn:Hm.
        -- apply (Hprint (ExceptionText (FreeIPAError NotFound msg)) Hsig).
           intros retry. rewrite Hrun. unfold on_error. rewrite Hm. reflexivity.
        -- apply (Hends UNMODIFIED []); [constructor | exact Hsig|].
           intros retry. rewrite Hrun, app_nil_r. unfold on_error. rewrite Hm.
           reflexivity.
      * destruct (negb (is_str msg (lit "no modifications to be performed"))) eqn:Hm.
        -- apply (Hprint (ExceptionText (FreeIPAError OtherFreeIPAError msg)) Hsig).
           intros retry. rewrite Hrun. unfold on_error. rewrite Hm. reflexivity.
        -- apply (Hends UNMODIFIED []); [constructor | exact Hsig|].
           intros retry. rewrite Hrun, app_nil_r. unfold on_error. rewrite Hm.
           reflexivity.
  - assert (Hrun : forall retry,
      upsert retry cfg f name first_name last_name w = on_error retry cfg e w).
    { intros retry. unfold upsert, catch at 1. rewrite bind_run, Hua. reflexivity. }
    apply (pass_ends cfg None w _
             (Done FAILED, {| heap := heap w; script := script w;
                              log := log w ++ [Print (ExceptionText e)] |})
             [] [Print (ExceptionText e)]); cbn [snd heap script log].
    + intros retry. rewrite Hrun.
      destruct e as [k| | | |cls msg|text]; try reflexivity. destruct Hshape.
    + symmetry. apply app_nil_r.
    + reflexivity.
    + lia.
    + repeat constructor.
    + reflexivity.
    + reflexivity.
Qed.

Lemma first_pass_ext
    (cfg : config) (create : option call) (w : world)
    (run run' : M Status -> outcome Status * world) :
  (forall retry, run' retry = run retry) ->
  first_pass cfg create w run -> first_pass cfg create w run'.
Proof.
  intros Hext
    [r ext evs Hall Hheap Hlog Hlen Hb Hsig Hlogin
    | ext evs sig rl w1 Hall Hheap Hlog Hlen Hb Hsig Hlogin Hs].
  - apply (pass_ends cfg create w run' r ext evs); try assumption.
    intros retry. rewrite Hext. apply Hall.
  - apply (pass_signal cfg create w run' ext evs sig rl w1); try assumption.
    intros retry. rewrite Hext. apply Hall.
Qed.

Lemma detail_lines_no_call (l : list (str * pyval)) :
  Forall no_call (List.map detail_line l).
Proof.
  induction l as [|kv l IH]; [constructor|]. cbn [List.map].
  constructor; [|exact IH]. unfold detail_line.
  destruct (secret_key (fst kv)); exact I.
Qed.

(** One pass through the body of [migrate_user] on a record. *)
Lemma migrate_user_body_first_pass
    (cfg : config) (person : nat) (w : world) (record : list (str * pyval)) :
  heap w !! person = Some record ->
  first_pass cfg (create_call cfg record) w
    (fun retry => migrate_user_body retry cfg person w).
Proof.
  intros Hp.
  assert (Hquiet : forall (r : outcome Status * world) ext evs,
    (forall retry, migrate_user_body retry cfg person w = r) ->
    heap (snd r) = heap w ++ ext -> log (snd r) = log w ++ evs ->
    script (snd r) = script w ->
    Forall no_call evs ->
    first_pass cfg None w (fun retry => migrate_user_body retry cfg person w)).
  { intros r ext evs Hall Hh Hl Hs Hevs.
    destruct (no_call_counts evs Hevs) as [H1 H2].
    apply (pass_ends cfg None w _ r ext evs); try assumption.
    rewrite Hs. lia. }
  unfold create_call.
  destruct (excluded_by_policy cfg record) eqn:Hex.
  { cbn [orb].
    apply (Hquiet (Done SKIPPED, {| heap := heap w ++ [record];
                                    script := script w; log := log w |})
             [record] []); try reflexivity; [|symmetry; apply app_nil_r|constructor].
    intros retry.
    pose proof (migrate_user_body_outcome retry cfg person w record Hp) as H.
    cbv zeta in H. rewrite Hex in H. exact H. }
  destruct (skip_user_add cfg) eqn:Hskip.
  { cbn [orb].
    apply (Hquiet (Done UNMODIFIED, {| heap := heap w ++ [record];
                                       script := script w; log := log w |})
             [record] []); try reflexivity; [|symmetry; apply app_nil_r|constructor].
    intros retry.
    pose proof (migrate_user_body_outcome retry cfg person w record Hp) as H.
    cbv zeta in H. rewrite Hex, Hskip in H. exact H. }
  cbn [orb].
  pose proof (pop_processed_exact (heap w ++ [record])
                (List.filter (fun kv => kept_key (fst kv)) record)
                (script w) (log w)) as Hpop.
  rewrite first_missing_key_filter in Hpop.
  destruct (first_missing_key record) as [k|] eqn:Hmiss.
  { destruct Hpop as (d' & Hpop).
    apply (Hquiet (Raised (KeyError k),
                   {| heap := (heap w ++ [record]) ++ [d'];
                      script := script w; log := log w |})
             [record; d'] []); try reflexivity;
      [|cbn [snd heap]; rewrite <- app_assoc; reflexivity
       |symmetry; apply app_nil_r|constructor].
    intros retry.
    rewrite (migrate_user_body_start retry cfg person w record Hp Hex Hskip).
    rewrite bind_run, Hpop. reflexivity. }
  rewrite leftover_spec, processed_of_filter in Hpop.
  assert (Hload : forall retry,
    migrate_user_body retry cfg person w
    = match leftover record with
      | _ :: _ =>
          (_ ← emit (Print UnprocessedDetails);
           _ ← for_eachM (sorted_by fst (leftover record)) print_unprocessed;
           mret FAILED)
      | [] =>
          '(name, first_name, last_name) ←
            lift (derive_names (p_human_name (processed_of record)));
          upsert retry cfg (processed_of record) name first_name last_name
      end {| heap := (heap w ++ [record]) ++ [leftover record];
             script := script w; log := log w |}).
  { intros retry.
    rewrite (migrate_user_body_start retry cfg person w record Hp Hex Hskip).
    rewrite bind_run, Hpop. rewrite bind_run. unfold load at 1. cbn [heap].
    rewrite list_lookup_middle by reflexivity.
    destruct (leftover record); reflexivity. }
  destruct (leftover record) as [|kv l] eqn:Hleft.
  - cbv zeta.
    destruct (derive_names (p_human_name (processed_of record)))
      as [[[name first_name] last_name]|e] eqn:Hn.
    + apply (first_pass_after cfg _ w
               {| heap := (heap w ++ [record]) ++ [[]];
                  script := script w; log := log w |} [record; []]);
        [cbn [heap]; rewrite <- app_assoc; reflexivity | reflexivity | reflexivity|].
      apply (first_pass_ext cfg _ _
               (fun retry => upsert retry cfg (processed_of record)
                               name first_name last_name
                               {| heap := (heap w ++ [record]) ++ [[]];
                                  script := script w; log := log w |})).
      * intros retry. rewrite Hload, bind_run. reflexivity.
      * apply upsert_first_pass.
    + apply (Hquiet (Raised e,
                     {| heap := (heap w ++ [record]) ++ [[]];
                        script := script w; log := log w |})
               [record; []] []); try reflexivity;
        [|cbn [snd heap]; rewrite <- app_assoc; reflexivity
         |symmetry; apply app_nil_r|constructor].
      intros retry. rewrite Hload, bind_run. reflexivity.
  - apply (Hquiet (Done FAILED,
                   {| heap := (heap w ++ [record]) ++ [kv :: l];
                      script := script w;
                      log := log w ++ Print UnprocessedDetails
                             :: List.map detail_line (sorted_by fst (kv :: l)) |})
             [record; kv :: l]
             (Print UnprocessedDetails
              :: List.map detail_line (sorted_by fst (kv :: l))));
      try reflexivity;
      [|cbn [snd heap]; rewrite <- app_assoc; reflexivity
       |constructor; [exact I | apply detail_lines_no_call]].
    intros retry. rewrite Hload, bind_run. unfold emit at 1.
    rewrite bind_run, print_unprocessed_run. cbn [heap script log mret M_ret].
    rewrite <- (app_assoc (log w)). reflexivity.
Qed.

(** With more fuel than the script has replies, the fuel does not
    matter: each retry follows an expiry signal, which uses up a
    scripted reply. *)
Lemma migrate_user_fuel_enough
    (cfg : config) (person : nat) (record : list (str * pyval)) :
  forall (n m : nat) (w : world),
    (List.length (script w) < n)%nat -> (List.length (script w) < m)%nat ->
    heap w !! person = Some record ->
    migrate_user_fuel n cfg person w = migrate_user_fuel m cfg person w.
Proof.
  induction n as [|n IH]; intros m w Hn Hm Hp; [lia|].
  destruct m as [|m]; [lia|]. cbn [migrate_user_fuel].
  destruct (migrate_user_body_first_pass cfg person w record Hp)
    as [r ext evs Hall _ _ _ _ _ _ | ext evs sig rl w1 Hall Hheap _ Hlen _ _ _ _];
    cbv beta in Hall.
  - rewrite (Hall (migrate_user_fuel n cfg person)),
      (Hall (migrate_user_fuel m cfg person)). reflexivity.
  - rewrite (Hall (migrate_user_fuel n cfg person)),
      (Hall (migrate_user_fuel m cfg person)).
    destruct rl; [|reflexivity].
    apply IH; [lia | lia|]. rewrite Hheap. apply lookup_app_l_Some. exact Hp.
Qed.

(** [migrate_user] is its body, with [migrate_user] itself as the
    recursive call. *)
Lemma migrate_user_unfold
    (cfg : config) (person : nat) (w : world) (record : list (str * pyval)) :
  heap w !! person = Some record ->
  migrate_user cfg person w
  = migrate_user_body (migrate_user cfg person) cfg person w.
Proof.
  intros Hp. unfold migrate_user at 1. cbn [migrate_user_fuel].
  destruct (migrate_user_body_first_pass cfg person w record Hp)
    as [r ext evs Hall _ _ _ _ _ _ | ext evs sig rl w1 Hall Hheap _ Hlen _ _ _ _];
    cbv beta in Hall.
  - rewrite (Hall (migrate_user_fuel _ cfg person)),
      (Hall (migrate_user cfg person)). reflexivity.
  - rewrite (Hall (migrate_user_fuel _ cfg person)),
      (Hall (migrate_user cfg person)).
    destruct rl; [|reflexivity].
    unfold migrate_user.
    apply (migrate_user_fuel_enough cfg person record); [lia | lia|].
    rewrite Hheap. apply lookup_app_l_Some. exact Hp.
Qed.

Lemma answered_quiet
    (cfg : config) (create : option call) (evs evs' : list event) :
  count expiry_signal evs = 0%nat ->
  answered cfg create evs' -> answered cfg create (evs ++ evs').
Proof.
  induction evs as [|e evs IH]; intros Hc Ha; [exact Ha|].
  cbn [count] in Hc. cbn [app answered].
  destruct (expiry_signal e); [discriminate|].
  split; [discriminate | exact (IH Hc Ha)].
Qed.

Lemma answered_nil_r (cfg : config) (create : option call) (evs : list event) :
  count expiry_signal evs = 0%nat -> answered cfg create evs.
Proof.
  intros H. rewrite <- (app_nil_r evs). apply answered_quiet; [exact H | exact I].
Qed.

(** The whole call: every expiry signal is answered. *)
Lemma migrate_user_fuel_answered
    (cfg : config) (person : nat) (record : list (str * pyval)) :
  forall (fuel : nat) (w : world),
    (List.length (script w) < fuel)%nat ->
    heap w !! person = Some record ->
    exists evs,
      log (snd (migrate_user_fuel fuel cfg person w)) = log w ++ evs
      /\ begins (create_call cfg record) evs
      /\ answered cfg (create_call cfg record) evs
      /\ count is_login evs = count expiry_signal evs.
Proof.
  induction fuel as [|fuel IH]; intros w Hfuel Hp; [lia|].
  cbn [migrate_user_fuel].
  destruct (migrate_user_body_first_pass cfg person w record Hp)
    as [r ext evs Hall Hheap Hlog Hlen Hb Hsig Hlogin
       | ext evs sig rl w1 Hall Hheap Hlog Hlen Hb Hsig Hlogin Hs];
    cbv beta in Hall; rewrite (Hall (migrate_user_fuel fuel cfg person)).
  - exists evs. split; [exact Hlog|]. split; [exact Hb|].
    split; [exact (answered_nil_r _ _ _ Hsig) | rewrite Hsig, Hlogin; reflexivity].
  - assert (Hcreate : exists c r rest,
              create_call cfg record = Some c /\ evs ++ [sig] = Called c r :: rest).
    { destruct (create_call cfg record) as [c|].
      - destruct Hb as (r & rest & Hb). exists c, r, rest. split; [reflexivity | exact Hb].
      - exfalso. apply Forall_app in Hb as [_ Hb]. inversion Hb as [|? ? Hn _]; subst.
        destruct sig; [destruct Hn | discriminate..]. }
    destruct Hcreate as (c & r & rest & Hc & Hfirst).
    assert (Hwhole : forall tail,
              evs ++ [sig; Called (login (ipa_username cfg) (ipa_password cfg)) rl]
                  ++ tail
              = Called c r
                :: rest ++ Called (login (ipa_username cfg) (ipa_password cfg)) rl
                   :: tail).
    { intros tail.
      change (evs ++ [sig; Called (login (ipa_username cfg) (ipa_password cfg)) rl]
                  ++ tail)
        with (evs ++ [sig]
                  ++ Called (login (ipa_username cfg) (ipa_password cfg)) rl :: tail).
      rewrite app_assoc, Hfirst. reflexivity. }
    assert (Hcount : forall tail,
              count is_login tail = count expiry_signal tail ->
              count is_login
                (evs ++ [sig; Called (login (ipa_username cfg) (ipa_password cfg)) rl]
                     ++ tail)
              = count expiry_signal
                  (evs ++ [sig; Called (login (ipa_username cfg)
                                          (ipa_password cfg)) rl] ++ tail)).
    { intros tail Ht. rewrite !count_app, Hsig, Hlogin. cbn [count app].
      rewrite (expiry_signal_no_login _ Hs), Hs, Ht. reflexivity. }
    destruct rl as [v|e].
    + destruct (IH w1 ltac:(lia)) as (evs2 & Hlog2 & Hb2 & Ha2 & Hc2).
      { rewrite Hheap. apply lookup_app_l_Some. exact Hp. }
      exists (evs ++ [sig; Called (login (ipa_username cfg) (ipa_password cfg))
                             (Returns v)] ++ evs2).
      split; [rewrite Hlog2, Hlog, <- !app_assoc; reflexivity|].
      split; [rewrite Hc, Hwhole; eexists _, _; reflexivity|].
      split; [|exact (Hcount evs2 Hc2)].
      apply answered_quiet; [exact Hsig|]. cbn [app answered].
      split; [|split; [discriminate | exact Ha2]].
      intros _. exists (Returns v), evs2. split; [reflexivity|].
      rewrite Hc in Hb2. destruct Hb2 as (r2 & rest2 & ->).
      exists c, r2, rest2. split; [exact Hc | reflexivity].
    + exists (evs ++ [sig; Called (login (ipa_username cfg) (ipa_password cfg))
                             (Raises e)] ++ []).
      split; [cbn [snd]; rewrite Hlog, app_nil_r; reflexivity|].
      split; [rewrite Hc, Hwhole; eexists _, _; reflexivity|].
      split; [|exact (Hcount [] eq_refl)].
      apply answered_quiet; [exact Hsig|]. cbn [app answered].
      split; [|split; [discriminate | exact I]].
      intros _. exists (Raises e), []. split; reflexivity.
Qed.

(** C7, as the code has it.  [migrate_user] is its body with itself as
    the recursive call.  One pass through that body on a record either
    logs no expiry signal and no re-authentication and does not make
    the recursive call; or the directory raises the expiry signal, an
    [Unauthorized] reply to a call of the upsert that the inner handler
    does not keep for the update, and then the very next event is the
    re-authentication with the configured credentials, after which,
    when it succeeds, the result of the pass is the result of the
    recursive call on the same record, made in a state in which the
    objects that existed before are as they were, and, when it fails,
    its exception leaves the call.  Over the whole call every expiry
    signal is followed at once by such a re-authentication, every
    re-authentication that succeeds by the create call for the record,
    there are as many re-authentications as expiry signals, the retries
    number at most the expiry signals, and the objects that existed
    before, the record among them, stay as they were. *)
Theorem retries_follow_expiry_signals
    (cfg : config) (person : nat) (w : world) (record : list (str * pyval)) :
  heap w !! person = Some record ->
  migrate_user cfg person w
  = migrate_user_body (migrate_user cfg person) cfg person w
  /\ first_pass cfg (create_call cfg record) w
       (fun retry => migrate_user_body retry cfg person w)
  /\ exists evs,
       log (snd (migrate_user cfg person w)) = log w ++ evs
       /\ answered cfg (create_call cfg record) evs
       /\ count is_login evs = count expiry_signal evs
       /\ (retries evs <= expiries evs)%nat
       /\ Forall (login_as cfg) evs
       /\ take (List.length (heap w)) (heap (snd (migrate_user cfg person w)))
          = heap w
       /\ forall retry w0,
            pass retry cfg False w0 (migrate_user_body retry cfg person w0).
Proof.
  intros Hp.
  split; [exact (migrate_user_unfold cfg person w record Hp)|].
  split; [exact (migrate_user_body_first_pass cfg person w record Hp)|].
  destruct (migrate_user_fuel_answered cfg person record
              (S (List.length (script w))) w ltac:(lia) Hp)
    as (evs & Hlog & _ & Hans & Hcount).
  fold (migrate_user cfg person w) in Hlog.
  destruct (migrate_user_run cfg person w) as (ext & evs' & Hs & _ & Hr & Hl & _).
  assert (Heq : evs' = evs).
  { pose proof (span_log _ _ _ _ Hs) as Hlog'. rewrite Hlog in Hlog'.
    apply app_inv_head in Hlog'. symmetry. exact Hlog'. }
  subst evs'.
  exists evs. split; [exact Hlog|]. split; [exact Hans|]. split; [exact Hcount|].
  split; [exact Hr|]. split; [exact Hl|]. split.
  - rewrite (span_heap _ _ _ _ Hs). apply take_app_length.
  - intros retry w0.
    destruct (migrate_user_body_pass retry cfg person w0)
      as [ext0 evs0 Hs0 Hf0 Hr0 Hl0 _ | w1 ext0 evs0 Hret Hs0 Hr0 He0 Hl0 _].
    + apply (pass_done _ _ _ _ _ ext0 evs0); try assumption. intros [].
    + apply (pass_retry _ _ _ _ _ w1 ext0 evs0); try assumption. intros [].
Qed.

Lemma retries_follow_expiry_signals_witness :
  let cfg := realms_config [] in
  let w := world_of [expired; Returns VNone; expired; Returns VNone] in
  migrate_user cfg 0 w = migrate_user_body (migrate_user cfg 0) cfg 0 w
  /\ first_pass cfg (create_call cfg record_without_name) w
       (fun retry => migrate_user_body retry cfg 0 w)
  /\ exists evs,
       log (snd (migrate_user cfg 0 w)) = log w ++ evs
       /\ answered cfg (create_call cfg record_without_name) evs
       /\ count is_login evs = count expiry_signal evs
       /\ (retries evs <= expiries evs)%nat
       /\ Forall (login_as cfg) evs
       /\ take (List.length (heap w)) (heap (snd (migrate_user cfg 0 w))) = heap w
       /\ forall retry w0,
            pass retry cfg False w0 (migrate_user_body retry cfg 0 w0).
Proof.
  intros cfg w.
  apply (retries_follow_expiry_signals cfg 0 w record_without_name).
  reflexivity.
Defined.
